(** * big-network-info: the discovery and port-scanning engine

    A shallow embedding of
    - [src/utils/network.py] ([parse_ip_range]), together with the part of
      Python's [ipaddress] and [str] that it calls, and
    - [src/core/scanner.py] ([NetworkScanner]: vendor cache, host discovery,
      [scan_network]),
    followed by the properties of the specification that were checked
    against it.

    Conventions.  Python [str] is [string] (ASCII text); a Python [int] is
    [Z]; an IPv4 address is its 32-bit ordinal in [N]; a [dict] whose
    iteration order matters is an association list with unique keys, the
    other dicts are [gmap]s.  [ipaddress] is modelled for the IPv4 family
    (an IPv6 literal is a parse error here), and [int()] without the
    interpreter's limit on the number of digits. *)

From Stdlib Require Import ZArith NArith QArith Lia List Ascii String Bool Permutation.
From stdpp Require Import gmap strings.

Import ListNotations.
Local Open Scope string_scope.

(** ** Python strings *)

Module PyStr.

(** [c in s] for a one-character [c]. *)
Fixpoint contains (c : ascii) (s : string) : bool :=
  match s with
  | EmptyString => false
  | String x r => if Ascii.eqb x c then true else contains c r
  end.

(** [s.count(c)] *)
Fixpoint count (c : ascii) (s : string) : nat :=
  match s with
  | EmptyString => 0
  | String x r => (if Ascii.eqb x c then 1 else 0) + count c r
  end.

(** [s.split(c)]: never empty, [k] separators give [k + 1] fields. *)
Fixpoint split (c : ascii) (s : string) : list string :=
  match s with
  | EmptyString => [EmptyString]
  | String x r =>
      if Ascii.eqb x c then EmptyString :: split c r
      else match split c r with
           | h :: t => String x h :: t
           | [] => [String x EmptyString]
           end
  end.

(** [sep.join(l)] *)
Fixpoint join (sep : string) (l : list string) : string :=
  match l with
  | [] => EmptyString
  | [x] => x
  | x :: r => x ++ sep ++ join sep r
  end.

(** [str.isspace] on ASCII: space, TAB, LF, VT, FF, CR and the four
    separators 0x1c-0x1f. *)
Definition is_space (c : ascii) : bool :=
  let n := N_of_ascii c in
  ((n =? 32) || ((9 <=? n) && (n <=? 13)) || ((28 <=? n) && (n <=? 31)))%N.

Fixpoint lstrip (s : string) : string :=
  match s with
  | String x r => if is_space x then lstrip r else s
  | EmptyString => EmptyString
  end.

Fixpoint rstrip (s : string) : string :=
  match s with
  | EmptyString => EmptyString
  | String x r =>
      match rstrip r with
      | EmptyString => if is_space x then EmptyString else String x EmptyString
      | r' => String x r'
      end
  end.

(** [s.strip()] *)
Definition strip (s : string) : string := rstrip (lstrip s).

Definition is_digit (c : ascii) : bool :=
  let n := N_of_ascii c in ((48 <=? n) && (n <=? 57))%N.

Definition digit_val (c : ascii) : N := (N_of_ascii c - 48)%N.

(** [s.isascii() and s.isdigit()] *)
Fixpoint all_digits (s : string) : bool :=
  match s with
  | EmptyString => true
  | String x r => is_digit x && all_digits r
  end.

Definition isdigit (s : string) : bool :=
  match s with EmptyString => false | _ => all_digits s end.

(** The last element of a non-empty list, [l[-1]]. *)
Definition last_item (l : list string) : string := List.last l EmptyString.

(** [l[:-1]] *)
Definition but_last (l : list string) : list string := List.removelast l.

(** [s.startswith(p)] *)
Fixpoint startswith (p s : string) : bool :=
  match p, s with
  | EmptyString, _ => true
  | String a p', String b s' => Ascii.eqb a b && startswith p' s'
  | String _ _, EmptyString => false
  end.

Fixpoint rev_string (s : string) (acc : string) : string :=
  match s with
  | EmptyString => acc
  | String x r => rev_string r (String x acc)
  end.

(** [s.endswith(p)] *)
Definition endswith (p s : string) : bool :=
  startswith (rev_string p EmptyString) (rev_string s EmptyString).

(** [s.replace(c, "")] *)
Fixpoint remove_char (c : ascii) (s : string) : string :=
  match s with
  | EmptyString => EmptyString
  | String x r => if Ascii.eqb x c then remove_char c r else String x (remove_char c r)
  end.

Definition upper_char (c : ascii) : ascii :=
  let n := N_of_ascii c in
  if ((97 <=? n) && (n <=? 122))%N then ascii_of_N (n - 32) else c.

(** [s.upper()] *)
Fixpoint upper (s : string) : string :=
  match s with
  | EmptyString => EmptyString
  | String x r => String (upper_char x) (upper r)
  end.

(** [s[:n]] *)
Fixpoint take (n : nat) (s : string) : string :=
  match n, s with
  | S k, String x r => String x (take k r)
  | _, _ => EmptyString
  end.

(** *** Decimal conversions *)

(** The digits of [int(s)] after the sign: decimal digits, single
    underscores allowed between two digits. *)
Fixpoint int_body (s : string) (acc : N) (after_digit : bool) : option N :=
  match s with
  | EmptyString => if after_digit then Some acc else None
  | String c r =>
      if is_digit c then int_body r (10 * acc + digit_val c)%N true
      else if Ascii.eqb c "_" then
        (if after_digit then int_body r acc false else None)
      else None
  end.

(** [int(s)]: [None] stands for [ValueError]. *)
Definition int (s : string) : option Z :=
  match strip s with
  | EmptyString => None
  | String c r =>
      if Ascii.eqb c "+" then option_map Z.of_N (int_body r 0%N false)
      else if Ascii.eqb c "-" then
        option_map (fun n => (- Z.of_N n)%Z) (int_body r 0%N false)
      else option_map Z.of_N (int_body (String c r) 0%N false)
  end.

Definition digit_char (n : N) : ascii := ascii_of_N (48 + n).

Fixpoint digits_from (fuel : nat) (n : N) (acc : string) : string :=
  match fuel with
  | O => acc
  | S f =>
      if (n <? 10)%N then String (digit_char n) acc
      else digits_from f (n / 10)%N (String (digit_char (n mod 10)%N) acc)
  end.

(** [str(n)] for a natural number. *)
Definition str_of_N (n : N) : string :=
  digits_from (S (N.to_nat (N.log2 n))) n EmptyString.

(** [str(i)], which is also what [f"{i}"] prints. *)
Definition str (i : Z) : string :=
  if (i <? 0)%Z then String "-" (str_of_N (Z.abs_N i)) else str_of_N (Z.to_N i).

(** [range(a, b)] *)
Definition range (a b : Z) : list Z :=
  List.map (fun k => (a + Z.of_nat k)%Z) (List.seq 0 (Z.to_nat (b - a))).

End PyStr.

(** ** Exceptions and results *)

Inductive exn : Type :=
| ValueError (msg : string)       (* also AddressValueError, NetmaskValueError *)
| CallbackError (msg : string).   (* whatever the caller's progress callback raises *)

Inductive result (A : Type) : Type :=
| Ok (a : A)
| Raise (e : exn).
Arguments Ok {A} a.
Arguments Raise {A} e.

Definition is_ok {A} (r : result A) : bool :=
  match r with Ok _ => true | Raise _ => false end.

(** ** The part of Python's [ipaddress] used by the scanner (IPv4) *)

Module IpAddress.

Definition ALL_ONES : N := 4294967295.
Definition max_prefixlen : N := 32.

(** [IPv4Address._parse_octet] *)
Definition parse_octet (octet_str : string) : option N :=
  if negb (PyStr.isdigit octet_str) then None
  else if (3 <? String.length octet_str)%nat then None
  else if negb (String.eqb octet_str "0") && PyStr.startswith "0" octet_str then None
  else match PyStr.int octet_str with
       | Some octet_int => if (255 <? octet_int)%Z then None else Some (Z.to_N octet_int)
       | None => None
       end.

(** [IPv4Address._ip_int_from_string] *)
Definition ip_int_from_string (ip_str : string) : option N :=
  if String.eqb ip_str "" then None
  else match PyStr.split "." ip_str with
       | [o1; o2; o3; o4] =>
           match parse_octet o1, parse_octet o2, parse_octet o3, parse_octet o4 with
           | Some a, Some b, Some c, Some d => Some (((a * 256 + b) * 256 + c) * 256 + d)%N
           | _, _, _, _ => None
           end
       | _ => None
       end.

(** [IPv4Address(s)] and, for this family, [ipaddress.ip_address(s)]. *)
Definition ip_address (s : string) : option N :=
  if PyStr.contains "/" s then None else ip_int_from_string s.

(** [str(IPv4Address(x))] *)
Definition str_of_address (x : N) : string :=
  PyStr.join "."
    (List.map PyStr.str_of_N
       [(x / 16777216) mod 256; (x / 65536) mod 256; (x / 256) mod 256; x mod 256]%N).

(** [current += 1] on an address: [IPv4Address(2**32)] is refused. *)
Definition succ_address (x : N) : option N :=
  if (x =? ALL_ONES)%N then None else Some (x + 1)%N.

Record IPv4Network : Type := {
  network_address : N;
  prefixlen : N
}.

Definition hostmask (net : IPv4Network) : N := (2 ^ (max_prefixlen - prefixlen net) - 1)%N.
Definition netmask_of_prefix (p : N) : N := N.lxor ALL_ONES (2 ^ (max_prefixlen - p) - 1)%N.
Definition broadcast_address (net : IPv4Network) : N :=
  N.lor (network_address net) (hostmask net).

(** [_BaseV4._prefix_from_prefix_string] *)
Definition prefix_from_prefix_string (s : string) : option N :=
  if negb (PyStr.isdigit s) then None
  else match PyStr.int s with
       | Some p => if (0 <=? p)%Z && (p <=? Z.of_N max_prefixlen)%Z
                   then Some (Z.to_N p) else None
       | None => None
       end.

Fixpoint trailing_zero_bits (p : positive) : N :=
  match p with
  | xO q => N.succ (trailing_zero_bits q)
  | _ => 0%N
  end.

(** [_count_righthand_zero_bits] *)
Definition count_righthand_zero_bits (number bits : N) : N :=
  match number with
  | N0 => bits
  | Npos p => N.min bits (trailing_zero_bits p)
  end.

(** [_prefix_from_ip_int] *)
Definition prefix_from_ip_int (ip_int : N) : option N :=
  let trailing_zeroes := count_righthand_zero_bits ip_int max_prefixlen in
  let p := (max_prefixlen - trailing_zeroes)%N in
  let leading_ones := N.shiftr ip_int trailing_zeroes in
  let all_ones := (N.shiftl 1 p - 1)%N in
  if (leading_ones =? all_ones)%N then Some p else None.

(** [_prefix_from_ip_string]: a netmask, or else a hostmask. *)
Definition prefix_from_ip_string (s : string) : option N :=
  match ip_int_from_string s with
  | None => None
  | Some ip_int =>
      match prefix_from_ip_int ip_int with
      | Some p => Some p
      | None => prefix_from_ip_int (N.lxor ip_int ALL_ONES)
      end
  end.

(** [_make_netmask] on a string *)
Definition make_netmask (arg : string) : option N :=
  match prefix_from_prefix_string arg with
  | Some p => Some p
  | None => prefix_from_ip_string arg
  end.

(** [IPv4Network(address, strict=False)], that is
    [ipaddress.ip_network(address, strict=False)] for this family. *)
Definition ip_network (address : string) : option IPv4Network :=
  match PyStr.split "/" address with
  | [addr] =>
      match ip_address addr with
      | Some packed => Some {| network_address := packed; prefixlen := max_prefixlen |}
      | None => None
      end
  | [addr; mask] =>
      match ip_address addr, make_netmask mask with
      | Some packed, Some p =>
          Some {| network_address := N.land packed (netmask_of_prefix p); prefixlen := p |}
      | _, _ => None
      end
  | _ => None
  end.

Definition iota (start : N) (len : nat) : list N :=
  List.map (fun k => (start + N.of_nat k)%N) (List.seq 0 len).

(** [IPv4Network.hosts()]: [range(network + 1, broadcast)], except that a
    /31 yields both of its addresses and a /32 its only one. *)
Definition hosts (net : IPv4Network) : list N :=
  if (prefixlen net =? max_prefixlen - 1)%N then iota (network_address net) 2
  else if (prefixlen net =? max_prefixlen)%N then [network_address net]
  else iota (network_address net + 1)
            (N.to_nat (broadcast_address net - (network_address net + 1))).

(** [address in network] *)
Definition contains_address (net : IPv4Network) (x : N) : bool :=
  ((network_address net <=? x) && (x <=? broadcast_address net))%N.

End IpAddress.

(** ** [utils/network.py] *)

Section ParseIpRange.

Import PyStr IpAddress.

(** The [while current <= end_addr] loop of the full-range form, run for the
    [n] iterations that remain. *)
Fixpoint walk_addresses (n : nat) (current : N) : option (list string) :=
  match n with
  | O => Some []
  | S k =>
      match succ_address current with
      | None => None
      | Some next =>
          option_map (cons (str_of_address current)) (walk_addresses k next)
      end
  end.

Definition parse_ip_range (ip_range : string) : result (list string) :=
  let invalid := Raise (ValueError ("Invalid IP range format: " ++ ip_range)) in
  if contains "/" ip_range then
    (* CIDR notation *)
    match ip_network ip_range with
    | Some network => Ok (List.map str_of_address (hosts network))
    | None => invalid
    end
  else if contains "-" ip_range then
    (* range notation *)
    if (count "-" ip_range =? 1)%nat then
      match split "-" ip_range with
      | [start_ip; end_part] =>
          let start_ip := strip start_ip in
          let end_part := strip end_part in
          match ip_address start_ip with
          | None => invalid
          | Some start_addr =>
              if negb (contains "." end_part) then
                (* only the last octet is given *)
                let base_ip := join "." (but_last (split "." start_ip)) in
                match int (last_item (split "." start_ip)), int end_part with
                | Some start_octet, Some end_octet =>
                    Ok (List.map (fun i => base_ip ++ "." ++ str i)
                          (range start_octet (end_octet + 1)))
                | _, _ => invalid
                end
              else
                match ip_address end_part with
                | None => invalid
                | Some end_addr =>
                    match walk_addresses (N.to_nat (end_addr + 1 - start_addr)) start_addr with
                    | Some ip_list => Ok ip_list
                    | None => invalid
                    end
                end
          end
      | _ => invalid
      end
    else Ok []
  else
    (* single IP *)
    match ip_address ip_range with
    | Some ip_addr => Ok [str_of_address ip_addr]
    | None => invalid
    end.

End ParseIpRange.

(** ** Range specifications, as the specification writes them *)

Module RangeSpec.
Import PyStr.

(** The text [a.b.c.d]. *)
Definition dotted (a b c d : N) : string :=
  str_of_N a ++ "." ++ str_of_N b ++ "." ++ str_of_N c ++ "." ++ str_of_N d.

(** The ordinal of [a.b.c.d]. *)
Definition ordinal (a b c d : N) : N := (((a * 256 + b) * 256 + c) * 256 + d)%N.

(** The text [a.b.c.s-e]. *)
Definition trailing_octet_range (a b c s e : N) : string :=
  dotted a b c s ++ "-" ++ str_of_N e.

(** The text [a.b.c.d/n]. *)
Definition cidr (a b c d n : N) : string :=
  dotted a b c d ++ "/" ++ str_of_N n.

End RangeSpec.

(** ** [core/services.py] *)

Record ServiceInfo : Type := {
  name : string;
  port : Z;
  protocol : string;
  description : string;
  access_method : string
}.

Definition COMMON_SERVICES : list ServiceInfo := [
  Build_ServiceInfo "HTTP" 80 "tcp" "Web interface" "http";
  Build_ServiceInfo "HTTPS" 443 "tcp" "Secure web interface" "https";
  Build_ServiceInfo "HTTP Alt" 8080 "tcp" "Alternative HTTP port" "http";
  Build_ServiceInfo "HTTPS Alt" 8443 "tcp" "Alternative HTTPS port" "https";
  Build_ServiceInfo "FTP" 21 "tcp" "File Transfer Protocol" "ftp";
  Build_ServiceInfo "SFTP/SSH" 22 "tcp" "Secure Shell/SFTP" "ssh";
  Build_ServiceInfo "FTPS" 990 "tcp" "FTP over SSL" "ftp";
  Build_ServiceInfo "FTP Alt" 2221 "tcp" "Alternative FTP port" "ftp";
  Build_ServiceInfo "SFTP Alt" 2222 "tcp" "Alternative SFTP/SSH port" "ssh";
  Build_ServiceInfo "SMB/CIFS" 445 "tcp" "File sharing protocol" "smb";
  Build_ServiceInfo "NetBIOS" 139 "tcp" "NetBIOS Session Service" "smb";
  Build_ServiceInfo "Telnet" 23 "tcp" "Unencrypted remote access" "";
  Build_ServiceInfo "RDP" 3389 "tcp" "Remote Desktop Protocol" "rdp";
  Build_ServiceInfo "VNC" 5900 "tcp" "Virtual Network Computing" "vnc";
  Build_ServiceInfo "SMTP" 25 "tcp" "Mail service" "";
  Build_ServiceInfo "POP3" 110 "tcp" "Mail retrieval" "";
  Build_ServiceInfo "IMAP" 143 "tcp" "Mail access" "";
  Build_ServiceInfo "SMTPS" 465 "tcp" "Secure SMTP" "";
  Build_ServiceInfo "IMAPS" 993 "tcp" "Secure IMAP" "";
  Build_ServiceInfo "POP3S" 995 "tcp" "Secure POP3" "";
  Build_ServiceInfo "ADB" 5555 "tcp" "Android Debug Bridge" "";
  Build_ServiceInfo "Mobile HTTP" 8000 "tcp" "Mobile/development server" "http";
  Build_ServiceInfo "Mobile HTTPS" 8001 "tcp" "Mobile/development HTTPS" "https";
  Build_ServiceInfo "Node.js Dev" 3000 "tcp" "Node.js development server" "http";
  Build_ServiceInfo "React Dev" 3001 "tcp" "React development server" "http";
  Build_ServiceInfo "Flask Dev" 5000 "tcp" "Flask development server" "http";
  Build_ServiceInfo "Django Dev" 8080 "tcp" "Django development server" "http";
  Build_ServiceInfo "MQTT" 1883 "tcp" "MQTT messaging protocol" "";
  Build_ServiceInfo "Secure MQTT" 8883 "tcp" "Secure MQTT (MQTTS)" "";
  Build_ServiceInfo "MySQL" 3306 "tcp" "MySQL database" "";
  Build_ServiceInfo "PostgreSQL" 5432 "tcp" "PostgreSQL database" "";
  Build_ServiceInfo "MongoDB" 27017 "tcp" "MongoDB database" "";
  Build_ServiceInfo "Redis" 6379 "tcp" "Redis cache" ""
].

(** ** [core/config.py]: the settings the scanner reads *)

Record AppConfig : Type := {
  cfg_scan_threads : Z;
  cfg_discovery_threads : Z;
  (** the well-formed entries of [custom_services], as [get_all_services]
      turns them into [ServiceInfo] *)
  cfg_custom_services : list ServiceInfo
}.

(** [AppConfig.default()] *)
Definition AppConfig_default : AppConfig :=
  {| cfg_scan_threads := 130; cfg_discovery_threads := 130; cfg_custom_services := [] |}.

(** [ConfigManager.get_all_services] *)
Definition get_all_services (cfg : AppConfig) : list ServiceInfo :=
  COMMON_SERVICES ++ cfg_custom_services cfg.

(** ** [core/scanner.py] *)

Record ScanResult : Type := {
  ip : string;
  hostname : string;
  mac : string;
  vendor : string;
  services : list ServiceInfo;
  response_time : Q;
  is_alive : bool
}.

(** The dictionaries [{"ip": .., "mac": .., "vendor": ..}] of the discovery. *)
Record Host : Type := {
  host_ip : string;
  host_mac : string;
  host_vendor : string
}.

(** What [_update_progress] is called with.  The translation function [_]
    is the identity; the numbers that the source formats into the message
    are kept as arguments. *)
Inductive progress : Type :=
| PScanningLive                                   (* "Scanning network for live hosts..." *)
| PDiscovering                                    (* "Discovering hosts..." *)
| PPingScanning (addresses : nat)                 (* "Ping scanning n addresses..." *)
| PPingBatch (completed total found : nat)        (* "Ping scan: c/t (f found)" *)
| PCheckingArp                                    (* "Checking ARP table..." *)
| PTcpProbe                                       (* "TCP port probe for silent hosts..." *)
| PGettingMac                                     (* "Getting MAC addresses..." *)
| PFound (hosts : nat)                            (* "Found n hosts" *)
| PNoHosts                                        (* "No hosts found" *)
| PResolving                                      (* "Resolving hostnames..." *)
| PResolved (completed total : nat)               (* "Resolved c/t hostnames" *)
| PScanningServices                               (* "Scanning services..." *)
| PStartingPortScan (tasks : nat) (threads : Z)   (* "Starting port scan: n tasks with t threads" *)
| PScanned (completed total : nat)                (* "Scanned c/t ports" *)
| PFinalizing                                     (* "Finalizing results..." *)
| PCompleted                                      (* "Scan completed" *)
| PFailed (e : exn).                              (* "Scan failed: e" *)

Definition ratio (a b : nat) : Q := Z.of_nat a # Pos.of_nat b.

(** The percentage passed along with the message (the source computes the
    fractional ones in floating point; here they are exact). *)
Definition percentage (p : progress) : Q :=
  match p with
  | PScanningLive => 5
  | PDiscovering => 10
  | PPingScanning _ => 15
  | PPingBatch completed total _ => 15 + ratio completed total * 10
  | PCheckingArp => 26
  | PTcpProbe => 28
  | PGettingMac => 32
  | PFound _ => 35
  | PNoHosts => 100
  | PResolving => 35
  | PResolved completed total => 35 + ratio completed total * 20
  | PScanningServices => 55
  | PStartingPortScan _ _ => 55
  | PScanned completed total => 55 + ratio completed total * 30
  | PFinalizing => 85
  | PCompleted => 100
  | PFailed _ => 100
  end%Q.

(** What the scanner does to the outside, in the order it does it. *)
Inductive event : Type :=
| EProgress (p : progress)                     (* a call of [_update_progress] *)
| EStopCheck (stopped : bool)                  (* a read of [_stop_scanning] *)
| EPing (ip : string)                          (* [_ping_host] submitted *)
| EArpRead                                     (* [_get_system_arp_table] *)
| ETcpPing (ip : string) (port : Z)            (* [_tcp_ping] submitted *)
| EResolve (ip : string)                       (* [_get_hostname] submitted *)
| ECheckPort (ip : string) (service : ServiceInfo) (* [_check_port] submitted *)
| EOuiLookup (mac : string).                   (* [_get_vendor_ieee_oui] *)

(** The vendor database file [/usr/share/arp-scan/ieee-oui.txt]. *)
Inductive OuiFile : Type :=
| OuiMissing                      (* [os.path.isfile] is false *)
| OuiUnreadable                   (* [open] raises *)
| OuiLines (lines : list string).

(** Everything outside the scanner: the network, the system tools, the
    caller's callback, and the thread that may call [stop_scan].  The
    futures of a pool complete in the order of their rank. *)
Record World : Type := {
  callback_raises : progress -> bool;
  stop_at : option nat;      (* [stop_scan()] runs once the log has this many entries *)
  ping : string -> bool;                         (* [_ping_host(ip)[1]] *)
  ping_rank : string -> nat;
  arp_entries : list (string * string);          (* the assignments [arp_table[ip] = mac] *)
  tcp_ping : string -> Z -> bool;                (* [_tcp_ping(ip, port)] within its timeout *)
  get_hostname : string -> string;               (* what ends up in [hostname_results[ip]] *)
  hostname_rank : string -> nat;
  check_port_socket : string -> ServiceInfo -> bool;
  check_port_rank : string -> ServiceInfo -> nat;
  get_device_type_hint : string -> list ServiceInfo -> string;
                             (* [_get_device_type_hint(ip, services)], when it returns:
                                with a negative [hostname_timeout] it raises instead,
                                and such a configuration is not covered *)
  oui_file : OuiFile
}.

Record Scanner : Type := {
  config_manager : option AppConfig;
  discovery_threads : Z;
  scan_threads : Z;
  _stop_scanning : bool;
  vendor_cache : gmap string string;
  _ieee_oui_available : option bool;               (* [None]: attribute not set yet *)
  _oui_database : option (gmap string string);     (* [None]: attribute not set yet *)
  results : list ScanResult;     (* the local [results] of [scan_network] *)
  log : list event
}.

(** [NetworkScanner(progress_callback, config_manager)] *)
Definition new_scanner (cfg : option AppConfig) : Scanner :=
  {| config_manager := cfg;
     discovery_threads :=
       cfg_discovery_threads (match cfg with Some c => c | None => AppConfig_default end);
     scan_threads :=
       cfg_scan_threads (match cfg with Some c => c | None => AppConfig_default end);
     _stop_scanning := false;
     vendor_cache := ∅;
     _ieee_oui_available := None;
     _oui_database := None;
     results := [];
     log := [] |}.

Definition set_stop (b : bool) (s : Scanner) : Scanner :=
  {| config_manager := config_manager s; discovery_threads := discovery_threads s;
     scan_threads := scan_threads s; _stop_scanning := b;
     vendor_cache := vendor_cache s; _ieee_oui_available := _ieee_oui_available s;
     _oui_database := _oui_database s; results := results s; log := log s |}.

Definition set_threads (d t : Z) (s : Scanner) : Scanner :=
  {| config_manager := config_manager s; discovery_threads := d;
     scan_threads := t; _stop_scanning := _stop_scanning s;
     vendor_cache := vendor_cache s; _ieee_oui_available := _ieee_oui_available s;
     _oui_database := _oui_database s; results := results s; log := log s |}.

Definition set_vendor_cache (c : gmap string string) (s : Scanner) : Scanner :=
  {| config_manager := config_manager s; discovery_threads := discovery_threads s;
     scan_threads := scan_threads s; _stop_scanning := _stop_scanning s;
     vendor_cache := c; _ieee_oui_available := _ieee_oui_available s;
     _oui_database := _oui_database s; results := results s; log := log s |}.

Definition set_ieee_oui_available (b : bool) (s : Scanner) : Scanner :=
  {| config_manager := config_manager s; discovery_threads := discovery_threads s;
     scan_threads := scan_threads s; _stop_scanning := _stop_scanning s;
     vendor_cache := vendor_cache s; _ieee_oui_available := Some b;
     _oui_database := _oui_database s; results := results s; log := log s |}.

Definition set_oui_database (d : gmap string string) (s : Scanner) : Scanner :=
  {| config_manager := config_manager s; discovery_threads := discovery_threads s;
     scan_threads := scan_threads s; _stop_scanning := _stop_scanning s;
     vendor_cache := vendor_cache s; _ieee_oui_available := _ieee_oui_available s;
     _oui_database := Some d; results := results s; log := log s |}.

Definition set_results (r : list ScanResult) (s : Scanner) : Scanner :=
  {| config_manager := config_manager s; discovery_threads := discovery_threads s;
     scan_threads := scan_threads s; _stop_scanning := _stop_scanning s;
     vendor_cache := vendor_cache s; _ieee_oui_available := _ieee_oui_available s;
     _oui_database := _oui_database s; results := r; log := log s |}.

Definition set_log (l : list event) (s : Scanner) : Scanner :=
  {| config_manager := config_manager s; discovery_threads := discovery_threads s;
     scan_threads := scan_threads s; _stop_scanning := _stop_scanning s;
     vendor_cache := vendor_cache s; _ieee_oui_available := _ieee_oui_available s;
     _oui_database := _oui_database s; results := results s; log := l |}.

(** [stop_scan] *)
Definition stop_scan (s : Scanner) : Scanner := set_stop true s.

(** *** The scanner monad: state, exceptions, log *)

Definition M (A : Type) : Type := Scanner -> result A * Scanner.

Definition ret {A} (a : A) : M A := fun s => (Ok a, s).

Definition bind {A B} (m : M A) (k : A -> M B) : M B :=
  fun s => match m s with
           | (Ok a, s') => k a s'
           | (Raise e, s') => (Raise e, s')
           end.

Definition raise {A} (e : exn) : M A := fun s => (Raise e, s).

(** [try: m  except Exception as e: h e] *)
Definition try_except {A} (m : M A) (h : exn -> M A) : M A :=
  fun s => match m s with
           | (Ok a, s') => (Ok a, s')
           | (Raise e, s') => h e s'
           end.

Definition get_state : M Scanner := fun s => (Ok s, s).
Definition modify (f : Scanner -> Scanner) : M unit := fun s => (Ok tt, f s).

Notation "x <- m ;; k" := (bind m (fun x => k))
  (at level 100, m at next level, right associativity).
Notation "m ;; k" := (bind m (fun _ => k))
  (at level 100, right associativity).

Inductive loop (S : Type) : Type :=
| Continue (s : S)
| Break (s : S).
Arguments Continue {S} s.
Arguments Break {S} s.

(** [for x in l: body], with the variables the body assigns as [st]. *)
Fixpoint for_each {A S} (l : list A) (body : A -> S -> M (loop S)) (st : S) : M S :=
  match l with
  | [] => ret st
  | x :: r =>
      c <- body x st ;;
      match c with
      | Continue st' => for_each r body st'
      | Break st' => ret st'
      end
  end.

(** [as_completed]: the futures in the order of their rank (stable). *)
Fixpoint insert_by_rank {A} (rank : A -> nat) (x : A) (l : list A) : list A :=
  match l with
  | [] => [x]
  | y :: r => if (rank x <=? rank y)%nat then x :: l else y :: insert_by_rank rank x r
  end.

Fixpoint as_completed {A} (rank : A -> nat) (l : list A) : list A :=
  match l with
  | [] => []
  | x :: r => insert_by_rank rank x (as_completed rank r)
  end.

(** A [dict] in insertion order: [d[k] = v] and [d.get(k, default)]. *)
Fixpoint dict_set (k v : string) (d : list (string * string)) : list (string * string) :=
  match d with
  | [] => [(k, v)]
  | (k', v') :: r => if String.eqb k' k then (k, v) :: r else (k', v') :: dict_set k v r
  end.

Fixpoint dict_get (k : string) (d : list (string * string)) (default : string) : string :=
  match d with
  | [] => default
  | (k', v') :: r => if String.eqb k' k then v' else dict_get k r default
  end.

Definition dict_keys (d : list (string * string)) : list string := List.map fst d.

Section NetworkScanner.

Variable w : World.

Import PyStr.

(** One more entry in the log; the other thread's [stop_scan] runs when its
    moment has come. *)
Definition emit (e : event) : M unit := fun s =>
  let s' := set_log (log s ++ [e])%list s in
  (Ok tt, if bool_decide (stop_at w = Some (List.length (log s'))) then stop_scan s' else s').

(** A read of [self._stop_scanning]. *)
Definition stop_requested : M bool := fun s =>
  let b := _stop_scanning s in
  match emit (EStopCheck b) s with
  | (_, s') => (Ok b, s')
  end.

Definition _update_progress (p : progress) : M unit :=
  emit (EProgress p) ;;
  if callback_raises w p then raise (CallbackError "progress callback") else ret tt.

(** [ThreadPoolExecutor(max_workers=n)] *)
Definition ThreadPoolExecutor (max_workers : Z) : M unit :=
  if (max_workers <=? 0)%Z then raise (ValueError "max_workers must be greater than 0")
  else ret tt.

(** [executor.submit] for each task, in order. *)
Fixpoint submit_all {A} (ev : A -> event) (l : list A) : M unit :=
  match l with
  | [] => ret tt
  | x :: r => emit (ev x) ;; submit_all ev r
  end.

(** **** Vendor lookup *)

Definition is_hex_upper (c : ascii) : bool :=
  let n := N_of_ascii c in
  (((48 <=? n) && (n <=? 57)) || ((65 <=? n) && (n <=? 70)))%N.

Fixpoint all_hex_upper (s : string) : bool :=
  match s with
  | EmptyString => true
  | String c r => is_hex_upper c && all_hex_upper r
  end.

Fixpoint take_word (s : string) : string :=
  match s with
  | EmptyString => EmptyString
  | String c r => if is_space c then EmptyString else String c (take_word r)
  end.

Fixpoint drop_word (s : string) : string :=
  match s with
  | EmptyString => EmptyString
  | String c r => if is_space c then s else drop_word r
  end.

(** [line.split(None, 1)] on a stripped line *)
Definition split_whitespace_once (line : string) : list string :=
  match line with
  | EmptyString => []
  | _ => match lstrip (drop_word line) with
         | EmptyString => [take_word line]
         | rest => [take_word line; rest]
         end
  end.

(** The body of the loop over the lines of the file in
    [_load_ieee_oui_file]. *)
Definition load_oui_line (db : gmap string string) (line : string) : gmap string string :=
  let line := strip line in
  if String.eqb line "" || startswith "#" line then db
  else match split_whitespace_once line with
       | [p0; p1] =>
           let oui_hex := strip p0 in
           let vendor_name := strip p1 in
           if (6 <=? String.length oui_hex)%nat && all_hex_upper (upper oui_hex)
           then <[ take 6 (upper oui_hex) := vendor_name ]> db
           else db
       | _ => db
       end.

Definition _load_ieee_oui_file : M unit :=
  match oui_file w with
  | OuiLines lines => modify (set_oui_database (List.fold_left load_oui_line lines ∅))
  | _ => modify (set_oui_database ∅)
  end.

(** [mac.replace(":", "").replace("-", "").upper()] *)
Definition normalize_mac (mac : string) : string :=
  upper (remove_char "-" (remove_char ":" mac)).

Definition _get_vendor_ieee_oui (mac : string) : M string :=
  emit (EOuiLookup mac) ;;
  s <- get_state ;;
  (match _ieee_oui_available s with
   | None =>
       modify (set_ieee_oui_available
                 (match oui_file w with OuiMissing => false | _ => true end))
   | Some _ => ret tt
   end) ;;
  s <- get_state ;;
  if negb (match _ieee_oui_available s with Some b => b | None => false end)
  then ret "Unknown"
  else
    let oui := take 6 (normalize_mac mac) in
    (match _oui_database s with
     | None => _load_ieee_oui_file
     | Some _ => ret tt
     end) ;;
    s <- get_state ;;
    ret (match _oui_database s with
         | Some db => default "Unknown" (db !! oui)
         | None => "Unknown"
         end).

Definition _get_vendor (mac : string) : M string :=
  let normalized_mac := normalize_mac mac in
  s <- get_state ;;
  match vendor_cache s !! normalized_mac with
  | Some cached => ret cached
  | None =>
      try_except
        (vendor <- _get_vendor_ieee_oui mac ;;
         if negb (String.eqb vendor "") && negb (String.eqb vendor "Unknown") then
           modify (fun s => set_vendor_cache (<[normalized_mac := vendor]> (vendor_cache s)) s) ;;
           ret vendor
         else
           modify (fun s => set_vendor_cache (<[normalized_mac := vendor]> (vendor_cache s)) s) ;;
           ret vendor)
        (fun _ =>
           modify (fun s => set_vendor_cache (<[normalized_mac := "Unknown"]> (vendor_cache s)) s) ;;
           ret "Unknown")
  end.

(** **** Host discovery *)

(** The dictionary that [_get_system_arp_table] builds. *)
Definition system_arp_table : list (string * string) :=
  List.fold_left (fun d kv => dict_set (fst kv) (snd kv) d) (arp_entries w) [].

Definition _get_system_arp_table : M (list (string * string)) :=
  emit EArpRead ;;
  ret system_arp_table.

Definition _is_in_network (ip network_range : string) : bool :=
  match IpAddress.ip_network network_range, IpAddress.ip_address ip with
  | Some network, Some addr => IpAddress.contains_address network addr
  | _, _ => false
  end.

(** [range(0, n, batch_size)] *)
Definition batch_starts (n batch_size : nat) : list nat :=
  List.map (fun k => (k * batch_size)%nat) (List.seq 0 ((n + batch_size - 1) / batch_size)).

(** [ip_list[:254]] when the list is longer *)
Definition candidates (ip_list : list string) : list string :=
  if (254 <? List.length ip_list)%nat then List.firstn 254 ip_list else ip_list.

Definition min_nat_Z (a : Z) (n : nat) : Z := Z.min a (Z.of_nat n).

(** The loop over the completed ping futures of one batch. *)
Definition ping_results (batch_ips : list string)
    (st : list string * gset string) : M (list string * gset string) :=
  for_each (as_completed (ping_rank w) batch_ips)
    (fun ip '((alive_hosts, discovered_ips) : list string * gset string) =>
       stop <- stop_requested ;;
       if stop then ret (Break (alive_hosts, discovered_ips))
       else if ping w ip
            then ret (Continue ((alive_hosts ++ [ip])%list, {[ip]} ∪ discovered_ips))
            else ret (Continue (alive_hosts, discovered_ips)))
    st.

(** Method 1: the ping sweep, in batches of 100. *)
Definition ping_sweep (ip_list : list string) : M (list string * gset string) :=
  s <- get_state ;;
  let batch_size := 100%nat in
  let max_workers := Z.min (discovery_threads s) 25 in
  for_each (batch_starts (List.length ip_list) batch_size)
    (fun batch_start st =>
       stop <- stop_requested ;;
       if stop then ret (Break st)
       else
         let batch_ips := List.firstn batch_size (List.skipn batch_start ip_list) in
         ThreadPoolExecutor (min_nat_Z max_workers (List.length batch_ips)) ;;
         submit_all EPing batch_ips ;;
         st' <- ping_results batch_ips st ;;
         let completed := Nat.min (batch_start + batch_size) (List.length ip_list) in
         _update_progress
           (PPingBatch completed (List.length ip_list) (List.length (fst st'))) ;;
         ret (Continue st'))
    ([], ∅).

(** Method 2: the hosts of the ARP table that lie in the range. *)
Definition arp_supplement (network_range : string) (arp_table : list (string * string))
    (st : list string * gset string) : list string * gset string :=
  List.fold_left
    (fun '((alive_hosts, discovered_ips) : list string * gset string) ip =>
       if negb (bool_decide (ip ∈ discovered_ips)) && _is_in_network ip network_range
       then ((alive_hosts ++ [ip])%list, {[ip]} ∪ discovered_ips)
       else (alive_hosts, discovered_ips))
    (dict_keys arp_table) st.

Definition test_ports : list Z := [22; 80; 443; 445; 3389]%Z.

(** Method 3: TCP probes of at most 50 of the addresses still silent. *)
Definition tcp_probe (ip_list : list string)
    (st : list string * gset string) : M (list string * gset string) :=
  let remaining_ips :=
    List.filter (fun ip => negb (bool_decide (ip ∈ snd st))) ip_list in
  match remaining_ips with
  | [] => ret st
  | _ =>
      let max_probe_ips := Nat.min 50 (List.length remaining_ips) in
      let probe_ips := List.firstn max_probe_ips remaining_ips in
      let max_probe_workers :=
        Nat.min 10 (List.length probe_ips * List.length test_ports) in
      ThreadPoolExecutor (Z.of_nat max_probe_workers) ;;
      let port_futures := List.flat_map (fun ip => List.map (pair ip) test_ports) probe_ips in
      submit_all (fun t => ETcpPing (fst t) (snd t)) port_futures ;;
      r <- for_each port_futures
             (fun '((ip, port) : string * Z)
                  '((alive_hosts, discovered_ips, found_in_probe)
                    : list string * gset string * gset string) =>
                stop <- stop_requested ;;
                if stop then ret (Break (alive_hosts, discovered_ips, found_in_probe))
                else if tcp_ping w ip port
                        && negb (bool_decide (ip ∈ discovered_ips))
                        && negb (bool_decide (ip ∈ found_in_probe))
                     then ret (Continue ((alive_hosts ++ [ip])%list, {[ip]} ∪ discovered_ips,
                                         {[ip]} ∪ found_in_probe))
                     else ret (Continue (alive_hosts, discovered_ips, found_in_probe)))
             (fst st, snd st, (∅ : gset string)) ;;
      ret (fst r)
  end.

(** The final loop of the discovery: MAC address and vendor per host. *)
Definition build_hosts (arp_table : list (string * string)) (alive_hosts : list string)
    : M (list Host) :=
  for_each alive_hosts
    (fun ip hosts =>
       stop <- stop_requested ;;
       if stop then ret (Break hosts)
       else
         let mac := dict_get ip arp_table "" in
         vendor <- (if String.eqb mac "" then ret "Unknown" else _get_vendor mac) ;;
         ret (Continue (hosts ++ [{| host_ip := ip; host_mac := mac; host_vendor := vendor |}])%list))
    [].

Definition _enhanced_host_discovery (network_range : string) : M (list Host) :=
  try_except
    (ip_list <- (fun s => (parse_ip_range network_range, s)) ;;
     let ip_list := candidates ip_list in
     _update_progress (PPingScanning (List.length ip_list)) ;;
     st <- ping_sweep ip_list ;;
     _update_progress PCheckingArp ;;
     arp_table <- _get_system_arp_table ;;
     let st := arp_supplement network_range arp_table st in
     _update_progress PTcpProbe ;;
     st <- tcp_probe ip_list st ;;
     _update_progress PGettingMac ;;
     hosts <- build_hosts arp_table (fst st) ;;
     _update_progress (PFound (List.length hosts)) ;;
     ret hosts)
    (fun _ => ret []).

Definition discover_hosts (network_range : string) : M (list Host) :=
  _update_progress PDiscovering ;;
  _enhanced_host_discovery network_range.

(** **** The scan *)

Definition _enhance_hostname (ip hostname : string) (services : list ServiceInfo) : string :=
  if negb (String.eqb hostname ip) then hostname
  else
    let device_type := get_device_type_hint w ip services in
    if negb (String.eqb device_type "") then
      device_type ++ "-" ++ last_item (split "." ip)
    else if endswith ".1" ip then "Gateway-" ++ last_item (split "." ip)
    else ip.

(** Step 2: the hostnames, as the futures complete. *)
Definition resolve_hostnames (hosts : list Host) : M (gmap string string) :=
  let total_hosts := List.length hosts in
  _update_progress PResolving ;;
  s <- get_state ;;
  ThreadPoolExecutor (min_nat_Z (discovery_threads s) total_hosts) ;;
  submit_all EResolve (List.map host_ip hosts) ;;
  r <- for_each (as_completed (hostname_rank w) (List.map host_ip hosts))
         (fun ip '((hostname_results, completed) : gmap string string * nat) =>
            stop <- stop_requested ;;
            if stop then ret (Break (hostname_results, completed))
            else
              let hostname_results := <[ip := get_hostname w ip]> hostname_results in
              let completed := S completed in
              _update_progress (PResolved completed total_hosts) ;;
              ret (Continue (hostname_results, completed)))
         ((∅ : gmap string string), 0%nat) ;;
  ret (fst r).

(** [all_scan_tasks]: every host with every service. *)
Definition all_scan_tasks (hosts : list Host) (services_to_scan : list ServiceInfo)
    : list (string * ServiceInfo) :=
  List.flat_map (fun host => List.map (pair (host_ip host)) services_to_scan) hosts.

(** [{host["ip"]: [] for host in hosts}] *)
Definition empty_service_results (hosts : list Host) : gmap string (list ServiceInfo) :=
  List.fold_left (fun m host => <[host_ip host := []]> m) hosts ∅.

(** The services to scan: the built-in ones and the user's. *)
Definition services_to_scan (s : Scanner) : list ServiceInfo :=
  match config_manager s with
  | Some cfg => get_all_services cfg
  | None => COMMON_SERVICES
  end.

(** The loop over the completed port-scan futures. *)
Definition collect_port_results (tasks : list (string * ServiceInfo)) (total_scans : nat)
  (service_results : gmap string (list ServiceInfo))
  : M (gmap string (list ServiceInfo) * nat) :=
  for_each (as_completed (fun t => check_port_rank w (fst t) (snd t)) tasks)
    (fun '((ip, service) : string * ServiceInfo)
         '((service_results, completed) : gmap string (list ServiceInfo) * nat) =>
       stop <- stop_requested ;;
       if stop then ret (Break (service_results, completed))
       else
         let service_results :=
           if check_port_socket w ip service then
             match service_results !! ip with
             | Some found => <[ip := (found ++ [service])%list]> service_results
             | None => service_results
             end
           else service_results in
         let completed := S completed in
         (if (completed mod 20 =? 0)%nat || (completed =? total_scans)%nat
          then _update_progress (PScanned completed total_scans)
          else ret tt) ;;
         ret (Continue (service_results, completed)))
    (service_results, 0%nat).

(** Step 3: the port scan, as the futures complete. *)
Definition scan_services (thread_count : Z) (hosts : list Host)
  : M (gmap string (list ServiceInfo)) :=
  _update_progress PScanningServices ;;
  s <- get_state ;;
  let tasks := all_scan_tasks hosts (services_to_scan s) in
  let service_results := empty_service_results hosts in
  let total_scans := List.length tasks in
  _update_progress (PStartingPortScan total_scans thread_count) ;;
  ThreadPoolExecutor thread_count ;;
  submit_all (fun t => ECheckPort (fst t) (snd t)) tasks ;;
  r <- collect_port_results tasks total_scans service_results ;;
  ret (fst r).

(** The [ScanResult] that Step 4 builds for a host. *)
Definition scan_result_of (hostname_results : gmap string string)
    (service_results : gmap string (list ServiceInfo)) (host_data : Host) : ScanResult :=
  let ip := host_ip host_data in
  let hostname := default ip (hostname_results !! ip) in
  let services := default [] (service_results !! ip) in
  let hostname := _enhance_hostname ip hostname services in
  {| ip := ip; hostname := hostname; mac := host_mac host_data;
     vendor := host_vendor host_data; services := services;
     response_time := 0; is_alive := true |}.

(** Step 4: one [ScanResult] per host. *)
Definition combine_results (hosts : list Host) (hostname_results : gmap string string)
    (service_results : gmap string (list ServiceInfo)) : M unit :=
  for_each hosts
    (fun host_data (_ : unit) =>
       stop <- stop_requested ;;
       if stop then ret (Break tt)
       else
         let scan_result := scan_result_of hostname_results service_results host_data in
         modify (fun s => set_results (results s ++ [scan_result])%list s) ;;
         ret (Continue tt))
    tt.

(** Steps 2 to 4, for the hosts that the discovery returned. *)
Definition scan_hosts (thread_count : Z) (hosts : list Host) : M (list ScanResult) :=
  match hosts with
  | [] =>
      _update_progress PNoHosts ;;
      s <- get_state ;; ret (results s)
  | _ =>
      hostname_results <- resolve_hostnames hosts ;;
      service_results <- scan_services thread_count hosts ;;
      _update_progress PFinalizing ;;
      combine_results hosts hostname_results service_results ;;
      _update_progress PCompleted ;;
      s <- get_state ;; ret (results s)
  end.

(** The [try] block of [scan_network]. *)
Definition scan_network_try (thread_count : Z) (network_range : string)
  : M (list ScanResult) :=
  _update_progress PScanningLive ;;
  hosts <- discover_hosts network_range ;;
  scan_hosts thread_count hosts.

(** Its [except Exception as e] clause. *)
Definition scan_network_except (e : exn) : M (list ScanResult) :=
  _update_progress (PFailed e) ;;
  s <- get_state ;; ret (results s).

(** What [scan_network] does before the [try]: the configuration is read
    again, the stop flag is cleared, [results = []]. *)
Definition scan_network_begin (s : Scanner) : Scanner :=
  set_results []
    (set_stop false
       (match config_manager s with
        | Some cfg => set_threads (cfg_discovery_threads cfg) (cfg_scan_threads cfg) s
        | None => s
        end)).

Definition scan_network (network_range : string) : M (list ScanResult) :=
  modify scan_network_begin ;;
  s <- get_state ;;
  let thread_count := scan_threads s in
  try_except (scan_network_try thread_count network_range) scan_network_except.

End NetworkScanner.

(** *** The discovery when nobody cancels and nothing raises

    The loops of the discovery without their stop checks, as functions. *)

Section Uncancelled.

Variable w : World.

Definition ping_step (st : list string * gset string) (ip : string)
    : list string * gset string :=
  let '(alive_hosts, discovered_ips) := st in
  if ping w ip then ((alive_hosts ++ [ip])%list, {[ip]} ∪ discovered_ips)
  else (alive_hosts, discovered_ips).

(** One batch: the addresses that answer, in the order of completion. *)
Definition ping_batch (batch_ips : list string) (st : list string * gset string)
    : list string * gset string :=
  List.fold_left ping_step (as_completed (ping_rank w) batch_ips) st.

Definition pinged (ip_list : list string) : list string * gset string :=
  List.fold_left
    (fun st batch_start => ping_batch (List.firstn 100 (List.skipn batch_start ip_list)) st)
    (batch_starts (List.length ip_list) 100) ([], ∅).

Definition tcp_step (st : list string * gset string * gset string) (t : string * Z)
    : list string * gset string * gset string :=
  let '(alive_hosts, discovered_ips, found_in_probe) := st in
  let '(ip, port) := t in
  if tcp_ping w ip port && negb (bool_decide (ip ∈ discovered_ips))
     && negb (bool_decide (ip ∈ found_in_probe))
  then ((alive_hosts ++ [ip])%list, {[ip]} ∪ discovered_ips, {[ip]} ∪ found_in_probe)
  else (alive_hosts, discovered_ips, found_in_probe).

Definition tcp_probed (ip_list : list string) (st : list string * gset string)
    : list string * gset string :=
  let remaining_ips :=
    List.filter (fun ip => negb (bool_decide (ip ∈ snd st))) ip_list in
  match remaining_ips with
  | [] => st
  | _ =>
      let probe_ips := List.firstn (Nat.min 50 (List.length remaining_ips)) remaining_ips in
      fst (List.fold_left tcp_step
             (List.flat_map (fun ip => List.map (pair ip) test_ports) probe_ips)
             (fst st, snd st, (∅ : gset string)))
  end.

(** The alive hosts in the order of their discovery: the hosts that
    answered the ping in the order in which the pings completed, batch after
    batch; then the hosts of the ARP table in the order of the table; then
    the hosts that answered a TCP probe, in the order of the candidates. *)
Definition discovery_order (network_range : string) (ip_list : list string) : list string :=
  fst (tcp_probed ip_list
         (arp_supplement network_range (system_arp_table w) (pinged ip_list))).

End Uncancelled.

(** The set of discovered addresses is the set of the alive hosts, and no
    alive host is listed twice. *)
Definition tracked (st : list string * gset string) : Prop :=
  List.NoDup (fst st) /\ forall x, x ∈ snd st <-> In x (fst st).

(** ** Observations on the log *)

Module Observe.

(** The part of the later log [l'] that was added to the earlier log [l]. *)
Definition since (l l' : list event) : list event := List.skipn (List.length l) l'.

(** The [_check_port] tasks submitted, in order. *)
Definition port_probes (l : list event) : list (string * ServiceInfo) :=
  List.flat_map (fun e => match e with ECheckPort ip svc => [(ip, svc)] | _ => [] end) l.

(** A [_check_port] task is submitted. *)
Definition port_probe_event (e : event) : bool :=
  match e with
  | ECheckPort _ _ => true
  | _ => false
  end.

(** The addresses pinged. *)
Definition pings (l : list event) : list string :=
  List.flat_map (fun e => match e with EPing ip => [ip] | _ => [] end) l.

(** The TCP probes of the discovery. *)
Definition tcp_pings (l : list event) : list (string * Z) :=
  List.flat_map (fun e => match e with ETcpPing ip p => [(ip, p)] | _ => [] end) l.

(** The number of reads of the neighbour table. *)
Definition arp_reads (l : list event) : nat :=
  List.length (List.filter (fun e => match e with EArpRead => true | _ => false end) l).

(** The MAC addresses looked up in the OUI table. *)
Definition oui_lookups (l : list event) : list string :=
  List.flat_map (fun e => match e with EOuiLookup m => [m] | _ => [] end) l.

(** The reports with which a scan ends: all of them at 100 %. *)
Definition final_report (p : progress) : bool :=
  match p with
  | PNoHosts | PCompleted | PFailed _ => true
  | _ => false
  end.

(** The calls of [_update_progress]. *)
Definition reports (l : list event) : list progress :=
  List.flat_map (fun e => match e with EProgress p => [p] | _ => [] end) l.

(** The report of the [except] clause of [scan_network]. *)
Definition failure_report (e : event) : bool :=
  match e with
  | EProgress (PFailed _) => true
  | _ => false
  end.

(** The scan reported a failure: its [except] clause ran. *)
Definition failed (l : list event) : bool := List.existsb failure_report l.

End Observe.

(** ** Relations between the scanner before and after a computation *)

Module Frame.

(** The events of each phase of a scan. *)
Definition discovery_event (e : event) : bool :=
  match e with
  | EProgress (PDiscovering | PPingScanning _ | PPingBatch _ _ _ | PCheckingArp
              | PTcpProbe | PGettingMac | PFound _) => true
  | EStopCheck _ | EPing _ | EArpRead | ETcpPing _ _ | EOuiLookup _ => true
  | _ => false
  end.

Definition hostname_event (e : event) : bool :=
  match e with
  | EProgress (PResolving | PResolved _ _) => true
  | EStopCheck _ | EResolve _ => true
  | _ => false
  end.

Definition service_event (e : event) : bool :=
  match e with
  | EProgress (PScanningServices | PStartingPortScan _ _ | PScanned _ _) => true
  | EStopCheck _ | ECheckPort _ _ => true
  | _ => false
  end.

Definition combine_event (e : event) : bool :=
  match e with
  | EStopCheck _ => true
  | _ => false
  end.

(** The events of Steps 2 to 4. *)
Definition scan_hosts_event (e : event) : bool :=
  match e with
  | EProgress (PNoHosts | PFinalizing | PCompleted) => true
  | _ => hostname_event e || service_event e || combine_event e
  end.

(** The events of the [try] block of [scan_network]. *)
Definition try_event (e : event) : bool :=
  match e with
  | EProgress PScanningLive => true
  | _ => discovery_event e || scan_hosts_event e
  end.

(** A probe of the discovery is started. *)
Definition probe_event (e : event) : bool :=
  match e with
  | EPing _ | ETcpPing _ _ => true
  | _ => false
  end.

(** [m] relates every state to the state it leaves. *)
Definition respects (R : Scanner -> Scanner -> Prop) {A} (m : M A) : Prop :=
  forall s, R s (snd (m s)).

(** The log grows, by allowed events only. *)
Definition logs (allowed : event -> bool) (s s' : Scanner) : Prop :=
  exists new, log s' = (log s ++ new)%list /\
              Forall (fun e => allowed e = true) new.

(** The configuration is the same. *)
Definition same_settings (s s' : Scanner) : Prop :=
  config_manager s' = config_manager s /\
  discovery_threads s' = discovery_threads s /\
  scan_threads s' = scan_threads s.

(** The log does not shrink, a stop request is kept, and a request that
    comes once the log has [t] entries has been made when the log has
    grown to [t] entries or more. *)
Definition stop_fires (t : nat) (s s' : Scanner) : Prop :=
  (List.length (log s) <= List.length (log s'))%nat /\
  (_stop_scanning s = true -> _stop_scanning s' = true) /\
  ((List.length (log s) < t <= List.length (log s'))%nat -> _stop_scanning s' = true).

(** The local [results] of [scan_network] is the same. *)
Definition same_results (s s' : Scanner) : Prop := results s' = results s.

(** Once set, [_stop_scanning] stays set. *)
Definition stop_kept (s s' : Scanner) : Prop :=
  _stop_scanning s = true -> _stop_scanning s' = true.

(** No probe of the discovery is started and [results] is the same. *)
Definition unprobed (s s' : Scanner) : Prop :=
  logs (fun e => negb (probe_event e)) s s' /\ same_results s s'.

(** [_stop_scanning] is the same. *)
Definition stop_same (s s' : Scanner) : Prop := _stop_scanning s' = _stop_scanning s.

(** A triple: from a state that satisfies [pre], [m] returns a value and a
    state that satisfy [post], or raises an exception in a state that
    satisfies [fail]. *)
Definition hoare {A} (pre : Scanner -> Prop) (m : M A)
    (post : A -> Scanner -> Prop) (fail : exn -> Scanner -> Prop) : Prop :=
  forall s, pre s ->
    match m s with
    | (Ok a, s') => post a s'
    | (Raise e, s') => fail e s'
    end.

(** Nobody has asked the scan to stop / somebody has. *)
Definition running (s : Scanner) : Prop := _stop_scanning s = false.
Definition stopped (s : Scanner) : Prop := _stop_scanning s = true.

(** [m] never raises. *)
Definition total {A} (m : M A) : Prop := forall s, is_ok (fst (m s)) = true.

End Frame.

(** ** Scenarios *)

Module Scenario.

(** A network on which [10.0.0.1] and [10.0.0.2] answer the ping, the answer
    of [10.0.0.2] arriving first, and only [10.0.0.1] has port 80 open. *)
Definition two_hosts : World := {|
  callback_raises := fun _ => false;
  stop_at := None;
  ping := fun ip => String.eqb ip "10.0.0.1" || String.eqb ip "10.0.0.2";
  ping_rank := fun ip => if String.eqb ip "10.0.0.1" then 1%nat else 0%nat;
  arp_entries := [];
  tcp_ping := fun _ _ => false;
  get_hostname := fun ip => ip;
  hostname_rank := fun _ => 0%nat;
  check_port_socket := fun ip service => String.eqb ip "10.0.0.1" && (port service =? 80)%Z;
  check_port_rank := fun _ _ => 0%nat;
  get_device_type_hint := fun _ _ => "";
  oui_file := OuiMissing
|}.

(** The same network, with [stop_scan] called once the log has [t] entries. *)
Definition two_hosts_stopped_at (t : nat) : World := {|
  callback_raises := callback_raises two_hosts;
  stop_at := Some t;
  ping := ping two_hosts;
  ping_rank := ping_rank two_hosts;
  arp_entries := arp_entries two_hosts;
  tcp_ping := tcp_ping two_hosts;
  get_hostname := get_hostname two_hosts;
  hostname_rank := hostname_rank two_hosts;
  check_port_socket := check_port_socket two_hosts;
  check_port_rank := check_port_rank two_hosts;
  get_device_type_hint := get_device_type_hint two_hosts;
  oui_file := oui_file two_hosts
|}.

(** The same network, with a progress callback that raises on the report
    [Scan completed]. *)
Definition failing_last_report : World := {|
  callback_raises := fun p => match p with PCompleted => true | _ => false end;
  stop_at := None;
  ping := ping two_hosts;
  ping_rank := ping_rank two_hosts;
  arp_entries := arp_entries two_hosts;
  tcp_ping := tcp_ping two_hosts;
  get_hostname := get_hostname two_hosts;
  hostname_rank := hostname_rank two_hosts;
  check_port_socket := check_port_socket two_hosts;
  check_port_rank := check_port_rank two_hosts;
  get_device_type_hint := get_device_type_hint two_hosts;
  oui_file := oui_file two_hosts
|}.

(** A configuration file that sets [scan_threads] to 0. *)
Definition no_scan_threads : AppConfig :=
  {| cfg_scan_threads := 0; cfg_discovery_threads := 130; cfg_custom_services := [] |}.

(** An OUI file with one vendor. *)
Definition with_oui_file : World := {|
  callback_raises := callback_raises two_hosts;
  stop_at := None;
  ping := ping two_hosts;
  ping_rank := ping_rank two_hosts;
  arp_entries := [("10.0.0.2", "aa:bb:cc:dd:ee:ff")];
  tcp_ping := tcp_ping two_hosts;
  get_hostname := get_hostname two_hosts;
  hostname_rank := hostname_rank two_hosts;
  check_port_socket := check_port_socket two_hosts;
  check_port_rank := check_port_rank two_hosts;
  get_device_type_hint := get_device_type_hint two_hosts;
  oui_file := OuiLines ["# OUI	Vendor"; "AABBCC	Acme Corp"]
|}.

(** The addresses of a list are in strictly ascending order. *)
Fixpoint ascending (ordinals : list N) : bool :=
  match ordinals with
  | a :: ((b :: _) as rest) => (a <? b)%N && ascending rest
  | _ => true
  end.

Definition ascending_addresses (ips : list string) : bool :=
  forallb (fun ip => match IpAddress.ip_address ip with Some _ => true | None => false end) ips
  && ascending (List.flat_map (fun ip => match IpAddress.ip_address ip with
                                         | Some x => [x] | None => [] end) ips).

End Scenario.


(** * The rest of the code *)

(** ** More range specifications *)

Module RangeForms.

(** The text [A-B] of the full-range form, for two address ordinals. *)
Definition address_range (x y : N) : string :=
  IpAddress.str_of_address x ++ "-" ++ IpAddress.str_of_address y.

End RangeForms.

(** ** [core/config.py]: the custom services of [ConfigManager]

    An entry of [config.custom_services] is a JSON object.  The code reads
    five of its keys; each is present or not, and a value that is present
    has the type that [add_custom_service] writes.  [save_config] writes
    the configuration file and swallows every error: here it records what
    it was asked to write. *)

Module ConfigManager.

Record CustomData : Type := {
  cd_name : option string;
  cd_port : option Z;
  cd_protocol : option string;
  cd_description : option string;
  cd_access_method : option string
}.

Record ConfigManager : Type := {
  custom_services : list CustomData;      (* [self.config.custom_services] *)
  save_calls : list (list CustomData)     (* the lists that [save_config] wrote, in order *)
}.

(** A call returns, or raises [KeyError(key)]. *)
Inductive outcome (A : Type) : Type :=
| Returns (a : A)
| KeyError (key : string).
Arguments Returns {A} a.
Arguments KeyError {A} key.

(** [save_config] *)
Definition save_config (cm : ConfigManager) : ConfigManager :=
  {| custom_services := custom_services cm;
     save_calls := (save_calls cm ++ [custom_services cm])%list |}.

Definition set_custom_services (l : list CustomData) (cm : ConfigManager) : ConfigManager :=
  {| custom_services := l; save_calls := save_calls cm |}.

(** [ServiceInfo(name=d["name"], port=d["port"], protocol=d["protocol"],
    description=d["description"], access_method=d.get("access_method", ""))]:
    [None] stands for the [KeyError] of the first key that is missing. *)
Definition service_of (d : CustomData) : option ServiceInfo :=
  match cd_name d, cd_port d, cd_protocol d, cd_description d with
  | Some n, Some p, Some pr, Some de =>
      Some {| name := n; port := p; protocol := pr; description := de;
              access_method := match cd_access_method d with Some a => a | None => "" end |}
  | _, _, _, _ => None
  end.

(** The loop that [get_all_services] and [get_custom_services] share:
    malformed entries are skipped. *)
Definition append_custom (services : list ServiceInfo) (custom : list CustomData)
  : list ServiceInfo :=
  List.fold_left
    (fun acc custom_data =>
       match service_of custom_data with
       | Some service => (acc ++ [service])%list
       | None => acc
       end)
    custom services.

(** [get_all_services] *)
Definition get_all_services (cm : ConfigManager) : list ServiceInfo :=
  append_custom COMMON_SERVICES (custom_services cm).

(** [get_custom_services] *)
Definition get_custom_services (cm : ConfigManager) : list ServiceInfo :=
  append_custom [] (custom_services cm).

(** The dictionary that [add_custom_service] and [update_custom_service]
    build from a service. *)
Definition service_dict (service : ServiceInfo) : CustomData :=
  {| cd_name := Some (name service); cd_port := Some (port service);
     cd_protocol := Some (protocol service); cd_description := Some (description service);
     cd_access_method := Some (access_method service) |}.

(** [d["port"] == port and d["protocol"] == protocol]: the protocol is
    read only when the port is the same. *)
Definition has_key (d : CustomData) (p : Z) (pr : string) : outcome bool :=
  match cd_port d with
  | None => KeyError "port"
  | Some p' =>
      if (p' =? p)%Z then
        match cd_protocol d with
        | None => KeyError "protocol"
        | Some pr' => Returns (String.eqb pr' pr)
        end
      else Returns false
  end.

(** The index of the first entry with this port and protocol. *)
Fixpoint find_key (l : list CustomData) (p : Z) (pr : string) : outcome (option nat) :=
  match l with
  | [] => Returns None
  | d :: r =>
      match has_key d p pr with
      | KeyError k => KeyError k
      | Returns true => Returns (Some 0%nat)
      | Returns false =>
          match find_key r p pr with
          | Returns (Some i) => Returns (Some (S i))
          | other => other
          end
      end
  end.

(** [add_custom_service] *)
Definition add_custom_service (service : ServiceInfo) (cm : ConfigManager)
  : outcome (bool * ConfigManager) :=
  match find_key (custom_services cm) (port service) (protocol service) with
  | KeyError k => KeyError k
  | Returns (Some _) => Returns (false, cm)
  | Returns None =>
      Returns (true,
               save_config
                 (set_custom_services (custom_services cm ++ [service_dict service])%list cm))
  end.

(** [del l[i]] *)
Definition delete_at (i : nat) (l : list CustomData) : list CustomData :=
  (List.firstn i l ++ List.skipn (S i) l)%list.

(** [l[i] = d] *)
Definition replace_at (i : nat) (d : CustomData) (l : list CustomData) : list CustomData :=
  (List.firstn i l ++ d :: List.skipn (S i) l)%list.

(** [remove_custom_service] *)
Definition remove_custom_service (p : Z) (pr : string) (cm : ConfigManager)
  : outcome (bool * ConfigManager) :=
  match find_key (custom_services cm) p pr with
  | KeyError k => KeyError k
  | Returns (Some i) =>
      Returns (true, save_config (set_custom_services (delete_at i (custom_services cm)) cm))
  | Returns None => Returns (false, cm)
  end.

(** [update_custom_service] *)
Definition update_custom_service (old_port : Z) (old_protocol : string)
    (new_service : ServiceInfo) (cm : ConfigManager) : outcome (bool * ConfigManager) :=
  match find_key (custom_services cm) old_port old_protocol with
  | KeyError k => KeyError k
  | Returns (Some i) =>
      Returns (true,
               save_config
                 (set_custom_services
                    (replace_at i (service_dict new_service) (custom_services cm)) cm))
  | Returns None => Returns (false, cm)
  end.

(** Equality of two [ServiceInfo] tuples. *)
Definition ServiceInfo_eqb (a b : ServiceInfo) : bool :=
  String.eqb (name a) (name b) && (port a =? port b)%Z &&
  String.eqb (protocol a) (protocol b) && String.eqb (description a) (description b) &&
  String.eqb (access_method a) (access_method b).

(** The loop of [is_port_in_use] over the custom services. *)
Fixpoint custom_in_use (l : list CustomData) (p : Z) (pr : string)
    (exclude_service : option ServiceInfo) : outcome bool :=
  match l with
  | [] => Returns false
  | d :: r =>
      match has_key d p pr with
      | KeyError k => KeyError k
      | Returns true =>
          match exclude_service with
          | None => Returns true
          | Some ex =>
              (* here [d] has both keys: [has_key] has read them *)
              if negb (match cd_port d with Some p' => (p' =? port ex)%Z | None => false end)
                 || negb (match cd_protocol d with
                          | Some pr' => String.eqb pr' (protocol ex) | None => false end)
              then Returns true
              else custom_in_use r p pr exclude_service
          end
      | Returns false => custom_in_use r p pr exclude_service
      end
  end.

(** [is_port_in_use] *)
Definition is_port_in_use (p : Z) (pr : string) (exclude_service : option ServiceInfo)
    (cm : ConfigManager) : outcome bool :=
  if List.existsb
       (fun service =>
          (port service =? p)%Z && String.eqb (protocol service) pr &&
          match exclude_service with
          | Some ex => negb (ServiceInfo_eqb service ex)
          | None => true
          end)
       COMMON_SERVICES
  then Returns true
  else custom_in_use (custom_services cm) p pr exclude_service.

(** [reset_custom_services] *)
Definition reset_custom_services (cm : ConfigManager) : ConfigManager :=
  save_config (set_custom_services [] cm).

(** The body of the loop of [import_custom_services]: every [KeyError] is
    caught and the entry skipped. *)
Definition import_one (st : ConfigManager * nat) (service_data : CustomData)
  : ConfigManager * nat :=
  let '(cm, imported_count) := st in
  match service_of service_data with
  | None => st
  | Some service =>
      match is_port_in_use (port service) (protocol service) None cm with
      | KeyError _ => st
      | Returns true => st
      | Returns false =>
          match add_custom_service service cm with
          | KeyError _ => st
          | Returns (true, cm') => (cm', S imported_count)
          | Returns (false, cm') => (cm', imported_count)
          end
      end
  end.

(** An element that the loop of [import_custom_services] takes from the
    file: a JSON object, or another value (a text, a number, a list, ...),
    on which [service_data["name"]] raises [TypeError]. *)
Inductive file_entry : Type :=
| Object (service_data : CustomData)
| NotAnObject.

(** What [import_custom_services] finds at [file_path].  The elements of
    [ServiceList] are those that the [for] loop iterates over: the elements
    of the list under ["custom_services"], none when the key is missing;
    for an object or a text under that key, its keys or its characters,
    which are no objects. *)
Inductive import_file : Type :=
| Unreadable                                (* [open] or [json.load] raises *)
| NotADocument                              (* the document is no object: [data.get] raises *)
| NoServiceList                             (* a number, a boolean or [null] under the key:
                                               the [for] raises *)
| ServiceList (entries : list file_entry).

(** The loop of [import_custom_services]: [None] when a [TypeError] leaves
    it, with what was added until then. *)
Fixpoint import_entries (entries : list file_entry) (st : ConfigManager * nat)
  : option nat * ConfigManager :=
  match entries with
  | [] => (Some (snd st), fst st)
  | NotAnObject :: _ => (None, fst st)
  | Object service_data :: rest => import_entries rest (import_one st service_data)
  end.

(** The objects that the loop reaches: those before the first element that
    is no object. *)
Fixpoint objects_before (entries : list file_entry) : list CustomData :=
  match entries with
  | Object service_data :: rest => service_data :: objects_before rest
  | _ => []
  end.

(** Every element is an object. *)
Definition all_objects (entries : list file_entry) : bool :=
  List.forallb (fun entry => match entry with Object _ => true | NotAnObject => false end)
    entries.

(** [import_custom_services]: whatever is raised is answered with
    [(False, 0)], by the outer [except], and the list of custom services
    stays as it is at that moment. *)
Definition import_custom_services (file : import_file) (replace : bool)
    (cm : ConfigManager) : (bool * nat) * ConfigManager :=
  match file with
  | Unreadable => ((false, 0%nat), cm)
  | _ =>
      let cm := if replace then set_custom_services [] cm else cm in
      match file with
      | ServiceList entries =>
          match import_entries entries (cm, 0%nat) with
          | (Some imported_count, cm') => ((true, imported_count), cm')
          | (None, cm') => ((false, 0%nat), cm')
          end
      | _ => ((false, 0%nat), cm)
      end
  end.

(** The port and the protocol of an entry that has both keys. *)
Definition key_of (d : CustomData) : option (Z * string) :=
  match cd_port d, cd_protocol d with
  | Some p, Some pr => Some (p, pr)
  | _, _ => None
  end.

(** Every entry has a port and a protocol. *)
Definition well_keyed (l : list CustomData) : bool :=
  List.forallb (fun d => match key_of d with Some _ => true | None => false end) l.

(** No two entries have the same port and protocol. *)
Definition distinct_keys (l : list CustomData) : Prop := List.NoDup (List.map key_of l).

(** The port and protocol is one of a built-in service. *)
Definition builtin_key (k : Z * string) : bool :=
  List.existsb (fun service => (port service =? fst k)%Z && String.eqb (protocol service) (snd k))
    COMMON_SERVICES.

(** The settings that a scanner reads from a manager. *)
Definition config_of (scan_threads discovery_threads : Z) (cm : ConfigManager) : AppConfig :=
  {| cfg_scan_threads := scan_threads; cfg_discovery_threads := discovery_threads;
     cfg_custom_services := get_custom_services cm |}.

End ConfigManager.

(** ** Steps 2 and 3 when nobody cancels: what the two loops compute *)

Section Completed.

Variable w : World.

(** One completed hostname lookup. *)
Definition hostname_step (hostname_results : gmap string string) (ip : string)
    : gmap string string :=
  <[ip := get_hostname w ip]> hostname_results.

(** [hostname_results] after Step 2. *)
Definition hostnames_resolved (hosts : list Host) : gmap string string :=
  List.fold_left hostname_step
    (as_completed (hostname_rank w) (List.map host_ip hosts)) ∅.

(** One completed port check. *)
Definition port_step (service_results : gmap string (list ServiceInfo))
    (t : string * ServiceInfo) : gmap string (list ServiceInfo) :=
  if check_port_socket w (fst t) (snd t) then
    match service_results !! fst t with
    | Some found => <[fst t := (found ++ [snd t])%list]> service_results
    | None => service_results
    end
  else service_results.

(** [service_results] after Step 3. *)
Definition port_scanned (hosts : list Host) (services_to_scan : list ServiceInfo)
    : gmap string (list ServiceInfo) :=
  List.fold_left port_step
    (as_completed (fun t => check_port_rank w (fst t) (snd t))
       (all_scan_tasks hosts services_to_scan))
    (empty_service_results hosts).

End Completed.

(** ** The vendor of a MAC address, as the OUI file gives it *)

Section Vendors.

Variable w : World.

(** The table that [_load_ieee_oui_file] builds from the lines of the
    file. *)
Definition oui_table (lines : list string) : gmap string string :=
  List.fold_left load_oui_line lines ∅.

(** The vendor that the file gives for a MAC address: the entry of its
    first six hexadecimal digits. *)
Definition vendor_of (mac : string) : string :=
  match oui_file w with
  | OuiLines lines => default "Unknown" (oui_table lines !! PyStr.take 6 (normalize_mac mac))
  | _ => "Unknown"
  end.

(** What the scanner remembers agrees with the file: the two attributes
    that [_get_vendor_ieee_oui] sets on first use, and the cache. *)
Definition vendors_agree (s : Scanner) : Prop :=
  (_ieee_oui_available s = None \/
   _ieee_oui_available s = Some (match oui_file w with OuiMissing => false | _ => true end)) /\
  (_oui_database s = None \/
   _oui_database s = Some (match oui_file w with OuiLines lines => oui_table lines | _ => ∅ end)) /\
  (forall mac vendor,
     vendor_cache s !! normalize_mac mac = Some vendor -> vendor = vendor_of mac).

End Vendors.

(** A text that consists of white space. *)
Fixpoint all_space (s : string) : bool :=
  match s with
  | EmptyString => true
  | String c r => PyStr.is_space c && all_space r
  end.

(** ** [utils/network.py]: the addresses of this machine *)

Module LocalIps.
Import PyStr.

(** What the socket calls of [get_local_ips] answer; [None] and [false]
    stand for an exception. *)
Record Sockets : Type := {
  gethostname_ok : bool;                        (* [socket.gethostname()] *)
  primary_ip : option string;                   (* [s.getsockname()[0]] after [s.connect] *)
  getaddrinfo : option (list string);           (* the [addr_info[4][0]], in order *)
  gethostbyname_ex : option (list string)       (* the third component, [ips] *)
}.

(** [ip in local_ips] *)
Definition mem (ip : string) (local_ips : list string) : bool :=
  List.existsb (String.eqb ip) local_ips.

(** The body of the loops of the second and third method. *)
Definition add_unless_loopback (local_ips : list string) (ip : string) : list string :=
  if negb (mem ip local_ips) && negb (startswith "127." ip)
  then (local_ips ++ [ip])%list else local_ips.

(** [get_local_ips] *)
Definition get_local_ips (net : Sockets) : list string :=
  if negb (gethostname_ok net) then []
  else
    let local_ips := [] in
    let local_ips :=
      match primary_ip net with
      | Some ip => if negb (mem ip local_ips) then (local_ips ++ [ip])%list else local_ips
      | None => local_ips
      end in
    let local_ips :=
      match getaddrinfo net with
      | Some ips => List.fold_left add_unless_loopback ips local_ips
      | None => local_ips
      end in
    match gethostbyname_ex net with
    | Some ips => List.fold_left add_unless_loopback ips local_ips
    | None => local_ips
    end.

(** [is_local_ip] *)
Definition is_local_ip (net : Sockets) (ip : string) : bool :=
  if startswith "127." ip then true else mem ip (get_local_ips net).

End LocalIps.

(** ** [core/scanner.py]: the device type of a host *)

Section DeviceHints.

Variable w : World.

Import PyStr.

Definition lower_char (c : ascii) : ascii :=
  let n := N_of_ascii c in
  if ((65 <=? n) && (n <=? 90))%N then ascii_of_N (n + 32) else c.

(** [s.lower()] *)
Fixpoint lower (s : string) : string :=
  match s with
  | EmptyString => EmptyString
  | String x r => String (lower_char x) (lower r)
  end.

(** [sub in s], for two texts *)
Fixpoint contains_str (sub s : string) : bool :=
  startswith sub s ||
  match s with
  | EmptyString => false
  | String _ r => contains_str sub r
  end.

(** [port in service_ports] *)
Definition port_in (p : Z) (service_ports : list Z) : bool :=
  List.existsb (Z.eqb p) service_ports.

(** [any(port in service_ports for port in ports)] *)
Definition any_port (ports service_ports : list Z) : bool :=
  List.existsb (fun p => port_in p service_ports) ports.

(** [[p for p in service_ports if p in ports]] *)
Definition ports_among (service_ports ports : list Z) : list Z :=
  List.filter (fun p => port_in p ports) service_ports.

(** [_get_device_type_hint]; the hostname is the one that [_get_hostname]
    has in its cache for the address. *)
Definition _get_device_type_hint (ip : string) (services : list ServiceInfo) : string :=
  if startswith "127." ip || String.eqb ip "::1" then ""
  else
    let service_ports := List.map port services in
    let is_likely_gateway := endswith ".1" ip || endswith ".254" ip || endswith ".255" ip in
    let result := get_hostname w ip in
    let hostname :=
      if negb (String.eqb result "")
         && negb (String.eqb (lower result) "unknown" || String.eqb (lower result) ip)
      then lower result else "" in
    let gateway_hostnames :=
      List.existsb (fun term => contains_str term hostname)
        ["gateway"; "router"; "gw"; "rt"; "firewall"; "fw"] in
    let has_web_interface := any_port [80; 443]%Z service_ports in
    let has_multiple_network_services :=
      (2 <=? List.length (ports_among service_ports [53; 67; 123; 161]%Z))%nat in
    if (is_likely_gateway && has_web_interface)
       || (gateway_hostnames && has_web_interface && has_multiple_network_services)
    then "Router"
    else if any_port [631; 9100; 515]%Z service_ports then "Printer"
    else
      let db_ports := [3306; 5432; 27017; 6379]%Z in
      let db_services := ports_among service_ports db_ports in
      let other_services :=
        List.filter (fun p => negb (port_in p (db_ports ++ [22; 80; 443]%Z)%list)) service_ports in
      if match db_services with [] => false | _ => true end
         && (List.length other_services <=? 1)%nat && (1 <=? List.length db_services)%nat
      then "Database Server"
      else if (2 <=? List.length
                       (ports_among service_ports [25; 110; 143; 465; 993; 995]%Z))%nat
      then "Mail Server"
      else if any_port [5000; 5001; 2049; 548]%Z service_ports then "NAS"
      else if any_port [8008; 8009; 7000; 32469; 1900]%Z service_ports then "Media Device"
      else if any_port [554; 8554; 1935]%Z service_ports then "Camera"
      else if match ports_among service_ports [3000; 3001; 5000; 8000; 8001]%Z with
              | [] => false | _ => true end
              && (List.length service_ports <=? 3)%nat
      then "Dev Server"
      else
        let strong_server_indicators :=
          ((if any_port [80; 443]%Z service_ports && (5 <=? List.length service_ports)%nat
            then 1 else 0)
           + (if port_in 22 service_ports && (5 <=? List.length service_ports)%nat
              then 1 else 0)
           + (if any_port [25; 110; 143; 465; 993; 995]%Z service_ports then 1 else 0)
           + (if any_port [88; 389; 636]%Z service_ports then 1 else 0))%nat in
        if (2 <=? strong_server_indicators)%nat then
          if port_in 3389 service_ports then "Windows Server"
          else if port_in 22 service_ports then "Linux Server"
          else if any_port [80; 443]%Z service_ports then "Web Server"
          else ""
        else "".

End DeviceHints.

(** A world in which the device type is the one that
    [_get_device_type_hint] computes. *)
Definition with_device_hints (w : World) : World := {|
  callback_raises := callback_raises w;
  stop_at := stop_at w;
  ping := ping w;
  ping_rank := ping_rank w;
  arp_entries := arp_entries w;
  tcp_ping := tcp_ping w;
  get_hostname := get_hostname w;
  hostname_rank := hostname_rank w;
  check_port_socket := check_port_socket w;
  check_port_rank := check_port_rank w;
  get_device_type_hint := _get_device_type_hint w;
  oui_file := oui_file w
|}.

(** ** The addresses that a scan reaches *)

Module Reach.
Import Observe.

(** The hostname lookups submitted. *)
Definition resolves (l : list event) : list string :=
  List.flat_map (fun e => match e with EResolve ip => [ip] | _ => [] end) l.

(** The addresses to which the scanner sent or submitted anything: a ping,
    a TCP probe, a hostname lookup or a port check. *)
Definition addresses_reached (l : list event) : list string :=
  List.flat_map
    (fun e => match e with
              | EPing ip | ETcpPing ip _ | EResolve ip | ECheckPort ip _ => [ip]
              | _ => []
              end) l.

(** [ip in l] *)
Definition listed (ip : string) (l : list string) : bool := List.existsb (String.eqb ip) l.

(** The events of a scan whose probes go to [ip_list] only, on the test
    ports, and whose lookups and port checks go to [hosts] only. *)
Definition within (ip_list hosts : list string) (e : event) : bool :=
  match e with
  | EPing ip => listed ip ip_list
  | ETcpPing ip port => listed ip ip_list && List.existsb (Z.eqb port) test_ports
  | EResolve ip | ECheckPort ip _ => listed ip hosts
  | _ => true
  end.

(** The keys of the neighbour table that [_is_in_network] accepts. *)
Definition neighbours_in (w : World) (network_range : string) : list string :=
  List.filter (fun ip => _is_in_network ip network_range) (dict_keys (system_arp_table w)).

(** Since the state [s0], the scanner has submitted the pings [p] and the
    TCP probes [t], in this order. *)
Definition probes_since (s0 : Scanner) (p : list string) (t : list (string * Z))
    (s : Scanner) : Prop :=
  exists new, log s = (log s0 ++ new)%list /\ pings new = p /\ tcp_pings new = t.

(** An event that is no ping and no TCP probe. *)
Definition quiet (e : event) : bool := negb (Frame.probe_event e).

(** An event that is no ping, no TCP probe and not the report
    [Checking ARP table...], which follows the ping sweep. *)
Definition calm (e : event) : bool :=
  quiet e && match e with EProgress PCheckingArp => false | _ => true end.

(** Nobody has asked the scan to stop, and since the state [s0] it has
    pinged the addresses [p], and has not yet gone beyond the ping sweep. *)
Definition sweeping (s0 : Scanner) (p : list string) (s : Scanner) : Prop :=
  _stop_scanning s = false /\
  exists new, log s = (log s0 ++ new)%list /\ pings new = p /\ tcp_pings new = [] /\
              ~ In (EProgress PCheckingArp) new.

(** Since the state [s0], a scan that has gone beyond the ping sweep has
    pinged the addresses [ip_list]. *)
Definition swept (s0 : Scanner) (ip_list : list string) (s : Scanner) : Prop :=
  exists new, log s = (log s0 ++ new)%list /\
              (In (EProgress PCheckingArp) new -> pings new = ip_list).

End Reach.

(** ** The progress that a scan reports *)

Module Reports.
Import Observe.

(** The percentages passed to the progress callback, in order. *)
Definition percentages (l : list event) : list Q := List.map percentage (reports l).

(** No number of the list is smaller than one before it. *)
Fixpoint never_decreasing (l : list Q) : Prop :=
  match l with
  | [] => True
  | q :: rest => Forall (fun q' => q <= q')%Q rest /\ never_decreasing rest
  end.

(** An event that is no progress report. *)
Definition silent (e : event) : bool :=
  match e with
  | EProgress _ => false
  | _ => true
  end.

(** Since the state [s0], the percentages reported have not decreased and
    have not gone beyond [b]. *)
Definition reported_upto (s0 : Scanner) (b : Q) (s : Scanner) : Prop :=
  exists new, log s = (log s0 ++ new)%list /\
              never_decreasing (percentages new) /\
              Forall (fun q => q <= b)%Q (percentages new).

End Reports.

(** * Properties *)

(** ** Strings *)

Module PyStrFacts.
Import PyStr.

Lemma append_assoc (a b c : string) : (a ++ b) ++ c = a ++ (b ++ c).
Proof.
  induction a as [|x a IH]; [reflexivity|].
  change (String x ((a ++ b) ++ c) = String x (a ++ b ++ c)).
  rewrite IH. reflexivity.
Qed.

Lemma contains_app c a b : contains c (a ++ b) = contains c a || contains c b.
Proof.
  induction a as [|x a IH]; simpl; [reflexivity|].
  destruct (Ascii.eqb x c); [reflexivity | exact IH].
Qed.

Lemma count_app c a b : count c (a ++ b) = (count c a + count c b)%nat.
Proof.
  induction a as [|x a IH]; simpl; [reflexivity|].
  rewrite IH. lia.
Qed.

Lemma count_absent c a : contains c a = false -> count c a = 0%nat.
Proof.
  induction a as [|x a IH]; simpl; [reflexivity|].
  destruct (Ascii.eqb x c); [discriminate | auto].
Qed.

Lemma split_nonempty c s : split c s <> [].
Proof.
  destruct s as [|x r]; simpl; [discriminate|].
  destruct (Ascii.eqb x c); [discriminate|].
  destruct (split c r); discriminate.
Qed.

Lemma split_absent c a : contains c a = false -> split c a = [a].
Proof.
  induction a as [|x a IH]; simpl; [reflexivity|].
  destruct (Ascii.eqb x c); [discriminate|].
  intros H. rewrite (IH H). reflexivity.
Qed.

Lemma split_app c a b :
  contains c a = false -> split c (a ++ String c b) = a :: split c b.
Proof.
  induction a as [|x a IH]; simpl.
  - intros _. rewrite Ascii.eqb_refl. reflexivity.
  - destruct (Ascii.eqb x c); [discriminate|].
    intros H. rewrite (IH H). reflexivity.
Qed.

Lemma split_sep c a b :
  contains c a = false -> split c (a ++ String c EmptyString ++ b) = a :: split c b.
Proof. apply split_app. Qed.

Lemma all_digits_app a b : all_digits (a ++ b) = all_digits a && all_digits b.
Proof.
  induction a as [|x a IH]; simpl; [reflexivity|].
  rewrite IH. apply andb_assoc.
Qed.

Lemma all_digits_contains c s :
  is_digit c = false -> all_digits s = true -> contains c s = false.
Proof.
  intros Hc. induction s as [|x s IH]; simpl; [reflexivity|].
  intros H. apply andb_true_iff in H as [Hx Hs].
  destruct (Ascii.eqb_spec x c) as [->|_]; [congruence | auto].
Qed.

Lemma is_digit_not_space c : is_digit c = true -> is_space c = false.
Proof.
  unfold is_digit, is_space. generalize (N_of_ascii c). intros n H.
  apply andb_true_iff in H as [H1 H2].
  apply N.leb_le in H1. apply N.leb_le in H2.
  repeat rewrite orb_false_iff. repeat split.
  - apply N.eqb_neq. lia.
  - apply andb_false_iff. right. apply N.leb_gt. lia.
  - apply andb_false_iff. right. apply N.leb_gt. lia.
Qed.

Lemma rstrip_digits s : all_digits s = true -> rstrip s = s.
Proof.
  induction s as [|x s IH]; simpl; [reflexivity|].
  intros H. apply andb_true_iff in H as [Hx Hs].
  rewrite (IH Hs). destruct s; [|reflexivity].
  rewrite (is_digit_not_space _ Hx). reflexivity.
Qed.

Lemma strip_digits s : all_digits s = true -> strip s = s.
Proof.
  intros H. unfold strip.
  destruct s as [|x s]; [reflexivity|].
  simpl lstrip. simpl in H. apply andb_true_iff in H as [Hx Hs].
  rewrite (is_digit_not_space _ Hx).
  apply rstrip_digits. simpl. rewrite Hx, Hs. reflexivity.
Qed.

Lemma digit_char_spec d :
  (d < 10)%N -> is_digit (digit_char d) = true /\ digit_val (digit_char d) = d.
Proof.
  intros H.
  assert (Hd : In d [0;1;2;3;4;5;6;7;8;9]%N).
  { simpl. destruct d as [|p]; [auto|].
    do 10 (destruct p as [p|p|]; try lia; auto 12). }
  simpl in Hd.
  repeat (destruct Hd as [<-|Hd]; [split; reflexivity|]). destruct Hd.
Qed.

Lemma is_digit_digit_char d : (d < 10)%N -> is_digit (digit_char d) = true.
Proof. intros H. apply (digit_char_spec d H). Qed.

Lemma digit_val_digit_char d : (d < 10)%N -> digit_val (digit_char d) = d.
Proof. intros H. apply (digit_char_spec d H). Qed.

Lemma digits_from_all_digits fuel : forall n acc,
  all_digits acc = true -> all_digits (digits_from fuel n acc) = true.
Proof.
  induction fuel as [|f IH]; intros n acc Hacc; simpl; [exact Hacc|].
  destruct (N.ltb_spec n 10).
  - simpl. rewrite is_digit_digit_char by assumption. exact Hacc.
  - apply IH. simpl. rewrite is_digit_digit_char, Hacc; [reflexivity|].
    apply N.mod_lt. discriminate.
Qed.

Lemma digits_from_nonempty f n acc : digits_from (S f) n acc <> EmptyString.
Proof.
  revert n acc. induction f as [|f IH]; intros n acc; simpl.
  - destruct (n <? 10)%N; discriminate.
  - destruct (n <? 10)%N; [discriminate|]. apply IH.
Qed.

Lemma digits_from_S f n acc :
  digits_from (S f) n acc =
  if (n <? 10)%N then String (digit_char n) acc
  else digits_from f (n / 10)%N (String (digit_char (n mod 10)%N) acc).
Proof. reflexivity. Qed.

Lemma int_body_digits_from f : forall n acc b,
  (n < 2 ^ N.of_nat (S f))%N ->
  int_body (digits_from (S f) n acc) 0 b = int_body acc n true.
Proof.
  induction f as [|f IH]; intros n acc b Hn.
  - change (2 ^ N.of_nat 1)%N with 2%N in Hn.
    simpl. destruct (N.ltb_spec n 10); [|lia].
    simpl. rewrite is_digit_digit_char, digit_val_digit_char by assumption.
    reflexivity.
  - rewrite digits_from_S. destruct (N.ltb_spec n 10).
    + simpl. rewrite is_digit_digit_char, digit_val_digit_char by assumption.
      reflexivity.
    + rewrite IH.
      * cbn [int_body].
        assert (Hm : (n mod 10 < 10)%N) by (apply N.mod_lt; discriminate).
        rewrite is_digit_digit_char, digit_val_digit_char by assumption.
        f_equal. rewrite (N.div_mod n 10) at 3 by discriminate. lia.
      * rewrite Nat2N.inj_succ, N.pow_succ_r' in Hn.
        apply N.Div0.div_lt_upper_bound. lia.
Qed.

Lemma str_of_N_all_digits n : all_digits (str_of_N n) = true.
Proof. apply digits_from_all_digits. reflexivity. Qed.

Lemma str_of_N_nonempty n : str_of_N n <> EmptyString.
Proof. apply digits_from_nonempty. Qed.

Lemma str_of_N_isdigit n : isdigit (str_of_N n) = true.
Proof.
  unfold isdigit. generalize (str_of_N_all_digits n) (str_of_N_nonempty n).
  destruct (str_of_N n); [congruence | auto].
Qed.

Lemma int_body_str_of_N n : int_body (str_of_N n) 0 false = Some n.
Proof.
  unfold str_of_N. rewrite int_body_digits_from; [reflexivity|].
  rewrite Nat2N.inj_succ, N2Nat.id.
  destruct n as [|p]; [reflexivity|].
  apply N.log2_spec. reflexivity.
Qed.

Lemma is_digit_not_sign c :
  is_digit c = true -> Ascii.eqb c "+" = false /\ Ascii.eqb c "-" = false.
Proof.
  intros H. split; destruct (Ascii.eqb_spec c "+"), (Ascii.eqb_spec c "-");
    subst; try reflexivity; discriminate.
Qed.

Lemma int_digits s :
  isdigit s = true -> int s = option_map Z.of_N (int_body s 0 false).
Proof.
  unfold isdigit, int. destruct s as [|c r]; [discriminate|].
  intros H. rewrite (strip_digits _ H).
  simpl in H. apply andb_true_iff in H as [Hc _].
  destruct (is_digit_not_sign c Hc) as [-> ->]. reflexivity.
Qed.

(** [int(str(n)) == n] *)
Lemma int_str_of_N n : int (str_of_N n) = Some (Z.of_N n).
Proof.
  rewrite int_digits by apply str_of_N_isdigit.
  rewrite int_body_str_of_N. reflexivity.
Qed.

Lemma str_of_N_inj m n : str_of_N m = str_of_N n -> m = n.
Proof.
  intros H. pose proof (int_body_str_of_N m) as Hm.
  rewrite H, int_body_str_of_N in Hm. congruence.
Qed.

Lemma str_nonneg n : str (Z.of_N n) = str_of_N n.
Proof.
  unfold str. destruct (Z.ltb_spec (Z.of_N n) 0); [lia|].
  rewrite N2Z.id. reflexivity.
Qed.

Lemma str_of_N_contains c n : is_digit c = false -> contains c (str_of_N n) = false.
Proof. intros H. apply all_digits_contains; [exact H | apply str_of_N_all_digits]. Qed.

Lemma range_length a b : List.length (range a b) = Z.to_nat (b - a).
Proof. unfold range. rewrite length_map, length_seq. reflexivity. Qed.

End PyStrFacts.

(** ** Addresses *)

Module IpAddressFacts.
Import PyStr PyStrFacts IpAddress RangeSpec.

Lemma parse_octet_str_of_N n : (n <= 255)%N -> parse_octet (str_of_N n) = Some n.
Proof.
  intros Hn.
  assert (Hall : forallb (fun k => match parse_octet (str_of_N (N.of_nat k)) with
                                   | Some m => N.eqb m (N.of_nat k)
                                   | None => false
                                   end) (List.seq 0 256) = true)
    by (vm_compute; reflexivity).
  rewrite forallb_forall in Hall.
  specialize (Hall (N.to_nat n)). rewrite N2Nat.id in Hall.
  destruct (parse_octet (str_of_N n)) as [m|].
  - f_equal. apply N.eqb_eq. apply Hall. apply in_seq. lia.
  - exfalso. assert (false = true); [|discriminate]. apply Hall. apply in_seq. lia.
Qed.

Lemma parse_octet_too_large n : (255 < n)%N -> parse_octet (str_of_N n) = None.
Proof.
  intros Hn. unfold parse_octet.
  rewrite str_of_N_isdigit. simpl negb. cbv iota.
  destruct (3 <? String.length (str_of_N n))%nat; [reflexivity|].
  destruct (negb (String.eqb (str_of_N n) "0") && startswith "0" (str_of_N n));
    [reflexivity|].
  rewrite int_str_of_N.
  destruct (Z.ltb_spec 255 (Z.of_N n)); [reflexivity | lia].
Qed.

Lemma dot_not_digit : is_digit "." = false.
Proof. reflexivity. Qed.

Lemma split_dotted a b c d :
  split "." (dotted a b c d) = [str_of_N a; str_of_N b; str_of_N c; str_of_N d].
Proof.
  unfold dotted.
  repeat (rewrite split_sep by (apply str_of_N_contains; reflexivity)).
  rewrite split_absent by (apply str_of_N_contains; reflexivity).
  reflexivity.
Qed.

Lemma contains_dotted x a b c d :
  is_digit x = false -> x <> "."%char -> contains x (dotted a b c d) = false.
Proof.
  intros Hx Hdot. unfold dotted.
  assert (Hd : contains x "." = false).
  { change (contains x ".") with (if Ascii.eqb "." x then true else false).
    destruct (Ascii.eqb_spec "."%char x); [congruence | reflexivity]. }
  repeat rewrite contains_app.
  repeat rewrite (str_of_N_contains x) by exact Hx.
  rewrite Hd. reflexivity.
Qed.

Lemma dotted_nonempty a b c d : String.eqb (dotted a b c d) "" = false.
Proof.
  unfold dotted. generalize (str_of_N_nonempty a).
  destruct (str_of_N a); [congruence | reflexivity].
Qed.

(** A dotted quad of octets is read back as its ordinal. *)
Lemma ip_address_dotted a b c d :
  (a <= 255)%N -> (b <= 255)%N -> (c <= 255)%N -> (d <= 255)%N ->
  ip_address (dotted a b c d) = Some (ordinal a b c d).
Proof.
  intros Ha Hb Hc Hd. unfold ip_address, ip_int_from_string.
  rewrite contains_dotted by (reflexivity || discriminate).
  rewrite dotted_nonempty, split_dotted.
  rewrite !parse_octet_str_of_N by assumption. reflexivity.
Qed.

(** A last field above 255 makes the text an invalid address literal. *)
Lemma ip_address_dotted_invalid a b c d :
  (255 < d)%N -> ip_address (dotted a b c d) = None.
Proof.
  intros Hd. unfold ip_address, ip_int_from_string.
  rewrite contains_dotted by (reflexivity || discriminate).
  rewrite dotted_nonempty, split_dotted.
  rewrite (parse_octet_too_large d Hd).
  destruct (parse_octet (str_of_N a)), (parse_octet (str_of_N b)),
    (parse_octet (str_of_N c)); reflexivity.
Qed.

Lemma dotted_inj_last a b c d d' : dotted a b c d = dotted a b c d' -> d = d'.
Proof.
  intros H. pose proof (split_dotted a b c d) as H1.
  rewrite H, split_dotted in H1. injection H1 as H1. symmetry. exact (str_of_N_inj _ _ H1).
Qed.

Lemma iota_length start len : List.length (iota start len) = len.
Proof. unfold iota. rewrite length_map, length_seq. reflexivity. Qed.

Lemma in_iota x start len :
  In x (iota start len) <-> (start <= x < start + N.of_nat len)%N.
Proof.
  unfold iota. rewrite in_map_iff. split.
  - intros (k & <- & Hk). apply in_seq in Hk. lia.
  - intros H. exists (N.to_nat (x - start)). split; [lia|]. apply in_seq. lia.
Qed.

End IpAddressFacts.

(** ** [parse_ip_range] *)

Module ParseFacts.
Import PyStr PyStrFacts IpAddress IpAddressFacts RangeSpec.

Lemma lstrip_no_space s :
  (forall c, contains c s = true -> is_space c = false) -> lstrip s = s.
Proof.
  destruct s as [|x r]; [reflexivity|]. intros H. simpl.
  rewrite (H x); [reflexivity|]. simpl. rewrite Ascii.eqb_refl. reflexivity.
Qed.

Lemma rstrip_no_space s :
  (forall c, contains c s = true -> is_space c = false) -> rstrip s = s.
Proof.
  induction s as [|x r IH]; [reflexivity|]. intros H. simpl.
  rewrite IH.
  - destruct r; [|reflexivity].
    rewrite (H x); [reflexivity|]. simpl. rewrite Ascii.eqb_refl. reflexivity.
  - intros c Hc. apply H. simpl. rewrite Hc. destruct (Ascii.eqb x c); reflexivity.
Qed.

Lemma strip_no_space s :
  (forall c, contains c s = true -> is_space c = false) -> strip s = s.
Proof.
  intros H. unfold strip. rewrite lstrip_no_space by exact H.
  apply rstrip_no_space. exact H.
Qed.

Lemma strip_dotted a b c d : strip (dotted a b c d) = dotted a b c d.
Proof.
  apply strip_no_space. intros x Hx.
  destruct (is_space x) eqn:Hs; [|reflexivity].
  rewrite contains_dotted in Hx; [discriminate| |].
  - destruct (is_digit x) eqn:Hd; [|reflexivity].
    rewrite (is_digit_not_space x Hd) in Hs. discriminate.
  - intros ->. discriminate.
Qed.

Lemma dotted_split_last a b c d :
  dotted a b c d =
  join "." (but_last (split "." (dotted a b c d))) ++ "." ++ str_of_N d.
Proof.
  rewrite split_dotted. unfold dotted. simpl.
  rewrite !append_assoc. reflexivity.
Qed.

Lemma range_as_iota s e :
  range (Z.of_N s) (Z.of_N e + 1) =
  List.map Z.of_N (iota s (N.to_nat (e + 1 - s))).
Proof.
  unfold range, iota. rewrite map_map.
  replace (Z.to_nat (Z.of_N e + 1 - Z.of_N s)) with (N.to_nat (e + 1 - s)) by lia.
  apply map_ext. intros k. lia.
Qed.

(** The trailing-octet form: one text per value of [range(s, e + 1)],
    whatever [e] is. *)
Lemma parse_trailing_octet_range a b c s e :
  (a <= 255)%N -> (b <= 255)%N -> (c <= 255)%N -> (s <= 255)%N ->
  parse_ip_range (trailing_octet_range a b c s e) =
  Ok (List.map (dotted a b c) (iota s (N.to_nat (e + 1 - s)))).
Proof.
  intros Ha Hb Hc Hs. unfold parse_ip_range, trailing_octet_range.
  rewrite !contains_app.
  rewrite (contains_dotted "/") by (reflexivity || discriminate).
  rewrite (str_of_N_contains "/") by reflexivity.
  change (contains "/" "-") with false. simpl orb. cbv iota.
  change (contains "-" "-") with true. rewrite orb_true_r. cbv iota.
  rewrite !count_app.
  rewrite (count_absent "-" (dotted a b c s))
    by (apply contains_dotted; reflexivity || discriminate).
  rewrite (count_absent "-" (str_of_N e)) by (apply str_of_N_contains; reflexivity).
  change (0 + (count "-" "-" + 0) =? 1)%nat with true. cbv iota.
  rewrite split_sep by (apply contains_dotted; reflexivity || discriminate).
  rewrite split_absent by (apply str_of_N_contains; reflexivity).
  rewrite strip_dotted, (strip_digits _ (str_of_N_all_digits e)).
  rewrite ip_address_dotted by assumption.
  rewrite (str_of_N_contains ".") by reflexivity. simpl negb. cbv iota.
  rewrite split_dotted.
  change (last_item [str_of_N a; str_of_N b; str_of_N c; str_of_N s]) with (str_of_N s).
  rewrite !int_str_of_N. f_equal.
  rewrite range_as_iota, map_map. apply map_ext. intros i.
  rewrite str_nonneg. unfold dotted. simpl.
  rewrite !append_assoc. reflexivity.
Qed.

Lemma make_netmask_prefix n : (n <= 32)%N -> make_netmask (str_of_N n) = Some n.
Proof.
  intros Hn. unfold make_netmask, prefix_from_prefix_string.
  rewrite str_of_N_isdigit, int_str_of_N. simpl negb. cbv iota.
  unfold max_prefixlen.
  destruct (Z.leb_spec 0 (Z.of_N n)); [|lia].
  destruct (Z.leb_spec (Z.of_N n) (Z.of_N 32)); [|lia].
  simpl. rewrite N2Z.id. reflexivity.
Qed.

(** The CIDR form: the hosts of the network that contains the address. *)
Lemma parse_cidr a b c d n :
  (a <= 255)%N -> (b <= 255)%N -> (c <= 255)%N -> (d <= 255)%N -> (n <= 32)%N ->
  parse_ip_range (cidr a b c d n) =
  Ok (List.map str_of_address
        (hosts {| network_address := N.land (ordinal a b c d) (netmask_of_prefix n);
                  prefixlen := n |})).
Proof.
  intros Ha Hb Hc Hd Hn. unfold parse_ip_range, cidr.
  rewrite !contains_app. change (contains "/" "/") with true.
  rewrite orb_true_r. cbv iota.
  unfold ip_network.
  rewrite split_sep by (apply contains_dotted; reflexivity || discriminate).
  rewrite split_absent by (apply str_of_N_contains; reflexivity).
  rewrite ip_address_dotted by assumption.
  rewrite make_netmask_prefix by assumption.
  reflexivity.
Qed.

Lemma netmask_hostmask_disjoint n :
  (n <= 32)%N -> N.land (netmask_of_prefix n) (2 ^ (max_prefixlen - n) - 1) = 0%N.
Proof.
  intros Hn.
  assert (Hall : forallb (fun k => N.eqb (N.land (netmask_of_prefix (N.of_nat k))
                                           (2 ^ (max_prefixlen - N.of_nat k) - 1)) 0)
                   (List.seq 0 33) = true) by (vm_compute; reflexivity).
  rewrite forallb_forall in Hall.
  specialize (Hall (N.to_nat n)). rewrite N2Nat.id in Hall.
  apply N.eqb_eq, Hall, in_seq. lia.
Qed.

(** In a network of prefix length [n], the broadcast address is the
    network address plus [2^(32-n) - 1]. *)
Lemma broadcast_offset x n :
  (n <= 32)%N ->
  let net := {| network_address := N.land x (netmask_of_prefix n); prefixlen := n |} in
  broadcast_address net = (network_address net + (2 ^ (32 - n) - 1))%N.
Proof.
  intros Hn net. unfold broadcast_address, hostmask. cbn [network_address prefixlen net].
  change max_prefixlen with 32%N.
  assert (Hz : N.land (N.land x (netmask_of_prefix n)) (2 ^ (32 - n) - 1) = 0%N).
  { rewrite <- N.land_assoc.
    rewrite (netmask_hostmask_disjoint n Hn : N.land _ (2 ^ (32 - n) - 1) = 0%N).
    apply N.land_0_r. }
  rewrite <- (N.lxor_lor _ _ Hz). symmetry. apply N.add_nocarry_lxor. exact Hz.
Qed.

(** For [n <= 30] the hosts are the [2^(32-n) - 2] ordinals strictly between
    the network address and the broadcast address, in ascending order. *)
Lemma hosts_upto_30 x n :
  (n <= 30)%N ->
  let net := {| network_address := N.land x (netmask_of_prefix n); prefixlen := n |} in
  hosts net = iota (network_address net + 1) (N.to_nat (2 ^ (32 - n) - 2)).
Proof.
  intros Hn net. unfold hosts.
  change (prefixlen net) with n. change max_prefixlen with 32%N.
  destruct (N.eqb_spec n (32 - 1)); [lia|].
  destruct (N.eqb_spec n 32); [lia|].
  f_equal. f_equal.
  unfold net. rewrite broadcast_offset by lia.
  cbn [network_address].
  assert (2 ^ 2 <= 2 ^ (32 - n))%N by (apply N.pow_le_mono_r; lia).
  change (2 ^ 2)%N with 4%N in *. lia.
Qed.

End ParseFacts.

(** ** The scanner monad *)

Module MonadFacts.
Import Frame.

Section Respects.
Context (w : World) (R : Scanner -> Scanner -> Prop) (E : event -> Prop).
Hypothesis Rrefl : forall s, R s s.
Hypothesis Rtrans : forall a b c, R a b -> R b c -> R a c.
Hypothesis Remit : forall e, E e -> respects R (emit w e).

Lemma respects_ret {A} (a : A) : respects R (ret a).
Proof using Rrefl. intros s. apply Rrefl. Qed.

Lemma respects_raise {A} e : respects R (@raise A e).
Proof using Rrefl. intros s. apply Rrefl. Qed.

Lemma respects_get_state : respects R get_state.
Proof using Rrefl. intros s. apply Rrefl. Qed.

Lemma respects_pure {A} (x : result A) : respects R (fun s => (x, s)).
Proof using Rrefl. intros s. apply Rrefl. Qed.

Lemma respects_modify f : (forall s, R s (f s)) -> respects R (modify f).
Proof using Type. intros H s. apply H. Qed.

Lemma respects_bind {A B} (m : M A) (k : A -> M B) :
  respects R m -> (forall a, respects R (k a)) -> respects R (bind m k).
Proof using Rtrans.
  intros Hm Hk s. unfold bind. specialize (Hm s).
  destruct (m s) as [[a|e] s1]; [|exact Hm].
  eapply Rtrans; [exact Hm | apply Hk].
Qed.

Lemma respects_try_except {A} (m : M A) (h : exn -> M A) :
  respects R m -> (forall e, respects R (h e)) -> respects R (try_except m h).
Proof using Rtrans.
  intros Hm Hh s. unfold try_except. specialize (Hm s).
  destruct (m s) as [[a|e] s1]; [exact Hm|].
  eapply Rtrans; [exact Hm | apply Hh].
Qed.

Lemma respects_for_each {A S} (l : list A) (body : A -> S -> M (loop S)) :
  (forall x st, respects R (body x st)) -> forall st, respects R (for_each l body st).
Proof using Rrefl Rtrans.
  intros Hbody. induction l as [|x l IH]; intros st; simpl.
  - apply respects_ret.
  - apply respects_bind; [apply Hbody|].
    intros [st'|st']; [apply IH | apply respects_ret].
Qed.

Lemma respects_stop_requested :
  (forall b, E (EStopCheck b)) -> respects R (stop_requested w).
Proof using Remit.
  intros HE s. unfold stop_requested.
  specialize (Remit _ (HE (_stop_scanning s)) s).
  destruct (emit w (EStopCheck (_stop_scanning s)) s). exact Remit.
Qed.

Lemma respects_update_progress p :
  E (EProgress p) -> respects R (_update_progress w p).
Proof using Rrefl Rtrans Remit.
  intros HE. unfold _update_progress. apply respects_bind; [apply Remit, HE|].
  intros _. destruct (callback_raises w p); [apply respects_raise | apply respects_ret].
Qed.

Lemma respects_executor n : respects R (ThreadPoolExecutor n).
Proof using Rrefl.
  unfold ThreadPoolExecutor. destruct (n <=? 0)%Z; [apply respects_raise | apply respects_ret].
Qed.

Lemma respects_submit_all {A} (ev : A -> event) l :
  (forall x, E (ev x)) -> respects R (submit_all w ev l).
Proof using Rrefl Rtrans Remit.
  intros HE. induction l as [|x l IH]; simpl.
  - apply respects_ret.
  - apply respects_bind; [apply Remit, HE | intros _; exact IH].
Qed.

(** The scanner's own functions, for a relation that the cache updates
    respect. *)
Hypothesis Rcache : forall c s, R s (set_vendor_cache c s).
Hypothesis Ravail : forall b s, R s (set_ieee_oui_available b s).
Hypothesis Rdb : forall d s, R s (set_oui_database d s).

Ltac respects_tac HE :=
  repeat first
    [ apply respects_ret | apply respects_raise | apply respects_get_state
    | apply respects_pure
    | apply respects_stop_requested; intros; apply HE; reflexivity
    | apply respects_update_progress; apply HE; reflexivity
    | apply respects_executor
    | apply respects_submit_all; intros; apply HE; reflexivity
    | apply Remit, HE; reflexivity
    | apply respects_bind; [|intros]
    | apply respects_try_except; [|intros]
    | apply respects_for_each; intros
    | apply respects_modify; intros; first [apply Rcache | apply Ravail | apply Rdb]
    | progress cbv beta
    | match goal with
      | |- respects _ (if ?b then _ else _) => destruct b
      | |- respects _ (match ?x with _ => _ end) => destruct x
      | |- respects _ ((match ?x with _ => _ end) _) => destruct x
      end ].

Lemma respects_get_vendor_ieee_oui mac :
  E (EOuiLookup mac) -> respects R (_get_vendor_ieee_oui w mac).
Proof using All.
  intros HE. unfold _get_vendor_ieee_oui, _load_ieee_oui_file.
  apply respects_bind; [apply Remit, HE | intros _].
  respects_tac HE.
Qed.

Lemma respects_get_vendor mac :
  E (EOuiLookup mac) -> respects R (_get_vendor w mac).
Proof using All.
  intros HE. unfold _get_vendor.
  apply respects_bind; [apply respects_get_state | intros s0].
  destruct (vendor_cache s0 !! _); [apply respects_ret|].
  apply respects_try_except.
  - apply respects_bind; [apply respects_get_vendor_ieee_oui, HE | intros v].
    respects_tac HE.
  - intros e. respects_tac HE.
Qed.

Lemma respects_ping_results batch st :
  (forall e, discovery_event e = true -> E e) ->
  respects R (ping_results w batch st).
Proof using All. intros HE. unfold ping_results. respects_tac HE. Qed.

Lemma respects_ping_sweep ip_list :
  (forall e, discovery_event e = true -> E e) ->
  respects R (ping_sweep w ip_list).
Proof using All.
  intros HE. unfold ping_sweep.
  apply respects_bind; [apply respects_get_state | intros s0].
  apply respects_for_each. intros batch_start st.
  apply respects_bind; [respects_tac HE | intros stop].
  destruct stop; [apply respects_ret|].
  apply respects_bind; [apply respects_executor | intros _].
  apply respects_bind; [respects_tac HE | intros _].
  apply respects_bind; [apply respects_ping_results, HE | intros st'].
  respects_tac HE.
Qed.

Lemma respects_tcp_probe ip_list st :
  (forall e, discovery_event e = true -> E e) ->
  respects R (tcp_probe w ip_list st).
Proof using All. intros HE. unfold tcp_probe. respects_tac HE. Qed.

Lemma respects_build_hosts arp alive :
  (forall e, discovery_event e = true -> E e) ->
  respects R (build_hosts w arp alive).
Proof using All.
  intros HE. unfold build_hosts.
  apply respects_for_each. intros ip hosts.
  apply respects_bind; [respects_tac HE | intros stop].
  destruct stop; [apply respects_ret|].
  apply respects_bind; [|intros; apply respects_ret].
  destruct (String.eqb _ _); [apply respects_ret|].
  apply respects_get_vendor, HE. reflexivity.
Qed.

Lemma respects_enhanced_host_discovery range :
  (forall e, discovery_event e = true -> E e) ->
  respects R (_enhanced_host_discovery w range).
Proof using All.
  intros HE. unfold _enhanced_host_discovery, _get_system_arp_table.
  apply respects_try_except; [|intros; apply respects_ret].
  apply respects_bind; [apply respects_pure | intros ip_list].
  apply respects_bind; [respects_tac HE | intros _].
  apply respects_bind; [apply respects_ping_sweep, HE | intros st].
  apply respects_bind; [respects_tac HE | intros _].
  apply respects_bind.
  { apply respects_bind; [apply Remit, HE; reflexivity | intros; apply respects_ret]. }
  intros arp.
  apply respects_bind; [respects_tac HE | intros _].
  apply respects_bind; [apply respects_tcp_probe, HE | intros st'].
  apply respects_bind; [respects_tac HE | intros _].
  apply respects_bind; [apply respects_build_hosts, HE | intros hosts].
  respects_tac HE.
Qed.

Lemma respects_discover_hosts range :
  (forall e, discovery_event e = true -> E e) ->
  respects R (discover_hosts w range).
Proof using All.
  intros HE. unfold discover_hosts.
  apply respects_bind; [respects_tac HE | intros _].
  apply respects_enhanced_host_discovery, HE.
Qed.

Lemma respects_resolve_hostnames hosts :
  (forall e, hostname_event e = true -> E e) ->
  respects R (resolve_hostnames w hosts).
Proof using All. intros HE. unfold resolve_hostnames. respects_tac HE. Qed.

Lemma respects_scan_services tc hosts :
  (forall e, service_event e = true -> E e) ->
  respects R (scan_services w tc hosts).
Proof using All. intros HE. unfold scan_services. respects_tac HE. Qed.

Lemma respects_combine_results hosts hn sr :
  (forall e, combine_event e = true -> E e) ->
  (forall r s, R s (set_results r s)) ->
  respects R (combine_results w hosts hn sr).
Proof using All.
  intros HE Hres. unfold combine_results.
  apply respects_for_each. intros h [].
  apply respects_bind; [respects_tac HE | intros stop].
  destruct stop; [apply respects_ret|].
  apply respects_bind; [apply respects_modify; intros; apply Hres | intros; apply respects_ret].
Qed.

Lemma respects_scan_hosts tc hosts :
  (forall e, scan_hosts_event e = true -> E e) ->
  (forall r s, R s (set_results r s)) ->
  respects R (scan_hosts w tc hosts).
Proof using All.
  intros HE Hres. unfold scan_hosts.
  assert (Hh : forall e, hostname_event e = true -> E e).
  { intros e He. apply HE. unfold scan_hosts_event. rewrite He.
    destruct e as [[]| | | | | | |]; reflexivity. }
  assert (Hs : forall e, service_event e = true -> E e).
  { intros e He. apply HE. unfold scan_hosts_event. rewrite He, !orb_true_r.
    destruct e as [[]| | | | | | |]; reflexivity. }
  assert (Hc : forall e, combine_event e = true -> E e).
  { intros e He. apply HE. unfold scan_hosts_event. rewrite He, !orb_true_r.
    destruct e as [[]| | | | | | |]; reflexivity. }
  destruct hosts as [|h hosts].
  - respects_tac HE.
  - apply respects_bind; [apply respects_resolve_hostnames, Hh | intros hn].
    apply respects_bind; [apply respects_scan_services, Hs | intros sr].
    apply respects_bind; [respects_tac HE | intros ?].
    apply respects_bind; [apply respects_combine_results; [exact Hc | exact Hres] | intros ?].
    respects_tac HE.
Qed.

Lemma respects_scan_network_try tc range :
  (forall e, try_event e = true -> E e) ->
  (forall r s, R s (set_results r s)) ->
  respects R (scan_network_try w tc range).
Proof using All.
  intros HE Hres. unfold scan_network_try.
  assert (Hd : forall e, discovery_event e = true -> E e).
  { intros e He. apply HE. unfold try_event. rewrite He.
    destruct e as [[]| | | | | | |]; reflexivity. }
  assert (Hh : forall e, scan_hosts_event e = true -> E e).
  { intros e He. apply HE. unfold try_event. rewrite He, !orb_true_r.
    destruct e as [[]| | | | | | |]; reflexivity. }
  apply respects_bind; [respects_tac HE | intros ?].
  apply respects_bind; [apply respects_discover_hosts, Hd | intros hosts].
  apply respects_scan_hosts; assumption.
Qed.

End Respects.

End MonadFacts.

(** ** What the scanner's functions leave unchanged *)

Module FrameFacts.
Import Frame MonadFacts.

Lemma emit_log w e s : log (snd (emit w e s)) = (log s ++ [e])%list.
Proof. unfold emit. simpl. destruct (bool_decide _); reflexivity. Qed.

Lemma emit_ok w e s : fst (emit w e s) = Ok tt.
Proof. reflexivity. Qed.

Lemma logs_refl allowed s : logs allowed s s.
Proof. exists []. split; [symmetry; apply app_nil_r | constructor]. Qed.

Lemma logs_trans allowed a b c : logs allowed a b -> logs allowed b c -> logs allowed a c.
Proof.
  intros (n1 & H1 & F1) (n2 & H2 & F2). exists (n1 ++ n2)%list. split.
  - rewrite H2, H1, app_assoc. reflexivity.
  - apply Forall_app. split; assumption.
Qed.

Lemma logs_emit w allowed e :
  allowed e = true -> respects (logs allowed) (emit w e).
Proof.
  intros H s. exists [e]. split; [apply emit_log | repeat constructor; exact H].
Qed.

Lemma logs_same_log allowed s s' : log s' = log s -> logs allowed s s'.
Proof. intros H. exists []. split; [rewrite app_nil_r; exact H | constructor]. Qed.

Lemma settings_refl s : same_settings s s.
Proof. repeat split. Qed.

Lemma settings_trans a b c : same_settings a b -> same_settings b c -> same_settings a c.
Proof. unfold same_settings. intros (?&?&?) (?&?&?). repeat split; congruence. Qed.

Lemma settings_emit w e : respects same_settings (emit w e).
Proof. intros s. unfold emit. simpl. destruct (bool_decide _); repeat split. Qed.

Lemma results_refl s : same_results s s.
Proof. reflexivity. Qed.

Lemma results_trans a b c : same_results a b -> same_results b c -> same_results a c.
Proof. unfold same_results. congruence. Qed.

Lemma results_emit w e : respects same_results (emit w e).
Proof. intros s. unfold emit. simpl. destruct (bool_decide _); reflexivity. Qed.

Lemma stop_kept_refl s : stop_kept s s.
Proof. intros H. exact H. Qed.

Lemma stop_kept_trans a b c : stop_kept a b -> stop_kept b c -> stop_kept a c.
Proof. unfold stop_kept. auto. Qed.

Lemma stop_kept_emit w e : respects stop_kept (emit w e).
Proof. intros s H. unfold emit. simpl. destruct (bool_decide _); [reflexivity | exact H]. Qed.

Lemma stop_same_refl s : stop_same s s.
Proof. reflexivity. Qed.

Lemma stop_same_trans a b c : stop_same a b -> stop_same b c -> stop_same a c.
Proof. unfold stop_same. congruence. Qed.

Lemma stop_same_emit w e : stop_at w = None -> respects stop_same (emit w e).
Proof.
  intros Hw s. unfold emit. rewrite Hw. simpl.
  try rewrite bool_decide_eq_false_2 by discriminate. reflexivity.
Qed.

Create HintDb frame.

#[export] Hint Resolve logs_refl logs_trans settings_refl settings_trans settings_emit
  results_refl results_trans results_emit stop_kept_refl stop_kept_trans stop_kept_emit
  stop_same_refl stop_same_trans : frame.

Ltac frame_by lem :=
  intros; eapply lem with (E := fun _ => True);
  eauto with frame; try (intros; exact I); try (intros; reflexivity);
  try (intros; repeat split; reflexivity);
  try (unfold stop_kept; simpl; intros; assumption).

Section PerFunction.
Context (w : World).

(** Settings. *)
Lemma discover_hosts_settings range : respects same_settings (discover_hosts w range).
Proof. frame_by respects_discover_hosts. Qed.

Lemma resolve_hostnames_settings hosts : respects same_settings (resolve_hostnames w hosts).
Proof. frame_by respects_resolve_hostnames. Qed.

Lemma update_progress_settings p : respects same_settings (_update_progress w p).
Proof. frame_by respects_update_progress. Qed.

(** The local [results]. *)
Lemma update_progress_results p : respects same_results (_update_progress w p).
Proof. frame_by respects_update_progress. Qed.

Lemma discover_hosts_results range : respects same_results (discover_hosts w range).
Proof. frame_by respects_discover_hosts. Qed.

Lemma resolve_hostnames_results hosts : respects same_results (resolve_hostnames w hosts).
Proof. frame_by respects_resolve_hostnames. Qed.

Lemma scan_services_results tc hosts : respects same_results (scan_services w tc hosts).
Proof. frame_by respects_scan_services. Qed.

(** A stop request is never withdrawn. *)
Lemma update_progress_stop_kept p : respects stop_kept (_update_progress w p).
Proof. frame_by respects_update_progress. Qed.

Lemma discover_hosts_stop_kept range : respects stop_kept (discover_hosts w range).
Proof. frame_by respects_discover_hosts. Qed.

Lemma resolve_hostnames_stop_kept hosts : respects stop_kept (resolve_hostnames w hosts).
Proof. frame_by respects_resolve_hostnames. Qed.

Lemma scan_services_stop_kept tc hosts : respects stop_kept (scan_services w tc hosts).
Proof. frame_by respects_scan_services. Qed.

Lemma combine_results_stop_kept hosts hn sr :
  respects stop_kept (combine_results w hosts hn sr).
Proof. frame_by respects_combine_results. Qed.

(** Without a stop request the flag does not change. *)
Lemma update_progress_stop_same p :
  stop_at w = None -> respects stop_same (_update_progress w p).
Proof. intros Hw. frame_by respects_update_progress. intros. apply stop_same_emit, Hw. Qed.

Lemma discover_hosts_stop_same range :
  stop_at w = None -> respects stop_same (discover_hosts w range).
Proof. intros Hw. frame_by respects_discover_hosts. intros. apply stop_same_emit, Hw. Qed.

Lemma resolve_hostnames_stop_same hosts :
  stop_at w = None -> respects stop_same (resolve_hostnames w hosts).
Proof. intros Hw. frame_by respects_resolve_hostnames. intros. apply stop_same_emit, Hw. Qed.

Lemma scan_services_stop_same tc hosts :
  stop_at w = None -> respects stop_same (scan_services w tc hosts).
Proof. intros Hw. frame_by respects_scan_services. intros. apply stop_same_emit, Hw. Qed.

(** The events each phase may log. *)
Lemma update_progress_logs allowed p :
  allowed (EProgress p) = true -> respects (logs allowed) (_update_progress w p).
Proof.
  intros Ha. eapply respects_update_progress with (E := fun e => allowed e = true);
    eauto with frame. intros; apply logs_emit; assumption.
Qed.

Lemma discover_hosts_logs allowed range :
  (forall e, discovery_event e = true -> allowed e = true) ->
  respects (logs allowed) (discover_hosts w range).
Proof.
  intros Ha. eapply respects_discover_hosts with (E := fun e => allowed e = true);
    eauto with frame; try (intros; apply logs_same_log; reflexivity).
  intros; apply logs_emit; assumption.
Qed.

Lemma resolve_hostnames_logs allowed hosts :
  (forall e, hostname_event e = true -> allowed e = true) ->
  respects (logs allowed) (resolve_hostnames w hosts).
Proof.
  intros Ha. eapply respects_resolve_hostnames with (E := fun e => allowed e = true);
    eauto with frame; try (intros; apply logs_same_log; reflexivity).
  intros; apply logs_emit; assumption.
Qed.

Lemma scan_services_logs allowed tc hosts :
  (forall e, service_event e = true -> allowed e = true) ->
  respects (logs allowed) (scan_services w tc hosts).
Proof.
  intros Ha. eapply respects_scan_services with (E := fun e => allowed e = true);
    eauto with frame; try (intros; apply logs_same_log; reflexivity).
  intros; apply logs_emit; assumption.
Qed.

Lemma combine_results_logs allowed hosts hn sr :
  (forall e, combine_event e = true -> allowed e = true) ->
  respects (logs allowed) (combine_results w hosts hn sr).
Proof.
  intros Ha. eapply respects_combine_results with (E := fun e => allowed e = true);
    eauto with frame; try (intros; apply logs_same_log; reflexivity).
  intros; apply logs_emit; assumption.
Qed.

End PerFunction.

End FrameFacts.

(** ** Triples *)

Module HoareFacts.
Import Frame MonadFacts FrameFacts.

Lemma hoare_conseq {A} (pre pre' : Scanner -> Prop) (m : M A)
    (post post' : A -> Scanner -> Prop) (fail fail' : exn -> Scanner -> Prop) :
  hoare pre m post fail ->
  (forall s, pre' s -> pre s) ->
  (forall a s, post a s -> post' a s) ->
  (forall e s, fail e s -> fail' e s) ->
  hoare pre' m post' fail'.
Proof.
  intros H Hpre Hpost Hfail s Hs. specialize (H s (Hpre s Hs)).
  destruct (m s) as [[a|e] s']; auto.
Qed.

Lemma hoare_ret {A} (pre : Scanner -> Prop) (a : A) post fail :
  (forall s, pre s -> post a s) -> hoare pre (ret a) post fail.
Proof. intros H s Hs. apply H, Hs. Qed.

Lemma hoare_raise {A} (pre : Scanner -> Prop) e (post : A -> Scanner -> Prop) fail :
  (forall s, pre s -> fail e s) -> hoare pre (raise e) post fail.
Proof. intros H s Hs. apply H, Hs. Qed.

Lemma hoare_get_state (pre : Scanner -> Prop) post fail :
  (forall s, pre s -> post s s) -> hoare pre get_state post fail.
Proof. intros H s Hs. apply H, Hs. Qed.

Lemma hoare_modify (pre : Scanner -> Prop) f post fail :
  (forall s, pre s -> post tt (f s)) -> hoare pre (modify f) post fail.
Proof. intros H s Hs. apply H, Hs. Qed.

Lemma hoare_bind {A B} pre (m : M A) mid (k : A -> M B) post fail :
  hoare pre m mid fail ->
  (forall a, hoare (mid a) (k a) post fail) ->
  hoare pre (bind m k) post fail.
Proof.
  intros Hm Hk s Hs. unfold bind. specialize (Hm s Hs).
  destruct (m s) as [[a|e] s']; [apply (Hk a s' Hm) | exact Hm].
Qed.

Lemma hoare_try_except {A} pre (m : M A) (h : exn -> M A) post caught fail :
  hoare pre m post caught ->
  (forall e, hoare (caught e) (h e) post fail) ->
  hoare pre (try_except m h) post fail.
Proof.
  intros Hm Hh s Hs. unfold try_except. specialize (Hm s Hs).
  destruct (m s) as [[a|e] s']; [exact Hm | apply (Hh e s' Hm)].
Qed.

Lemma hoare_if_false {A} (pre : Scanner -> Prop) (b : bool) (m1 m2 : M A) post fail :
  hoare pre m2 post fail ->
  hoare (fun s => b = false /\ pre s) (if b then m1 else m2) post fail.
Proof. intros H s [-> Hs]. apply H, Hs. Qed.

Lemma hoare_if_true {A} (pre : Scanner -> Prop) (b : bool) (m1 m2 : M A) post fail :
  hoare pre m1 post fail ->
  hoare (fun s => b = true /\ pre s) (if b then m1 else m2) post fail.
Proof. intros H s [-> Hs]. apply H, Hs. Qed.

(** A postcondition that fixes the value becomes an equation. *)
Lemma hoare_bind_eq {A B} pre (m : M A) (a0 : A) mid (k : A -> M B) post fail :
  hoare pre m (fun a s => a = a0 /\ mid s) fail ->
  hoare mid (k a0) post fail ->
  hoare pre (bind m k) post fail.
Proof.
  intros Hm Hk. eapply hoare_bind; [exact Hm|].
  intros a s [-> Hs]. apply Hk, Hs.
Qed.

(** A loop keeps what its body keeps. *)
Lemma hoare_for_each_inv {A S} (Inv : S -> Scanner -> Prop)
  (body : A -> S -> M (loop S)) fail :
  (forall x st, hoare (Inv st) (body x st)
                  (fun c s' => match c with
                               | Continue st' => Inv st' s'
                               | Break st' => Inv st' s'
                               end) fail) ->
  forall l st, hoare (Inv st) (for_each l body st) Inv fail.
Proof.
  intros Hbody. induction l as [|x l IH]; intros st; simpl.
  - apply hoare_ret. auto.
  - eapply hoare_bind; [apply Hbody|].
    intros [st'|st']; [apply IH | apply hoare_ret; auto].
Qed.

(** A loop whose body never breaks computes a fold. *)
Lemma hoare_for_each_fold {A S} (I : Scanner -> Prop) (f : S -> A -> S)
    (body : A -> S -> M (loop S)) fail :
  (forall x st, hoare I (body x st) (fun c s' => c = Continue (f st x) /\ I s') fail) ->
  forall l st,
    hoare I (for_each l body st) (fun r s' => r = List.fold_left f l st /\ I s') fail.
Proof.
  intros Hbody. induction l as [|x l IH]; intros st; simpl.
  - apply hoare_ret. auto.
  - eapply hoare_bind; [apply Hbody|].
    intros c s [-> Hs]. apply (IH (f st x) s Hs).
Qed.

(** A loop whose body breaks at once leaves its variables as they are. *)
Lemma hoare_for_each_break {A S} (I : Scanner -> Prop)
    (body : A -> S -> M (loop S)) fail :
  (forall x st, hoare I (body x st) (fun c s' => c = Break st /\ I s') fail) ->
  forall l st,
    hoare I (for_each l body st) (fun r s' => r = st /\ I s') fail.
Proof.
  intros Hbody l st. destruct l as [|x l]; simpl.
  - apply hoare_ret. auto.
  - eapply hoare_bind; [apply Hbody|].
    intros c s [-> Hs]. simpl. auto.
Qed.

(** What a relation that [m] respects carries over. *)
Lemma hoare_respects {A} (R : Scanner -> Scanner -> Prop) (I : Scanner -> Prop) (m : M A) :
  respects R m -> (forall s s', R s s' -> I s -> I s') ->
  hoare I m (fun _ s' => I s') (fun _ s' => I s').
Proof.
  intros Hm HR s Hs. specialize (Hm s).
  destruct (m s) as [[a|e] s']; simpl in Hm; eauto.
Qed.

Section StopFlag.
Context (w : World).

Lemma stop_requested_run s :
  exists s', stop_requested w s = (Ok (_stop_scanning s), s') /\
             log s' = (log s ++ [EStopCheck (_stop_scanning s)])%list /\
             results s' = results s /\
             (_stop_scanning s = true -> _stop_scanning s' = true) /\
             (stop_at w = None -> _stop_scanning s' = _stop_scanning s).
Proof.
  unfold stop_requested.
  pose proof (emit_log w (EStopCheck (_stop_scanning s)) s) as Hlog.
  pose proof (results_emit w (EStopCheck (_stop_scanning s)) s) as Hres.
  pose proof (stop_kept_emit w (EStopCheck (_stop_scanning s)) s) as Hkept.
  pose proof (fun H => stop_same_emit w (EStopCheck (_stop_scanning s)) H s) as Hsame.
  destruct (emit w (EStopCheck (_stop_scanning s)) s) as [r s']. simpl in *.
  exists s'. repeat split; auto.
Qed.

Lemma stop_requested_running fail :
  stop_at w = None ->
  hoare running (stop_requested w) (fun b s' => b = false /\ running s') fail.
Proof.
  intros Hw s Hrun.
  destruct (stop_requested_run s) as (s' & -> & _ & _ & _ & Hsame).
  split; [exact Hrun | unfold running; rewrite (Hsame Hw); exact Hrun].
Qed.

Lemma stop_requested_stopped fail :
  hoare stopped (stop_requested w) (fun b s' => b = true /\ stopped s') fail.
Proof.
  intros s Hstop.
  destruct (stop_requested_run s) as (s' & -> & _ & _ & Hkept & _).
  split; [exact Hstop | exact (Hkept Hstop)].
Qed.

End StopFlag.

End HoareFacts.

(** ** The phases of a scan that nobody cancels *)

Module RunningFacts.
Import Frame MonadFacts FrameFacts HoareFacts.

Section Running.
Context (w : World).
Hypothesis Hw : stop_at w = None.

Lemma running_emit e fail :
  hoare running (emit w e) (fun _ s' => running s') fail.
Proof using Hw.
  intros s Hs. pose proof (stop_same_emit w e Hw s) as H.
  unfold emit in *. simpl in *. unfold running. rewrite H. exact Hs.
Qed.

Lemma running_respects {A} (m : M A) :
  respects stop_same m -> hoare running m (fun _ s' => running s') (fun _ s' => running s').
Proof using Type.
  intros H. apply (hoare_respects stop_same); [exact H|].
  unfold stop_same, running. congruence.
Qed.

Lemma running_update_progress p :
  hoare running (_update_progress w p) (fun _ s' => running s') (fun _ s' => running s').
Proof using Hw. apply running_respects, update_progress_stop_same, Hw. Qed.

Lemma running_executor n :
  hoare running (ThreadPoolExecutor n) (fun _ s' => running s') (fun _ s' => running s').
Proof using Type.
  apply running_respects. apply respects_executor. apply stop_same_refl.
Qed.

Lemma running_submit_all {A} (ev : A -> event) l :
  hoare running (submit_all w ev l) (fun _ s' => running s') (fun _ s' => running s').
Proof using Hw.
  apply running_respects.
  apply respects_submit_all with (E := fun _ => True); eauto with frame.
  intros. apply stop_same_emit, Hw.
Qed.

Lemma running_get_vendor mac :
  hoare running (_get_vendor w mac) (fun _ s' => running s') (fun _ s' => running s').
Proof using Hw.
  apply running_respects.
  apply respects_get_vendor with (E := fun _ => True); eauto with frame;
    try (intros; reflexivity).
  intros. apply stop_same_emit, Hw.
Qed.

(** The ping results of a batch. *)
Lemma ping_results_running batch st fail :
  hoare running (ping_results w batch st)
    (fun st' s' => st' = ping_batch w batch st /\ running s') fail.
Proof using Hw.
  unfold ping_results, ping_batch.
  apply hoare_for_each_fold. intros ip [alive discovered].
  eapply hoare_bind_eq; [apply (stop_requested_running w _ Hw)|].
  cbv iota. unfold ping_step.
  destruct (ping w ip); apply hoare_ret; auto.
Qed.

(** The ping sweep. *)
Lemma ping_sweep_running ip_list :
  hoare running (ping_sweep w ip_list)
    (fun st s' => st = pinged w ip_list /\ running s') (fun _ s' => running s').
Proof using Hw.
  unfold ping_sweep, pinged.
  eapply hoare_bind with (mid := fun _ s => running s);
    [apply hoare_get_state; intros s Hs; exact Hs|].
  intros s0.
  apply hoare_for_each_fold with
    (f := fun st batch_start =>
            ping_batch w (List.firstn 100 (List.skipn batch_start ip_list)) st).
  intros batch_start st.
  eapply hoare_bind_eq; [apply (stop_requested_running w _ Hw)|].
  cbv iota.
  eapply hoare_bind; [apply running_executor | intros ?].
  eapply hoare_bind; [apply running_submit_all | intros ?].
  eapply hoare_bind_eq; [apply ping_results_running|].
  eapply hoare_bind; [apply running_update_progress | intros ?].
  apply hoare_ret. auto.
Qed.

(** The TCP probes. *)
Lemma tcp_probe_running ip_list st :
  hoare running (tcp_probe w ip_list st)
    (fun st' s' => st' = tcp_probed w ip_list st /\ running s') (fun _ s' => running s').
Proof using Hw.
  unfold tcp_probe, tcp_probed.
  destruct (List.filter _ ip_list) as [|ip0 rest]; [apply hoare_ret; auto|].
  eapply hoare_bind; [apply running_executor | intros ?].
  eapply hoare_bind; [apply running_submit_all | intros ?].
  eapply hoare_bind_eq.
  - apply hoare_for_each_fold with (f := tcp_step w).
    intros [ip port] [[alive discovered] found].
    eapply hoare_bind_eq; [apply (stop_requested_running w _ Hw)|].
    cbv iota. unfold tcp_step.
    destruct (tcp_ping w ip port && _ && _); apply hoare_ret; auto.
  - apply hoare_ret. auto.
Qed.

(** The host list: one host per alive address, in order. *)
Lemma build_hosts_running arp alive :
  hoare running (build_hosts w arp alive)
    (fun hosts s' => List.map host_ip hosts = alive /\ running s')
    (fun _ s' => running s').
Proof using Hw.
  unfold build_hosts.
  enough (H : forall hosts0,
             hoare running
               (for_each alive
                  (fun ip hosts =>
                     stop <- stop_requested w ;;
                     if stop then ret (Break hosts)
                     else
                       vendor <- (if String.eqb (dict_get ip arp "") "" then ret "Unknown"
                                  else _get_vendor w (dict_get ip arp "")) ;;
                       ret (Continue (hosts ++ [{| host_ip := ip;
                                                   host_mac := dict_get ip arp "";
                                                   host_vendor := vendor |}])%list))
                  hosts0)
               (fun hosts s' =>
                  List.map host_ip hosts = (List.map host_ip hosts0 ++ alive)%list /\
                  running s')
               (fun _ s' => running s')) by apply (H []).
  induction alive as [|ip alive IH]; intros hosts0; simpl.
  - apply hoare_ret. intros s Hs. rewrite app_nil_r. auto.
  - eapply hoare_bind with
      (mid := fun c s => running s /\
                exists vendor, c = Continue (hosts0 ++ [{| host_ip := ip;
                                                          host_mac := dict_get ip arp "";
                                                          host_vendor := vendor |}])%list).
    + eapply hoare_bind_eq; [apply (stop_requested_running w _ Hw)|].
      cbv iota.
      eapply hoare_bind with (mid := fun _ s => running s).
      * destruct (String.eqb _ _); [apply hoare_ret; auto | apply running_get_vendor].
      * intros vendor. apply hoare_ret. eauto.
    + intros c s [Hs (vendor & ->)].
      specialize (IH (hosts0 ++ [{| host_ip := ip; host_mac := dict_get ip arp "";
                                    host_vendor := vendor |}])%list s Hs).
      destruct (for_each alive _ _ s) as [[r|e] s']; [|exact IH].
      destruct IH as [IH Hs']. split; [|exact Hs'].
      rewrite IH, map_app, <- app_assoc. reflexivity.
Qed.

(** The discovery: no hosts when something was raised, and otherwise the
    alive hosts in the order of their discovery. *)
Lemma enhanced_host_discovery_running range :
  hoare running (_enhanced_host_discovery w range)
    (fun hosts s' =>
       running s' /\
       (hosts = [] \/
        exists ip_list, parse_ip_range range = Ok ip_list /\
          List.map host_ip hosts = discovery_order w range (candidates ip_list)))
    (fun _ _ => False).
Proof using Hw.
  unfold _enhanced_host_discovery.
  eapply hoare_try_except with (caught := fun _ s => running s);
    [|intros e; apply hoare_ret; auto].
  destruct (parse_ip_range range) as [ip_list|e] eqn:Hparse.
  - eapply hoare_bind_eq with (a0 := ip_list) (mid := running).
    { intros s Hs. auto. }
    eapply hoare_bind; [apply running_update_progress | intros ?].
    eapply hoare_bind_eq; [apply ping_sweep_running|].
    eapply hoare_bind; [apply running_update_progress | intros ?].
    eapply hoare_bind_eq with (a0 := system_arp_table w) (mid := running).
    { unfold _get_system_arp_table.
      eapply hoare_bind; [apply running_emit | intros ?]. apply hoare_ret. auto. }
    eapply hoare_bind; [apply running_update_progress | intros ?].
    eapply hoare_bind_eq; [apply tcp_probe_running|].
    eapply hoare_bind; [apply running_update_progress | intros ?].
    eapply hoare_bind with
      (mid := fun hosts s => List.map host_ip hosts
                             = discovery_order w range (candidates ip_list) /\ running s);
      [apply build_hosts_running|].
    intros hosts.
    eapply hoare_bind with
      (mid := fun _ s => List.map host_ip hosts
                         = discovery_order w range (candidates ip_list) /\ running s).
    + intros s [Hh Hs]. pose proof (running_update_progress (PFound (List.length hosts)) s Hs) as H.
      destruct (_update_progress w _ s) as [[?|?] ?]; auto.
    + intros ?. apply hoare_ret. intros s [Hh Hs]. split; [exact Hs|].
      right. exists ip_list. auto.
  - intros s Hs. unfold bind. exact Hs.
Qed.

Lemma discover_hosts_running range :
  hoare running (discover_hosts w range)
    (fun hosts s' =>
       running s' /\
       (hosts = [] \/
        exists ip_list, parse_ip_range range = Ok ip_list /\
          List.map host_ip hosts = discovery_order w range (candidates ip_list)))
    (fun _ s' => running s').
Proof using Hw.
  unfold discover_hosts.
  eapply hoare_bind; [apply running_update_progress | intros ?].
  eapply hoare_conseq; [apply enhanced_host_discovery_running | auto | auto |].
  intros e s [].
Qed.

(** Step 4 appends one result per host. *)
Lemma combine_results_running hosts hn sr rs0 :
  hoare (fun s => running s /\ results s = rs0) (combine_results w hosts hn sr)
    (fun _ s' => running s' /\
                 results s' = (rs0 ++ List.map (scan_result_of w hn sr) hosts)%list)
    (fun _ _ => False).
Proof using Hw.
  unfold combine_results. revert rs0.
  induction hosts as [|h hosts IH]; intros rs0; simpl.
  - apply hoare_ret. intros s [Hs Hr]. rewrite app_nil_r. auto.
  - eapply hoare_bind with
      (mid := fun c s => c = Continue tt /\ running s /\
                         results s = (rs0 ++ [scan_result_of w hn sr h])%list).
    + intros s [Hs Hr].
      destruct (stop_requested_run w s) as (s1 & Hrun & _ & Hres & _ & Hsame).
      unfold bind. rewrite Hrun. rewrite Hs. simpl.
      split; [reflexivity|]. split.
      * unfold running. simpl. rewrite (Hsame Hw). exact Hs.
      * rewrite Hres, Hr. reflexivity.
    + intros c s (-> & Hs & Hr).
      specialize (IH (rs0 ++ [scan_result_of w hn sr h])%list s (conj Hs Hr)).
      destruct (for_each hosts _ tt s) as [[r|e] s']; [|exact IH].
      destruct IH as [Hs' Hr']. split; [exact Hs'|].
      rewrite Hr', <- app_assoc. reflexivity.
Qed.

End Running.

End RunningFacts.

(** ** The whole scan *)

Module ScanFacts.
Import Frame MonadFacts FrameFacts HoareFacts RunningFacts Observe.

Lemma since_app (l n : list event) : since l (l ++ n) = n.
Proof. unfold since. rewrite skipn_app, skipn_all, Nat.sub_diag. reflexivity. Qed.

Lemma since_refl (l : list event) : since l l = [].
Proof. unfold since. apply skipn_all. Qed.

Lemma failed_app l1 l2 : failed (l1 ++ l2) = failed l1 || failed l2.
Proof. unfold failed. apply existsb_app. Qed.

Lemma not_failed l : Forall (fun e => negb (failure_report e) = true) l -> failed l = false.
Proof.
  induction 1 as [|e l He _ IH]; [reflexivity|].
  simpl. rewrite IH. apply negb_true_iff in He. rewrite He. reflexivity.
Qed.

Lemma begin_running s : running (scan_network_begin s).
Proof. reflexivity. Qed.

Lemma begin_results s : results (scan_network_begin s) = [].
Proof. reflexivity. Qed.

Lemma begin_log s : log (scan_network_begin s) = log s.
Proof. unfold scan_network_begin. destruct (config_manager s); reflexivity. Qed.

Lemma scan_network_unfold w range s :
  scan_network w range s =
  try_except (scan_network_try w (scan_threads (scan_network_begin s)) range)
    (scan_network_except w) (scan_network_begin s).
Proof. reflexivity. Qed.

Section Scan.
Context (w : World).

(** The [try] block reports no failure. *)
Lemma try_logs tc range :
  respects (logs (fun e => negb (failure_report e))) (scan_network_try w tc range).
Proof.
  eapply respects_scan_network_try with (E := fun e => negb (failure_report e) = true);
    eauto with frame; try (intros; apply logs_same_log; reflexivity).
  - intros. apply logs_emit. assumption.
  - intros [[]| | | | | | |]; simpl; congruence.
Qed.

Lemma try_stop_kept tc range : respects stop_kept (scan_network_try w tc range).
Proof. frame_by respects_scan_network_try. Qed.

(** The [except] clause: the report, and then [results] as it is. *)
Lemma except_run e s1 :
  exists s2,
    scan_network_except w e s1 =
      (if callback_raises w (PFailed e) then Raise (CallbackError "progress callback")
       else Ok (results s1), s2) /\
    log s2 = (log s1 ++ [EProgress (PFailed e)])%list /\
    results s2 = results s1.
Proof.
  unfold scan_network_except, _update_progress, bind.
  pose proof (emit_log w (EProgress (PFailed e)) s1) as Hlog.
  pose proof (results_emit w (EProgress (PFailed e)) s1) as Hres.
  destruct (emit w (EProgress (PFailed e)) s1) as [[[]|x] s2] eqn:He;
    [|discriminate (f_equal fst He)].
  simpl in Hlog, Hres. exists s2.
  destruct (callback_raises w (PFailed e)); simpl; rewrite ?Hres; auto.
Qed.

(** The two ways in which [scan_network] ends. *)
Lemma scan_network_cases range s :
  match scan_network_try w (scan_threads (scan_network_begin s)) range
          (scan_network_begin s) with
  | (Ok l, s1) =>
      scan_network w range s = (Ok l, s1) /\
      failed (since (log s) (log s1)) = false
  | (Raise e, s1) =>
      exists s2,
        scan_network w range s =
          (if callback_raises w (PFailed e) then Raise (CallbackError "progress callback")
           else Ok (results s1), s2) /\
        results s2 = results s1 /\
        since (log s) (log s2) = (since (log s) (log s1) ++ [EProgress (PFailed e)])%list /\
        failed (since (log s) (log s2)) = true
  end.
Proof.
  rewrite scan_network_unfold. unfold try_except.
  pose proof (try_logs (scan_threads (scan_network_begin s)) range (scan_network_begin s))
    as (new & Hlog & Hnew).
  rewrite begin_log in Hlog.
  destruct (scan_network_try w _ range (scan_network_begin s)) as [[l|e] s1]; simpl in Hlog.
  - split; [reflexivity|]. rewrite Hlog, since_app. apply not_failed, Hnew.
  - destruct (except_run e s1) as (s2 & Hrun & Hlog2 & Hres). exists s2.
    split; [exact Hrun|]. split; [exact Hres|].
    rewrite Hlog2, Hlog, <- app_assoc, !since_app. split; [reflexivity|].
    rewrite failed_app. simpl. apply orb_true_r.
Qed.

(** A scan that nobody cancels and that reports no failure: the results
    are built, host by host, from what the discovery returned. *)
Lemma scan_network_try_running tc range sb l s' :
  stop_at w = None -> running sb -> results sb = [] ->
  scan_network_try w tc range sb = (Ok l, s') ->
  exists s0 hosts s1 hn sr,
    _update_progress w PScanningLive sb = (Ok tt, s0) /\
    discover_hosts w range s0 = (Ok hosts, s1) /\
    l = List.map (scan_result_of w hn sr) hosts /\
    (hosts = [] \/
     exists ip_list, parse_ip_range range = Ok ip_list /\
       List.map host_ip hosts = discovery_order w range (candidates ip_list)).
Proof.
  intros Hw Hrun Hres. unfold scan_network_try, scan_hosts. unfold bind at 1.
  pose proof (running_update_progress w Hw PScanningLive sb Hrun) as Hr0.
  pose proof (update_progress_results w PScanningLive sb) as Hres0.
  destruct (_update_progress w PScanningLive sb) as [[[]|e] s0] eqn:E0; [|discriminate].
  unfold bind at 1.
  pose proof (discover_hosts_running w Hw range s0 Hr0) as Hd.
  pose proof (discover_hosts_results w range s0) as Hres1.
  destruct (discover_hosts w range s0) as [[hosts|e] s1] eqn:E1; [|discriminate].
  destruct Hd as [Hr1 Hhosts].
  unfold same_results in *. simpl in Hres0, Hres1.
  destruct hosts as [|h hosts].
  - unfold bind at 1.
    pose proof (update_progress_results w PNoHosts s1) as Hres2.
    destruct (_update_progress w PNoHosts s1) as [[[]|e] s2]; [|discriminate].
    unfold same_results in *. simpl in Hres2.
    unfold bind, get_state, ret. intros [= <- <-].
    exists s0, [], s1, ∅, ∅. repeat split; auto.
    rewrite Hres2, Hres1, Hres0, Hres. reflexivity.
  - unfold bind at 1.
    pose proof (running_respects (resolve_hostnames w (h :: hosts))
                  (resolve_hostnames_stop_same w (h :: hosts) Hw) s1 Hr1) as Hr2.
    pose proof (resolve_hostnames_results w (h :: hosts) s1) as Hres2.
    destruct (resolve_hostnames w (h :: hosts) s1) as [[hn|e] s2]; [|discriminate].
    unfold bind at 1.
    pose proof (running_respects (scan_services w tc (h :: hosts))
                  (scan_services_stop_same w tc (h :: hosts) Hw) s2 Hr2) as Hr3.
    pose proof (scan_services_results w tc (h :: hosts) s2) as Hres3.
    destruct (scan_services w tc (h :: hosts) s2) as [[sr|e] s3]; [|discriminate].
    unfold bind at 1.
    pose proof (running_update_progress w Hw PFinalizing s3 Hr3) as Hr4.
    pose proof (update_progress_results w PFinalizing s3) as Hres4.
    destruct (_update_progress w PFinalizing s3) as [[[]|e] s4]; [|discriminate].
    unfold bind at 1.
    unfold same_results in *. simpl in Hres2, Hres3, Hres4.
    assert (Hres4' : results s4 = []).
    { rewrite Hres4, Hres3, Hres2, Hres1, Hres0, Hres. reflexivity. }
    pose proof (combine_results_running w Hw (h :: hosts) hn sr [] s4 (conj Hr4 Hres4'))
      as Hc.
    destruct (combine_results w (h :: hosts) hn sr s4) as [[[]|e] s5]; [|destruct Hc].
    destruct Hc as [Hr5 Hres5]. unfold bind at 1.
    pose proof (update_progress_results w PCompleted s5) as Hres6.
    destruct (_update_progress w PCompleted s5) as [[[]|e] s6]; [|discriminate].
    unfold same_results in *. simpl in Hres6.
    unfold bind, get_state, ret. intros [= <- <-].
    exists s0, (h :: hosts), s1, hn, sr. repeat split; auto.
    rewrite Hres6, Hres5. reflexivity.
Qed.

End Scan.

End ScanFacts.

(** ** The order of discovery *)

Module OrderFacts.

Lemma insert_by_rank_perm {A} (rank : A -> nat) x l :
  Permutation (insert_by_rank rank x l) (x :: l).
Proof.
  induction l as [|y l IH]; simpl; [reflexivity|].
  destruct (rank x <=? rank y)%nat; [reflexivity|].
  rewrite IH. apply perm_swap.
Qed.

(** [as_completed] yields every future once. *)
Lemma as_completed_perm {A} (rank : A -> nat) l : Permutation (as_completed rank l) l.
Proof.
  induction l as [|x l IH]; simpl; [reflexivity|].
  rewrite insert_by_rank_perm, IH. reflexivity.
Qed.

Lemma filter_perm {A} (f : A -> bool) l l' :
  Permutation l l' -> Permutation (List.filter f l) (List.filter f l').
Proof.
  induction 1 as [|x l l' _ IH|x y l|l l' l'' _ IH1 _ IH2]; simpl.
  - reflexivity.
  - destruct (f x); [constructor|]; exact IH.
  - destruct (f x), (f y); try reflexivity. apply perm_swap.
  - etransitivity; eassumption.
Qed.

Lemma firstn_add {A} (a b : nat) (x : list A) :
  List.firstn (a + b) x = (List.firstn a x ++ List.firstn b (List.skipn a x))%list.
Proof.
  revert x. induction a as [|a IH]; intros x; simpl; [reflexivity|].
  destruct x as [|y x]; simpl.
  - rewrite List.firstn_nil. reflexivity.
  - rewrite IH. reflexivity.
Qed.

(** The batches of 100 make up the list. *)
Lemma batches_from {A} (l : list A) (size k m : nat) :
  List.flat_map (fun b => List.firstn size (List.skipn b l))
    (List.map (fun j => (j * size)%nat) (List.seq k m))
  = List.firstn (m * size) (List.skipn (k * size) l).
Proof.
  revert k. induction m as [|m IH]; intros k; simpl; [reflexivity|].
  rewrite IH, firstn_add, List.skipn_skipn.
  replace (size + k * size)%nat with (S k * size)%nat by lia. reflexivity.
Qed.

Lemma batches_all {A} (l : list A) :
  List.flat_map (fun b => List.firstn 100 (List.skipn b l)) (batch_starts (List.length l) 100)
  = l.
Proof.
  unfold batch_starts. rewrite batches_from. simpl List.skipn.
  apply firstn_all2.
  pose proof (Nat.div_mod (List.length l + 100 - 1) 100 ltac:(discriminate)) as H.
  pose proof (Nat.mod_upper_bound (List.length l + 100 - 1) 100 ltac:(discriminate)).
  lia.
Qed.

Section Order.
Context (w : World).

Lemma ping_fold_fst xs st :
  fst (List.fold_left (ping_step w) xs st) = (fst st ++ List.filter (ping w) xs)%list.
Proof.
  revert st. induction xs as [|x xs IH]; intros [a d]; simpl.
  - rewrite app_nil_r. reflexivity.
  - rewrite IH. destruct (ping w x); simpl; [rewrite <- app_assoc|]; reflexivity.
Qed.

Lemma ping_fold_snd xs st x :
  x ∈ snd (List.fold_left (ping_step w) xs st) <->
  x ∈ snd st \/ In x (List.filter (ping w) xs).
Proof.
  revert st. induction xs as [|y xs IH]; intros [a d]; simpl.
  - tauto.
  - rewrite IH. destruct (ping w y); simpl; [|tauto].
    rewrite elem_of_union, elem_of_singleton. intuition congruence.
Qed.

Lemma ping_batch_fst batch st :
  fst (ping_batch w batch st)
  = (fst st ++ List.filter (ping w) (as_completed (ping_rank w) batch))%list.
Proof. apply ping_fold_fst. Qed.

(** The hosts that answered the ping: batch after batch, each batch in
    the order of completion. *)
Lemma pinged_fst ip_list :
  fst (pinged w ip_list)
  = List.flat_map
      (fun b => List.filter (ping w)
                  (as_completed (ping_rank w) (List.firstn 100 (List.skipn b ip_list))))
      (batch_starts (List.length ip_list) 100).
Proof.
  unfold pinged. generalize (batch_starts (List.length ip_list) 100).
  intros bs.
  enough (H : forall st,
            fst (List.fold_left
                   (fun st b => ping_batch w (List.firstn 100 (List.skipn b ip_list)) st)
                   bs st)
            = (fst st ++
               List.flat_map
                 (fun b => List.filter (ping w)
                             (as_completed (ping_rank w)
                                (List.firstn 100 (List.skipn b ip_list)))) bs)%list)
    by apply (H ([], ∅)).
  induction bs as [|b bs IH]; intros st; simpl.
  - rewrite app_nil_r. reflexivity.
  - rewrite IH, ping_batch_fst, <- app_assoc. reflexivity.
Qed.

Lemma pinged_snd ip_list x : x ∈ snd (pinged w ip_list) <-> In x (fst (pinged w ip_list)).
Proof.
  unfold pinged. generalize (batch_starts (List.length ip_list) 100). intros bs.
  enough (H : forall st, (forall y, y ∈ snd st <-> In y (fst st)) ->
            forall y,
              y ∈ snd (List.fold_left
                   (fun st b => ping_batch w (List.firstn 100 (List.skipn b ip_list)) st)
                   bs st) <->
              In y (fst (List.fold_left
                   (fun st b => ping_batch w (List.firstn 100 (List.skipn b ip_list)) st)
                   bs st))).
  { apply H. intros y. simpl. rewrite elem_of_empty. tauto. }
  induction bs as [|b bs IH]; intros st Hst y; simpl; [apply Hst|].
  apply IH. intros z. unfold ping_batch.
  rewrite ping_fold_snd, ping_fold_fst, in_app_iff, Hst. tauto.
Qed.

Lemma pinged_perm ip_list :
  Permutation (fst (pinged w ip_list)) (List.filter (ping w) ip_list).
Proof.
  assert (H : forall bs,
             Permutation
               (List.flat_map
                  (fun b => List.filter (ping w)
                              (as_completed (ping_rank w)
                                 (List.firstn 100 (List.skipn b ip_list)))) bs)
               (List.filter (ping w)
                  (List.flat_map (fun b => List.firstn 100 (List.skipn b ip_list)) bs))).
  { induction bs as [|b bs IH]; simpl; [reflexivity|].
    rewrite List.filter_app. apply Permutation_app; [|exact IH].
    apply filter_perm, as_completed_perm. }
  rewrite pinged_fst, H, batches_all. reflexivity.
Qed.

Lemma pinged_tracked ip_list : List.NoDup ip_list -> tracked (pinged w ip_list).
Proof.
  intros Hnd. split; [|apply pinged_snd].
  eapply Permutation_NoDup; [symmetry; apply pinged_perm|].
  apply List.NoDup_filter, Hnd.
Qed.

Lemma tracked_add a d ip :
  tracked (a, d) -> ip ∉ d -> tracked ((a ++ [ip])%list, {[ip]} ∪ d).
Proof.
  intros [Hnd Hd] Hip. split; simpl in *.
  - apply List.NoDup_app; [exact Hnd | repeat constructor; intros [] |].
    intros x Hx [<-|[]]. apply Hip, Hd, Hx.
  - intros x. rewrite elem_of_union, elem_of_singleton, in_app_iff, Hd. simpl.
    intuition congruence.
Qed.

Lemma arp_supplement_tracked range arp st :
  tracked st -> tracked (arp_supplement range arp st).
Proof.
  unfold arp_supplement. generalize (dict_keys arp). intros keys. revert st.
  induction keys as [|k keys IH]; intros [a d] Hst; simpl; [exact Hst|].
  apply IH. destruct (bool_decide (k ∈ d)) eqn:Hk; simpl; [exact Hst|].
  destruct (_is_in_network k range); [|exact Hst].
  apply tracked_add; [exact Hst|]. apply (bool_decide_eq_false_1 _ Hk).
Qed.

Lemma arp_supplement_prefix range arp st :
  exists later, fst (arp_supplement range arp st) = (fst st ++ later)%list.
Proof.
  unfold arp_supplement. generalize (dict_keys arp). intros keys. revert st.
  induction keys as [|k keys IH]; intros [a d]; simpl.
  - exists []. rewrite app_nil_r. reflexivity.
  - destruct (negb (bool_decide (k ∈ d)) && _is_in_network k range).
    + destruct (IH ((a ++ [k])%list, {[k]} ∪ d)) as (later & ->). simpl.
      exists (k :: later). rewrite <- app_assoc. reflexivity.
    + apply IH.
Qed.

Lemma tcp_fold_tracked ts a d f :
  tracked (a, d) -> tracked (fst (List.fold_left (tcp_step w) ts (a, d, f))).
Proof.
  revert a d f. induction ts as [|[ip p] ts IH]; intros a d f Hst; simpl; [exact Hst|].
  destruct (bool_decide (ip ∈ d)) eqn:Hd; simpl;
    [rewrite andb_false_r; simpl; apply IH, Hst|].
  destruct (tcp_ping w ip p && true && negb (bool_decide (ip ∈ f))); [|apply IH, Hst].
  apply IH, tracked_add; [exact Hst|]. apply (bool_decide_eq_false_1 _ Hd).
Qed.

Lemma tcp_fold_prefix ts a d f :
  exists later, fst (fst (List.fold_left (tcp_step w) ts (a, d, f))) = (a ++ later)%list.
Proof.
  revert a d f. induction ts as [|[ip p] ts IH]; intros a d f; simpl.
  - exists []. rewrite app_nil_r. reflexivity.
  - destruct (tcp_ping w ip p && negb (bool_decide (ip ∈ d))
              && negb (bool_decide (ip ∈ f))); [|apply IH].
    destruct (IH (a ++ [ip])%list ({[ip]} ∪ d) ({[ip]} ∪ f)) as (later & Hl).
    exists (ip :: later). rewrite Hl, <- app_assoc. reflexivity.
Qed.

Lemma tcp_probed_tracked ip_list st : tracked st -> tracked (tcp_probed w ip_list st).
Proof.
  intros Hst. unfold tcp_probed.
  destruct (List.filter _ ip_list) as [|ip0 rest]; [exact Hst|].
  destruct st as [a d]. apply tcp_fold_tracked, Hst.
Qed.

Lemma tcp_probed_prefix ip_list st :
  exists later, fst (tcp_probed w ip_list st) = (fst st ++ later)%list.
Proof.
  unfold tcp_probed.
  destruct (List.filter _ ip_list) as [|ip0 rest].
  - exists []. rewrite app_nil_r. reflexivity.
  - apply tcp_fold_prefix.
Qed.

(** No host is discovered twice. *)
Lemma discovery_order_NoDup range ip_list :
  List.NoDup ip_list -> List.NoDup (discovery_order w range ip_list).
Proof.
  intros Hnd. unfold discovery_order.
  apply tcp_probed_tracked, arp_supplement_tracked, pinged_tracked, Hnd.
Qed.

(** The hosts that answered the ping come first. *)
Lemma discovery_order_ping_first range ip_list :
  exists later,
    discovery_order w range ip_list = (fst (pinged w ip_list) ++ later)%list.
Proof.
  unfold discovery_order.
  destruct (arp_supplement_prefix range (system_arp_table w) (pinged w ip_list))
    as (l1 & H1).
  destruct (tcp_probed_prefix ip_list
              (arp_supplement range (system_arp_table w) (pinged w ip_list)))
    as (l2 & H2).
  exists (l1 ++ l2)%list. rewrite H2, H1, <- app_assoc. reflexivity.
Qed.

End Order.

End OrderFacts.

(** ** No address is listed twice by [parse_ip_range] *)

Module DistinctFacts.
Import PyStr PyStrFacts IpAddress IpAddressFacts RangeSpec ParseFacts.

Lemma append_inj_r (a x y : string) : a ++ x = a ++ y -> x = y.
Proof.
  induction a as [|c a IH]; [auto|].
  change (String c (a ++ x) = String c (a ++ y) -> x = y).
  intros [= H]. auto.
Qed.

Lemma all_digits_not_minus x : all_digits (String "-" x) = false.
Proof. reflexivity. Qed.

(** [str] is injective. *)
Lemma str_inj i j : str i = str j -> i = j.
Proof.
  unfold str.
  destruct (Z.ltb_spec i 0) as [Hi|Hi], (Z.ltb_spec j 0) as [Hj|Hj]; intros H.
  - injection H as H'. apply str_of_N_inj in H'. lia.
  - pose proof (str_of_N_all_digits (Z.to_N j)) as Hd. rewrite <- H in Hd. discriminate.
  - pose proof (str_of_N_all_digits (Z.to_N i)) as Hd. rewrite H in Hd. discriminate.
  - apply str_of_N_inj in H. lia.
Qed.

Lemma range_NoDup a b : List.NoDup (range a b).
Proof.
  unfold range. apply Finite.Injective_map_NoDup; [|apply List.seq_NoDup].
  intros x y H. lia.
Qed.

Lemma iota_NoDup start len : List.NoDup (iota start len).
Proof.
  unfold iota. apply Finite.Injective_map_NoDup; [|apply List.seq_NoDup].
  intros x y H. lia.
Qed.

Lemma str_of_address_dotted x :
  str_of_address x =
  dotted ((x / 16777216) mod 256) ((x / 65536) mod 256) ((x / 256) mod 256) (x mod 256).
Proof. reflexivity. Qed.

Lemma dotted_inj a b c d a' b' c' d' :
  dotted a b c d = dotted a' b' c' d' -> a = a' /\ b = b' /\ c = c' /\ d = d'.
Proof.
  intros H. pose proof (split_dotted a b c d) as H1.
  rewrite H, split_dotted in H1. injection H1 as Ha Hb Hc Hd.
  repeat split; symmetry; apply str_of_N_inj; assumption.
Qed.

Lemma octets_of_address x :
  (x < 4294967296)%N ->
  ordinal ((x / 16777216) mod 256) ((x / 65536) mod 256) ((x / 256) mod 256) (x mod 256) = x.
Proof.
  intros Hx. unfold ordinal.
  change 16777216%N with (256 * 256 * 256)%N. change 65536%N with (256 * 256)%N.
  rewrite <- !N.Div0.div_div.
  pose proof (N.div_mod x 256 ltac:(discriminate)) as H1.
  pose proof (N.div_mod (x / 256) 256 ltac:(discriminate)) as H2.
  pose proof (N.div_mod (x / 256 / 256) 256 ltac:(discriminate)) as H3.
  assert (H4 : (x / 256 / 256 / 256 < 256)%N).
  { rewrite !N.Div0.div_div. apply N.Div0.div_lt_upper_bound. simpl. lia. }
  rewrite (N.mod_small _ _ H4).
  generalize dependent (x / 256 / 256 / 256)%N. intros c H3 H4.
  generalize dependent ((x / 256 / 256) mod 256)%N. intros c' H3.
  generalize dependent (x / 256 / 256)%N. intros b H2 H3.
  generalize dependent ((x / 256) mod 256)%N. intros b' H2.
  generalize dependent (x / 256)%N. intros a H1 H2.
  lia.
Qed.

(** [str] of an address is injective. *)
Lemma str_of_address_inj x y :
  (x < 4294967296)%N -> (y < 4294967296)%N ->
  str_of_address x = str_of_address y -> x = y.
Proof.
  intros Hx Hy H. rewrite !str_of_address_dotted in H.
  apply dotted_inj in H as (H1 & H2 & H3 & H4).
  rewrite <- (octets_of_address x Hx), <- (octets_of_address y Hy).
  rewrite H1, H2, H3, H4. reflexivity.
Qed.

Lemma addresses_NoDup l :
  (forall x, In x l -> (x < 4294967296)%N) -> List.NoDup l ->
  List.NoDup (List.map str_of_address l).
Proof.
  intros Hb Hnd. apply List.NoDup_map_NoDup_ForallPairs; [|exact Hnd].
  intros x y Hx Hy. apply str_of_address_inj; auto.
Qed.

Lemma parse_octet_bound o a : parse_octet o = Some a -> (a <= 255)%N.
Proof.
  unfold parse_octet.
  destruct (negb (isdigit o)); [discriminate|].
  destruct (3 <? String.length o)%nat; [discriminate|].
  destruct (negb (String.eqb o "0") && startswith "0" o); [discriminate|].
  destruct (int o) as [v|]; [|discriminate].
  destruct (Z.ltb_spec 255 v); [discriminate|].
  intros [= <-]. lia.
Qed.

Lemma ip_address_bound s x : ip_address s = Some x -> (x < 4294967296)%N.
Proof.
  unfold ip_address, ip_int_from_string.
  destruct (contains "/" s); [discriminate|].
  destruct (String.eqb s ""); [discriminate|].
  destruct (split "." s) as [|o1 [|o2 [|o3 [|o4 [|]]]]]; try discriminate.
  destruct (parse_octet o1) as [a|] eqn:H1; [|discriminate].
  destruct (parse_octet o2) as [b|] eqn:H2; [|discriminate].
  destruct (parse_octet o3) as [c|] eqn:H3; [|discriminate].
  destruct (parse_octet o4) as [d|] eqn:H4; [|discriminate].
  apply parse_octet_bound in H1, H2, H3, H4. intros [= <-]. lia.
Qed.

Lemma log2_lt_32 a : (a < 4294967296)%N <-> (N.log2 a < 32)%N.
Proof.
  destruct (N.eq_dec a 0%N) as [->|Ha]; [simpl; lia|].
  change 4294967296%N with (2 ^ 32)%N. apply N.log2_lt_pow2. lia.
Qed.

Lemma prefix_from_prefix_string_bound s p :
  prefix_from_prefix_string s = Some p -> (p <= 32)%N.
Proof.
  unfold prefix_from_prefix_string. change max_prefixlen with 32%N.
  destruct (negb (isdigit s)); [discriminate|].
  destruct (int s) as [v|]; [|discriminate].
  destruct (Z.leb_spec 0 v); [|discriminate].
  destruct (Z.leb_spec v (Z.of_N 32)); [|discriminate].
  intros [= <-]. lia.
Qed.

Lemma prefix_from_ip_int_bound x p : prefix_from_ip_int x = Some p -> (p <= 32)%N.
Proof.
  unfold prefix_from_ip_int. change max_prefixlen with 32%N.
  destruct (N.eqb _ _); [|discriminate]. intros [= <-]. lia.
Qed.

Lemma make_netmask_bound s p : make_netmask s = Some p -> (p <= 32)%N.
Proof.
  unfold make_netmask, prefix_from_ip_string.
  destruct (prefix_from_prefix_string s) as [q|] eqn:Hq.
  - intros [= <-]. apply (prefix_from_prefix_string_bound s q Hq).
  - destruct (ip_int_from_string s) as [x|]; [|discriminate].
    destruct (prefix_from_ip_int x) as [q|] eqn:Hx.
    + intros [= <-]. apply (prefix_from_ip_int_bound x q Hx).
    + apply prefix_from_ip_int_bound.
Qed.

(** The hosts of a network are addresses. *)
Lemma hosts_bound x p y :
  (x < 4294967296)%N -> (p <= 32)%N ->
  In y (hosts {| network_address := N.land x (netmask_of_prefix p); prefixlen := p |}) ->
  (y < 4294967296)%N.
Proof.
  intros Hx Hp Hy.
  set (net := {| network_address := N.land x (netmask_of_prefix p); prefixlen := p |}) in *.
  assert (Hb : (broadcast_address net < 4294967296)%N).
  { apply log2_lt_32. unfold broadcast_address. rewrite N.log2_lor.
    apply N.max_lub_lt.
    - eapply N.le_lt_trans; [apply N.log2_land|].
      eapply N.le_lt_trans; [apply N.le_min_l|]. apply log2_lt_32, Hx.
    - apply log2_lt_32. unfold hostmask. change max_prefixlen with 32%N.
      change (prefixlen net) with p.
      assert (2 ^ (32 - p) <= 2 ^ 32)%N by (apply N.pow_le_mono_r; lia).
      change (2 ^ 32)%N with 4294967296%N in *. lia. }
  enough (y <= broadcast_address net)%N by lia.
  pose proof (broadcast_offset x p Hp) as Hoff. cbv zeta in Hoff. fold net in Hoff.
  assert (Hpow : (1 <= 2 ^ (32 - p))%N).
  { change 1%N with (2 ^ 0)%N. apply N.pow_le_mono_r; lia. }
  unfold hosts in Hy. change (prefixlen net) with p in Hy.
  change max_prefixlen with 32%N in Hy.
  destruct (N.eqb_spec p (32 - 1)) as [->|Hp1].
  - change (2 ^ (32 - (32 - 1)))%N with 2%N in Hoff.
    apply in_iota in Hy. lia.
  - destruct (N.eqb_spec p 32) as [->|Hp2].
    + destruct Hy as [<-|[]]. lia.
    + apply in_iota in Hy. lia.
Qed.

Lemma hosts_NoDup net : List.NoDup (hosts net).
Proof.
  unfold hosts. destruct (N.eqb _ _); [apply iota_NoDup|].
  destruct (N.eqb _ _); [repeat constructor; intros []|apply iota_NoDup].
Qed.

Lemma walk_addresses_spec n : forall start l,
  (start < 4294967296)%N ->
  walk_addresses n start = Some l ->
  l = List.map str_of_address (iota start n) /\
  forall y, In y (iota start n) -> (y < 4294967296)%N.
Proof.
  induction n as [|n IH]; intros start l Hstart; cbn [walk_addresses].
  - intros [= <-]. split; [reflexivity | intros y []].
  - unfold succ_address. destruct (N.eqb_spec start ALL_ONES) as [->|Hs]; [discriminate|].
    unfold ALL_ONES in Hs.
    destruct (walk_addresses n (start + 1)) as [r|] eqn:Hw; [|discriminate].
    intros [= <-]. destruct (IH (start + 1)%N r ltac:(lia) Hw) as [-> Hb].
    assert (Hshift : iota (start + 1) n
                     = List.map (fun k => (start + N.of_nat k)%N) (List.seq 1 n)).
    { unfold iota. rewrite <- List.seq_shift, map_map. apply map_ext. intros k. lia. }
    rewrite Hshift in *.
    assert (Hcons : iota start (S n)
                    = start :: List.map (fun k => (start + N.of_nat k)%N) (List.seq 1 n)).
    { unfold iota. simpl. rewrite N.add_0_r. reflexivity. }
    rewrite Hcons. split; [reflexivity|].
    intros y [<-|Hy]; [exact Hstart | apply Hb, Hy].
Qed.

(** Every address that [parse_ip_range] lists is listed once. *)
Lemma parse_ip_range_NoDup r l : parse_ip_range r = Ok l -> List.NoDup l.
Proof.
  unfold parse_ip_range.
  destruct (contains "/" r).
  - unfold ip_network.
    destruct (split "/" r) as [|addr [|mask [|]]]; try discriminate.
    + destruct (ip_address addr) as [x|]; [|discriminate].
      intros [= <-]. repeat constructor. intros [].
    + destruct (ip_address addr) as [x|] eqn:Hx; [|discriminate].
      destruct (make_netmask mask) as [p|] eqn:Hp; [|discriminate].
      intros [= <-]. apply addresses_NoDup; [|apply hosts_NoDup].
      intros y. apply hosts_bound; [eapply ip_address_bound, Hx|eapply make_netmask_bound, Hp].
  - destruct (contains "-" r).
    + destruct (count "-" r =? 1)%nat; [|intros [= <-]; constructor].
      destruct (split "-" r) as [|start_ip [|end_part [|]]]; try discriminate.
      destruct (ip_address (strip start_ip)) as [start_addr|] eqn:Hs; [|discriminate].
      destruct (negb (contains "." (strip end_part))).
      * destruct (int _) as [a|]; [|discriminate].
        destruct (int _) as [b|]; [|discriminate].
        intros [= <-]. apply Finite.Injective_map_NoDup; [|apply range_NoDup].
        intros i j H. apply append_inj_r in H.
        change ("." ++ str i) with (String "." (str i)) in H.
        change ("." ++ str j) with (String "." (str j)) in H.
        injection H as H'. apply str_inj, H'.
      * destruct (ip_address (strip end_part)) as [end_addr|]; [|discriminate].
        destruct (walk_addresses _ start_addr) as [ip_list|] eqn:Hw; [|discriminate].
        intros [= <-].
        apply walk_addresses_spec in Hw as [-> Hb]; [|eapply ip_address_bound, Hs].
        apply addresses_NoDup; [exact Hb | apply iota_NoDup].
    + destruct (ip_address r) as [x|]; [|discriminate].
      intros [= <-]. repeat constructor. intros [].
Qed.

Lemma candidates_NoDup l : List.NoDup l -> List.NoDup (candidates l).
Proof.
  intros H. unfold candidates. destruct (254 <? List.length l)%nat; [|exact H].
  rewrite <- (List.firstn_skipn 254 l) in H. apply List.NoDup_app_remove_r in H. exact H.
Qed.

End DistinctFacts.

(** ** The service matrix *)

Module ServiceFacts.
Import Frame MonadFacts FrameFacts HoareFacts Observe ScanFacts.

Lemma all_scan_tasks_length hosts svcs :
  List.length (all_scan_tasks hosts svcs) = (List.length hosts * List.length svcs)%nat.
Proof.
  unfold all_scan_tasks. induction hosts as [|h hosts IH]; simpl; [reflexivity|].
  rewrite length_app, length_map, IH. reflexivity.
Qed.

Lemma all_scan_tasks_hosts hosts svcs :
  Forall (fun t => In (fst t) (List.map host_ip hosts)) (all_scan_tasks hosts svcs).
Proof.
  apply List.Forall_forall. intros [ip svc] H.
  apply List.in_flat_map in H as (h & Hh & Hin).
  apply List.in_map_iff in Hin as (x & [= <- <-] & _).
  simpl. apply List.in_map. exact Hh.
Qed.

Lemma port_probes_app l1 l2 :
  port_probes (l1 ++ l2) = (port_probes l1 ++ port_probes l2)%list.
Proof. unfold port_probes. apply List.flat_map_app. Qed.

Lemma port_probes_submitted tasks :
  port_probes (List.map (fun t => ECheckPort (fst t) (snd t)) tasks) = tasks.
Proof.
  induction tasks as [|[ip svc] tasks IH]; [reflexivity|].
  change (port_probes (List.map (fun t => ECheckPort (fst t) (snd t)) ((ip, svc) :: tasks)))
    with ((ip, svc) :: port_probes (List.map (fun t => ECheckPort (fst t) (snd t)) tasks)).
  rewrite IH. reflexivity.
Qed.

Lemma port_probes_none l :
  Forall (fun e => negb (port_probe_event e) = true) l -> port_probes l = [].
Proof.
  induction 1 as [|e l He _ IH]; [reflexivity|].
  unfold port_probes in *. cbn [List.flat_map]. rewrite IH, app_nil_r.
  destruct e; try reflexivity. discriminate.
Qed.

Lemma submit_all_run {A} w (ev : A -> event) l : forall s,
  exists s', submit_all w ev l s = (Ok tt, s') /\
             log s' = (log s ++ List.map ev l)%list.
Proof.
  induction l as [|x l IH]; intros s; simpl.
  - exists s. rewrite app_nil_r. auto.
  - unfold bind. pose proof (emit_log w (ev x) s) as Hlog.
    destruct (emit w (ev x) s) as [[[]|e] s1] eqn:He; [|discriminate (f_equal fst He)].
    simpl in Hlog. destruct (IH s1) as (s' & Hrun & Hlog').
    exists s'. split; [exact Hrun|]. rewrite Hlog', Hlog, <- app_assoc. reflexivity.
Qed.

Lemma update_progress_run w p s :
  exists s',
    _update_progress w p s =
      (if callback_raises w p then Raise (CallbackError "progress callback") else Ok tt, s') /\
    log s' = (log s ++ [EProgress p])%list /\
    config_manager s' = config_manager s /\
    results s' = results s /\
    (_stop_scanning s = true -> _stop_scanning s' = true).
Proof.
  unfold _update_progress, bind.
  pose proof (emit_log w (EProgress p) s) as Hlog.
  pose proof (settings_emit w (EProgress p) s) as (Hcfg & _).
  pose proof (results_emit w (EProgress p) s) as Hres.
  pose proof (stop_kept_emit w (EProgress p) s) as Hkept.
  destruct (emit w (EProgress p) s) as [[[]|e] s1] eqn:He; [|discriminate (f_equal fst He)].
  simpl in *. exists s1. destruct (callback_raises w p); auto.
Qed.

Section Services.
Context (w : World).

(** The loop over the results submits nothing. *)
Lemma collect_port_results_logs tasks total sr :
  respects (logs (fun e => negb (port_probe_event e))) (collect_port_results w tasks total sr).
Proof.
  unfold collect_port_results.
  apply respects_for_each; eauto with frame.
  intros [ip svc] [found completed].
  apply respects_bind; eauto with frame.
  - eapply respects_stop_requested with (E := fun e => negb (port_probe_event e) = true).
    + intros. apply logs_emit. assumption.
    + reflexivity.
  - intros stop. destruct stop.
    + apply respects_ret. apply logs_refl.
    + apply respects_bind; eauto with frame.
      * destruct (_ || _); [|apply respects_ret, logs_refl].
        apply update_progress_logs. reflexivity.
      * intros. apply respects_ret, logs_refl.
Qed.

(** The loop adds no address to the map and removes none. *)
Lemma collect_port_results_dom tasks total sr0 :
  hoare (fun _ => True) (collect_port_results w tasks total sr0)
    (fun r _ => forall ip, is_Some (fst r !! ip) <-> is_Some (sr0 !! ip))
    (fun _ _ => True).
Proof.
  unfold collect_port_results.
  eapply hoare_conseq with
    (pre := fun _ => forall ip, is_Some (fst (sr0, 0%nat) !! ip) <-> is_Some (sr0 !! ip));
    [|intros; simpl; tauto | intros a s H; exact H | auto].
  apply hoare_for_each_inv with
    (Inv := fun (st : gmap string (list ServiceInfo) * nat) (_ : Scanner) =>
              forall ip, is_Some (fst st !! ip) <-> is_Some (sr0 !! ip)).
  intros [ip svc] [sr completed]. simpl.
  intros s Hinv. unfold bind.
  destruct (stop_requested w s) as [[stop|e] s1]; [|exact I].
  destruct stop; [exact Hinv|].
  destruct (_ || _).
  - destruct (_update_progress w _ s1) as [[[]|e] s2]; [|exact I]. simpl.
    intros ip'. rewrite <- Hinv.
    destruct (check_port_socket w ip svc); [|tauto].
    destruct (sr !! ip) as [found|] eqn:Hf; [|tauto].
    destruct (decide (ip = ip')) as [<-|Hne].
    + rewrite lookup_insert_eq, Hf. split; intros _; eexists; reflexivity.
    + rewrite lookup_insert_ne by exact Hne. tauto.
  - simpl. intros ip'. rewrite <- Hinv.
    destruct (check_port_socket w ip svc); [|tauto].
    destruct (sr !! ip) as [found|] eqn:Hf; [|tauto].
    destruct (decide (ip = ip')) as [<-|Hne].
    + rewrite lookup_insert_eq, Hf. split; intros _; eexists; reflexivity.
    + rewrite lookup_insert_ne by exact Hne. tauto.
Qed.

End Services.

Lemma empty_service_results_dom hosts ip :
  is_Some (empty_service_results hosts !! ip) <-> In ip (List.map host_ip hosts).
Proof.
  unfold empty_service_results.
  enough (H : forall m : gmap string (list ServiceInfo),
            is_Some (List.fold_left (fun m host => <[host_ip host := []]> m) hosts m !! ip)
            <-> is_Some (m !! ip) \/ In ip (List.map host_ip hosts)).
  { rewrite H, lookup_empty. split; [intros [[x Hx]|H1]; [discriminate | exact H1] | auto]. }
  induction hosts as [|h hosts IH]; intros m; simpl; [tauto|].
  rewrite IH. destruct (decide (host_ip h = ip)) as [<-|Hne].
  - rewrite lookup_insert_eq. split; [auto|]. intros _. left. eexists. reflexivity.
  - rewrite lookup_insert_ne by exact Hne. tauto.
Qed.

(** Step 3: the tasks submitted are the product of the hosts and the
    services, and the map has an entry for the hosts and for nothing else. *)
Lemma scan_services_spec w tc hosts s :
  let tasks := all_scan_tasks hosts (services_to_scan s) in
  let probes := port_probes (since (log s) (log (snd (scan_services w tc hosts s)))) in
  match fst (scan_services w tc hosts s) with
  | Ok service_results =>
      probes = tasks /\
      forall ip, is_Some (service_results !! ip) <-> In ip (List.map host_ip hosts)
  | Raise _ => probes = tasks \/ probes = []
  end.
Proof.
  intros tasks probes. subst probes.
  destruct (scan_services w tc hosts s) as [r s'] eqn:E. simpl.
  unfold scan_services in E. unfold bind at 1 in E.
  destruct (update_progress_run w PScanningServices s) as (s1 & Hrun1 & Hlog1 & Hcfg1 & _).
  rewrite Hrun1 in E.
  destruct (callback_raises w PScanningServices).
  { injection E as <- <-. right. rewrite Hlog1, since_app. reflexivity. }
  unfold bind at 1 in E. unfold get_state at 1 in E.
  assert (Hsvcs : services_to_scan s1 = services_to_scan s).
  { unfold services_to_scan. rewrite Hcfg1. reflexivity. }
  rewrite Hsvcs in E. fold tasks in E. unfold bind at 1 in E.
  destruct (update_progress_run w (PStartingPortScan (List.length tasks) tc) s1)
    as (s2 & Hrun2 & Hlog2 & _).
  rewrite Hrun2 in E.
  destruct (callback_raises w (PStartingPortScan (List.length tasks) tc)).
  { injection E as <- <-. right. rewrite Hlog2, Hlog1, <- app_assoc, since_app. reflexivity. }
  unfold bind at 1 in E. unfold ThreadPoolExecutor in E.
  destruct (tc <=? 0)%Z.
  { injection E as <- <-. right. rewrite Hlog2, Hlog1, <- app_assoc, since_app. reflexivity. }
  unfold ret at 1 in E. unfold bind at 1 in E.
  destruct (submit_all_run w (fun t => ECheckPort (fst t) (snd t)) tasks s2)
    as (s3 & Hrun3 & Hlog3).
  rewrite Hrun3 in E. unfold bind at 1 in E.
  pose proof (collect_port_results_logs w tasks (List.length tasks)
                (empty_service_results hosts) s3) as (new & Hlog4 & Hnew).
  pose proof (collect_port_results_dom w tasks (List.length tasks)
                (empty_service_results hosts) s3 I) as Hdom.
  assert (Hprobes : forall s4, log s4 = (log s3 ++ new)%list ->
                               port_probes (since (log s) (log s4)) = tasks).
  { intros s4 H4. rewrite H4, Hlog3, Hlog2, Hlog1, <- !app_assoc, since_app.
    rewrite !port_probes_app, port_probes_submitted, (port_probes_none new Hnew).
    simpl. apply app_nil_r. }
  destruct (collect_port_results w tasks (List.length tasks)
              (empty_service_results hosts) s3) as [[r4|e] s4]; simpl in *.
  - injection E as <- <-. split; [apply Hprobes, Hlog4|].
    intros ip. rewrite Hdom. apply empty_service_results_dom.
  - injection E as <- <-. left. apply Hprobes, Hlog4.
Qed.

End ServiceFacts.

(** ** How a scan ends *)

Module OutcomeFacts.
Import Frame MonadFacts FrameFacts HoareFacts Observe ScanFacts ServiceFacts.

Lemma logs_grows allowed a b :
  logs allowed a b -> (List.length (log a) <= List.length (log b))%nat.
Proof. intros (new & -> & _). rewrite length_app. lia. Qed.

Lemma stop_fires_refl t s : stop_fires t s s.
Proof. split; [lia | split; [auto | lia]]. Qed.

Lemma stop_fires_trans t a b c : stop_fires t a b -> stop_fires t b c -> stop_fires t a c.
Proof.
  intros (L1 & K1 & F1) (L2 & K2 & F2). split; [lia | split; [auto |]].
  intros Ht. destruct (Nat.le_gt_cases t (List.length (log b))).
  - apply K2, F1. lia.
  - apply F2. lia.
Qed.

Lemma stop_fires_emit w t e : stop_at w = Some t -> respects (stop_fires t) (emit w e).
Proof.
  intros Hw s. unfold stop_fires, emit. rewrite Hw. cbn [snd set_log log].
  destruct (bool_decide (Some t = Some (List.length (log s ++ [e])))) eqn:Hd;
    cbn [stop_scan set_stop set_log log _stop_scanning]; rewrite length_app; cbn [List.length].
  - split; [lia | split; auto].
  - split; [lia | split; [auto |]]. intros Ht.
    apply (bool_decide_eq_false_1 _) in Hd. exfalso. apply Hd. f_equal.
    rewrite length_app. cbn [List.length]. lia.
Qed.

Lemma stop_fires_same t s s' :
  log s' = log s -> _stop_scanning s' = _stop_scanning s -> stop_fires t s s'.
Proof. intros Hl Hs. unfold stop_fires. rewrite Hl, Hs. split; [lia | split; [auto | lia]]. Qed.

(** A stop request made while the discovery runs has been made when the
    discovery returns. *)
Lemma discover_hosts_stop_fires w t range :
  stop_at w = Some t -> respects (stop_fires t) (discover_hosts w range).
Proof.
  intros Hw.
  eapply respects_discover_hosts with (E := fun _ => True);
    try (intros; apply stop_fires_same; reflexivity); try (intros; exact I).
  - apply stop_fires_trans.
  - intros e _. apply stop_fires_emit, Hw.
Qed.

Section Outcome.
Context (w : World).

Lemma scan_hosts_stop_kept tc hosts : respects stop_kept (scan_hosts w tc hosts).
Proof. frame_by respects_scan_hosts. Qed.

Lemma scan_hosts_logs allowed tc hosts :
  (forall e, scan_hosts_event e = true -> allowed e = true) ->
  respects (logs allowed) (scan_hosts w tc hosts).
Proof.
  intros Ha. eapply respects_scan_hosts with (E := fun e => allowed e = true);
    eauto with frame; try (intros; apply logs_same_log; reflexivity).
  intros; apply logs_emit; assumption.
Qed.

(** Step 4 never raises. *)
Lemma combine_results_total hosts hn sr :
  hoare (fun _ => True) (combine_results w hosts hn sr) (fun _ _ => True) (fun _ _ => False).
Proof.
  unfold combine_results.
  apply hoare_for_each_inv with (Inv := fun (_ : unit) (_ : Scanner) => True).
  intros h [] s _. unfold bind.
  destruct (stop_requested_run w s) as (s1 & -> & _).
  destruct (_stop_scanning s); simpl; exact I.
Qed.

(** Once a stop was requested, Step 4 adds no result. *)
Lemma combine_results_stopped hosts hn sr rs :
  hoare (fun s => stopped s /\ results s = rs) (combine_results w hosts hn sr)
    (fun _ s' => stopped s' /\ results s' = rs) (fun _ _ => False).
Proof.
  unfold combine_results.
  eapply hoare_conseq;
    [apply hoare_for_each_break
       with (I := fun s => stopped s /\ results s = rs) (fail := fun _ _ => False)
    | auto | intros a s [_ H]; exact H | auto].
  intros h [] s [Hs Hr]. unfold bind.
  destruct (stop_requested_run w s) as (s1 & -> & _ & Hres & Hkept & _).
  rewrite Hs. simpl. split; [reflexivity | split; [apply Hkept, Hs | congruence]].
Qed.

(** The value that Steps 2 to 4 return is the local [results]. *)
Lemma scan_hosts_returns_results tc hosts :
  hoare (fun _ => True) (scan_hosts w tc hosts)
    (fun l s' => l = results s') (fun _ _ => True).
Proof.
  assert (Hend : forall (pre : Scanner -> Prop),
             hoare pre (s <- get_state ;; ret (results s))
               (fun l s' => l = results s') (fun _ _ => True)).
  { intros pre s _. reflexivity. }
  assert (Hany : forall {A} (m : M A), hoare (fun _ => True) m (fun _ _ => True) (fun _ _ => True)).
  { intros A m s _. destruct (m s) as [[?|?] ?]; exact I. }
  unfold scan_hosts. destruct hosts as [|h hosts].
  - eapply hoare_bind; [apply Hany | intros ?; apply Hend].
  - eapply hoare_bind; [apply Hany | intros hn].
    eapply hoare_bind; [apply Hany | intros sr].
    eapply hoare_bind; [apply Hany | intros ?].
    eapply hoare_bind; [apply Hany | intros ?].
    eapply hoare_bind; [apply Hany | intros ?; apply Hend].
Qed.

(** Steps 2 to 4 end with a report at 100 %. *)
Lemma scan_hosts_final_report tc hosts :
  hoare (fun _ => True) (scan_hosts w tc hosts)
    (fun _ s' => exists before p, log s' = (before ++ [EProgress p])%list /\
                                  (p = PNoHosts \/ p = PCompleted))
    (fun _ _ => True).
Proof.
  assert (Hany : forall {A} (m : M A), hoare (fun _ => True) m (fun _ _ => True) (fun _ _ => True)).
  { intros A m s _. destruct (m s) as [[?|?] ?]; exact I. }
  assert (Hend : forall p, p = PNoHosts \/ p = PCompleted ->
             hoare (fun _ => True)
               (_update_progress w p ;; s <- get_state ;; ret (results s))
               (fun _ s' => exists before p, log s' = (before ++ [EProgress p])%list /\
                                             (p = PNoHosts \/ p = PCompleted))
               (fun _ _ => True)).
  { intros p Hp s _. unfold bind.
    destruct (update_progress_run w p s) as (s1 & -> & Hlog & _).
    destruct (callback_raises w p); [exact I|]. simpl. eauto. }
  unfold scan_hosts. destruct hosts as [|h hosts].
  - apply Hend. auto.
  - eapply hoare_bind; [apply Hany | intros hn].
    eapply hoare_bind; [apply Hany | intros sr].
    eapply hoare_bind; [apply Hany | intros ?].
    eapply hoare_bind; [apply Hany | intros ?].
    apply Hend. auto.
Qed.

(** After a stop request, Steps 2 to 4 leave [results] as it is. *)
Lemma scan_hosts_stopped tc hosts rs :
  hoare (fun s => stopped s /\ results s = rs) (scan_hosts w tc hosts)
    (fun _ s' => results s' = rs) (fun _ s' => results s' = rs).
Proof.
  assert (Hkeep : forall {A} (m : M A),
             respects stop_kept m -> respects same_results m ->
             hoare (fun s => stopped s /\ results s = rs) m
               (fun _ s' => stopped s' /\ results s' = rs)
               (fun _ s' => results s' = rs)).
  { intros A m Hk Hr s [Hs Hres]. specialize (Hk s). specialize (Hr s).
    unfold stop_kept, same_results, stopped in *.
    destruct (m s) as [[a|e] s']; simpl in *; [split; [auto | congruence] | congruence]. }
  assert (Hend : hoare (fun s => results s = rs) (s <- get_state ;; ret (results s))
                   (fun _ s' => results s' = rs) (fun _ s' => results s' = rs)).
  { intros s H. exact H. }
  assert (Hdrop : forall p,
             hoare (fun s => stopped s /\ results s = rs)
               (_update_progress w p ;; s <- get_state ;; ret (results s))
               (fun _ s' => results s' = rs) (fun _ s' => results s' = rs)).
  { intros p. eapply hoare_bind;
      [apply Hkeep; [apply update_progress_stop_kept | apply update_progress_results]|].
    intros ?. eapply hoare_conseq; [apply Hend | intros s [_ H]; exact H | auto | auto]. }
  unfold scan_hosts. destruct hosts as [|h hosts]; [apply Hdrop|].
  eapply hoare_bind;
    [apply Hkeep; [apply resolve_hostnames_stop_kept | apply resolve_hostnames_results]
    | intros hn].
  eapply hoare_bind;
    [apply Hkeep; [apply scan_services_stop_kept | apply scan_services_results]
    | intros sr].
  eapply hoare_bind;
    [apply Hkeep; [apply update_progress_stop_kept | apply update_progress_results]
    | intros ?].
  eapply hoare_bind;
    [eapply hoare_conseq with (fail := fun _ _ => False);
       [apply (combine_results_stopped (h :: hosts) hn sr rs)
       | auto | intros ? ? H; exact H | intros e s []]
    | intros ?; apply Hdrop].
Qed.

(** When Steps 2 to 4 raise, [results] is still empty, unless it is the
    last report, [Scan completed], that raised. *)
Lemma scan_hosts_raise tc hosts :
  hoare (fun s => results s = []) (scan_hosts w tc hosts)
    (fun _ _ => True)
    (fun e s' => results s' = [] \/
                 (e = CallbackError "progress callback" /\
                  exists before, log s' = (before ++ [EProgress PCompleted])%list)).
Proof.
  set (fail := fun (e : exn) (s' : Scanner) =>
                 results s' = [] \/
                 (e = CallbackError "progress callback" /\
                  exists before, log s' = (before ++ [EProgress PCompleted])%list)).
  assert (Hkeep : forall {A} (m : M A),
             respects same_results m ->
             hoare (fun s => results s = []) m (fun _ s' => results s' = []) fail).
  { intros A m Hr s Hres. specialize (Hr s). unfold same_results in Hr.
    destruct (m s) as [[a|e] s']; simpl in *; [congruence | left; congruence]. }
  assert (Hend : forall pre, hoare pre (s <- get_state ;; ret (results s))
                               (fun _ _ => True) fail).
  { intros pre s _. exact I. }
  unfold scan_hosts. destruct hosts as [|h hosts].
  - eapply hoare_bind; [apply Hkeep, update_progress_results | intros ?; apply Hend].
  - eapply hoare_bind; [apply Hkeep, resolve_hostnames_results | intros hn].
    eapply hoare_bind; [apply Hkeep, scan_services_results | intros sr].
    eapply hoare_bind; [apply Hkeep, update_progress_results | intros ?].
    eapply hoare_bind with (mid := fun _ _ => True);
      [eapply hoare_conseq with (fail := fun _ _ => False);
         [apply (combine_results_total (h :: hosts) hn sr)
         | intros; exact I | intros; exact I | intros e s []]
      | intros ?].
    intros s _. unfold bind.
    destruct (update_progress_run w PCompleted s) as (s1 & -> & Hlog & _).
    destruct (callback_raises w PCompleted); [|exact I].
    right. split; [reflexivity | eauto].
Qed.

Lemma scan_network_try_raise tc range :
  hoare (fun s => results s = []) (scan_network_try w tc range)
    (fun _ _ => True)
    (fun e s' => results s' = [] \/
                 (e = CallbackError "progress callback" /\
                  exists before, log s' = (before ++ [EProgress PCompleted])%list)).
Proof.
  assert (Hkeep : forall {A} (m : M A),
             respects same_results m ->
             hoare (fun s => results s = []) m (fun _ s' => results s' = [])
               (fun e s' => results s' = [] \/
                 (e = CallbackError "progress callback" /\
                  exists before, log s' = (before ++ [EProgress PCompleted])%list))).
  { intros A m Hr s Hres. specialize (Hr s). unfold same_results in Hr.
    destruct (m s) as [[a|e] s']; simpl in *; [congruence | left; congruence]. }
  unfold scan_network_try.
  eapply hoare_bind; [apply Hkeep, update_progress_results | intros ?].
  eapply hoare_bind; [apply Hkeep, discover_hosts_results | intros hosts].
  apply scan_hosts_raise.
Qed.

(** A stop request made during the discovery: the [try] block runs on to
    its end and leaves [results] empty. *)
Lemma scan_network_try_stopped t tc range sb :
  stop_at w = Some t ->
  results sb = [] ->
  (List.length (log (snd (_update_progress w PScanningLive sb))) < t
   <= List.length (log (snd (discover_hosts w range
                               (snd (_update_progress w PScanningLive sb))))))%nat ->
  match scan_network_try w tc range sb with
  | (Ok l, s') =>
      l = [] /\ results s' = [] /\
      exists before p, log s' = (before ++ [EProgress p])%list /\
                       (p = PNoHosts \/ p = PCompleted)
  | (Raise e, s') => results s' = []
  end.
Proof.
  intros Hw Hres Ht. unfold scan_network_try. unfold bind at 1.
  pose proof (update_progress_results w PScanningLive sb) as Hres0.
  destruct (_update_progress w PScanningLive sb) as [[[]|e] s0] eqn:E0;
    unfold same_results in Hres0; simpl in Hres0, Ht; [|congruence].
  unfold bind at 1.
  pose proof (discover_hosts_results w range s0) as Hres1.
  pose proof (discover_hosts_stop_fires w t range Hw s0) as (_ & _ & Hfires).
  destruct (discover_hosts w range s0) as [[hosts|e] s1] eqn:E1;
    unfold same_results in Hres1; simpl in Hres1, Ht, Hfires; [|congruence].
  assert (Hs1 : stopped s1 /\ results s1 = []) by (split; [apply Hfires, Ht | congruence]).
  pose proof (scan_hosts_stopped tc hosts [] s1 Hs1) as Hkeep.
  pose proof (scan_hosts_returns_results tc hosts s1 I) as Hret.
  pose proof (scan_hosts_final_report tc hosts s1 I) as Hlast.
  destruct (scan_hosts w tc hosts s1) as [[l|e] s']; [|exact Hkeep].
  split; [congruence|]. split; [exact Hkeep | exact Hlast].
Qed.

End Outcome.

End OutcomeFacts.

(** ** A range that is no range *)

Module MalformedFacts.
Import Frame MonadFacts FrameFacts HoareFacts Observe ScanFacts ServiceFacts.

Lemma is_in_network_malformed ip : _is_in_network ip "not-an-ip" = false.
Proof.
  unfold _is_in_network.
  replace (IpAddress.ip_network "not-an-ip") with (@None IpAddress.IPv4Network)
    by (vm_compute; reflexivity).
  reflexivity.
Qed.

Lemma arp_supplement_malformed arp_table st :
  arp_supplement "not-an-ip" arp_table st = st.
Proof.
  unfold arp_supplement. generalize (dict_keys arp_table). intros l. revert st.
  induction l as [|ip l IH]; intros [alive discovered]; simpl; [reflexivity|].
  rewrite is_in_network_malformed, andb_false_r. apply IH.
Qed.

Lemma unprobed_refl s : unprobed s s.
Proof. split; [apply logs_refl | apply results_refl]. Qed.

Lemma unprobed_trans a b c : unprobed a b -> unprobed b c -> unprobed a c.
Proof.
  intros [L1 R1] [L2 R2]. split; [eapply logs_trans | eapply results_trans]; eassumption.
Qed.

Lemma unprobed_emit w e : probe_event e = false -> respects unprobed (emit w e).
Proof.
  intros He s. split; [apply logs_emit; rewrite He; reflexivity | apply results_emit].
Qed.

Lemma unprobed_update_progress w p : respects unprobed (_update_progress w p).
Proof.
  apply respects_update_progress with (E := fun e => probe_event e = false);
    [apply unprobed_refl | apply unprobed_trans | apply unprobed_emit | reflexivity].
Qed.

Lemma no_probe_logged l :
  Forall (fun e => negb (probe_event e) = true) l -> pings l = [] /\ tcp_pings l = [].
Proof.
  induction 1 as [|e l He _ [IH1 IH2]]; [split; reflexivity|].
  unfold pings, tcp_pings in *. cbn [List.flat_map]. rewrite IH1, IH2.
  destruct e; try discriminate He; split; reflexivity.
Qed.

Section Malformed.
Context (w : World) (s0 : Scanner).

Lemma unprobed_step {A} (m : M A) :
  respects unprobed m ->
  hoare (unprobed s0) m (fun _ s' => unprobed s0 s') (fun _ s' => unprobed s0 s').
Proof.
  intros Hm. apply hoare_respects with (R := unprobed); [exact Hm|].
  intros s s' Hss Hs. eapply unprobed_trans; eassumption.
Qed.

(** The discovery on ["not-an-ip"] starts no ping and no TCP probe, and
    finds no host. *)
Lemma enhanced_host_discovery_malformed :
  hoare (unprobed s0) (_enhanced_host_discovery w "not-an-ip")
    (fun hosts s' => hosts = [] /\ unprobed s0 s') (fun _ _ => False).
Proof.
  unfold _enhanced_host_discovery.
  eapply hoare_try_except with (caught := fun _ s' => unprobed s0 s');
    [|intros e; apply hoare_ret; auto].
  replace (parse_ip_range "not-an-ip") with (@Ok (list string) []) by (vm_compute; reflexivity).
  eapply hoare_bind_eq with (a0 := []) (mid := unprobed s0);
    [intros s Hs; split; [reflexivity | exact Hs]|].
  cbv zeta. change (candidates []) with (@nil string).
  eapply hoare_bind; [apply unprobed_step, unprobed_update_progress | intros ?].
  eapply hoare_bind_eq with (a0 := ([], ∅)) (mid := unprobed s0);
    [intros s Hs; split; [reflexivity | exact Hs]|].
  eapply hoare_bind; [apply unprobed_step, unprobed_update_progress | intros ?].
  eapply hoare_bind with (mid := fun _ s' => unprobed s0 s').
  { apply unprobed_step. unfold _get_system_arp_table.
    apply respects_bind;
      [apply unprobed_trans | apply unprobed_emit; reflexivity
      | intros ?; apply respects_ret, unprobed_refl]. }
  intros arp_table. rewrite arp_supplement_malformed.
  eapply hoare_bind; [apply unprobed_step, unprobed_update_progress | intros ?].
  eapply hoare_bind_eq with (a0 := ([], ∅)) (mid := unprobed s0);
    [intros s Hs; split; [reflexivity | exact Hs]|].
  eapply hoare_bind; [apply unprobed_step, unprobed_update_progress | intros ?].
  eapply hoare_bind_eq with (a0 := []) (mid := unprobed s0);
    [intros s Hs; split; [reflexivity | exact Hs]|].
  eapply hoare_bind; [apply unprobed_step, unprobed_update_progress | intros ?].
  apply hoare_ret. auto.
Qed.

(** The [try] block on ["not-an-ip"]: it ends with [No hosts found]. *)
Lemma scan_network_try_malformed tc :
  hoare (unprobed s0) (scan_network_try w tc "not-an-ip")
    (fun l s' => l = results s' /\ unprobed s0 s' /\
                 exists before, log s' = (log s0 ++ before ++ [EProgress PNoHosts])%list)
    (fun _ s' => unprobed s0 s').
Proof.
  unfold scan_network_try.
  eapply hoare_bind; [apply unprobed_step, unprobed_update_progress | intros ?].
  unfold discover_hosts.
  eapply hoare_bind_eq with (a0 := []) (mid := unprobed s0).
  { eapply hoare_bind; [apply unprobed_step, unprobed_update_progress | intros ?].
    eapply hoare_conseq;
      [apply enhanced_host_discovery_malformed | auto | auto | intros e s []]. }
  intros s Hs. unfold scan_hosts, bind.
  pose proof (unprobed_update_progress w PNoHosts s) as Hstep.
  destruct (update_progress_run w PNoHosts s) as (s1 & Hrun & Hlog & _).
  rewrite Hrun in *. simpl in Hstep.
  assert (Hs1 : unprobed s0 s1) by (eapply unprobed_trans; eassumption).
  destruct (callback_raises w PNoHosts); [exact Hs1|].
  simpl. split; [reflexivity|]. split; [exact Hs1|].
  destruct Hs as [(new & Hnew & _) _]. exists new.
  rewrite Hlog, Hnew, <- app_assoc. reflexivity.
Qed.

End Malformed.

End MalformedFacts.

(** ** The port probes of a scan *)

Module ProbeFacts.
Import Frame MonadFacts FrameFacts HoareFacts Observe ScanFacts ServiceFacts OutcomeFacts.

(** Step 3 submits its tasks when its two reports are made and the
    executor is created, and only then. *)
Lemma scan_services_exact w tc hosts s :
  let tasks := all_scan_tasks hosts (services_to_scan s) in
  let run := scan_services w tc hosts s in
  let probes := port_probes (since (log s) (log (snd run))) in
  if callback_raises w PScanningServices
     || callback_raises w (PStartingPortScan (List.length tasks) tc)
     || (tc <=? 0)%Z
  then probes = [] /\ exists e, fst run = Raise e
  else probes = tasks.
Proof.
  intros tasks run probes. subst probes run.
  destruct (scan_services w tc hosts s) as [r s'] eqn:E. cbn [fst snd].
  unfold scan_services in E. unfold bind at 1 in E.
  destruct (update_progress_run w PScanningServices s) as (s1 & Hrun1 & Hlog1 & Hcfg1 & _).
  rewrite Hrun1 in E.
  destruct (callback_raises w PScanningServices).
  { injection E as <- <-. cbn [orb]. rewrite Hlog1, since_app. split; [reflexivity | eauto]. }
  unfold bind at 1 in E. unfold get_state at 1 in E.
  assert (Hsvcs : services_to_scan s1 = services_to_scan s).
  { unfold services_to_scan. rewrite Hcfg1. reflexivity. }
  rewrite Hsvcs in E. fold tasks in E. unfold bind at 1 in E.
  destruct (update_progress_run w (PStartingPortScan (List.length tasks) tc) s1)
    as (s2 & Hrun2 & Hlog2 & _).
  rewrite Hrun2 in E.
  destruct (callback_raises w (PStartingPortScan (List.length tasks) tc)).
  { injection E as <- <-. cbn [orb]. rewrite Hlog2, Hlog1, <- app_assoc, since_app.
    split; [reflexivity | eauto]. }
  unfold bind at 1 in E. unfold ThreadPoolExecutor in E.
  destruct (tc <=? 0)%Z.
  { injection E as <- <-. cbn [orb]. rewrite Hlog2, Hlog1, <- app_assoc, since_app.
    split; [reflexivity | eauto]. }
  cbn [orb].
  unfold ret at 1 in E. unfold bind at 1 in E.
  destruct (submit_all_run w (fun t => ECheckPort (fst t) (snd t)) tasks s2)
    as (s3 & Hrun3 & Hlog3).
  rewrite Hrun3 in E. unfold bind at 1 in E.
  pose proof (collect_port_results_logs w tasks (List.length tasks)
                (empty_service_results hosts) s3) as (new & Hlog4 & Hnew).
  assert (Hprobes : forall s4, log s4 = (log s3 ++ new)%list ->
                               port_probes (since (log s) (log s4)) = tasks).
  { intros s4 H4. rewrite H4, Hlog3, Hlog2, Hlog1, <- !app_assoc, since_app.
    rewrite !port_probes_app, port_probes_submitted, (port_probes_none new Hnew).
    simpl. apply app_nil_r. }
  destruct (collect_port_results w tasks (List.length tasks)
              (empty_service_results hosts) s3) as [[r4|e] s4]; simpl in *;
    injection E as <- <-; apply Hprobes, Hlog4.
Qed.

(** What submits no port check. *)
Lemma no_port_probe {A} (m : M A) s :
  respects (logs (fun e => negb (port_probe_event e))) m ->
  exists new, log (snd (m s)) = (log s ++ new)%list /\ port_probes new = [].
Proof.
  intros Hm. destruct (Hm s) as (new & Hlog & Hnew).
  exists new. split; [exact Hlog | apply port_probes_none, Hnew].
Qed.

Section Probes.
Context (w : World).

Lemma update_progress_no_probe p :
  respects (logs (fun e => negb (port_probe_event e))) (_update_progress w p).
Proof. apply update_progress_logs. reflexivity. Qed.

Lemma discover_hosts_no_probe range :
  respects (logs (fun e => negb (port_probe_event e))) (discover_hosts w range).
Proof.
  apply discover_hosts_logs. intros e He.
  destruct e as [[]| | | | | | |]; try discriminate He; reflexivity.
Qed.

Lemma resolve_hostnames_no_probe hosts :
  respects (logs (fun e => negb (port_probe_event e))) (resolve_hostnames w hosts).
Proof.
  apply resolve_hostnames_logs. intros e He.
  destruct e as [[]| | | | | | |]; try discriminate He; reflexivity.
Qed.

(** What follows Step 3. *)
Lemma finish_no_probe hosts hn sr :
  respects (logs (fun e => negb (port_probe_event e)))
    (_update_progress w PFinalizing ;;
     combine_results w hosts hn sr ;;
     _update_progress w PCompleted ;;
     s <- get_state ;; ret (results s)).
Proof.
  apply respects_bind; [apply logs_trans | apply update_progress_no_probe | intros ?].
  apply respects_bind; [apply logs_trans | | intros ?].
  { apply combine_results_logs. intros e He.
    destruct e as [[]| | | | | | |]; try discriminate He; reflexivity. }
  apply respects_bind; [apply logs_trans | apply update_progress_no_probe | intros ?].
  apply respects_bind; [apply logs_trans | apply respects_get_state, logs_refl | intros ?].
  apply respects_ret, logs_refl.
Qed.

(** Steps 2 to 4: the tasks of Step 3 are submitted, all of them, or the
    steps fail before. *)
Lemma scan_hosts_probes tc hosts s1 :
  exists new,
    log (snd (scan_hosts w tc hosts s1)) = (log s1 ++ new)%list /\
    (port_probes new = all_scan_tasks hosts (services_to_scan s1) \/
     port_probes new = [] /\ exists e, fst (scan_hosts w tc hosts s1) = Raise e).
Proof.
  unfold scan_hosts. destruct hosts as [|h hosts'].
  { destruct (no_port_probe
                (_update_progress w PNoHosts ;; s <- get_state ;; ret (results s)) s1)
      as (new & Hlog & Hnew).
    - apply respects_bind; [apply logs_trans | apply update_progress_no_probe | intros ?].
      apply respects_bind; [apply logs_trans | apply respects_get_state, logs_refl | intros ?].
      apply respects_ret, logs_refl.
    - exists new. split; [exact Hlog | left; exact Hnew]. }
  set (hosts := h :: hosts').
  destruct (no_port_probe (resolve_hostnames w hosts) s1 (resolve_hostnames_no_probe hosts))
    as (n2 & Hlog2 & Hn2).
  pose proof (resolve_hostnames_settings w hosts s1) as (Hcfg2 & _).
  match goal with |- context [fst (?m s1)] => destruct (m s1) as [r sF] eqn:E end.
  cbn [fst snd]. unfold bind at 1 in E.
  destruct (resolve_hostnames w hosts s1) as [[hn|e] s2]; cbn [snd] in *.
  2:{ injection E as <- <-. exists n2.
      split; [exact Hlog2 | right; split; [exact Hn2 | eauto]]. }
  assert (Hsvcs : services_to_scan s2 = services_to_scan s1).
  { unfold services_to_scan. rewrite Hcfg2. reflexivity. }
  unfold bind at 1 in E.
  pose proof (scan_services_spec w tc hosts s2) as Hspec. cbv zeta in Hspec.
  pose proof (scan_services_logs w (fun _ => true) tc hosts (fun _ _ => eq_refl) s2)
    as (n3 & Hlog3 & _).
  rewrite Hlog3, since_app, Hsvcs in Hspec.
  destruct (scan_services w tc hosts s2) as [[sr|e] s3]; cbn [fst snd] in *.
  - destruct Hspec as [Hp3 _].
    destruct (no_port_probe
                (_update_progress w PFinalizing ;;
                 combine_results w hosts hn sr ;;
                 _update_progress w PCompleted ;;
                 s <- get_state ;; ret (results s)) s3 (finish_no_probe hosts hn sr))
      as (n4 & Hlog4 & Hn4).
    rewrite E in Hlog4. cbn [snd] in Hlog4.
    exists (n2 ++ n3 ++ n4)%list. split.
    + rewrite Hlog4, Hlog3, Hlog2, <- !app_assoc. reflexivity.
    + left. rewrite !port_probes_app, Hn2, Hp3, Hn4, app_nil_r. reflexivity.
  - injection E as <- <-.
    exists (n2 ++ n3)%list. split; [rewrite Hlog3, Hlog2, <- app_assoc; reflexivity|].
    rewrite port_probes_app, Hn2. cbn [app].
    destruct Hspec as [Hp3 | Hp3]; [left; exact Hp3 | right; split; [exact Hp3 | eauto]].
Qed.

(** The port checks of a whole scan: those of the hosts that the discovery
    returned, with every service to scan; or none, in a scan that failed. *)
Lemma scan_network_probes range s :
  let s0 := snd (_update_progress w PScanningLive (scan_network_begin s)) in
  let s1 := snd (discover_hosts w range s0) in
  let run := scan_network w range s in
  (exists hosts before,
     fst (discover_hosts w range s0) = Ok hosts /\
     log s1 = (log s ++ before)%list /\ port_probes before = [] /\
     port_probes (since (log s1) (log (snd run))) = all_scan_tasks hosts (services_to_scan s) /\
     port_probes (since (log s) (log (snd run))) = all_scan_tasks hosts (services_to_scan s)) \/
  (failed (since (log s) (log (snd run))) = true /\
   port_probes (since (log s) (log (snd run))) = []).
Proof.
  cbv zeta. set (sb := scan_network_begin s).
  pose proof (scan_network_cases w range s) as Hcases. fold sb in Hcases.
  assert (Hlogfail : forall e s',
            scan_network_try w (scan_threads sb) range sb = (Raise e, s') ->
            log (snd (scan_network w range s)) = (log s' ++ [EProgress (PFailed e)])%list).
  { intros e s' Htry. rewrite scan_network_unfold. unfold try_except. fold sb.
    rewrite Htry. destruct (except_run w e s') as (s2 & -> & Hl & _). exact Hl. }
  assert (Hraise : forall e s', scan_network_try w (scan_threads sb) range sb = (Raise e, s') ->
            forall new, log s' = (log s ++ new)%list ->
            failed (since (log s) (log (snd (scan_network w range s)))) = true /\
            port_probes (since (log s) (log (snd (scan_network w range s))))
            = port_probes new).
  { intros e s' Htry new Hnew. rewrite (Hlogfail e s' Htry), Hnew, <- app_assoc, since_app.
    split; [rewrite failed_app; cbn; apply orb_true_r|].
    rewrite port_probes_app. cbn. apply app_nil_r. }
  assert (Hbegin : log sb = log s) by apply begin_log.
  assert (Hcfg : services_to_scan sb = services_to_scan s).
  { unfold services_to_scan, sb, scan_network_begin.
    destruct (config_manager s) eqn:E; cbn [set_results set_stop set_threads config_manager];
      rewrite ?E; reflexivity. }
  destruct (no_port_probe (_update_progress w PScanningLive) sb
              (update_progress_no_probe PScanningLive)) as (n0 & Hlog0 & Hn0).
  pose proof (update_progress_settings w PScanningLive sb) as (Hcfg0 & _).
  destruct (_update_progress w PScanningLive sb) as [[[]|e0] s0] eqn:E0; cbn [snd] in *.
  2:{ right.
      assert (Htry : scan_network_try w (scan_threads sb) range sb = (Raise e0, s0)).
      { unfold scan_network_try, bind. rewrite E0. reflexivity. }
      destruct (Hraise e0 s0 Htry n0) as [Hf Hp]; [rewrite Hlog0, Hbegin; reflexivity|].
      split; [exact Hf | rewrite Hp; exact Hn0]. }
  destruct (no_port_probe (discover_hosts w range) s0 (discover_hosts_no_probe range))
    as (n1 & Hlog1 & Hn1).
  pose proof (discover_hosts_settings w range s0) as (Hcfg1 & _).
  destruct (discover_hosts w range s0) as [[hosts|e1] s1] eqn:E1; cbn [fst snd] in *.
  2:{ right.
      assert (Htry : scan_network_try w (scan_threads sb) range sb = (Raise e1, s1)).
      { unfold scan_network_try, bind. rewrite E0, E1. reflexivity. }
      destruct (Hraise e1 s1 Htry (n0 ++ n1)%list) as [Hf Hp].
      { rewrite Hlog1, Hlog0, Hbegin, <- app_assoc. reflexivity. }
      split; [exact Hf | rewrite Hp, port_probes_app, Hn0, Hn1; reflexivity]. }
  assert (Hsvcs : services_to_scan s1 = services_to_scan s).
  { rewrite <- Hcfg. unfold services_to_scan. rewrite Hcfg1, Hcfg0. reflexivity. }
  assert (Hlog01 : log s1 = (log s ++ n0 ++ n1)%list).
  { rewrite Hlog1, Hlog0, Hbegin, <- app_assoc. reflexivity. }
  destruct (scan_hosts_probes (scan_threads sb) hosts s1) as (n2 & Hlog2 & Hn2).
  rewrite Hsvcs in Hn2.
  assert (Htry : scan_network_try w (scan_threads sb) range sb
                 = scan_hosts w (scan_threads sb) hosts s1).
  { unfold scan_network_try, bind. rewrite E0, E1. reflexivity. }
  rewrite Htry in Hcases, Hraise, Hlogfail.
  destruct (scan_hosts w (scan_threads sb) hosts s1) as [[l|e2] s2] eqn:E2; cbn [fst snd] in *.
  - destruct Hcases as [Hrun _]. rewrite Hrun. cbn [snd].
    destruct Hn2 as [Hn2 | [_ (e & He)]]; [|discriminate He].
    left. exists hosts, (n0 ++ n1)%list. split; [reflexivity|]. split; [exact Hlog01|].
    split; [rewrite port_probes_app, Hn0, Hn1; reflexivity|].
    split; [rewrite Hlog2, since_app; exact Hn2|].
    rewrite Hlog2, Hlog01, <- !app_assoc, since_app, !port_probes_app, Hn0, Hn1. exact Hn2.
  - destruct (Hraise e2 s2 eq_refl (n0 ++ n1 ++ n2)%list) as [Hf Hp].
    { rewrite Hlog2, Hlog01, <- !app_assoc. reflexivity. }
    rewrite !port_probes_app, Hn0, Hn1 in Hp. cbn [app] in Hp.
    destruct Hn2 as [Hn2 | [Hn2 _]].
    + left. exists hosts, (n0 ++ n1)%list. split; [reflexivity|]. split; [exact Hlog01|].
      split; [rewrite port_probes_app, Hn0, Hn1; reflexivity|].
      split; [|rewrite Hp; exact Hn2].
      rewrite (Hlogfail e2 s2 eq_refl), Hlog2, <- app_assoc, since_app, port_probes_app, Hn2.
      cbn. apply app_nil_r.
    + right. split; [exact Hf | rewrite Hp; exact Hn2].
Qed.

(** The discovery never raises: what is raised inside is caught there. *)
Lemma enhanced_host_discovery_returns range s :
  exists hosts s', _enhanced_host_discovery w range s = (Ok hosts, s').
Proof.
  unfold _enhanced_host_discovery, try_except.
  match goal with |- context [match ?m s with _ => _ end] => destruct (m s) as [[a|e] s1] end;
    eauto.
Qed.

(** No result is assembled before Step 4 is announced. *)
Lemma results_before_finalizing tc range sb :
  results sb = [] ->
  exists new,
    log (snd (scan_network_try w tc range sb)) = (log sb ++ new)%list /\
    (results (snd (scan_network_try w tc range sb)) = [] \/ In (EProgress PFinalizing) new).
Proof.
  intros Hsb.
  set (before := fun s : Scanner =>
         exists new, log s = (log sb ++ new)%list /\
                     (results s = [] \/ In (EProgress PFinalizing) new)).
  set (after := fun s : Scanner =>
         exists new, log s = (log sb ++ new)%list /\ In (EProgress PFinalizing) new).
  assert (Hafter : forall s, after s -> before s).
  { intros s (new & Hlog & Hin). exists new. auto. }
  assert (Hk : forall A (m : M A),
             respects (logs (fun _ => true)) m -> respects same_results m ->
             hoare before m (fun _ s' => before s') (fun _ s' => before s')).
  { intros A m Hlogs Hres s (n1 & H1 & Hs). specialize (Hlogs s). specialize (Hres s).
    destruct Hlogs as (n2 & H2 & _). unfold same_results in Hres.
    assert (Hs' : before (snd (m s))).
    { exists (n1 ++ n2)%list. split; [rewrite H2, H1, app_assoc; reflexivity|].
      destruct Hs as [Hs|Hs]; [left; congruence | right; apply in_or_app; left; exact Hs]. }
    destruct (m s) as [[a|e] s']; exact Hs'. }
  assert (Ha : forall A (m : M A),
             respects (logs (fun _ => true)) m ->
             hoare after m (fun _ s' => after s') (fun _ s' => after s')).
  { intros A m Hlogs s (n1 & H1 & Hs). specialize (Hlogs s).
    destruct Hlogs as (n2 & H2 & _).
    assert (Hs' : after (snd (m s))).
    { exists (n1 ++ n2)%list. split; [rewrite H2, H1, app_assoc; reflexivity|].
      apply in_or_app. left. exact Hs. }
    destruct (m s) as [[a|e] s']; exact Hs'. }
  assert (Hany : forall p, respects (logs (fun _ => true)) (_update_progress w p)).
  { intros p. apply update_progress_logs. reflexivity. }
  assert (Htry : hoare before (scan_network_try w tc range)
                   (fun _ s' => before s') (fun _ s' => before s')).
  { unfold scan_network_try.
    eapply hoare_bind; [apply Hk; [apply Hany | apply update_progress_results] | intros ?].
    eapply hoare_bind;
      [apply Hk; [apply discover_hosts_logs; reflexivity | apply discover_hosts_results]
      | intros hosts].
    unfold scan_hosts. destruct hosts as [|h hosts'].
    { eapply hoare_bind; [apply Hk; [apply Hany | apply update_progress_results] | intros ?].
      eapply hoare_bind with (mid := fun _ s => before s);
        [apply hoare_get_state; auto | intros ?; apply hoare_ret; auto]. }
    eapply hoare_bind;
      [apply Hk; [apply resolve_hostnames_logs; reflexivity | apply resolve_hostnames_results]
      | intros hn].
    eapply hoare_bind;
      [apply Hk; [apply scan_services_logs; reflexivity | apply scan_services_results]
      | intros sr].
    eapply hoare_bind with (mid := fun _ s => after s).
    { intros s (n1 & H1 & _).
      destruct (update_progress_run w PFinalizing s) as (s' & Hrun & Hlog & _).
      assert (Hs' : after s').
      { exists (n1 ++ [EProgress PFinalizing])%list.
        split; [rewrite Hlog, H1, app_assoc; reflexivity|].
        apply in_or_app. right. left. reflexivity. }
      rewrite Hrun. destruct (callback_raises w PFinalizing); auto. }
    intros ?.
    eapply hoare_conseq with (pre := after) (post := fun _ s => after s)
                             (fail := fun _ s => after s); auto.
    eapply hoare_bind; [apply Ha, combine_results_logs; reflexivity | intros ?].
    eapply hoare_bind; [apply Ha, Hany | intros ?].
    eapply hoare_bind with (mid := fun _ s => after s);
      [apply hoare_get_state; auto | intros ?; apply hoare_ret; auto]. }
  assert (H0 : before sb).
  { exists []. rewrite app_nil_r. auto. }
  specialize (Htry sb H0).
  destruct (scan_network_try w tc range sb) as [[l|e] s1]; exact Htry.
Qed.

End Probes.

End ProbeFacts.

(** * The claims of the specification *)

Import PyStr PyStrFacts IpAddress IpAddressFacts RangeSpec ParseFacts.

(** ** Range expansion *)

(** C7.  Expanding ["192.168.1.1-254"] yields exactly 254 addresses,
    ["192.168.1.1"] through ["192.168.1.254"], in ascending order: the
    result is the list of the texts [192.168.1.i] for [i = 1, ..., 254], and
    read back as addresses they are 254 consecutive ordinals. *)
Theorem C7_range_1_to_254 :
  exists ip_list,
    parse_ip_range "192.168.1.1-254" = Ok ip_list /\
    ip_list = List.map (dotted 192 168 1) (iota 1 254) /\
    List.length ip_list = 254%nat /\
    List.hd "" ip_list = "192.168.1.1" /\
    List.last ip_list "" = "192.168.1.254" /\
    List.map ip_address ip_list = List.map Some (iota (ordinal 192 168 1 1) 254).
Proof.
  eexists. split; [vm_compute; reflexivity|].
  repeat split; vm_compute; reflexivity.
Qed.

(** C10.  For every trailing-octet range [a.b.c.s-e] with octets [a], [b],
    [c], [s] and [s <= e], [parse_ip_range] returns without error the
    [e - s + 1] texts [a.b.c.s], ..., [a.b.c.e]; the end bound is not checked
    against 255, so every [i] above 255 up to [e] contributes a text
    [a.b.c.i] that is not a valid IPv4 address literal. *)
Theorem C10_trailing_octet_end_not_validated (a b c s e : N) :
  (a <= 255)%N -> (b <= 255)%N -> (c <= 255)%N -> (s <= 255)%N -> (s <= e)%N ->
  let ip_list := List.map (dotted a b c) (iota s (N.to_nat (e - s + 1))) in
  parse_ip_range (trailing_octet_range a b c s e) = Ok ip_list /\
  N.of_nat (List.length ip_list) = (e - s + 1)%N /\
  (forall i, (s <= i <= e)%N -> In (dotted a b c i) ip_list) /\
  (forall i, (255 < i <= e)%N ->
     In (dotted a b c i) ip_list /\ ip_address (dotted a b c i) = None).
Proof.
  intros Ha Hb Hc Hs Hse ip_list.
  assert (Hin : forall i, (s <= i <= e)%N -> In (dotted a b c i) ip_list).
  { intros i Hi. apply in_map, in_iota. lia. }
  repeat split.
  - rewrite parse_trailing_octet_range by assumption.
    unfold ip_list. do 3 f_equal. lia.
  - unfold ip_list. rewrite length_map, iota_length. lia.
  - exact Hin.
  - apply Hin. lia.
  - apply ip_address_dotted_invalid. lia.
Qed.

Lemma C10_witness :
  let ip_list := List.map (dotted 192 168 1) (iota 250 (N.to_nat (300 - 250 + 1))) in
  parse_ip_range (trailing_octet_range 192 168 1 250 300) = Ok ip_list /\
  N.of_nat (List.length ip_list) = (300 - 250 + 1)%N /\
  (forall i, (250 <= i <= 300)%N -> In (dotted 192 168 1 i) ip_list) /\
  (forall i, (255 < i <= 300)%N ->
     In (dotted 192 168 1 i) ip_list /\ ip_address (dotted 192 168 1 i) = None).
Proof. apply (C10_trailing_octet_end_not_validated 192 168 1 250 300); lia. Defined.

(** The example of C10, on the literal text. *)
Example parse_250_to_300 :
  exists ip_list,
    parse_ip_range "192.168.1.250-300" = Ok ip_list /\
    List.length ip_list = 51%nat /\
    In "192.168.1.300" ip_list /\
    ip_address "192.168.1.300" = None.
Proof.
  eexists. split; [vm_compute; reflexivity|].
  split; [reflexivity|]. split; [|vm_compute; reflexivity].
  vm_compute. tauto.
Qed.

(** C8.  For every CIDR text [a.b.c.d/n] with [n <= 30], the expansion is
    the list of the [2^(32-n) - 2] addresses strictly between the network
    address and the broadcast address, in ascending order, and the list of
    candidates that the discovery scans is its first 254 entries. *)
Theorem C8_cidr_hosts_and_cap (a b c d n : N) :
  (a <= 255)%N -> (b <= 255)%N -> (c <= 255)%N -> (d <= 255)%N -> (n <= 30)%N ->
  let network := N.land (ordinal a b c d) (netmask_of_prefix n) in
  let broadcast := (network + (2 ^ (32 - n) - 1))%N in
  let ordinals := iota (network + 1) (N.to_nat (2 ^ (32 - n) - 2)) in
  let ip_list := List.map str_of_address ordinals in
  parse_ip_range (cidr a b c d n) = Ok ip_list /\
  N.of_nat (List.length ip_list) = (2 ^ (32 - n) - 2)%N /\
  (forall x, In x ordinals <-> (network < x < broadcast)%N) /\
  candidates ip_list = List.firstn 254 ip_list /\
  List.length (candidates ip_list) = Nat.min 254 (List.length ip_list).
Proof.
  intros Ha Hb Hc Hd Hn network broadcast ordinals ip_list.
  assert (Hpow : (4 <= 2 ^ (32 - n))%N).
  { change 4%N with (2 ^ 2)%N. apply N.pow_le_mono_r; lia. }
  assert (Hcand : candidates ip_list = List.firstn 254 ip_list).
  { unfold candidates. destruct (Nat.ltb_spec 254 (List.length ip_list)); [reflexivity|].
    symmetry. apply firstn_all2. assumption. }
  split; [|split; [|split; [|split]]].
  - rewrite parse_cidr by (assumption || lia).
    unfold ip_list, ordinals. f_equal. f_equal.
    apply (hosts_upto_30 (ordinal a b c d) n Hn).
  - unfold ip_list, ordinals. rewrite length_map, iota_length. lia.
  - intros x. unfold ordinals, broadcast. split; intros Hx.
    + apply in_iota in Hx. lia.
    + apply in_iota. lia.
  - exact Hcand.
  - rewrite Hcand. apply length_firstn.
Qed.

Lemma C8_witness :
  let network := N.land (ordinal 10 0 0 0) (netmask_of_prefix 24) in
  let broadcast := (network + (2 ^ (32 - 24) - 1))%N in
  let ordinals := iota (network + 1) (N.to_nat (2 ^ (32 - 24) - 2)) in
  let ip_list := List.map str_of_address ordinals in
  parse_ip_range (cidr 10 0 0 0 24) = Ok ip_list /\
  N.of_nat (List.length ip_list) = (2 ^ (32 - 24) - 2)%N /\
  (forall x, In x ordinals <-> (network < x < broadcast)%N) /\
  candidates ip_list = List.firstn 254 ip_list /\
  List.length (candidates ip_list) = Nat.min 254 (List.length ip_list).
Proof. apply (C8_cidr_hosts_and_cap 10 0 0 0 24); lia. Defined.

(** C8 on literal texts: a /24 has 254 hosts, a /23 has 510 of which the
    first 254 are scanned. *)
Example cidr_24_and_23 :
  option_map (@List.length string)
    (match parse_ip_range "10.0.0.0/24" with Ok l => Some l | Raise _ => None end)
  = Some 254%nat /\
  option_map (fun l => (List.length l, List.length (candidates l),
                        List.last (candidates l) ""))
    (match parse_ip_range "10.0.0.0/23" with Ok l => Some l | Raise _ => None end)
  = Some (510%nat, 254%nat, "10.0.0.254").
Proof. split; vm_compute; reflexivity. Qed.

(** ** The vendor cache *)

Import Observe.

Lemma get_vendor_ieee_oui_run w mac s :
  exists vendor s',
    _get_vendor_ieee_oui w mac s = (Ok vendor, s') /\
    log s' = (log s ++ [EOuiLookup mac])%list /\
    vendor_cache s' = vendor_cache s.
Proof.
  unfold _get_vendor_ieee_oui, _load_ieee_oui_file, bind, get_state, modify, ret, emit.
  generalize (PyStr.take 6 (normalize_mac mac)). intros oui.
  destruct (_ieee_oui_available s) as [[|]|] eqn:Ha;
    destruct (_oui_database s) eqn:Hd;
    destruct (oui_file w) eqn:Hf;
    destruct (bool_decide _);
    repeat (progress (cbn; rewrite ?Ha, ?Hd, ?Hf));
    eexists _, _; (split; [reflexivity | split; reflexivity]).
Qed.

(** What one call of [_get_vendor] does: it returns the cached vendor without
    a lookup, or it looks the MAC up once and caches what it returns. *)
Lemma get_vendor_run w mac s :
  exists vendor s',
    _get_vendor w mac s = (Ok vendor, s') /\
    vendor_cache s' !! normalize_mac mac = Some vendor /\
    ((vendor_cache s !! normalize_mac mac = Some vendor /\ s' = s) \/
     (vendor_cache s !! normalize_mac mac = None /\
      log s' = (log s ++ [EOuiLookup mac])%list)).
Proof.
  unfold _get_vendor. unfold bind at 1. unfold get_state at 1.
  destruct (vendor_cache s !! normalize_mac mac) as [cached|] eqn:Hc.
  - exists cached, s. repeat split; auto.
  - destruct (get_vendor_ieee_oui_run w mac s) as (v & s' & Hrun & Hlog & Hcache).
    unfold try_except, bind. rewrite Hrun.
    destruct (negb (String.eqb v "") && negb (String.eqb v "Unknown"));
      simpl; eexists _, _; (split; [reflexivity|]); simpl;
      (split; [apply lookup_insert_eq | right; split; [reflexivity | exact Hlog]]).
Qed.

(** C9.  Two calls of [_get_vendor] with the same MAC address (or with two
    spellings of it that normalise to the same key) return the same vendor;
    the second call performs no OUI lookup, and the two calls together
    perform at most one: exactly one when the key was not cached before. *)
Theorem C9_vendor_lookup_cached (w : World) (s : Scanner) (mac mac' : string) :
  normalize_mac mac' = normalize_mac mac ->
  exists vendor s1 s2,
    _get_vendor w mac s = (Ok vendor, s1) /\
    _get_vendor w mac' s1 = (Ok vendor, s2) /\
    s2 = s1 /\
    oui_lookups (since (log s1) (log s2)) = [] /\
    (List.length (oui_lookups (since (log s) (log s2))) <= 1)%nat /\
    (vendor_cache s !! normalize_mac mac = None ->
     oui_lookups (since (log s) (log s2)) = [mac]) /\
    vendor_cache s2 !! normalize_mac mac = Some vendor.
Proof.
  intros Hnorm.
  destruct (get_vendor_run w mac s) as (v & s1 & Hrun1 & Hc1 & Hcase).
  destruct (get_vendor_run w mac' s1) as (v' & s2 & Hrun2 & Hc2 & Hcase2).
  rewrite Hnorm in Hc2, Hcase2.
  destruct Hcase2 as [[Hhit ->]|[Hmiss _]]; [|congruence].
  assert (v' = v) by congruence. subst v'.
  exists v, s1, s1. split; [exact Hrun1|]. split; [exact Hrun2|].
  split; [reflexivity|].
  assert (Hsince : forall l : list event, since l l = []).
  { intros l. unfold since. apply skipn_all. }
  split; [rewrite Hsince; reflexivity|].
  assert (Hsince' : forall (l : list event) n, since l (l ++ n) = n).
  { intros l n. unfold since. rewrite skipn_app, skipn_all, Nat.sub_diag. reflexivity. }
  destruct Hcase as [[Hhit0 ->]|[Hmiss0 Hlog]].
  - rewrite Hsince. repeat split; [simpl; lia | congruence | exact Hc1].
  - rewrite Hlog, Hsince'. repeat split; [simpl; lia | exact Hc1].
Qed.

Lemma C9_witness :
  exists vendor s1 s2,
    _get_vendor (Build_World (fun _ => false) None (fun _ => false) (fun _ => 0%nat) []
                   (fun _ _ => false) (fun ip => ip) (fun _ => 0%nat)
                   (fun _ _ => false) (fun _ _ => 0%nat) (fun _ _ => "")
                   (OuiLines ["AABBCC	Acme Corp"]))
      "aa:bb:cc:dd:ee:ff" (new_scanner None) = (Ok vendor, s1) /\
    _get_vendor (Build_World (fun _ => false) None (fun _ => false) (fun _ => 0%nat) []
                   (fun _ _ => false) (fun ip => ip) (fun _ => 0%nat)
                   (fun _ _ => false) (fun _ _ => 0%nat) (fun _ _ => "")
                   (OuiLines ["AABBCC	Acme Corp"]))
      "AA-BB-CC-DD-EE-FF" s1 = (Ok vendor, s2) /\
    s2 = s1 /\
    oui_lookups (since (log s1) (log s2)) = [] /\
    (List.length (oui_lookups (since (log (new_scanner None)) (log s2))) <= 1)%nat /\
    (vendor_cache (new_scanner None) !! normalize_mac "aa:bb:cc:dd:ee:ff" = None ->
     oui_lookups (since (log (new_scanner None)) (log s2)) = ["aa:bb:cc:dd:ee:ff"]) /\
    vendor_cache s2 !! normalize_mac "aa:bb:cc:dd:ee:ff" = Some vendor.
Proof.
  apply (C9_vendor_lookup_cached _ (new_scanner None) "aa:bb:cc:dd:ee:ff" "AA-BB-CC-DD-EE-FF").
  reflexivity.
Defined.

(** The two calls of the witness, evaluated. *)
Example vendor_twice :
  let w := Build_World (fun _ => false) None (fun _ => false) (fun _ => 0%nat) []
             (fun _ _ => false) (fun ip => ip) (fun _ => 0%nat)
             (fun _ _ => false) (fun _ _ => 0%nat) (fun _ _ => "")
             (OuiLines ["AABBCC	Acme Corp"]) in
  let '(r1, s1) := _get_vendor w "aa:bb:cc:dd:ee:ff" (new_scanner None) in
  let '(r2, s2) := _get_vendor w "AA-BB-CC-DD-EE-FF" s1 in
  (r1, r2, oui_lookups (log s2)) = (Ok "Acme Corp", Ok "Acme Corp", ["aa:bb:cc:dd:ee:ff"]).
Proof. vm_compute. reflexivity. Qed.

(** ** The results of a scan *)

Import Frame MonadFacts FrameFacts HoareFacts RunningFacts ScanFacts Scenario.

Lemma ip_scan_result_of w hn sr hosts :
  List.map ip (List.map (scan_result_of w hn sr) hosts) = List.map host_ip hosts.
Proof. rewrite map_map. apply map_ext. reflexivity. Qed.

(** A scan that nobody cancels and that reports no failure returns the
    results that Step 4 builds from the hosts of the discovery. *)
Lemma completed_scan w range s :
  stop_at w = None ->
  failed (since (log s) (log (snd (scan_network w range s)))) = false ->
  exists s0 hosts s1 hn sr,
    _update_progress w PScanningLive (scan_network_begin s) = (Ok tt, s0) /\
    discover_hosts w range s0 = (Ok hosts, s1) /\
    fst (scan_network w range s) = Ok (List.map (scan_result_of w hn sr) hosts) /\
    (hosts = [] \/
     exists ip_list, parse_ip_range range = Ok ip_list /\
       List.map host_ip hosts = discovery_order w range (candidates ip_list)).
Proof.
  intros Hw Hfail.
  pose proof (scan_network_cases w range s) as Hcases.
  destruct (scan_network_try w _ range (scan_network_begin s)) as [[l|e] s1] eqn:Htry.
  - destruct Hcases as [Hscan _].
    destruct (scan_network_try_running w _ range _ l s1 Hw (begin_running s)
                (begin_results s) Htry) as (s0 & hosts & s1' & hn & sr & H0 & H1 & -> & H2).
    exists s0, hosts, s1', hn, sr. rewrite Hscan. auto.
  - destruct Hcases as (s2 & Hscan & _ & _ & Hf). rewrite Hscan in Hfail. simpl in Hfail.
    congruence.
Qed.

Import OrderFacts DistinctFacts.

(** C4.  A scan that nobody cancels and that reports no failure returns
    exactly one [ScanResult] per alive host: the addresses of the results
    are, in order, the addresses of the hosts that the discovery returned,
    no address occurs twice, and every result is marked alive -- whatever
    services were found for it, none included. *)
Theorem C4_one_result_per_alive_host (w : World) (network_range : string) (s : Scanner) :
  stop_at w = None ->
  failed (since (log s) (log (snd (scan_network w network_range s)))) = false ->
  exists hosts scan_results,
    fst (discover_hosts w network_range
           (snd (_update_progress w PScanningLive (scan_network_begin s)))) = Ok hosts /\
    fst (scan_network w network_range s) = Ok scan_results /\
    List.map ip scan_results = List.map host_ip hosts /\
    List.NoDup (List.map ip scan_results) /\
    List.length scan_results = List.length hosts /\
    Forall (fun r => is_alive r = true) scan_results.
Proof.
  intros Hw Hfail.
  destruct (completed_scan w network_range s Hw Hfail)
    as (s0 & hosts & s1 & hn & sr & H0 & H1 & Hscan & Horder).
  exists hosts, (List.map (scan_result_of w hn sr) hosts).
  rewrite H0. simpl. rewrite H1. simpl.
  split; [reflexivity|]. split; [exact Hscan|].
  split; [apply ip_scan_result_of|]. split; [|split].
  - rewrite ip_scan_result_of.
    destruct Horder as [->|(ip_list & Hparse & ->)]; [constructor|].
    apply discovery_order_NoDup, candidates_NoDup.
    apply (parse_ip_range_NoDup network_range ip_list Hparse).
  - apply length_map.
  - apply List.Forall_forall. intros r Hr. apply List.in_map_iff in Hr as (h & <- & _). reflexivity.
Qed.

Lemma C4_witness :
  exists hosts scan_results,
    fst (discover_hosts two_hosts "10.0.0.1-2"
           (snd (_update_progress two_hosts PScanningLive
                   (scan_network_begin (new_scanner None))))) = Ok hosts /\
    fst (scan_network two_hosts "10.0.0.1-2" (new_scanner None)) = Ok scan_results /\
    List.map ip scan_results = List.map host_ip hosts /\
    List.NoDup (List.map ip scan_results) /\
    List.length scan_results = List.length hosts /\
    Forall (fun r => is_alive r = true) scan_results.
Proof.
  apply (C4_one_result_per_alive_host two_hosts "10.0.0.1-2" (new_scanner None)).
  - reflexivity.
  - vm_compute. reflexivity.
Defined.

(** The scenario of the specification: two alive hosts, port 80 open on the
    first only; two results, the second with no service. *)
Example two_hosts_scan :
  option_map (List.map (fun r => (ip r, List.map port (services r), is_alive r)))
    (match fst (scan_network two_hosts "10.0.0.0/24" (new_scanner None)) with
     | Ok l => Some l
     | Raise _ => None
     end)
  = Some [("10.0.0.2", [], true); ("10.0.0.1", [80%Z], true)].
Proof. vm_compute. reflexivity. Qed.

(** C5, as stated, fails: when the ping of ["10.0.0.2"] completes before
    the ping of ["10.0.0.1"], the completed scan returns ["10.0.0.2"] first. *)
Lemma C5_counterexample :
  stop_at two_hosts = None /\
  failed (log (snd (scan_network two_hosts "10.0.0.1-2" (new_scanner None)))) = false /\
  exists scan_results,
    fst (scan_network two_hosts "10.0.0.1-2" (new_scanner None)) = Ok scan_results /\
    List.map ip scan_results = ["10.0.0.2"; "10.0.0.1"] /\
    ascending_addresses (List.map ip scan_results) = false.
Proof.
  split; [reflexivity|]. split; [vm_compute; reflexivity|].
  eexists. split; [vm_compute; reflexivity|].
  split; vm_compute; reflexivity.
Qed.

(** C5, amended.  The results of a completed scan are in the order of the
    discovery, not sorted: first the hosts that answered the ping, batch
    after batch of 100 candidates and within a batch in the order in which
    the pings completed, then the hosts added from the ARP table and by the
    TCP probe. *)
Theorem C5_results_in_discovery_order (w : World) (network_range : string) (s : Scanner) :
  stop_at w = None ->
  failed (since (log s) (log (snd (scan_network w network_range s)))) = false ->
  exists scan_results,
    fst (scan_network w network_range s) = Ok scan_results /\
    (scan_results = [] \/
     exists ip_list later,
       parse_ip_range network_range = Ok ip_list /\
       List.map ip scan_results = discovery_order w network_range (candidates ip_list) /\
       List.map ip scan_results =
         (List.flat_map
            (fun batch_start =>
               List.filter (ping w)
                 (as_completed (ping_rank w)
                    (List.firstn 100 (List.skipn batch_start (candidates ip_list)))))
            (batch_starts (List.length (candidates ip_list)) 100) ++ later)%list).
Proof.
  intros Hw Hfail.
  destruct (completed_scan w network_range s Hw Hfail)
    as (s0 & hosts & s1 & hn & sr & H0 & H1 & Hscan & Horder).
  exists (List.map (scan_result_of w hn sr) hosts). split; [exact Hscan|].
  destruct Horder as [->|(ip_list & Hparse & Hmap)]; [left; reflexivity|].
  right. destruct (discovery_order_ping_first w network_range (candidates ip_list))
    as (later & Hlater).
  exists ip_list, later. rewrite ip_scan_result_of, Hmap.
  split; [exact Hparse|]. split; [reflexivity|].
  rewrite Hlater, pinged_fst. reflexivity.
Qed.

Lemma C5_witness :
  exists scan_results,
    fst (scan_network two_hosts "10.0.0.1-2" (new_scanner None)) = Ok scan_results /\
    (scan_results = [] \/
     exists ip_list later,
       parse_ip_range "10.0.0.1-2" = Ok ip_list /\
       List.map ip scan_results = discovery_order two_hosts "10.0.0.1-2" (candidates ip_list) /\
       List.map ip scan_results =
         (List.flat_map
            (fun batch_start =>
               List.filter (ping two_hosts)
                 (as_completed (ping_rank two_hosts)
                    (List.firstn 100 (List.skipn batch_start (candidates ip_list)))))
            (batch_starts (List.length (candidates ip_list)) 100) ++ later)%list).
Proof.
  apply (C5_results_in_discovery_order two_hosts "10.0.0.1-2" (new_scanner None)).
  - reflexivity.
  - vm_compute. reflexivity.
Defined.

(** ** The port scan *)

Import ServiceFacts.

Import ProbeFacts.

(** C3.  Step 3 of a scan, run on the list [hosts] of the hosts found alive,
    creates one task per pair of a host and a service to scan, and no
    other: their number is [|hosts| * |services|].  It submits exactly
    these tasks to the executor, unless one of its two reports raises or
    the executor cannot be created; then it raises and submits none.  When
    it returns, the map of service results has an entry for an address if
    and only if it is the address of a host of the list.  And in every scan
    that reports no failure -- cancelled or not -- the port checks
    submitted are these tasks for the hosts that the discovery returned. *)
Theorem C3_service_tasks_are_hosts_times_services
    (w : World) (thread_count : Z) (hosts : list Host) (s : Scanner) :
  let tasks := all_scan_tasks hosts (services_to_scan s) in
  let run := scan_services w thread_count hosts s in
  let probes := port_probes (since (log s) (log (snd run))) in
  List.length tasks = (List.length hosts * List.length (services_to_scan s))%nat /\
  (forall ip service,
     In (ip, service) tasks <->
     In ip (List.map host_ip hosts) /\ In service (services_to_scan s)) /\
  (if callback_raises w PScanningServices
      || callback_raises w (PStartingPortScan (List.length tasks) thread_count)
      || (thread_count <=? 0)%Z
   then probes = [] /\ exists e, fst run = Raise e
   else probes = tasks) /\
  match fst run with
  | Ok service_results =>
      probes = tasks /\
      forall ip, is_Some (service_results !! ip) <-> In ip (List.map host_ip hosts)
  | Raise _ => probes = tasks \/ probes = []
  end /\
  (forall network_range,
     let scan := scan_network w network_range s in
     failed (since (log s) (log (snd scan))) = false ->
     exists found,
       fst (discover_hosts w network_range
              (snd (_update_progress w PScanningLive (scan_network_begin s)))) = Ok found /\
       port_probes (since (log s) (log (snd scan)))
       = all_scan_tasks found (services_to_scan s) /\
       List.length (port_probes (since (log s) (log (snd scan))))
       = (List.length found * List.length (services_to_scan s))%nat).
Proof.
  intros tasks run probes. split; [apply all_scan_tasks_length|].
  split; [|split; [apply scan_services_exact | split; [apply scan_services_spec|]]].
  - intros ip service. unfold tasks, all_scan_tasks. rewrite List.in_flat_map. split.
    + intros (h & Hh & Hin). apply List.in_map_iff in Hin as (x & [= <- <-] & Hx).
      split; [apply List.in_map; exact Hh | exact Hx].
    + intros [Hip Hsvc]. apply List.in_map_iff in Hip as (h & <- & Hh).
      exists h. split; [exact Hh | apply List.in_map; exact Hsvc].
  - intros network_range scan Hfail.
    destruct (scan_network_probes w network_range s)
      as [(found & before & Hfound & _ & _ & _ & Hprobes)|[Hf _]].
    + exists found. split; [exact Hfound|]. split; [exact Hprobes|].
      unfold scan. rewrite Hprobes. apply all_scan_tasks_length.
    + unfold scan in Hfail. congruence.
Qed.

(** Two hosts and the 33 built-in services: Step 3 returns, and the port
    checks submitted are the 66 tasks. *)
Lemma C3_witness :
  let s := new_scanner None in
  let hosts := [ {| host_ip := "10.0.0.1"; host_mac := ""; host_vendor := "" |};
                 {| host_ip := "10.0.0.2"; host_mac := ""; host_vendor := "" |} ] in
  let run := scan_services two_hosts (scan_threads s) hosts s in
  port_probes (since (log s) (log (snd run))) = all_scan_tasks hosts (services_to_scan s) /\
  List.length (all_scan_tasks hosts (services_to_scan s)) = 66%nat /\
  is_ok (fst run) = true.
Proof.
  intros s hosts run.
  pose proof (C3_service_tasks_are_hosts_times_services two_hosts (scan_threads s) hosts s)
    as (Hlen & _ & Hsubmitted & _).
  split; [exact Hsubmitted|]. split; [rewrite Hlen; reflexivity | vm_compute; reflexivity].
Defined.

(** With two hosts and the 33 built-in services: 66 tasks, all submitted. *)
Example two_hosts_tasks :
  let s := new_scanner None in
  let hosts := [ {| host_ip := "10.0.0.1"; host_mac := ""; host_vendor := "" |};
                 {| host_ip := "10.0.0.2"; host_mac := ""; host_vendor := "" |} ] in
  let run := scan_services two_hosts (scan_threads s) hosts s in
  List.length (all_scan_tasks hosts (services_to_scan s)) = 66%nat /\
  port_probes (since (log s) (log (snd run))) = all_scan_tasks hosts (services_to_scan s) /\
  (exists service_results, fst run = Ok service_results /\
     List.map fst (map_to_list service_results) = ["10.0.0.1"; "10.0.0.2"]).
Proof. vm_compute. repeat split. eexists. split; reflexivity. Qed.

(** ** Failures *)

Import OutcomeFacts.

(** C2, as stated, fails.  With [scan_threads = 0] the executor of Step 3
    raises after both hostnames were resolved: the scan reports the failure
    and returns the empty list, not an error.  With a progress callback that
    raises on the report [Scan completed], the scan returns the two results
    it had assembled. *)
Lemma C2_counterexample :
  (let s := new_scanner (Some no_scan_threads) in
   let sb := scan_network_begin s in
   fst (scan_network_try two_hosts (scan_threads sb) "10.0.0.1-2" sb)
     = Raise (ValueError "max_workers must be greater than 0") /\
   In (PResolved 2 2) (reports (log (snd (scan_network two_hosts "10.0.0.1-2" s)))) /\
   failed (log (snd (scan_network two_hosts "10.0.0.1-2" s))) = true /\
   fst (scan_network two_hosts "10.0.0.1-2" s) = Ok []) /\
  (let s := new_scanner None in
   let sb := scan_network_begin s in
   fst (scan_network_try failing_last_report (scan_threads sb) "10.0.0.1-2" sb)
     = Raise (CallbackError "progress callback") /\
   failed (log (snd (scan_network failing_last_report "10.0.0.1-2" s))) = true /\
   exists scan_results,
     fst (scan_network failing_last_report "10.0.0.1-2" s) = Ok scan_results /\
     List.map ip scan_results = ["10.0.0.2"; "10.0.0.1"]).
Proof.
  split.
  - cbv zeta. split; [vm_compute; reflexivity|].
    split; [vm_compute; tauto|]. split; vm_compute; reflexivity.
  - cbv zeta. split; [vm_compute; reflexivity|].
    split; [vm_compute; reflexivity|].
    eexists. split; vm_compute; reflexivity.
Qed.

(** C2, amended.  When an exception [e] leaves the [try] block of a scan,
    it is caught: the scan reports the failure over the progress channel,
    at 100 %, and returns, as a list and not as an error, the list of
    results as it stands.  That list is empty when the exception is raised
    before the report [Finalizing results...], whatever was resolved or
    scanned until then.  Only an exception of the progress callback on the
    failure report itself leaves the scan.  An exception inside the
    discovery does not leave the [try] block: the discovery catches it and
    returns. *)
Theorem C2_failure_reported_results_returned
    (w : World) (network_range : string) (s s1 : Scanner) (e : exn) :
  scan_network_try w (scan_threads (scan_network_begin s)) network_range
    (scan_network_begin s) = (Raise e, s1) ->
  (exists s2,
     scan_network w network_range s =
       (if callback_raises w (PFailed e) then Raise (CallbackError "progress callback")
        else Ok (results s1), s2) /\
     results s2 = results s1 /\
     since (log s) (log s2) = (since (log s) (log s1) ++ [EProgress (PFailed e)])%list /\
     percentage (PFailed e) == 100) /\
  (~ In (EProgress PFinalizing) (since (log s) (log s1)) -> results s1 = []) /\
  (forall s', exists hosts s'',
     _enhanced_host_discovery w network_range s' = (Ok hosts, s'')).
Proof.
  intros Htry. split; [|split].
  - pose proof (scan_network_cases w network_range s) as Hcases.
    rewrite Htry in Hcases. destruct Hcases as (s2 & Hrun & Hres & Hlog & _).
    exists s2. split; [exact Hrun|]. split; [exact Hres|]. split; [exact Hlog|].
    reflexivity.
  - intros Hnot.
    destruct (results_before_finalizing w (scan_threads (scan_network_begin s)) network_range
                (scan_network_begin s) (begin_results s)) as (new & Hlog & Hres).
    rewrite Htry in Hlog, Hres. cbn [snd] in Hlog, Hres.
    rewrite begin_log in Hlog. rewrite Hlog, since_app in Hnot.
    destruct Hres as [Hres|Hin]; [exact Hres | contradiction].
  - intros s'. apply enhanced_host_discovery_returns.
Qed.

Lemma C2_witness :
  let s := new_scanner (Some no_scan_threads) in
  let s1 := snd (scan_network_try two_hosts 0 "10.0.0.1-2" (scan_network_begin s)) in
  let e := ValueError "max_workers must be greater than 0" in
  (exists s2,
     scan_network two_hosts "10.0.0.1-2" s =
       (if callback_raises two_hosts (PFailed e)
        then Raise (CallbackError "progress callback")
        else Ok (results s1), s2) /\
     results s2 = results s1 /\
     since (log s) (log s2) = (since (log s) (log s1) ++ [EProgress (PFailed e)])%list /\
     percentage (PFailed e) == 100) /\
  (~ In (EProgress PFinalizing) (since (log s) (log s1)) -> results s1 = []) /\
  (forall s', exists hosts s'',
     _enhanced_host_discovery two_hosts "10.0.0.1-2" s' = (Ok hosts, s'')).
Proof.
  intros s s1 e.
  apply (C2_failure_reported_results_returned two_hosts "10.0.0.1-2" s s1 e).
  vm_compute. reflexivity.
Defined.

(** ** Cancellation *)

(** C6, as stated, fails.  [stop_scan] is called when the log has 15
    entries, during the discovery, which ends with the 16th.  The scan then
    submits the 66 port-scan tasks of the two hosts found, and ends as a
    completed scan does, with the report [Scan completed]. *)
Lemma C6_counterexample :
  let w := two_hosts_stopped_at 15 in
  let s := new_scanner None in
  let s0 := snd (_update_progress w PScanningLive (scan_network_begin s)) in
  let s1 := snd (discover_hosts w "10.0.0.1-2" s0) in
  let run := scan_network w "10.0.0.1-2" s in
  stop_at w = Some 15%nat /\
  List.length (log s0) = 1%nat /\ List.length (log s1) = 16%nat /\
  _stop_scanning s1 = true /\
  List.length (port_probes (List.skipn 15 (log (snd run)))) = 66%nat /\
  List.last (reports (log (snd run))) PScanningLive = PCompleted /\
  failed (log (snd run)) = false /\
  fst run = Ok [].
Proof. cbv zeta. repeat split; vm_compute; reflexivity. Qed.

(** C6, amended.  When [stop_scan] is called while the discovery runs, the
    scan has no state of its own to end in: it ends as every scan does,
    with a report at 100 % ([No hosts found], [Scan completed] or
    [Scan failed]), and what it returns is the empty list.  It returns
    before the port scan only if the discovery returns no host, or if it
    fails: otherwise every task of Step 3, one for each host that the
    discovery returned and each service, is submitted after the discovery,
    and so after the call of [stop_scan]. *)
Theorem C6_stop_during_discovery_returns_nothing
    (w : World) (network_range : string) (s : Scanner) (t : nat) :
  let s0 := snd (_update_progress w PScanningLive (scan_network_begin s)) in
  let s1 := snd (discover_hosts w network_range s0) in
  let run := scan_network w network_range s in
  stop_at w = Some t ->
  (List.length (log s0) < t <= List.length (log s1))%nat ->
  (fst run = Ok [] \/ fst run = Raise (CallbackError "progress callback")) /\
  results (snd run) = [] /\
  (exists before p,
     log (snd run) = (before ++ [EProgress p])%list /\
     final_report p = true /\ percentage p == 100) /\
  ((exists hosts,
      fst (discover_hosts w network_range s0) = Ok hosts /\
      port_probes (since (log s) (log s1)) = [] /\
      port_probes (since (log s1) (log (snd run)))
      = all_scan_tasks hosts (services_to_scan s)) \/
   (failed (since (log s) (log (snd run))) = true /\
    port_probes (since (log s) (log (snd run))) = [])).
Proof.
  intros s0 s1 run Hw Ht.
  assert (H3 : (fst run = Ok [] \/ fst run = Raise (CallbackError "progress callback")) /\
               results (snd run) = [] /\
               exists before p,
                 log (snd run) = (before ++ [EProgress p])%list /\
                 final_report p = true /\ percentage p == 100).
  { pose proof (scan_network_try_stopped w t (scan_threads (scan_network_begin s))
                  network_range (scan_network_begin s) Hw (begin_results s) Ht) as Htry.
    unfold run. rewrite scan_network_unfold. unfold try_except.
    destruct (scan_network_try w _ network_range (scan_network_begin s)) as [[l|e] s2].
    - destruct Htry as (-> & Hres & before & p & Hlog & Hp). simpl.
      split; [left; reflexivity|]. split; [exact Hres|].
      exists before, p. split; [exact Hlog|].
      destruct Hp as [-> | ->]; split; reflexivity.
    - destruct (except_run w e s2) as (s3 & -> & Hlog & Hres).
      split; [|split].
      + destruct (callback_raises w (PFailed e)); simpl; [right; reflexivity|].
        left. rewrite Htry. reflexivity.
      + simpl. congruence.
      + exists (log s2), (PFailed e). simpl. split; [exact Hlog|]. split; reflexivity. }
  destruct H3 as (Hret & Hres & Hlast).
  split; [exact Hret|]. split; [exact Hres|]. split; [exact Hlast|].
  destruct (scan_network_probes w network_range s)
    as [(hosts & before & Hhosts & Hlog1 & Hbefore & Hafter & _)|Hfailed].
  - left. exists hosts. split; [exact Hhosts|]. fold s0 s1 in Hlog1.
    split; [rewrite Hlog1, since_app; exact Hbefore | exact Hafter].
  - right. exact Hfailed.
Qed.

Lemma C6_witness :
  let w := two_hosts_stopped_at 15 in
  let s := new_scanner None in
  let s0 := snd (_update_progress w PScanningLive (scan_network_begin s)) in
  let s1 := snd (discover_hosts w "10.0.0.1-2" s0) in
  let run := scan_network w "10.0.0.1-2" s in
  (fst run = Ok [] \/ fst run = Raise (CallbackError "progress callback")) /\
  results (snd run) = [] /\
  (exists before p,
     log (snd run) = (before ++ [EProgress p])%list /\
     final_report p = true /\ percentage p == 100) /\
  ((exists hosts,
      fst (discover_hosts w "10.0.0.1-2" s0) = Ok hosts /\
      port_probes (since (log s) (log s1)) = [] /\
      port_probes (since (log s1) (log (snd run)))
      = all_scan_tasks hosts (services_to_scan s)) \/
   (failed (since (log s) (log (snd run))) = true /\
    port_probes (since (log s) (log (snd run))) = [])).
Proof.
  intros w s s0 s1 run.
  apply (C6_stop_during_discovery_returns_nothing
           (two_hosts_stopped_at 15) "10.0.0.1-2" (new_scanner None) 15).
  - reflexivity.
  - vm_compute. lia.
Defined.

(** A call of [stop_scan] that the discovery still sees, when the log has
    5 entries: the discovery returns no host, the scan reports
    [No hosts found], and no port check is submitted. *)
Example early_stop_finds_no_host :
  let w := two_hosts_stopped_at 5 in
  let run := scan_network w "10.0.0.1-2" (new_scanner None) in
  fst run = Ok [] /\
  List.last (reports (log (snd run))) PScanningLive = PNoHosts /\
  port_probes (log (snd run)) = [].
Proof. cbv zeta. repeat split; vm_compute; reflexivity. Qed.

(** ** A malformed range *)

Import MalformedFacts.

(** C1, as stated, fails.  The scan of ["not-an-ip"] returns the empty list
    and reports [No hosts found], not a failure; and the neighbour table is
    read once. *)
Lemma C1_counterexample :
  let run := scan_network two_hosts "not-an-ip" (new_scanner None) in
  fst run = Ok [] /\
  failed (log (snd run)) = false /\
  List.last (reports (log (snd run))) PScanningLive = PNoHosts /\
  arp_reads (log (snd run)) = 1%nat.
Proof. cbv zeta. repeat split; vm_compute; reflexivity. Qed.

(** C1, amended.  The scan of ["not-an-ip"] returns no error of the range
    expander: it returns the empty list, after the report [No hosts found],
    or after the report of a failure when the progress callback raised;
    only an exception of the progress callback on that last report leaves
    the scan.  No ping and no TCP probe is started. *)
Theorem C1_malformed_range_finds_no_host (w : World) (s : Scanner) :
  let run := scan_network w "not-an-ip" s in
  let events := since (log s) (log (snd run)) in
  pings events = [] /\
  tcp_pings events = [] /\
  ((fst run = Ok [] /\ exists before, events = (before ++ [EProgress PNoHosts])%list) \/
   (failed events = true /\
    (fst run = Ok [] \/ fst run = Raise (CallbackError "progress callback")))).
Proof.
  cbv zeta. rewrite scan_network_unfold. unfold try_except.
  pose proof (scan_network_try_malformed w (scan_network_begin s)
                (scan_threads (scan_network_begin s)) (scan_network_begin s)
                (unprobed_refl _)) as Htry.
  destruct (scan_network_try w _ "not-an-ip" (scan_network_begin s)) as [[l|e] s1].
  - destruct Htry as (-> & [(new & Hlog & Hnew) Hres] & before & Hlast).
    unfold same_results in Hres. rewrite begin_results in Hres.
    rewrite begin_log in Hlog. simpl. rewrite Hlog, since_app.
    destruct (no_probe_logged new Hnew) as [Hp Ht].
    split; [exact Hp|]. split; [exact Ht|]. left.
    split; [rewrite Hres; reflexivity|].
    rewrite begin_log, Hlog in Hlast. apply app_inv_head in Hlast.
    exists before. exact Hlast.
  - destruct Htry as [(new & Hlog & Hnew) Hres].
    unfold same_results in Hres. rewrite begin_results in Hres.
    rewrite begin_log in Hlog.
    destruct (except_run w e s1) as (s2 & -> & Hlog2 & Hres2). simpl.
    rewrite Hlog2, Hlog, <- app_assoc, since_app.
    assert (Hall : Forall (fun e0 => negb (probe_event e0) = true)
                     (new ++ [EProgress (PFailed e)])%list).
    { apply Forall_app. split; [exact Hnew | repeat constructor]. }
    destruct (no_probe_logged _ Hall) as [Hp Ht].
    split; [exact Hp|]. split; [exact Ht|]. right.
    split; [rewrite failed_app; simpl; apply orb_true_r|].
    destruct (callback_raises w (PFailed e)); simpl; [right; reflexivity|].
    left. rewrite Hres. reflexivity.
Qed.

(** * Further properties of the code *)

(** ** [parse_ip_range]: the forms that remain *)

Module RangeFacts.
Import PyStr PyStrFacts IpAddress IpAddressFacts RangeSpec ParseFacts DistinctFacts RangeForms.

Lemma str_of_address_valid x :
  (x < 4294967296)%N -> ip_address (str_of_address x) = Some x.
Proof.
  intros Hx. rewrite str_of_address_dotted.
  rewrite ip_address_dotted by (apply N.lt_succ_r, N.mod_lt; discriminate).
  f_equal. apply octets_of_address, Hx.
Qed.

Lemma contains_str_of_address c x :
  is_digit c = false -> c <> "."%char -> contains c (str_of_address x) = false.
Proof. intros. rewrite str_of_address_dotted. apply contains_dotted; assumption. Qed.

Lemma strip_str_of_address x : strip (str_of_address x) = str_of_address x.
Proof. rewrite str_of_address_dotted. apply strip_dotted. Qed.

Lemma iota_succ start n :
  iota (start + 1) n = List.map N.succ (iota start n).
Proof.
  unfold iota. rewrite map_map. apply map_ext. intros k. lia.
Qed.

Lemma iota_cons start n :
  iota start (S n) = start :: iota (start + 1) n.
Proof.
  unfold iota. cbn [List.seq List.map]. f_equal; [f_equal; lia|].
  rewrite <- seq_shift, map_map. apply map_ext. intros k. lia.
Qed.

(** The loop of the full-range form ends well when it stays below the last
    address, and fails when it reaches it. *)
Lemma walk_addresses_ok n : forall start,
  (start + N.of_nat n <= ALL_ONES)%N ->
  walk_addresses n start = Some (List.map str_of_address (iota start n)).
Proof.
  induction n as [|n IH]; intros start Hb; [reflexivity|].
  cbn [walk_addresses]. unfold succ_address.
  destruct (N.eqb_spec start ALL_ONES) as [->|_]; [lia|].
  rewrite IH by lia. rewrite iota_cons. reflexivity.
Qed.

Lemma walk_addresses_overflow n : forall start,
  (start <= ALL_ONES)%N -> (ALL_ONES < start + N.of_nat n)%N ->
  walk_addresses n start = None.
Proof.
  induction n as [|n IH]; intros start Hs Hb; [lia|].
  cbn [walk_addresses]. unfold succ_address.
  destruct (N.eqb_spec start ALL_ONES) as [->|Hne]; [reflexivity|].
  rewrite IH by lia. reflexivity.
Qed.

Lemma parse_address_range_walk x y :
  (x < 4294967296)%N -> (y < 4294967296)%N ->
  parse_ip_range (address_range x y) =
  match walk_addresses (N.to_nat (y + 1 - x)) x with
  | Some ip_list => Ok ip_list
  | None => Raise (ValueError ("Invalid IP range format: " ++ address_range x y))
  end.
Proof.
  intros Hx Hy. unfold parse_ip_range.
  generalize (Raise (A := list string)
                (ValueError ("Invalid IP range format: " ++ address_range x y))).
  intros invalid. unfold address_range.
  rewrite !contains_app.
  rewrite !(contains_str_of_address "/") by (reflexivity || discriminate).
  change (contains "/" "-") with false. simpl orb. cbv iota.
  change (contains "-" "-") with true. rewrite orb_true_r. cbv iota.
  rewrite !count_app.
  rewrite !(count_absent "-" (str_of_address _))
    by (apply contains_str_of_address; reflexivity || discriminate).
  change (0 + (count "-" "-" + 0) =? 1)%nat with true. cbv iota.
  rewrite split_sep by (apply contains_str_of_address; reflexivity || discriminate).
  rewrite split_absent by (apply contains_str_of_address; reflexivity || discriminate).
  rewrite !strip_str_of_address, !str_of_address_valid by assumption.
  replace (contains "." (str_of_address y)) with true; [reflexivity|].
  rewrite str_of_address_dotted. unfold dotted. rewrite !contains_app.
  change (contains "." ".") with true. rewrite orb_true_r. reflexivity.
Qed.

(** X1.  The full-range form [A-B], for two addresses with [B] below
    [255.255.255.255]: the expansion is the list of the addresses from [A]
    to [B], both included, in ascending order; it is empty, and no error,
    when [B] is below [A]. *)
Theorem X1_full_range_expansion (x y : N) :
  (x < 4294967296)%N -> (y < 4294967295)%N ->
  parse_ip_range (address_range x y) =
    Ok (List.map str_of_address (iota x (N.to_nat (y + 1 - x)))) /\
  (List.length (iota x (N.to_nat (y + 1 - x))) = N.to_nat (y + 1 - x)) /\
  (forall z, In z (iota x (N.to_nat (y + 1 - x))) <-> (x <= z <= y)%N) /\
  ((y < x)%N -> parse_ip_range (address_range x y) = Ok []).
Proof.
  intros Hx Hy.
  assert (Hparse : parse_ip_range (address_range x y) =
                   Ok (List.map str_of_address (iota x (N.to_nat (y + 1 - x))))).
  { rewrite parse_address_range_walk by lia.
    rewrite walk_addresses_ok; [reflexivity|]. unfold ALL_ONES. lia. }
  split; [exact Hparse|]. split; [apply iota_length|]. split.
  - intros z. split; intros Hz.
    + apply in_iota in Hz. lia.
    + apply in_iota. lia.
  - intros Hlt. rewrite Hparse. replace (y + 1 - x)%N with 0%N by lia. reflexivity.
Qed.

Lemma X1_witness :
  parse_ip_range (address_range 3232235777 3232235780) =
    Ok (List.map str_of_address (iota 3232235777 (N.to_nat (3232235780 + 1 - 3232235777)))) /\
  (List.length (iota 3232235777 (N.to_nat (3232235780 + 1 - 3232235777)))
   = N.to_nat (3232235780 + 1 - 3232235777)) /\
  (forall z, In z (iota 3232235777 (N.to_nat (3232235780 + 1 - 3232235777)))
             <-> (3232235777 <= z <= 3232235780)%N) /\
  ((3232235780 < 3232235777)%N ->
   parse_ip_range (address_range 3232235777 3232235780) = Ok []).
Proof. apply (X1_full_range_expansion 3232235777 3232235780); lia. Defined.

(** The full-range form on a literal text. *)
Example parse_full_range :
  parse_ip_range "192.168.1.1 - 192.168.1.4" =
    Ok ["192.168.1.1"; "192.168.1.2"; "192.168.1.3"; "192.168.1.4"] /\
  address_range 3232235777 3232235780 = "192.168.1.1-192.168.1.4".
Proof. split; vm_compute; reflexivity. Qed.

(** X2.  A full range that ends at [255.255.255.255] cannot be expanded:
    the loop steps past the last address, and the expansion fails with the
    error of a malformed range. *)
Theorem X2_range_to_last_address_fails (x : N) :
  (x < 4294967296)%N ->
  parse_ip_range (address_range x 4294967295) =
  Raise (ValueError ("Invalid IP range format: " ++ address_range x 4294967295)).
Proof.
  intros Hx. rewrite parse_address_range_walk by lia.
  rewrite walk_addresses_overflow; [reflexivity | unfold ALL_ONES; lia|].
  unfold ALL_ONES. lia.
Qed.

Lemma X2_witness :
  parse_ip_range (address_range 4294967294 4294967295) =
  Raise (ValueError ("Invalid IP range format: " ++ address_range 4294967294 4294967295)).
Proof. apply (X2_range_to_last_address_fails 4294967294). lia. Defined.

Example parse_range_to_last_address :
  parse_ip_range "255.255.255.254-255.255.255.255" =
  Raise (ValueError "Invalid IP range format: 255.255.255.254-255.255.255.255").
Proof. vm_compute. reflexivity. Qed.

Lemma netmask_32 x : (x < 4294967296)%N -> N.land x (netmask_of_prefix 32) = x.
Proof.
  intros Hx. change (netmask_of_prefix 32) with (N.ones 32).
  rewrite N.land_ones. apply N.mod_small. exact Hx.
Qed.

Lemma netmask_hostmask_cover n :
  (n <= 32)%N -> N.lor (netmask_of_prefix n) (2 ^ (32 - n) - 1) = ALL_ONES.
Proof.
  intros Hn.
  assert (Hall : forallb (fun k => N.eqb (N.lor (netmask_of_prefix (N.of_nat k))
                                           (2 ^ (32 - N.of_nat k) - 1)) ALL_ONES)
                   (List.seq 0 33) = true) by (vm_compute; reflexivity).
  rewrite forallb_forall in Hall.
  specialize (Hall (N.to_nat n)). rewrite N2Nat.id in Hall.
  apply N.eqb_eq, Hall, in_seq. lia.
Qed.

(** The network address of [x] in a network of prefix length [n]: [x]
    without its [32 - n] low bits. *)
Lemma network_of_address x n :
  (n <= 32)%N -> (x < 4294967296)%N ->
  N.land x (netmask_of_prefix n) = (x - x mod 2 ^ (32 - n))%N.
Proof.
  intros Hn Hx.
  assert (Hz : N.land (N.land x (netmask_of_prefix n)) (N.land x (2 ^ (32 - n) - 1)) = 0%N).
  { rewrite N.land_assoc, (N.land_comm _ x), N.land_assoc, N.land_diag.
    rewrite <- N.land_assoc.
    rewrite (netmask_hostmask_disjoint n Hn : N.land _ (2 ^ (32 - n) - 1) = 0%N).
    apply N.land_0_r. }
  assert (Hsum : (N.land x (netmask_of_prefix n) + N.land x (2 ^ (32 - n) - 1))%N = x).
  { rewrite (N.add_nocarry_lxor _ _ Hz), (N.lxor_lor _ _ Hz).
    rewrite <- N.land_lor_distr_r, netmask_hostmask_cover by exact Hn.
    change ALL_ONES with (N.ones 32). rewrite N.land_ones. apply N.mod_small, Hx. }
  assert (Hlow : N.land x (2 ^ (32 - n) - 1) = (x mod 2 ^ (32 - n))%N).
  { rewrite <- N.pred_sub, <- N.ones_equiv. apply N.land_ones. }
  rewrite Hlow in Hsum. lia.
Qed.

Lemma ordinal_bound a b c d :
  (a <= 255)%N -> (b <= 255)%N -> (c <= 255)%N -> (d <= 255)%N ->
  (ordinal a b c d < 4294967296)%N.
Proof. unfold ordinal. lia. Qed.

Lemma dotted_of_ordinal a b c d :
  (a <= 255)%N -> (b <= 255)%N -> (c <= 255)%N -> (d <= 255)%N ->
  str_of_address (ordinal a b c d) = dotted a b c d.
Proof.
  intros Ha Hb Hc Hd.
  assert (Hv : ip_address (str_of_address (ordinal a b c d)) = Some (ordinal a b c d))
    by (apply str_of_address_valid, ordinal_bound; assumption).
  rewrite str_of_address_dotted in *.
  set (x := ordinal a b c d) in *.
  assert (Hx : ordinal ((x / 16777216) mod 256) ((x / 65536) mod 256)
                 ((x / 256) mod 256) (x mod 256) = ordinal a b c d).
  { apply octets_of_address, ordinal_bound; assumption. }
  assert (Hm : forall k, ((k mod 256) <= 255)%N).
  { intros k. apply N.lt_succ_r, N.mod_lt. discriminate. }
  pose proof (Hm (x / 16777216)%N) as H1. pose proof (Hm (x / 65536)%N) as H2.
  pose proof (Hm (x / 256)%N) as H3. pose proof (Hm x) as H4.
  unfold ordinal in Hx. clear Hv Hm.
  revert Hx H1 H2 H3 H4.
  generalize ((x / 16777216) mod 256)%N ((x / 65536) mod 256)%N
             ((x / 256) mod 256)%N (x mod 256)%N.
  intros a' b' c' d' Hx H1 H2 H3 H4.
  assert (a' = a /\ b' = b /\ c' = c /\ d' = d) as (-> & -> & -> & ->) by lia.
  reflexivity.
Qed.

(** X3.  The networks without a host range of their own, and the single
    address: [a.b.c.d/32] and [a.b.c.d] expand to the one address
    [a.b.c.d]; [a.b.c.d/31] expands to the two addresses of its pair, the
    lower one first -- nothing is left out as network or broadcast
    address. *)
Theorem X3_single_address_and_small_networks (a b c d : N) :
  (a <= 255)%N -> (b <= 255)%N -> (c <= 255)%N -> (d <= 255)%N ->
  parse_ip_range (dotted a b c d) = Ok [dotted a b c d] /\
  parse_ip_range (cidr a b c d 32) = Ok [dotted a b c d] /\
  parse_ip_range (cidr a b c d 31) =
    Ok [dotted a b c (d - d mod 2); dotted a b c (d - d mod 2 + 1)].
Proof.
  intros Ha Hb Hc Hd. split; [|split].
  - unfold parse_ip_range.
    rewrite !contains_dotted by (reflexivity || discriminate).
    rewrite ip_address_dotted by assumption.
    rewrite dotted_of_ordinal by assumption. reflexivity.
  - rewrite parse_cidr by (assumption || lia).
    rewrite netmask_32 by (apply ordinal_bound; assumption).
    unfold hosts. cbn [prefixlen network_address]. change (32 =? max_prefixlen - 1)%N with false.
    change (32 =? max_prefixlen)%N with true. cbv iota. cbn [List.map].
    rewrite dotted_of_ordinal by assumption. reflexivity.
  - rewrite parse_cidr by (assumption || lia).
    unfold hosts. cbn [prefixlen network_address]. change (31 =? max_prefixlen - 1)%N with true.
    cbv iota.
    assert (Hnet : N.land (ordinal a b c d) (netmask_of_prefix 31)
                   = ordinal a b c (d - d mod 2)).
    { rewrite network_of_address by (lia || apply ordinal_bound; assumption).
      change (2 ^ (32 - 31))%N with 2%N.
      pose proof (N.mod_lt d 2 ltac:(discriminate)).
      pose proof (N.Div0.mod_le d 2).
      assert (Hpar : ((ordinal a b c d) mod 2 = d mod 2)%N).
      { unfold ordinal.
        replace (((a * 256 + b) * 256 + c) * 256 + d)%N
          with (d + (((a * 256 + b) * 256 + c) * 128) * 2)%N by lia.
        apply N.Div0.mod_add. }
      rewrite Hpar. unfold ordinal. lia. }
    rewrite Hnet. unfold iota. cbn [List.seq List.map].
    assert (Hd' : (d - d mod 2 + 1 <= 255)%N).
    { pose proof (N.div_mod d 2 ltac:(discriminate)) as H1.
      pose proof (N.mod_lt d 2 ltac:(discriminate)) as H2.
      revert H1 H2. generalize (d / 2)%N (d mod 2)%N. intros q r H1 H2. lia. }
    replace (ordinal a b c (d - d mod 2) + N.of_nat 0)%N
      with (ordinal a b c (d - d mod 2)) by lia.
    replace (ordinal a b c (d - d mod 2) + N.of_nat 1)%N
      with (ordinal a b c (d - d mod 2 + 1)) by (unfold ordinal; lia).
    rewrite !dotted_of_ordinal by (assumption || lia). reflexivity.
Qed.

Lemma X3_witness :
  parse_ip_range (dotted 10 0 0 7) = Ok [dotted 10 0 0 7] /\
  parse_ip_range (cidr 10 0 0 7 32) = Ok [dotted 10 0 0 7] /\
  parse_ip_range (cidr 10 0 0 7 31) =
    Ok [dotted 10 0 0 (7 - 7 mod 2); dotted 10 0 0 (7 - 7 mod 2 + 1)].
Proof. apply (X3_single_address_and_small_networks 10 0 0 7); lia. Defined.

Example parse_small_networks :
  parse_ip_range "10.0.0.7/31" = Ok ["10.0.0.6"; "10.0.0.7"] /\
  parse_ip_range "10.0.0.7/32" = Ok ["10.0.0.7"] /\
  parse_ip_range "10.0.0.7" = Ok ["10.0.0.7"].
Proof. repeat split; vm_compute; reflexivity. Qed.

(** X4.  Whatever the text, an expansion that succeeds lists no address
    twice, and neither does the list of candidates that the discovery
    cuts from it. *)
Theorem X4_expansion_without_duplicates (ip_range : string) (ip_list : list string) :
  parse_ip_range ip_range = Ok ip_list ->
  List.NoDup ip_list /\ List.NoDup (candidates ip_list) /\
  (List.length (candidates ip_list) <= 254)%nat.
Proof.
  intros Hparse. pose proof (parse_ip_range_NoDup ip_range ip_list Hparse) as Hnd.
  split; [exact Hnd|]. split; [apply candidates_NoDup, Hnd|].
  unfold candidates. destruct (Nat.ltb_spec 254 (List.length ip_list)); [|assumption].
  rewrite length_firstn. lia.
Qed.

Lemma X4_witness :
  List.NoDup ["10.0.0.9"; "10.0.0.10"; "10.0.0.11"] /\
  List.NoDup (candidates ["10.0.0.9"; "10.0.0.10"; "10.0.0.11"]) /\
  (List.length (candidates ["10.0.0.9"; "10.0.0.10"; "10.0.0.11"]) <= 254)%nat.
Proof. apply (X4_expansion_without_duplicates "10.0.0.9-11"). vm_compute. reflexivity. Defined.

(** [split] and [join] are inverse to each other. *)
Lemma join_split c s : join (String c EmptyString) (split c s) = s.
Proof.
  induction s as [|x r IH]; [reflexivity|]. cbn [split].
  destruct (Ascii.eqb_spec x c) as [->|Hne].
  - pose proof (split_nonempty c r) as Hr.
    destruct (split c r) as [|h t]; [congruence|].
    cbn [join] in *. rewrite IH. reflexivity.
  - destruct (split c r) as [|h t] eqn:Hs; [destruct (split_nonempty c r Hs)|].
    destruct t as [|h' t'].
    + cbn [join] in *. rewrite IH. reflexivity.
    + cbn [join] in *. rewrite <- IH. reflexivity.
Qed.

Lemma parse_octet_digits o a : parse_octet o = Some a -> all_digits o = true.
Proof.
  unfold parse_octet, isdigit. destruct o as [|x r]; [discriminate|].
  destruct (all_digits (String x r)); [reflexivity | discriminate].
Qed.

(** An address literal consists of digits and dots. *)
Lemma ip_int_from_string_chars c s x :
  ip_int_from_string s = Some x -> is_digit c = false -> c <> "."%char ->
  contains c s = false.
Proof.
  unfold ip_int_from_string. destruct (String.eqb s ""); [discriminate|].
  intros H Hc Hdot. rewrite <- (join_split "." s).
  destruct (split "." s) as [|o1 [|o2 [|o3 [|o4 [|]]]]]; try discriminate.
  destruct (parse_octet o1) eqn:H1; [|discriminate].
  destruct (parse_octet o2) eqn:H2; [|discriminate].
  destruct (parse_octet o3) eqn:H3; [|discriminate].
  destruct (parse_octet o4) eqn:H4; [|discriminate].
  cbn [join]. rewrite !contains_app.
  rewrite (all_digits_contains c o1 Hc (parse_octet_digits _ _ H1)).
  rewrite (all_digits_contains c o2 Hc (parse_octet_digits _ _ H2)).
  rewrite (all_digits_contains c o3 Hc (parse_octet_digits _ _ H3)).
  rewrite (all_digits_contains c o4 Hc (parse_octet_digits _ _ H4)).
  assert (Hd : contains c "." = false).
  { change (contains c ".") with (if Ascii.eqb "." c then true else false).
    destruct (Ascii.eqb_spec "."%char c); [congruence | reflexivity]. }
  rewrite Hd. reflexivity.
Qed.

Lemma make_netmask_chars c s p :
  make_netmask s = Some p -> is_digit c = false -> c <> "."%char -> contains c s = false.
Proof.
  unfold make_netmask, prefix_from_prefix_string, prefix_from_ip_string.
  intros H Hc Hdot.
  destruct (isdigit s) eqn:Hd.
  - apply all_digits_contains; [exact Hc|].
    unfold isdigit in Hd. destruct s; [discriminate | exact Hd].
  - simpl in H. destruct (ip_int_from_string s) as [x|] eqn:Hx; [|discriminate].
    eapply ip_int_from_string_chars; eassumption.
Qed.

(** No text with a dash in it is a network. *)
Lemma ip_network_dash r : contains "-" r = true -> ip_network r = None.
Proof.
  intros Hr. unfold ip_network.
  rewrite <- (join_split "/" r) in Hr.
  destruct (split "/" r) as [|addr [|mask [|]]]; try reflexivity.
  - cbn [join] in Hr. unfold ip_address.
    destruct (contains "/" addr); [reflexivity|].
    destruct (ip_int_from_string addr) as [x|] eqn:Hx; [|reflexivity].
    rewrite (ip_int_from_string_chars "-" addr x Hx) in Hr by (reflexivity || discriminate).
    discriminate.
  - cbn [join] in Hr. rewrite !contains_app in Hr. unfold ip_address.
    destruct (contains "/" addr); [reflexivity|].
    destruct (ip_int_from_string addr) as [x|] eqn:Hx; [|reflexivity].
    destruct (make_netmask mask) as [p|] eqn:Hp; [|reflexivity].
    rewrite (ip_int_from_string_chars "-" addr x Hx) in Hr by (reflexivity || discriminate).
    rewrite (make_netmask_chars "-" mask p Hp) in Hr by (reflexivity || discriminate).
    discriminate.
Qed.

(** What [ip_network] returns: an address without its low bits, and the
    prefix length. *)
Lemma ip_network_form r net :
  ip_network r = Some net ->
  exists x p, (x < 4294967296)%N /\ (p <= 32)%N /\
    net = {| network_address := N.land x (netmask_of_prefix p); prefixlen := p |}.
Proof.
  unfold ip_network.
  destruct (split "/" r) as [|addr [|mask [|]]]; try discriminate.
  - destruct (ip_address addr) as [x|] eqn:Hx; [|discriminate].
    intros [= <-]. exists x, 32%N.
    pose proof (ip_address_bound addr x Hx) as Hb.
    split; [exact Hb|]. split; [lia|]. rewrite netmask_32 by exact Hb. reflexivity.
  - destruct (ip_address addr) as [x|] eqn:Hx; [|discriminate].
    destruct (make_netmask mask) as [p|] eqn:Hp; [|discriminate].
    intros [= <-]. exists x, p.
    split; [eapply ip_address_bound, Hx|]. split; [eapply make_netmask_bound, Hp | reflexivity].
Qed.

(** The hosts of a network lie between its network address and its
    broadcast address. *)
Lemma hosts_in_network x p y :
  (p <= 32)%N ->
  let net := {| network_address := N.land x (netmask_of_prefix p); prefixlen := p |} in
  In y (hosts net) -> contains_address net y = true.
Proof.
  intros Hp net Hy. unfold contains_address.
  pose proof (broadcast_offset x p Hp) as Hb. cbv zeta in Hb. fold net in Hb.
  rewrite Hb. unfold hosts in Hy. change (prefixlen net) with p in Hy.
  change max_prefixlen with 32%N in Hy.
  apply andb_true_iff. rewrite !N.leb_le.
  destruct (N.eqb_spec p (32 - 1)) as [->|H31].
  - apply in_iota in Hy. change (2 ^ (32 - (32 - 1)) - 1)%N with 1%N. lia.
  - destruct (N.eqb_spec p 32) as [->|H32].
    + destruct Hy as [<-|[]]. lia.
    + apply in_iota in Hy. rewrite Hb in Hy. lia.
Qed.

(** X5.  Every address of the expansion of a text in CIDR notation is a
    valid address literal, and [_is_in_network] finds it in the network
    that the text denotes. *)
Theorem X5_cidr_expansion_in_network (ip_range : string) (ip_list : list string) :
  contains "/" ip_range = true ->
  parse_ip_range ip_range = Ok ip_list ->
  Forall (fun ip => (exists x, ip_address ip = Some x) /\
                    _is_in_network ip ip_range = true) ip_list.
Proof.
  intros Hc. unfold parse_ip_range. rewrite Hc.
  destruct (ip_network ip_range) as [net|] eqn:Hnet; [|discriminate].
  intros [= <-]. apply List.Forall_forall. intros ip Hip.
  apply List.in_map_iff in Hip as (y & <- & Hy).
  destruct (ip_network_form ip_range net Hnet) as (x & p & Hx & Hp & ->).
  assert (Hv : ip_address (str_of_address y) = Some y).
  { apply str_of_address_valid. eapply hosts_bound; eassumption. }
  split; [eauto|].
  unfold _is_in_network. rewrite Hnet, Hv. apply hosts_in_network; assumption.
Qed.

Lemma X5_witness :
  Forall (fun ip => (exists x, ip_address ip = Some x) /\
                    _is_in_network ip "10.0.0.5/30" = true)
    ["10.0.0.5"; "10.0.0.6"].
Proof.
  apply (X5_cidr_expansion_in_network "10.0.0.5/30"); vm_compute; reflexivity.
Defined.

End RangeFacts.

(** ** The neighbour table and the range *)

Module NeighbourFacts.
Import PyStr PyStrFacts IpAddress RangeFacts Scenario.

(** X6.  A range in dash notation denotes no IPv4 network, and without a
    colon it is no text of the other family either: [_is_in_network]
    answers [False] for every address, so that the discovery adds no host
    from the ARP table, and the hosts it finds are those that answered the
    ping or the TCP probe.  (With a colon the text can be an IPv6 network
    with a dash in its zone, which is outside this model.) *)
Theorem X6_dash_range_adds_no_arp_host (w : World) (network_range : string) :
  contains "-" network_range = true ->
  contains ":" network_range = false ->
  (forall ip, _is_in_network ip network_range = false) /\
  (forall arp_table st, arp_supplement network_range arp_table st = st) /\
  (forall ip_list,
     discovery_order w network_range ip_list = fst (tcp_probed w ip_list (pinged w ip_list))).
Proof.
  intros Hr _.
  assert (Hnot : forall ip, _is_in_network ip network_range = false).
  { intros ip. unfold _is_in_network. rewrite (ip_network_dash _ Hr). reflexivity. }
  assert (Harp : forall arp_table st, arp_supplement network_range arp_table st = st).
  { intros arp_table. unfold arp_supplement. generalize (dict_keys arp_table).
    intros l. induction l as [|ip l IH]; intros [alive discovered]; [reflexivity|].
    cbn [List.fold_left]. rewrite Hnot, andb_false_r. apply IH. }
  split; [exact Hnot|]. split; [exact Harp|].
  intros ip_list. unfold discovery_order. rewrite Harp. reflexivity.
Qed.

Lemma X6_witness :
  (forall ip, _is_in_network ip "10.0.0.1-2" = false) /\
  (forall arp_table st, arp_supplement "10.0.0.1-2" arp_table st = st) /\
  (forall ip_list,
     discovery_order with_oui_file "10.0.0.1-2" ip_list
     = fst (tcp_probed with_oui_file ip_list (pinged with_oui_file ip_list))).
Proof.
  apply (X6_dash_range_adds_no_arp_host with_oui_file "10.0.0.1-2"); reflexivity.
Defined.

End NeighbourFacts.

(** ** How every scan ends *)

Module EndFacts.
Import Frame MonadFacts FrameFacts HoareFacts Observe ScanFacts ServiceFacts OutcomeFacts Scenario.

Lemma scan_network_try_final_report w tc range :
  hoare (fun _ => True) (scan_network_try w tc range)
    (fun _ s' => exists before p, log s' = (before ++ [EProgress p])%list /\
                                  (p = PNoHosts \/ p = PCompleted))
    (fun _ _ => True).
Proof.
  assert (Hany : forall {A} (m : M A),
             hoare (fun _ => True) m (fun _ _ => True) (fun _ _ => True)).
  { intros A m s _. destruct (m s) as [[?|?] ?]; exact I. }
  unfold scan_network_try.
  eapply hoare_bind; [apply Hany | intros ?].
  eapply hoare_bind; [apply Hany | intros hosts].
  apply scan_hosts_final_report.
Qed.

(** X7.  Every scan, however it goes, ends with a progress report at
    100 %: [No hosts found], [Scan completed] or [Scan failed].  It returns
    a list, or else raises the exception that the progress callback raised
    on the report [Scan failed]: no other exception leaves [scan_network]. *)
Theorem X7_scan_ends_with_final_report (w : World) (network_range : string) (s : Scanner) :
  let run := scan_network w network_range s in
  (exists before p,
     log (snd run) = (before ++ [EProgress p])%list /\
     final_report p = true /\ percentage p == 100) /\
  match fst run with
  | Ok _ => True
  | Raise e => e = CallbackError "progress callback" /\
               exists e0, callback_raises w (PFailed e0) = true /\
                          List.last (reports (log (snd run))) PScanningLive = PFailed e0
  end.
Proof.
  cbv zeta. rewrite scan_network_unfold. unfold try_except.
  pose proof (scan_network_try_final_report w (scan_threads (scan_network_begin s))
                network_range (scan_network_begin s) I) as Htry.
  destruct (scan_network_try w _ network_range (scan_network_begin s)) as [[l|e] s1].
  - destruct Htry as (before & p & Hlog & Hp). simpl. split; [|exact I].
    exists before, p. split; [exact Hlog|]. destruct Hp as [-> | ->]; split; reflexivity.
  - destruct (except_run w e s1) as (s2 & -> & Hlog & Hres). split.
    + exists (log s1), (PFailed e). simpl. split; [exact Hlog|]. split; reflexivity.
    + destruct (callback_raises w (PFailed e)) eqn:Hcb; simpl; [|exact I].
      split; [reflexivity|]. exists e. split; [exact Hcb|].
      rewrite Hlog. unfold reports. rewrite flat_map_app. cbn [List.flat_map].
      rewrite app_nil_r. apply last_last.
Qed.

(** X8.  A range that the expander rejects is scanned without a single
    probe: the discovery returns no host and leaves no trace, not even a
    read of the neighbour table; with a progress callback that does not
    raise, the scan reports its start, the discovery and [No hosts found],
    and returns the empty list. *)
Theorem X8_rejected_range_scans_nothing
    (w : World) (network_range : string) (s : Scanner) (e : exn) :
  parse_ip_range network_range = Raise e ->
  (forall s', _enhanced_host_discovery w network_range s' = (Ok [], s')) /\
  (callback_raises w PScanningLive = false ->
   callback_raises w PDiscovering = false ->
   callback_raises w PNoHosts = false ->
   fst (scan_network w network_range s) = Ok [] /\
   since (log s) (log (snd (scan_network w network_range s))) =
     [EProgress PScanningLive; EProgress PDiscovering; EProgress PNoHosts]).
Proof.
  intros Hparse.
  assert (Hd : forall s', _enhanced_host_discovery w network_range s' = (Ok [], s')).
  { intros s'. unfold _enhanced_host_discovery, try_except, bind. rewrite Hparse. reflexivity. }
  split; [exact Hd|]. intros H1 H2 H3.
  assert (Hrun : exists s3, scan_network w network_range s = (Ok [], s3) /\
            log s3 = (log s ++ [EProgress PScanningLive; EProgress PDiscovering;
                                EProgress PNoHosts])%list).
  { rewrite scan_network_unfold.
    unfold try_except, scan_network_try, discover_hosts, scan_hosts.
    unfold bind at 1.
    destruct (update_progress_run w PScanningLive (scan_network_begin s))
      as (s1 & -> & Hlog1 & _ & Hres1 & _).
    rewrite H1. unfold bind at 1. unfold bind at 1.
    destruct (update_progress_run w PDiscovering s1) as (s2 & -> & Hlog2 & _ & Hres2 & _).
    rewrite H2, Hd. unfold bind at 1.
    destruct (update_progress_run w PNoHosts s2) as (s3 & -> & Hlog3 & _ & Hres3 & _).
    rewrite H3. cbn [bind get_state ret fst snd]. exists s3.
    rewrite Hres3, Hres2, Hres1, begin_results. split; [reflexivity|].
    rewrite Hlog3, Hlog2, Hlog1, begin_log, <- !app_assoc. reflexivity. }
  destruct Hrun as (s3 & -> & Hlog). split; [reflexivity|].
  cbn [snd]. rewrite Hlog. apply since_app.
Qed.

Lemma X8_witness :
  (forall s', _enhanced_host_discovery two_hosts "10.0.0.300" s' = (Ok [], s')) /\
  (callback_raises two_hosts PScanningLive = false ->
   callback_raises two_hosts PDiscovering = false ->
   callback_raises two_hosts PNoHosts = false ->
   fst (scan_network two_hosts "10.0.0.300" (new_scanner None)) = Ok [] /\
   since (log (new_scanner None))
     (log (snd (scan_network two_hosts "10.0.0.300" (new_scanner None)))) =
     [EProgress PScanningLive; EProgress PDiscovering; EProgress PNoHosts]).
Proof.
  apply (X8_rejected_range_scans_nothing two_hosts "10.0.0.300" (new_scanner None)
           (ValueError "Invalid IP range format: 10.0.0.300")).
  vm_compute. reflexivity.
Defined.

End EndFacts.

(** ** The custom services of the configuration *)

Module ConfigFacts.
Import ConfigManager.

Lemma append_custom_spec acc l :
  append_custom acc l =
  (acc ++ List.flat_map (fun d => match service_of d with Some s => [s] | None => [] end) l)%list.
Proof.
  unfold append_custom. revert acc.
  induction l as [|d l IH]; intros acc; cbn [List.fold_left List.flat_map].
  - symmetry. apply app_nil_r.
  - rewrite IH. destruct (service_of d); [rewrite <- app_assoc|]; reflexivity.
Qed.

Lemma service_of_dict service : service_of (service_dict service) = Some service.
Proof. destruct service. reflexivity. Qed.

Lemma key_of_dict service : key_of (service_dict service) = Some (port service, protocol service).
Proof. reflexivity. Qed.

Lemma has_key_spec d p pr :
  key_of d <> None -> has_key d p pr = Returns (bool_decide (key_of d = Some (p, pr))).
Proof.
  unfold has_key, key_of. destruct (cd_port d) as [p'|]; [|congruence].
  destruct (cd_protocol d) as [pr'|]; [|congruence]. intros _.
  destruct (Z.eqb_spec p' p) as [->|Hp].
  - f_equal. destruct (String.eqb_spec pr' pr) as [->|Hpr].
    + symmetry. apply bool_decide_eq_true. reflexivity.
    + symmetry. apply bool_decide_eq_false. congruence.
  - f_equal. symmetry. apply bool_decide_eq_false. congruence.
Qed.

(** On a list whose entries all have a port and a protocol, the search
    never raises: it finds the first entry with the key. *)
Lemma find_key_spec l p pr :
  well_keyed l = true ->
  (exists l1 d l2,
     find_key l p pr = Returns (Some (List.length l1)) /\
     l = (l1 ++ d :: l2)%list /\ key_of d = Some (p, pr) /\
     ~ In (Some (p, pr)) (List.map key_of l1)) \/
  (find_key l p pr = Returns None /\ ~ In (Some (p, pr)) (List.map key_of l)).
Proof.
  induction l as [|d l IH]; intros Hk.
  - right. split; [reflexivity | intros []].
  - cbn [well_keyed List.forallb] in Hk. apply andb_true_iff in Hk as [Hd Hl].
    cbn [find_key]. rewrite has_key_spec by (destruct (key_of d); [discriminate | discriminate]).
    destruct (bool_decide (key_of d = Some (p, pr))) eqn:Hdec.
    + left. exists [], d, l. apply bool_decide_eq_true in Hdec.
      split; [reflexivity|]. split; [reflexivity|]. split; [exact Hdec | intros []].
    + apply (bool_decide_eq_false_1 _) in Hdec.
      destruct (IH Hl) as [(l1 & d' & l2 & Hf & -> & Hd' & Hl1)|[Hf Hnone]].
      * left. exists (d :: l1), d', l2. rewrite Hf.
        split; [reflexivity|]. split; [reflexivity|]. split; [exact Hd'|].
        cbn [List.map]. intros [H|H]; [congruence | auto].
      * right. rewrite Hf. split; [reflexivity|].
        cbn [List.map]. intros [H|H]; [congruence | auto].
Qed.

Lemma length_flat_map_le {A B} (f : A -> list B) (l : list A) :
  (forall a, List.length (f a) <= 1)%nat ->
  (List.length (List.flat_map f l) <= List.length l)%nat.
Proof.
  intros Hf. induction l as [|a l IH]; cbn [List.flat_map List.length]; [lia|].
  rewrite length_app. specialize (Hf a). lia.
Qed.

(** X9.  The services of a scan are the 33 built-in services followed by
    the custom services, and the custom services are the well-formed
    entries of the configuration, in their order: an entry that lacks a
    name, a port, a protocol or a description is passed over, and a
    missing access method reads as the empty text. *)
Theorem X9_services_builtin_then_custom (cm : ConfigManager) :
  get_all_services cm = (COMMON_SERVICES ++ get_custom_services cm)%list /\
  get_custom_services cm =
    List.flat_map (fun d => match service_of d with Some s => [s] | None => [] end)
      (custom_services cm) /\
  List.length (get_all_services cm) = (33 + List.length (get_custom_services cm))%nat /\
  (List.length (get_custom_services cm) <= List.length (custom_services cm))%nat.
Proof.
  unfold get_all_services, get_custom_services. rewrite !append_custom_spec.
  split; [reflexivity|]. split; [reflexivity|]. split.
  - rewrite length_app. reflexivity.
  - cbn [app]. apply length_flat_map_le. intros d. destruct (service_of d); simpl; lia.
Qed.

(** X10.  [add_custom_service], on a configuration whose entries all have
    a port and a protocol: it refuses the service, and changes and saves
    nothing, exactly when a custom entry has the same port and protocol;
    otherwise it appends the service as the last entry, saves the new
    list, and the service is from then on the last of the custom services
    and of all services. *)
Theorem X10_add_custom_service (service : ServiceInfo) (cm : ConfigManager) :
  well_keyed (custom_services cm) = true ->
  let taken := In (Some (port service, protocol service))
                 (List.map key_of (custom_services cm)) in
  (taken /\ add_custom_service service cm = Returns (false, cm)) \/
  (~ taken /\
   exists cm',
     add_custom_service service cm = Returns (true, cm') /\
     custom_services cm' = (custom_services cm ++ [service_dict service])%list /\
     save_calls cm' = (save_calls cm ++ [custom_services cm'])%list /\
     get_custom_services cm' = (get_custom_services cm ++ [service])%list /\
     get_all_services cm' = (get_all_services cm ++ [service])%list).
Proof.
  intros Hk taken. unfold add_custom_service.
  destruct (find_key_spec (custom_services cm) (port service) (protocol service) Hk)
    as [(l1 & d & l2 & -> & Hl & Hd & _)|[-> Hnone]].
  - left. split; [|reflexivity]. unfold taken. rewrite Hl, map_app. cbn [List.map].
    apply in_or_app. right. left. exact Hd.
  - right. split; [exact Hnone|]. eexists. split; [reflexivity|].
    cbn [save_config set_custom_services custom_services save_calls].
    split; [reflexivity|]. split; [reflexivity|].
    unfold get_custom_services, get_all_services.
    cbn [save_config set_custom_services custom_services].
    rewrite !append_custom_spec, flat_map_app.
    cbn [List.flat_map]. rewrite service_of_dict, app_nil_r.
    split; [reflexivity | apply app_assoc].
Qed.

Lemma X10_witness :
  let service := Build_ServiceInfo "Grafana" 3100 "tcp" "Dashboards" "http" in
  let cm := {| custom_services := []; save_calls := [] |} in
  let taken := In (Some (port service, protocol service))
                 (List.map key_of (custom_services cm)) in
  (taken /\ add_custom_service service cm = Returns (false, cm)) \/
  (~ taken /\
   exists cm',
     add_custom_service service cm = Returns (true, cm') /\
     custom_services cm' = (custom_services cm ++ [service_dict service])%list /\
     save_calls cm' = (save_calls cm ++ [custom_services cm'])%list /\
     get_custom_services cm' = (get_custom_services cm ++ [service])%list /\
     get_all_services cm' = (get_all_services cm ++ [service])%list).
Proof.
  apply (X10_add_custom_service (Build_ServiceInfo "Grafana" 3100 "tcp" "Dashboards" "http")
           {| custom_services := []; save_calls := [] |}).
  reflexivity.
Defined.

Lemma well_keyed_app l1 l2 : well_keyed (l1 ++ l2) = well_keyed l1 && well_keyed l2.
Proof. apply forallb_app. Qed.

Lemma delete_at_middle (l1 : list CustomData) d l2 :
  delete_at (List.length l1) (l1 ++ d :: l2) = (l1 ++ l2)%list.
Proof.
  unfold delete_at. rewrite firstn_app, firstn_all, Nat.sub_diag. cbn [List.firstn].
  rewrite app_nil_r. f_equal.
  rewrite skipn_app, skipn_all2 by lia.
  replace (S (List.length l1) - List.length l1)%nat with 1%nat by lia. reflexivity.
Qed.

Lemma replace_at_middle (l1 : list CustomData) d d' l2 :
  replace_at (List.length l1) d' (l1 ++ d :: l2) = (l1 ++ d' :: l2)%list.
Proof.
  unfold replace_at. rewrite firstn_app, firstn_all, Nat.sub_diag. cbn [List.firstn].
  rewrite app_nil_r. f_equal. f_equal.
  rewrite skipn_app, skipn_all2 by lia.
  replace (S (List.length l1) - List.length l1)%nat with 1%nat by lia. reflexivity.
Qed.

(** X11.  Adding a service and removing it again: when
    [add_custom_service] has accepted a service, [remove_custom_service]
    with its port and protocol returns [True] and leaves the custom
    services as they were before the two calls, after two saves. *)
Theorem X11_add_then_remove (service : ServiceInfo) (cm cm1 : ConfigManager) :
  well_keyed (custom_services cm) = true ->
  add_custom_service service cm = Returns (true, cm1) ->
  exists cm2,
    remove_custom_service (port service) (protocol service) cm1 = Returns (true, cm2) /\
    custom_services cm2 = custom_services cm /\
    save_calls cm2 = (save_calls cm ++ [custom_services cm1; custom_services cm])%list.
Proof.
  intros Hk Hadd. unfold add_custom_service in Hadd.
  destruct (find_key_spec (custom_services cm) (port service) (protocol service) Hk)
    as [(l1 & d & l2 & Hf & Hl & Hd & _)|[Hf Hnone]]; rewrite Hf in Hadd;
    [discriminate|]. injection Hadd as <-.
  unfold remove_custom_service.
  cbn [save_config set_custom_services custom_services save_calls].
  assert (Hk1 : well_keyed (custom_services cm ++ [service_dict service]) = true)
    by (rewrite well_keyed_app, Hk; reflexivity).
  destruct (find_key_spec _ (port service) (protocol service) Hk1)
    as [(l1 & d & l2 & Hf1 & Hl1 & Hd1 & Hfirst)|[Hf1 Hnone1]].
  - rewrite Hf1.
    assert (l2 = [] /\ l1 = custom_services cm) as [-> <-].
    { destruct l2 as [|d2 l2 _] using rev_ind.
      - apply app_inj_tail in Hl1 as [-> _]. split; reflexivity.
      - exfalso. rewrite app_comm_cons, app_assoc in Hl1.
        apply app_inj_tail in Hl1 as [Hl1 _].
        apply Hnone. rewrite Hl1, map_app. apply in_or_app. right. left. exact Hd1. }
    eexists. split; [reflexivity|].
    cbn [save_config set_custom_services custom_services save_calls].
    rewrite delete_at_middle, app_nil_r.
    split; [reflexivity|]. rewrite <- app_assoc. reflexivity.
  - exfalso. apply Hnone1. rewrite map_app. apply in_or_app. right. left. reflexivity.
Qed.

Lemma X11_witness :
  exists cm2,
    remove_custom_service 3100 "tcp"
      {| custom_services :=
           [service_dict (Build_ServiceInfo "Grafana" 3100 "tcp" "Dashboards" "http")];
         save_calls :=
           [[service_dict (Build_ServiceInfo "Grafana" 3100 "tcp" "Dashboards" "http")]] |}
    = Returns (true, cm2) /\
    custom_services cm2 = [] /\
    save_calls cm2 =
      [[service_dict (Build_ServiceInfo "Grafana" 3100 "tcp" "Dashboards" "http")]; []].
Proof.
  apply (X11_add_then_remove (Build_ServiceInfo "Grafana" 3100 "tcp" "Dashboards" "http")
           {| custom_services := []; save_calls := [] |}); reflexivity.
Defined.

(** What the three calls that search for a key do on a well-keyed list. *)
Lemma add_keeps_keys service cm b cm' :
  well_keyed (custom_services cm) = true -> distinct_keys (custom_services cm) ->
  add_custom_service service cm = Returns (b, cm') ->
  well_keyed (custom_services cm') = true /\ distinct_keys (custom_services cm') /\
  In (Some (port service, protocol service)) (List.map key_of (custom_services cm')) /\
  (forall k, In k (List.map key_of (custom_services cm')) ->
     In k (List.map key_of (custom_services cm)) \/
     (b = true /\ k = Some (port service, protocol service))).
Proof.
  intros Hk Hd Hadd. unfold add_custom_service in Hadd.
  destruct (find_key_spec (custom_services cm) (port service) (protocol service) Hk)
    as [(l1 & d & l2 & Hf & Hl & Hkey & _)|[Hf Hnt]]; rewrite Hf in Hadd;
    injection Hadd as <- <-.
  - split; [exact Hk|]. split; [exact Hd|]. split; [|auto].
    rewrite Hl, map_app. apply in_or_app. right. left. exact Hkey.
  - cbn [save_config set_custom_services custom_services].
    split; [rewrite well_keyed_app, Hk; reflexivity|].
    unfold distinct_keys. rewrite map_app. cbn [List.map]. rewrite key_of_dict.
    split; [|split].
    + apply List.NoDup_app; [exact Hd | repeat constructor; intros [] |].
      intros k Hin [<-|[]]. exact (Hnt Hin).
    + apply in_or_app. right. left. reflexivity.
    + intros k Hin. apply in_app_or in Hin as [Hin|[<-|[]]]; auto.
Qed.

Lemma remove_keeps_keys p pr cm b cm' :
  well_keyed (custom_services cm) = true -> distinct_keys (custom_services cm) ->
  remove_custom_service p pr cm = Returns (b, cm') ->
  well_keyed (custom_services cm') = true /\ distinct_keys (custom_services cm') /\
  (b = true -> ~ In (Some (p, pr)) (List.map key_of (custom_services cm'))) /\
  (b = false -> cm' = cm /\ ~ In (Some (p, pr)) (List.map key_of (custom_services cm))).
Proof.
  intros Hk Hd Hrm. unfold remove_custom_service in Hrm.
  destruct (find_key_spec (custom_services cm) p pr Hk)
    as [(l1 & d & l2 & Hf & Hl & Hkey & Hfirst)|[Hf Hnone]]; rewrite Hf in Hrm;
    injection Hrm as <- <-.
  - cbn [save_config set_custom_services custom_services].
    unfold distinct_keys in *. rewrite Hl in *. rewrite delete_at_middle.
    rewrite well_keyed_app in Hk. cbn [well_keyed List.forallb] in Hk.
    apply andb_true_iff in Hk as [Hk1 Hk2]. apply andb_true_iff in Hk2 as [_ Hk2].
    rewrite map_app in Hd. cbn [List.map] in Hd.
    split; [rewrite well_keyed_app; apply andb_true_iff; split; assumption|].
    split; [rewrite map_app; eapply List.NoDup_remove_1; exact Hd|].
    split; [|discriminate]. intros _.
    apply List.NoDup_remove_2 in Hd. rewrite Hkey in Hd. rewrite map_app. exact Hd.
  - split; [exact Hk|]. split; [exact Hd|]. split; [discriminate | auto].
Qed.

Lemma custom_in_use_none l p pr :
  well_keyed l = true ->
  exists b, custom_in_use l p pr None = Returns b /\
            (b = true <-> In (Some (p, pr)) (List.map key_of l)).
Proof.
  induction l as [|d l IH]; intros Hk.
  - exists false. split; [reflexivity|]. split; [discriminate | intros []].
  - cbn [well_keyed List.forallb] in Hk. apply andb_true_iff in Hk as [Hd Hl].
    cbn [custom_in_use]. rewrite has_key_spec by (destruct (key_of d); discriminate).
    destruct (bool_decide (key_of d = Some (p, pr))) eqn:Hdec.
    + apply bool_decide_eq_true in Hdec. exists true. split; [reflexivity|].
      split; [intros _; left; exact Hdec | reflexivity].
    + apply (bool_decide_eq_false_1 _) in Hdec.
      destruct (IH Hl) as (b & -> & Hb). exists b. split; [reflexivity|].
      rewrite Hb. cbn [List.map In]. split; [auto|]. intros [H|H]; [congruence | exact H].
Qed.

Lemma is_port_in_use_none p pr cm :
  well_keyed (custom_services cm) = true ->
  exists b, is_port_in_use p pr None cm = Returns b /\
            (b = true <-> builtin_key (p, pr) = true \/
                          In (Some (p, pr)) (List.map key_of (custom_services cm))).
Proof.
  intros Hk. unfold is_port_in_use, builtin_key. cbn [fst snd].
  replace (List.existsb _ COMMON_SERVICES)
    with (List.existsb (fun service => (port service =? p)%Z && String.eqb (protocol service) pr)
            COMMON_SERVICES)
    by (generalize COMMON_SERVICES; intros l; induction l as [|x l IH];
        [reflexivity | cbn [List.existsb]; rewrite IH, andb_true_r; reflexivity]).
  destruct (List.existsb _ COMMON_SERVICES).
  - exists true. split; [reflexivity|]. split; auto.
  - destruct (custom_in_use_none (custom_services cm) p pr Hk) as (b & -> & Hb).
    exists b. split; [reflexivity|]. rewrite Hb. split; [auto|].
    intros [H|H]; [discriminate | exact H].
Qed.

(** X12.  The custom services keep their keys apart.  On a configuration
    in which every entry has a port and a protocol and no two entries have
    the same, [add_custom_service] and [remove_custom_service] leave a
    configuration of that kind; after a removal that returned [True] no
    entry has the removed port and protocol; and [reset_custom_services]
    leaves the empty list, saved. *)
Theorem X12_custom_keys_stay_distinct (cm : ConfigManager) :
  well_keyed (custom_services cm) = true ->
  distinct_keys (custom_services cm) ->
  (forall service b cm',
     add_custom_service service cm = Returns (b, cm') ->
     well_keyed (custom_services cm') = true /\ distinct_keys (custom_services cm') /\
     In (Some (port service, protocol service)) (List.map key_of (custom_services cm'))) /\
  (forall p pr b cm',
     remove_custom_service p pr cm = Returns (b, cm') ->
     well_keyed (custom_services cm') = true /\ distinct_keys (custom_services cm') /\
     ~ In (Some (p, pr)) (List.map key_of (custom_services cm'))) /\
  custom_services (reset_custom_services cm) = [] /\
  save_calls (reset_custom_services cm) = (save_calls cm ++ [[]])%list.
Proof.
  intros Hk Hd. split; [|split; [|split; reflexivity]].
  - intros service b cm' Hadd.
    destruct (add_keeps_keys service cm b cm' Hk Hd Hadd) as (H1 & H2 & H3 & _). auto.
  - intros p pr b cm' Hrm.
    destruct (remove_keeps_keys p pr cm b cm' Hk Hd Hrm) as (H1 & H2 & H3 & H4).
    split; [exact H1|]. split; [exact H2|].
    destruct b; [apply H3; reflexivity|]. destruct (H4 eq_refl) as [-> Hn]. exact Hn.
Qed.

Lemma X12_witness :
  let cm := {| custom_services :=
                 [service_dict (Build_ServiceInfo "Grafana" 3100 "tcp" "Dashboards" "http")];
               save_calls := [] |} in
  (forall service b cm',
     add_custom_service service cm = Returns (b, cm') ->
     well_keyed (custom_services cm') = true /\ distinct_keys (custom_services cm') /\
     In (Some (port service, protocol service)) (List.map key_of (custom_services cm'))) /\
  (forall p pr b cm',
     remove_custom_service p pr cm = Returns (b, cm') ->
     well_keyed (custom_services cm') = true /\ distinct_keys (custom_services cm') /\
     ~ In (Some (p, pr)) (List.map key_of (custom_services cm'))) /\
  custom_services (reset_custom_services cm) = [] /\
  save_calls (reset_custom_services cm) = (save_calls cm ++ [[]])%list.
Proof.
  apply (X12_custom_keys_stay_distinct
           {| custom_services :=
                [service_dict (Build_ServiceInfo "Grafana" 3100 "tcp" "Dashboards" "http")];
              save_calls := [] |}).
  - reflexivity.
  - unfold distinct_keys. simpl. repeat constructor. intros [].
Defined.

Lemma add_fresh service cm :
  well_keyed (custom_services cm) = true ->
  ~ In (Some (port service, protocol service)) (List.map key_of (custom_services cm)) ->
  add_custom_service service cm =
  Returns (true, save_config
                   (set_custom_services (custom_services cm ++ [service_dict service])%list cm)).
Proof.
  intros Hk Hfree. unfold add_custom_service.
  destruct (find_key_spec (custom_services cm) (port service) (protocol service) Hk)
    as [(l1 & d & l2 & Hf & Hl & Hkey & _)|[-> _]]; [|reflexivity].
  exfalso. apply Hfree. rewrite Hl, map_app. apply in_or_app. right. left. exact Hkey.
Qed.

(** The loop of the import. *)
Lemma import_fold file_services : forall cm n,
  well_keyed (custom_services cm) = true ->
  distinct_keys (custom_services cm) ->
  exists added cm',
    List.fold_left import_one file_services (cm, n) = (cm', (n + List.length added)%nat) /\
    custom_services cm' = (custom_services cm ++ List.map service_dict added)%list /\
    well_keyed (custom_services cm') = true /\ distinct_keys (custom_services cm') /\
    Forall (fun service => builtin_key (port service, protocol service) = false /\
                           In (Some service) (List.map service_of file_services)) added /\
    Forall (fun d => match service_of d with
                     | Some service =>
                         builtin_key (port service, protocol service) = true \/
                         In (Some (port service, protocol service))
                            (List.map key_of (custom_services cm'))
                     | None => True
                     end) file_services.
Proof.
  induction file_services as [|d r IH]; intros cm n Hk Hd.
  - exists [], cm. cbn [List.fold_left List.length List.map].
    rewrite Nat.add_0_r, app_nil_r. repeat split; auto.
  - cbn [List.fold_left]. unfold import_one at 2.
    destruct (service_of d) as [service|] eqn:Hsd.
    + destruct (is_port_in_use_none (port service) (protocol service) cm Hk) as (b & -> & Hb).
      destruct b.
      * destruct (IH cm n Hk Hd) as (added & cm' & Hfold & Hl & Hk' & Hd' & Hadded & Hall).
        exists added, cm'. split; [exact Hfold|]. split; [exact Hl|].
        split; [exact Hk'|]. split; [exact Hd'|]. split.
        { eapply List.Forall_impl; [|exact Hadded]. intros x [H1 H2]. split; [exact H1|].
          right. exact H2. }
        constructor; [|exact Hall]. rewrite Hsd.
        destruct (proj1 Hb eq_refl) as [H|H]; [left; exact H|].
        right. rewrite Hl, map_app. apply in_or_app. left. exact H.
      * assert (Hfree : ~ In (Some (port service, protocol service))
                          (List.map key_of (custom_services cm))).
        { intros H. assert (false = true) by (apply Hb; right; exact H). discriminate. }
        assert (Hnb : builtin_key (port service, protocol service) = false).
        { destruct (builtin_key _) eqn:E; [|reflexivity].
          assert (false = true) by (apply Hb; left; reflexivity). discriminate. }
        rewrite (add_fresh service cm Hk Hfree).
        set (cm1 := save_config (set_custom_services _ cm)).
        assert (Hadd : add_custom_service service cm = Returns (true, cm1))
          by (apply add_fresh; assumption).
        destruct (add_keeps_keys service cm true cm1 Hk Hd Hadd) as (Hk1 & Hd1 & _).
        destruct (IH cm1 (S n) Hk1 Hd1)
          as (added & cm' & Hfold & Hl & Hk' & Hd' & Hadded & Hall).
        exists (service :: added), cm'. cbn [List.length List.map].
        split; [rewrite Hfold; f_equal; lia|].
        split; [rewrite Hl; unfold cm1; cbn [save_config set_custom_services custom_services];
                rewrite <- app_assoc; reflexivity|].
        split; [exact Hk'|]. split; [exact Hd'|]. split.
        { constructor.
          - split; [exact Hnb|]. left. exact Hsd.
          - eapply List.Forall_impl; [|exact Hadded]. intros x [H1 H2]. split; [exact H1|].
            right. exact H2. }
        constructor; [|exact Hall]. rewrite Hsd. right.
        rewrite Hl. unfold cm1. cbn [save_config set_custom_services custom_services].
        rewrite !map_app. apply in_or_app. left. apply in_or_app. right. left. reflexivity.
    + destruct (IH cm n Hk Hd) as (added & cm' & Hfold & Hl & Hk' & Hd' & Hadded & Hall).
      exists added, cm'. split; [exact Hfold|]. split; [exact Hl|].
      split; [exact Hk'|]. split; [exact Hd'|]. split.
      { eapply List.Forall_impl; [|exact Hadded]. intros x [H1 H2]. split; [exact H1|].
        right. exact H2. }
      constructor; [|exact Hall]. rewrite Hsd. exact I.
Qed.

(** The loop of the import runs through the objects before the first
    element that is no object. *)
Lemma import_entries_fold entries : forall st,
  import_entries entries st =
  (if all_objects entries
   then Some (snd (List.fold_left import_one (objects_before entries) st))
   else None,
   fst (List.fold_left import_one (objects_before entries) st)).
Proof.
  induction entries as [|[d|] rest IH]; intros st; [reflexivity | | reflexivity].
  cbn [import_entries objects_before all_objects List.forallb List.fold_left andb].
  apply IH.
Qed.

(** X13.  [import_custom_services] on a configuration whose entries have
    distinct ports and protocols.  A file that cannot be read changes
    nothing and gives [(False, 0)].  A document that is no object, or that
    has a number, a boolean or [null] where the list of services should
    be, gives [(False, 0)] too, but after [replace] has emptied the list.
    Otherwise (a missing list is an empty one) the loop runs through the objects
    until it meets an element that is no object: the services it adds are
    appended, in the order of the file, to the custom services (or to the
    empty list when [replace] is set); none has the port and protocol of
    a built-in service; the entries still have distinct keys; and every
    well-formed object that the loop has passed and not added has a port
    and protocol that is in use.  The answer is [True] and the number
    added when every element is an object, and [(False, 0)] when one is
    not -- whatever was added before it stays. *)
Theorem X13_import_custom_services
    (entries : list file_entry) (replace : bool) (cm : ConfigManager) :
  well_keyed (custom_services cm) = true ->
  distinct_keys (custom_services cm) ->
  let start := if replace then [] else custom_services cm in
  let passed := objects_before entries in
  import_custom_services Unreadable replace cm = ((false, 0%nat), cm) /\
  import_custom_services NotADocument replace cm
    = ((false, 0%nat), if replace then set_custom_services [] cm else cm) /\
  import_custom_services NoServiceList replace cm
    = ((false, 0%nat), if replace then set_custom_services [] cm else cm) /\
  exists added cm',
    import_custom_services (ServiceList entries) replace cm
      = (if all_objects entries then (true, List.length added) else (false, 0%nat), cm') /\
    custom_services cm' = (start ++ List.map service_dict added)%list /\
    well_keyed (custom_services cm') = true /\ distinct_keys (custom_services cm') /\
    Forall (fun service => builtin_key (port service, protocol service) = false /\
                           In (Some service) (List.map service_of passed)) added /\
    Forall (fun d => match service_of d with
                     | Some service =>
                         builtin_key (port service, protocol service) = true \/
                         In (Some (port service, protocol service))
                            (List.map key_of (custom_services cm'))
                     | None => True
                     end) passed.
Proof.
  intros Hk Hd start passed. split; [reflexivity|].
  split; [reflexivity|]. split; [reflexivity|].
  unfold import_custom_services.
  set (cm0 := if replace then set_custom_services [] cm else cm).
  assert (H0 : custom_services cm0 = start) by (unfold cm0, start; destruct replace; reflexivity).
  assert (Hk0 : well_keyed (custom_services cm0) = true).
  { rewrite H0. unfold start. destruct replace; [reflexivity | exact Hk]. }
  assert (Hd0 : distinct_keys (custom_services cm0)).
  { rewrite H0. unfold start. destruct replace; [constructor | exact Hd]. }
  destruct (import_fold passed cm0 0%nat Hk0 Hd0)
    as (added & cm' & Hfold & Hl & Hk' & Hd' & Hadded & Hall).
  exists added, cm'. rewrite import_entries_fold. fold passed. rewrite Hfold.
  rewrite H0 in Hl. cbn [fst snd Nat.add].
  split; [destruct (all_objects entries); reflexivity|]. auto 10.
Qed.

Lemma X13_witness :
  let entries :=
    [Object (service_dict (Build_ServiceInfo "Grafana" 3100 "tcp" "Dashboards" "http"));
     Object (service_dict (Build_ServiceInfo "Other web" 80 "tcp" "Built-in port" "http"));
     Object {| cd_name := Some "No port"; cd_port := None; cd_protocol := Some "tcp";
               cd_description := Some ""; cd_access_method := None |};
     Object (service_dict (Build_ServiceInfo "Grafana again" 3100 "tcp" "Twice" "http"))] in
  let cm := {| custom_services := []; save_calls := [] |} in
  let start := if false then [] else custom_services cm in
  let passed := objects_before entries in
  import_custom_services Unreadable false cm = ((false, 0%nat), cm) /\
  import_custom_services NotADocument false cm
    = ((false, 0%nat), if false then set_custom_services [] cm else cm) /\
  import_custom_services NoServiceList false cm
    = ((false, 0%nat), if false then set_custom_services [] cm else cm) /\
  exists added cm',
    import_custom_services (ServiceList entries) false cm
      = (if all_objects entries then (true, List.length added) else (false, 0%nat), cm') /\
    custom_services cm' = (start ++ List.map service_dict added)%list /\
    well_keyed (custom_services cm') = true /\ distinct_keys (custom_services cm') /\
    Forall (fun service => builtin_key (port service, protocol service) = false /\
                           In (Some service) (List.map service_of passed)) added /\
    Forall (fun d => match service_of d with
                     | Some service =>
                         builtin_key (port service, protocol service) = true \/
                         In (Some (port service, protocol service))
                            (List.map key_of (custom_services cm'))
                     | None => True
                     end) passed.
Proof.
  apply (X13_import_custom_services
           [Object (service_dict (Build_ServiceInfo "Grafana" 3100 "tcp" "Dashboards" "http"));
            Object (service_dict (Build_ServiceInfo "Other web" 80 "tcp" "Built-in port" "http"));
            Object {| cd_name := Some "No port"; cd_port := None; cd_protocol := Some "tcp";
                      cd_description := Some ""; cd_access_method := None |};
            Object (service_dict (Build_ServiceInfo "Grafana again" 3100 "tcp" "Twice" "http"))]
           false {| custom_services := []; save_calls := [] |}).
  - reflexivity.
  - constructor.
Defined.

(** The import of the witness: one service of four is added. *)
Example import_four_entries :
  fst (import_custom_services
         (ServiceList
            [Object (service_dict (Build_ServiceInfo "Grafana" 3100 "tcp" "Dashboards" "http"));
             Object (service_dict (Build_ServiceInfo "Other web" 80 "tcp" "Built-in port" "http"));
             Object {| cd_name := Some "No port"; cd_port := None; cd_protocol := Some "tcp";
                       cd_description := Some ""; cd_access_method := None |};
             Object (service_dict (Build_ServiceInfo "Grafana again" 3100 "tcp" "Twice" "http"))])
         false {| custom_services := []; save_calls := [] |})
  = (true, 1%nat).
Proof. vm_compute. reflexivity. Qed.

(** An import with [replace] of a file whose second element is a text: the
    answer is [(False, 0)], the two services of the configuration are gone,
    and the one that was read before the text is there, and saved. *)
Example import_stops_at_a_text :
  let old := [service_dict (Build_ServiceInfo "Wiki" 8090 "tcp" "" "http");
              service_dict (Build_ServiceInfo "Git" 3000 "tcp" "" "http")] in
  let grafana := service_dict (Build_ServiceInfo "Grafana" 3100 "tcp" "Dashboards" "http") in
  import_custom_services
    (ServiceList [Object grafana; NotAnObject;
                  Object (service_dict (Build_ServiceInfo "Late" 3200 "tcp" "" ""))])
    true {| custom_services := old; save_calls := [] |}
  = ((false, 0%nat), {| custom_services := [grafana]; save_calls := [[grafana]] |}) /\
  import_custom_services NotADocument true {| custom_services := old; save_calls := [] |}
  = ((false, 0%nat), {| custom_services := []; save_calls := [] |}).
Proof. vm_compute. split; reflexivity. Qed.

(** X14.  [update_custom_service] replaces, in place, the first entry
    that has the old port and protocol by the new service, and saves the
    list; the other entries and their order stay as they are.  When no
    entry has the old port and protocol it returns [False] and changes
    nothing. *)
Theorem X14_update_custom_service
    (old_port : Z) (old_protocol : string) (new_service : ServiceInfo) (cm : ConfigManager) :
  well_keyed (custom_services cm) = true ->
  (~ In (Some (old_port, old_protocol)) (List.map key_of (custom_services cm)) /\
   update_custom_service old_port old_protocol new_service cm = Returns (false, cm)) \/
  (exists l1 d l2 cm',
     custom_services cm = (l1 ++ d :: l2)%list /\
     key_of d = Some (old_port, old_protocol) /\
     ~ In (Some (old_port, old_protocol)) (List.map key_of l1) /\
     update_custom_service old_port old_protocol new_service cm = Returns (true, cm') /\
     custom_services cm' = (l1 ++ service_dict new_service :: l2)%list /\
     List.length (custom_services cm') = List.length (custom_services cm) /\
     save_calls cm' = (save_calls cm ++ [custom_services cm'])%list).
Proof.
  intros Hk. unfold update_custom_service.
  destruct (find_key_spec (custom_services cm) old_port old_protocol Hk)
    as [(l1 & d & l2 & -> & Hl & Hkey & Hfirst)|[-> Hnone]].
  - right. exists l1, d, l2. eexists. split; [exact Hl|]. split; [exact Hkey|].
    split; [exact Hfirst|]. split; [reflexivity|].
    cbn [save_config set_custom_services custom_services save_calls].
    rewrite Hl, replace_at_middle. split; [reflexivity|]. split; [|reflexivity].
    rewrite !length_app. reflexivity.
  - left. split; [exact Hnone | reflexivity].
Qed.

Lemma X14_witness :
  let cm := {| custom_services :=
                 [service_dict (Build_ServiceInfo "Grafana" 3100 "tcp" "Dashboards" "http")];
               save_calls := [] |} in
  let new_service := Build_ServiceInfo "Grafana" 3200 "tcp" "Dashboards" "http" in
  (~ In (Some (3100%Z, "tcp")) (List.map key_of (custom_services cm)) /\
   update_custom_service 3100 "tcp" new_service cm = Returns (false, cm)) \/
  (exists l1 d l2 cm',
     custom_services cm = (l1 ++ d :: l2)%list /\
     key_of d = Some (3100%Z, "tcp") /\
     ~ In (Some (3100%Z, "tcp")) (List.map key_of l1) /\
     update_custom_service 3100 "tcp" new_service cm = Returns (true, cm') /\
     custom_services cm' = (l1 ++ service_dict new_service :: l2)%list /\
     List.length (custom_services cm') = List.length (custom_services cm) /\
     save_calls cm' = (save_calls cm ++ [custom_services cm'])%list).
Proof.
  apply (X14_update_custom_service 3100 "tcp"
           (Build_ServiceInfo "Grafana" 3200 "tcp" "Dashboards" "http")
           {| custom_services :=
                [service_dict (Build_ServiceInfo "Grafana" 3100 "tcp" "Dashboards" "http")];
              save_calls := [] |}).
  reflexivity.
Defined.

(** The new port and protocol are not compared with the other entries: an
    update can leave two entries with the same key. *)
Example update_makes_duplicate :
  let a := service_dict (Build_ServiceInfo "A" 3100 "tcp" "" "") in
  let b := service_dict (Build_ServiceInfo "B" 3200 "tcp" "" "") in
  exists cm',
    update_custom_service 3200 "tcp" (Build_ServiceInfo "B" 3100 "tcp" "" "")
      {| custom_services := [a; b]; save_calls := [] |} = Returns (true, cm') /\
    List.map key_of (custom_services cm') = [Some (3100%Z, "tcp"); Some (3100%Z, "tcp")].
Proof. eexists. split; reflexivity. Qed.

(** X15.  An entry without a port, as a configuration file edited by hand
    can hold it, at the head of the custom services: the scanner passes it
    over, but [add_custom_service], [remove_custom_service] and
    [update_custom_service] raise [KeyError('port')] whatever they are
    called with, and an import of objects adds nothing and still reports
    success. *)
Theorem X15_entry_without_port
    (d : CustomData) (rest : list CustomData) (saved : list (list CustomData)) :
  cd_port d = None ->
  let cm := {| custom_services := d :: rest; save_calls := saved |} in
  get_all_services cm = get_all_services {| custom_services := rest; save_calls := saved |} /\
  (forall service, add_custom_service service cm = KeyError "port") /\
  (forall p pr, remove_custom_service p pr cm = KeyError "port") /\
  (forall p pr new_service, update_custom_service p pr new_service cm = KeyError "port") /\
  (forall file_services,
     import_custom_services (ServiceList (List.map Object file_services)) false cm
     = ((true, 0%nat), cm)).
Proof.
  intros Hp cm.
  assert (Hfind : forall p pr, find_key (custom_services cm) p pr = KeyError "port").
  { intros p pr. cbn [cm custom_services find_key]. unfold has_key. rewrite Hp. reflexivity. }
  split; [|split; [|split; [|split]]].
  - unfold get_all_services, append_custom. cbn [cm custom_services List.fold_left].
    unfold service_of at 2. rewrite Hp. destruct (cd_name d); reflexivity.
  - intros service. unfold add_custom_service. rewrite Hfind. reflexivity.
  - intros p pr. unfold remove_custom_service. rewrite Hfind. reflexivity.
  - intros p pr new_service. unfold update_custom_service. rewrite Hfind. reflexivity.
  - intros file_services. unfold import_custom_services.
    assert (Hloop : forall n, import_entries (List.map Object file_services) (cm, n)
                              = (Some n, cm)).
    { induction file_services as [|sd r IH]; intros n; [reflexivity|].
      cbn [List.map import_entries]. unfold import_one.
      destruct (service_of sd) as [service|]; [|apply IH].
      unfold is_port_in_use. destruct (List.existsb _ COMMON_SERVICES); [apply IH|].
      cbn [cm custom_services custom_in_use]. unfold has_key. rewrite Hp. apply IH. }
    rewrite Hloop. reflexivity.
Qed.

Lemma X15_witness :
  let d := {| cd_name := Some "No port"; cd_port := None; cd_protocol := Some "tcp";
              cd_description := Some ""; cd_access_method := None |} in
  let cm := {| custom_services := [d]; save_calls := [] |} in
  get_all_services cm = get_all_services {| custom_services := []; save_calls := [] |} /\
  (forall service, add_custom_service service cm = KeyError "port") /\
  (forall p pr, remove_custom_service p pr cm = KeyError "port") /\
  (forall p pr new_service, update_custom_service p pr new_service cm = KeyError "port") /\
  (forall file_services,
     import_custom_services (ServiceList (List.map Object file_services)) false cm
     = ((true, 0%nat), cm)).
Proof.
  apply (X15_entry_without_port
           {| cd_name := Some "No port"; cd_port := None; cd_protocol := Some "tcp";
              cd_description := Some ""; cd_access_method := None |} [] []).
  reflexivity.
Defined.

End ConfigFacts.

(** ** From the configuration to the scan *)

Module ConfiguredScanFacts.
Import ServiceFacts.

(** X16.  A custom service that [add_custom_service] has accepted is
    scanned: for a scanner that reads its configuration from this
    manager, the services of Step 3 are the built-in services, the custom
    services there were, and the new one, and Step 3 creates a task with
    the new service for every host. *)
Theorem X16_added_service_is_scanned
    (service : ServiceInfo) (cm cm' : ConfigManager.ConfigManager)
    (scan_threads discovery_threads : Z) (s : Scanner) (hosts : list Host) :
  ConfigManager.well_keyed (ConfigManager.custom_services cm) = true ->
  ConfigManager.add_custom_service service cm = ConfigManager.Returns (true, cm') ->
  config_manager s = Some (ConfigManager.config_of scan_threads discovery_threads cm') ->
  services_to_scan s = ConfigManager.get_all_services cm' /\
  services_to_scan s =
    (COMMON_SERVICES ++ ConfigManager.get_custom_services cm ++ [service])%list /\
  List.length (all_scan_tasks hosts (services_to_scan s)) =
    (List.length hosts * (34 + List.length (ConfigManager.get_custom_services cm)))%nat /\
  forall h, In h hosts -> In (host_ip h, service) (all_scan_tasks hosts (services_to_scan s)).
Proof.
  intros Hk Hadd Hcfg.
  assert (Hl : ConfigManager.custom_services cm' =
               (ConfigManager.custom_services cm ++ [ConfigManager.service_dict service])%list).
  { rewrite (ConfigFacts.add_fresh service cm Hk) in Hadd.
    - injection Hadd as <-. reflexivity.
    - intros Hin. unfold ConfigManager.add_custom_service in Hadd.
      destruct (ConfigFacts.find_key_spec (ConfigManager.custom_services cm)
                  (port service) (protocol service) Hk)
        as [(l1 & d & l2 & Hf & _)|[Hf Hnone]]; rewrite Hf in Hadd;
        [discriminate | exact (Hnone Hin)]. }
  assert (Hcustom : ConfigManager.get_custom_services cm' =
                    (ConfigManager.get_custom_services cm ++ [service])%list).
  { unfold ConfigManager.get_custom_services. rewrite Hl, !ConfigFacts.append_custom_spec.
    rewrite flat_map_app. cbn [List.flat_map].
    rewrite ConfigFacts.service_of_dict, app_nil_r. reflexivity. }
  assert (Hs : services_to_scan s =
               (COMMON_SERVICES ++ ConfigManager.get_custom_services cm ++ [service])%list).
  { unfold services_to_scan. rewrite Hcfg. unfold get_all_services.
    cbn [ConfigManager.config_of cfg_custom_services]. rewrite Hcustom. reflexivity. }
  split; [|split; [exact Hs|split]].
  - rewrite Hs. unfold ConfigManager.get_all_services.
    rewrite ConfigFacts.append_custom_spec, Hl, flat_map_app. cbn [List.flat_map].
    rewrite ConfigFacts.service_of_dict, app_nil_r.
    unfold ConfigManager.get_custom_services. rewrite ConfigFacts.append_custom_spec.
    reflexivity.
  - rewrite all_scan_tasks_length, Hs, !length_app. cbn [List.length].
    change (List.length COMMON_SERVICES) with 33%nat. f_equal. lia.
  - intros h Hh. unfold all_scan_tasks. apply List.in_flat_map. exists h.
    split; [exact Hh|]. apply List.in_map. rewrite Hs.
    apply in_or_app. right. apply in_or_app. right. left. reflexivity.
Qed.

Lemma X16_witness :
  let service := Build_ServiceInfo "Grafana" 3100 "tcp" "Dashboards" "http" in
  let cm := {| ConfigManager.custom_services := []; ConfigManager.save_calls := [] |} in
  let cm' := {| ConfigManager.custom_services := [ConfigManager.service_dict service];
                ConfigManager.save_calls := [[ConfigManager.service_dict service]] |} in
  let s := new_scanner (Some (ConfigManager.config_of 130 130 cm')) in
  let hosts := [ {| host_ip := "10.0.0.1"; host_mac := ""; host_vendor := "" |} ] in
  services_to_scan s = ConfigManager.get_all_services cm' /\
  services_to_scan s =
    (COMMON_SERVICES ++ ConfigManager.get_custom_services cm ++ [service])%list /\
  List.length (all_scan_tasks hosts (services_to_scan s)) =
    (List.length hosts * (34 + List.length (ConfigManager.get_custom_services cm)))%nat /\
  forall h, In h hosts -> In (host_ip h, service) (all_scan_tasks hosts (services_to_scan s)).
Proof.
  apply (X16_added_service_is_scanned
           (Build_ServiceInfo "Grafana" 3100 "tcp" "Dashboards" "http")
           {| ConfigManager.custom_services := []; ConfigManager.save_calls := [] |}
           _ 130 130); reflexivity.
Defined.

End ConfiguredScanFacts.

(** ** What a completed scan returns *)

Module CompletedFacts.
Import Frame MonadFacts FrameFacts HoareFacts RunningFacts ScanFacts OrderFacts ServiceFacts.
Import Observe Scenario.

Lemma fold_left_fst {A T} (g : T -> A -> T) (l : list A) : forall (a : T) (n : nat),
  fst (List.fold_left (fun (st : T * nat) x => (g (fst st) x, S (snd st))) l (a, n))
  = List.fold_left g l a.
Proof. induction l as [|x l IH]; intros a n; [reflexivity | apply IH]. Qed.

Lemma hoare_weaken_fail {A} (P : Scanner -> Prop) (m : M A) Q F :
  hoare P m Q F -> hoare P m Q (fun _ _ => True).
Proof. intros H. eapply hoare_conseq; [exact H | auto | auto | auto]. Qed.

(** A computation that leaves [results] and the settings alone keeps an
    empty [results] and the configuration. *)
Lemma hoare_keep {A} (m : M A) (P : Scanner -> Prop) Q F (s0 : Scanner) :
  hoare P m Q F -> respects same_results m -> respects same_settings m ->
  hoare (fun s => P s /\ results s = [] /\ config_manager s = config_manager s0) m
    (fun a s' => Q a s' /\ results s' = [] /\ config_manager s' = config_manager s0)
    (fun _ _ => True).
Proof.
  intros H Hr Hc s (HP & Hres & Hcfg).
  specialize (H s HP). specialize (Hr s). specialize (Hc s).
  unfold same_results, same_settings in *.
  destruct (m s) as [[a|e] s']; simpl in *; [|exact I].
  destruct Hc as (Hc & _). split; [exact H|]. split; congruence.
Qed.

Section Completed.
Context (w : World).
Hypothesis Hw : stop_at w = None.

(** Step 2, when nobody cancels, returns the hostname of every host. *)
Lemma resolve_hostnames_value hosts :
  hoare running (resolve_hostnames w hosts)
    (fun hn s' => hn = hostnames_resolved w hosts /\ running s') (fun _ _ => True).
Proof using Hw.
  unfold resolve_hostnames. cbv zeta.
  eapply hoare_bind;
    [apply hoare_weaken_fail with (1 := running_update_progress w Hw PResolving) | intros ?].
  eapply hoare_bind with (mid := fun _ s' => running s');
    [apply hoare_get_state; auto | intros s0].
  eapply hoare_bind;
    [apply hoare_weaken_fail with (1 := running_executor _) | intros ?].
  eapply hoare_bind;
    [apply hoare_weaken_fail with (1 := running_submit_all w Hw _ _) | intros ?].
  eapply hoare_bind.
  - apply hoare_for_each_fold with
      (I := running)
      (f := fun (st : gmap string string * nat) ip => (hostname_step w (fst st) ip, S (snd st))).
    intros ip [hr c].
    eapply hoare_bind_eq with (a0 := false) (mid := running);
      [apply stop_requested_running, Hw|].
    cbv iota.
    eapply hoare_bind;
      [apply hoare_weaken_fail with (1 := running_update_progress w Hw _) | intros ?].
    apply hoare_ret. intros s Hs. split; [reflexivity | exact Hs].
  - intros r. apply hoare_ret. intros s [-> Hs]. split; [|exact Hs].
    apply fold_left_fst.
Qed.

(** The loop of Step 3, when nobody cancels, consumes every result. *)
Lemma collect_port_results_value tasks total sr0 :
  hoare running (collect_port_results w tasks total sr0)
    (fun r s' =>
       fst r = List.fold_left (port_step w)
                 (as_completed (fun t => check_port_rank w (fst t) (snd t)) tasks) sr0 /\
       running s')
    (fun _ _ => True).
Proof using Hw.
  unfold collect_port_results.
  eapply hoare_conseq.
  - apply hoare_for_each_fold with
      (I := running)
      (f := fun (st : gmap string (list ServiceInfo) * nat) t =>
              (port_step w (fst st) t, S (snd st)))
      (fail := fun _ _ => True).
    intros [ip service] [sr c].
    eapply hoare_bind_eq with (a0 := false) (mid := running);
      [apply stop_requested_running, Hw|].
    cbv iota zeta.
    eapply hoare_bind with (mid := fun _ s' => running s').
    + destruct (_ || _).
      * apply hoare_weaken_fail with (1 := running_update_progress w Hw _).
      * apply hoare_ret. auto.
    + intros ?. apply hoare_ret. intros s Hs. split; [reflexivity | exact Hs].
  - auto.
  - intros r s [-> Hs]. split; [apply fold_left_fst | exact Hs].
  - auto.
Qed.

Lemma scan_services_settings tc hosts : respects same_settings (scan_services w tc hosts).
Proof using Type. frame_by respects_scan_services. Qed.

Lemma combine_results_settings hosts hn sr :
  respects same_settings (combine_results w hosts hn sr).
Proof using Type. frame_by respects_combine_results. Qed.

(** Step 3, when nobody cancels, returns the services whose port check
    succeeded. *)
Lemma scan_services_value tc hosts s0 :
  hoare (fun s => running s /\ config_manager s = config_manager s0) (scan_services w tc hosts)
    (fun sr s' => sr = port_scanned w hosts (services_to_scan s0) /\ running s')
    (fun _ _ => True).
Proof using Hw.
  unfold scan_services.
  eapply hoare_bind with
    (mid := fun _ s' => running s' /\ config_manager s' = config_manager s0).
  { intros s [Hr Hc].
    pose proof (running_update_progress w Hw PScanningServices s Hr) as Hr'.
    pose proof (update_progress_settings w PScanningServices s) as (Hc' & _).
    destruct (_update_progress w PScanningServices s) as [[[]|e] s']; [|exact I].
    simpl in *. split; [exact Hr' | congruence]. }
  intros ?.
  eapply hoare_bind with
    (mid := fun s1 s' => running s' /\ config_manager s1 = config_manager s0);
    [apply hoare_get_state; auto | intros s1].
  cbv zeta.
  eapply hoare_conseq with
    (pre := fun s => config_manager s1 = config_manager s0 /\ running s)
    (post := fun sr s' => sr = port_scanned w hosts (services_to_scan s0) /\ running s')
    (fail := fun _ _ => True); [|intros s [H1 H2]; auto | auto | auto].
  intros s [Hcfg Hr]. revert s Hr.
  change (hoare running
            (_update_progress w
               (PStartingPortScan
                  (List.length (all_scan_tasks hosts (services_to_scan s1))) tc) ;;
             ThreadPoolExecutor tc ;;
             submit_all w (fun t => ECheckPort (fst t) (snd t))
               (all_scan_tasks hosts (services_to_scan s1)) ;;
             r <- collect_port_results w (all_scan_tasks hosts (services_to_scan s1))
                    (List.length (all_scan_tasks hosts (services_to_scan s1)))
                    (empty_service_results hosts) ;;
             ret (fst r))
            (fun sr s' => sr = port_scanned w hosts (services_to_scan s0) /\ running s')
            (fun _ _ => True)).
  assert (Hs : services_to_scan s1 = services_to_scan s0)
    by (unfold services_to_scan; rewrite Hcfg; reflexivity).
  rewrite Hs.
  eapply hoare_bind;
    [apply hoare_weaken_fail with (1 := running_update_progress w Hw _) | intros ?].
  eapply hoare_bind;
    [apply hoare_weaken_fail with (1 := running_executor _) | intros ?].
  eapply hoare_bind;
    [apply hoare_weaken_fail with (1 := running_submit_all w Hw _ _) | intros ?].
  eapply hoare_bind; [apply collect_port_results_value | intros r].
  apply hoare_ret. intros s [H1 H2]. split; [exact H1 | exact H2].
Qed.

(** Steps 2 to 4, when nobody cancels: one result per host, built from
    the hostnames and the services of the two loops. *)
Lemma scan_hosts_value tc hosts s0 :
  hoare (fun s => running s /\ results s = [] /\ config_manager s = config_manager s0)
    (scan_hosts w tc hosts)
    (fun l _ => l = List.map (scan_result_of w (hostnames_resolved w hosts)
                                (port_scanned w hosts (services_to_scan s0))) hosts)
    (fun _ _ => True).
Proof using Hw.
  unfold scan_hosts. destruct hosts as [|h hosts].
  - eapply hoare_bind with (mid := fun _ s' => results s' = []).
    + intros s (_ & Hres & _). pose proof (update_progress_results w PNoHosts s) as Hr.
      unfold same_results in Hr.
      destruct (_update_progress w PNoHosts s) as [[[]|e] s']; [|exact I].
      simpl in Hr. congruence.
    + intros ? s Hres. exact Hres.
  - set (hosts' := h :: hosts).
    eapply hoare_bind_eq with
      (a0 := hostnames_resolved w hosts')
      (mid := fun s => running s /\ results s = [] /\ config_manager s = config_manager s0).
    { eapply hoare_conseq;
        [apply (hoare_keep _ _ _ _ s0 (resolve_hostnames_value hosts')
                  (resolve_hostnames_results w hosts') (resolve_hostnames_settings w hosts'))
        | auto | intros ? ? ((H1 & H2) & H3 & H4); auto | auto]. }
    eapply hoare_bind_eq with
      (a0 := port_scanned w hosts' (services_to_scan s0))
      (mid := fun s => running s /\ results s = [] /\ config_manager s = config_manager s0).
    { eapply hoare_conseq;
        [apply (hoare_keep _ _ _ _ s0 (scan_services_value tc hosts' s0)
                  (scan_services_results w tc hosts') (scan_services_settings tc hosts'))
        | intros s (H1 & H2 & H3); auto | intros ? ? ((H1 & H2) & H3 & H4); auto | auto]. }
    eapply hoare_bind with (mid := fun _ s => running s /\ results s = []).
    { eapply hoare_conseq;
        [apply (hoare_keep _ _ _ _ s0 (running_update_progress w Hw PFinalizing)
                  (update_progress_results w PFinalizing)
                  (update_progress_settings w PFinalizing))
        | auto | intros ? ? (H1 & H2 & H3); auto | auto]. }
    intros ?.
    eapply hoare_bind.
    { apply hoare_weaken_fail with
        (1 := combine_results_running w Hw hosts' (hostnames_resolved w hosts')
                (port_scanned w hosts' (services_to_scan s0)) []). }
    intros ?. cbn [app].
    eapply hoare_bind with
      (mid := fun _ s' =>
                results s' = List.map (scan_result_of w (hostnames_resolved w hosts')
                                         (port_scanned w hosts' (services_to_scan s0))) hosts').
    + intros s (_ & Hres). pose proof (update_progress_results w PCompleted s) as Hr.
      unfold same_results in Hr.
      destruct (_update_progress w PCompleted s) as [[[]|e] s']; [|exact I].
      simpl in Hr. congruence.
    + intros ? s Hres. exact Hres.
Qed.

(** The whole [try] block, when nobody cancels. *)
Lemma scan_network_try_value tc range s0 :
  hoare (fun s => running s /\ results s = [] /\ config_manager s = config_manager s0)
    (scan_network_try w tc range)
    (fun l _ => exists hosts,
       l = List.map (scan_result_of w (hostnames_resolved w hosts)
                       (port_scanned w hosts (services_to_scan s0))) hosts)
    (fun _ _ => True).
Proof using Hw.
  unfold scan_network_try.
  eapply hoare_bind with
    (mid := fun _ s => running s /\ results s = [] /\ config_manager s = config_manager s0).
  { eapply hoare_conseq;
      [apply (hoare_keep _ _ _ _ s0 (running_update_progress w Hw PScanningLive)
                (update_progress_results w PScanningLive)
                (update_progress_settings w PScanningLive))
      | auto | auto | auto]. }
  intros ?.
  eapply hoare_bind with
    (mid := fun _ s => running s /\ results s = [] /\ config_manager s = config_manager s0).
  { eapply hoare_conseq;
      [apply (hoare_keep _ _ _ _ s0 (discover_hosts_running w Hw range)
                (discover_hosts_results w range) (discover_hosts_settings w range))
      | auto | intros ? ? ((H1 & H2) & H3 & H4); auto | auto]. }
  intros hosts.
  eapply hoare_conseq; [apply (scan_hosts_value tc hosts s0) | auto | | auto].
  intros l s ->. exists hosts. reflexivity.
Qed.

(** What the two loops have computed for a host. *)
Lemma hostname_fold_other ips ip : forall m : gmap string string,
  ~ In ip ips -> List.fold_left (hostname_step w) ips m !! ip = m !! ip.
Proof using Type.
  induction ips as [|x ips IH]; intros m Hin; cbn [List.fold_left]; [reflexivity|].
  rewrite IH by (intros H; apply Hin; right; exact H).
  unfold hostname_step. apply lookup_insert_ne. intros ->. apply Hin. left. reflexivity.
Qed.

Lemma hostname_fold_lookup ips ip : forall m : gmap string string,
  In ip ips -> List.fold_left (hostname_step w) ips m !! ip = Some (get_hostname w ip).
Proof using Type.
  induction ips as [|x ips IH]; intros m Hin; [destruct Hin|]. cbn [List.fold_left].
  destruct (in_dec string_dec ip ips) as [Hi|Hn]; [apply IH, Hi|].
  destruct Hin as [->|Hi]; [|contradiction].
  rewrite hostname_fold_other by exact Hn. unfold hostname_step. apply lookup_insert_eq.
Qed.

Lemma hostnames_resolved_lookup hosts ip :
  In ip (List.map host_ip hosts) ->
  hostnames_resolved w hosts !! ip = Some (get_hostname w ip).
Proof using Type.
  intros Hin. unfold hostnames_resolved. apply hostname_fold_lookup.
  apply (Permutation_in _ (Permutation_sym (as_completed_perm _ _)) Hin).
Qed.

Lemma empty_service_results_lookup hosts ip :
  In ip (List.map host_ip hosts) -> empty_service_results hosts !! ip = Some [].
Proof using Type.
  unfold empty_service_results.
  enough (H : forall m : gmap string (list ServiceInfo),
            (m !! ip = None \/ m !! ip = Some []) ->
            In ip (List.map host_ip hosts) \/ m !! ip = Some [] ->
            List.fold_left (fun m host => <[host_ip host := []]> m) hosts m !! ip = Some []).
  { intros Hin. apply H; [left; apply lookup_empty | left; exact Hin]. }
  induction hosts as [|h hosts IH]; intros m Hm Hin; cbn [List.fold_left List.map] in *.
  - destruct Hin as [[]|Hin]; exact Hin.
  - destruct (decide (host_ip h = ip)) as [<-|Hne].
    + apply IH; [right; apply lookup_insert_eq | right; apply lookup_insert_eq].
    + apply IH; [rewrite lookup_insert_ne by exact Hne; exact Hm|].
      destruct Hin as [[H|H]|H]; [congruence | left; exact H|].
      right. rewrite lookup_insert_ne by exact Hne. exact H.
Qed.

Lemma port_fold_lookup tasks ip : forall sr : gmap string (list ServiceInfo),
  List.fold_left (port_step w) tasks sr !! ip =
  match sr !! ip with
  | Some found =>
      Some (found ++ List.map snd
                       (List.filter (fun t => String.eqb (fst t) ip
                                              && check_port_socket w (fst t) (snd t)) tasks))%list
  | None => None
  end.
Proof using Type.
  induction tasks as [|[ip' svc] tasks IH]; intros sr; cbn [List.fold_left List.filter].
  - destruct (sr !! ip); [rewrite app_nil_r|]; reflexivity.
  - rewrite IH. unfold port_step. cbn [fst snd].
    destruct (String.eqb_spec ip' ip) as [->|Hne].
    + destruct (check_port_socket w ip svc); cbn [andb]; [|reflexivity].
      destruct (sr !! ip) as [found|] eqn:Hf.
      * rewrite lookup_insert_eq. cbn [List.map]. rewrite <- app_assoc. reflexivity.
      * rewrite Hf. reflexivity.
    + cbn [andb]. destruct (check_port_socket w ip' svc); [|reflexivity].
      destruct (sr !! ip') as [found|]; [|reflexivity].
      rewrite lookup_insert_ne by exact Hne. reflexivity.
Qed.

(** The services listed for a host: the services to scan whose port
    check succeeded. *)
Lemma port_scanned_services hosts svcs ip service :
  In ip (List.map host_ip hosts) ->
  In service (default [] (port_scanned w hosts svcs !! ip)) <->
  In service svcs /\ check_port_socket w ip service = true.
Proof using Type.
  intros Hin. unfold port_scanned.
  rewrite port_fold_lookup, (empty_service_results_lookup hosts ip Hin).
  unfold default. cbn [from_option id app]. rewrite List.in_map_iff. split.
  - intros ([ip' svc] & <- & Ht). apply List.filter_In in Ht as [Ht Hc].
    cbn [fst snd] in *. apply andb_true_iff in Hc as [Heq Hc].
    apply String.eqb_eq in Heq. subst ip'.
    apply (Permutation_in _ (as_completed_perm _ _)) in Ht.
    unfold all_scan_tasks in Ht. apply List.in_flat_map in Ht as (h & _ & Ht).
    apply List.in_map_iff in Ht as (svc' & [= _ <-] & Hs). split; assumption.
  - intros [Hs Hc]. exists (ip, service). split; [reflexivity|].
    apply List.filter_In. cbn [fst snd]. rewrite String.eqb_refl, Hc.
    split; [|reflexivity].
    apply (Permutation_in _ (Permutation_sym (as_completed_perm _ _))).
    apply List.in_map_iff in Hin as (h & <- & Hh).
    unfold all_scan_tasks. apply List.in_flat_map. exists h. split; [exact Hh|].
    apply List.in_map. exact Hs.
Qed.

End Completed.

(** X17.  What a scan that nobody cancels and that reports no failure
    returns for each host: the services listed are exactly the services
    to scan whose port check succeeded on that host; the hostname is the
    resolved one, passed through [_enhance_hostname] with those services;
    the response time is zero and the host is marked alive. *)
Theorem X17_results_of_completed_scan (w : World) (network_range : string) (s : Scanner) :
  stop_at w = None ->
  failed (since (log s) (log (snd (scan_network w network_range s)))) = false ->
  exists scan_results,
    fst (scan_network w network_range s) = Ok scan_results /\
    Forall (fun r =>
              (forall service,
                 In service (services r) <->
                 In service (services_to_scan s) /\
                 check_port_socket w (ip r) service = true) /\
              hostname r = _enhance_hostname w (ip r) (get_hostname w (ip r)) (services r) /\
              response_time r == 0 /\ is_alive r = true)
      scan_results.
Proof.
  intros Hw Hfail.
  pose proof (scan_network_cases w network_range s) as Hcases.
  assert (Hcfg : config_manager (scan_network_begin s) = config_manager s).
  { unfold scan_network_begin. destruct (config_manager s) eqn:E; [|exact E].
    cbn [set_results set_stop set_threads config_manager]. exact E. }
  pose proof (scan_network_try_value w Hw (scan_threads (scan_network_begin s)) network_range
                s (scan_network_begin s)
                (conj (begin_running s) (conj (begin_results s) Hcfg))) as Hval.
  destruct (scan_network_try w _ network_range (scan_network_begin s)) as [[l|e] s1].
  - destruct Hcases as [Hscan _]. destruct Hval as (hosts & ->).
    rewrite Hscan. eexists. split; [reflexivity|].
    apply List.Forall_forall. intros r Hr.
    apply List.in_map_iff in Hr as (h & <- & Hh).
    assert (Hip : In (host_ip h) (List.map host_ip hosts)) by (apply List.in_map, Hh).
    unfold scan_result_of.
    cbn [services hostname ip response_time is_alive].
    split; [intros service; apply port_scanned_services; exact Hip|].
    rewrite (hostnames_resolved_lookup w hosts (host_ip h) Hip).
    split; [reflexivity|]. split; reflexivity.
  - destruct Hcases as (s2 & Hscan & _ & _ & Hf). rewrite Hscan in Hfail.
    simpl in Hfail. congruence.
Qed.

Lemma X17_witness :
  exists scan_results,
    fst (scan_network two_hosts "10.0.0.1-2" (new_scanner None)) = Ok scan_results /\
    Forall (fun r =>
              (forall service,
                 In service (services r) <->
                 In service (services_to_scan (new_scanner None)) /\
                 check_port_socket two_hosts (ip r) service = true) /\
              hostname r = _enhance_hostname two_hosts (ip r)
                             (get_hostname two_hosts (ip r)) (services r) /\
              response_time r == 0 /\ is_alive r = true)
      scan_results.
Proof.
  apply (X17_results_of_completed_scan two_hosts "10.0.0.1-2" (new_scanner None)).
  - reflexivity.
  - vm_compute. reflexivity.
Defined.

End CompletedFacts.

(** ** Vendors *)

Module VendorFacts.
Import PyStr Observe Scenario.

Section Vendors.
Context (w : World).

(** The lookup in the OUI file, from a scanner that agrees with the file:
    the vendor of the file, and the scanner still agrees. *)
Lemma get_vendor_ieee_oui_value mac s :
  vendors_agree w s ->
  exists s',
    _get_vendor_ieee_oui w mac s = (Ok (vendor_of w mac), s') /\
    vendor_cache s' = vendor_cache s /\
    vendors_agree w s'.
Proof.
  intros (Ha & Hd & Hc).
  unfold vendors_agree, vendor_of in *.
  unfold _get_vendor_ieee_oui, _load_ieee_oui_file, bind, get_state, modify, ret, emit.
  fold (oui_table).
  destruct (oui_file w) as [| |lines] eqn:Hf;
    destruct Ha as [Ha|Ha]; destruct Hd as [Hd|Hd];
    destruct (bool_decide _);
    repeat (progress (cbn; rewrite ?Ha, ?Hd, ?Hf));
    eexists; (split; [reflexivity|]); cbn; (split; [reflexivity|]);
    rewrite ?Ha, ?Hd, ?Hf; auto.
Qed.

End Vendors.

(** X18.  The vendor that [_get_vendor] returns is a function of the OUI
    file and of the first six hexadecimal digits of the MAC address: from
    a scanner that agrees with the file -- a new scanner does, and
    [_get_vendor] leaves one that does -- every call, cached or not,
    returns the entry of the file for these digits, and ["Unknown"] when
    the file has none, is missing or cannot be read. *)
Theorem X18_vendor_is_the_entry_of_the_file (w : World) (mac : string) (s : Scanner) :
  vendors_agree w s ->
  exists s',
    _get_vendor w mac s = (Ok (vendor_of w mac), s') /\
    vendors_agree w s' /\
    vendor_cache s' !! normalize_mac mac = Some (vendor_of w mac).
Proof.
  intros Hs. pose proof Hs as (Ha & Hd & Hc).
  unfold _get_vendor. unfold bind at 1. unfold get_state at 1.
  destruct (vendor_cache s !! normalize_mac mac) as [cached|] eqn:Hhit.
  - exists s. rewrite (Hc mac cached Hhit). split; [reflexivity|]. split; [exact Hs|].
    rewrite Hhit. f_equal. apply (Hc mac cached Hhit).
  - destruct (get_vendor_ieee_oui_value w mac s Hs) as (s1 & Hrun & Hcache & Ha1 & Hd1 & Hc1).
    unfold try_except, bind. rewrite Hrun.
    assert (Hnew : forall s2,
              _ieee_oui_available s2 = _ieee_oui_available s1 ->
              _oui_database s2 = _oui_database s1 ->
              vendor_cache s2 = <[normalize_mac mac := vendor_of w mac]> (vendor_cache s1) ->
              vendors_agree w s2 /\
              vendor_cache s2 !! normalize_mac mac = Some (vendor_of w mac)).
    { intros s2 E1 E2 E3. unfold vendors_agree. rewrite E1, E2, E3.
      split; [|apply lookup_insert_eq]. split; [exact Ha1|]. split; [exact Hd1|].
      intros mac' vendor'.
      destruct (decide (normalize_mac mac = normalize_mac mac')) as [Heq|Hne].
      - rewrite <- Heq, lookup_insert_eq. intros [= <-].
        unfold vendor_of. rewrite Heq. reflexivity.
      - rewrite lookup_insert_ne by exact Hne. apply Hc1. }
    destruct (negb (String.eqb (vendor_of w mac) "")
              && negb (String.eqb (vendor_of w mac) "Unknown"));
      cbn [modify ret]; eexists; (split; [reflexivity|]); apply Hnew; reflexivity.
Qed.

Lemma X18_witness :
  exists s',
    _get_vendor with_oui_file "aa:bb:cc:dd:ee:ff" (new_scanner None)
      = (Ok (vendor_of with_oui_file "aa:bb:cc:dd:ee:ff"), s') /\
    vendors_agree with_oui_file s' /\
    vendor_cache s' !! normalize_mac "aa:bb:cc:dd:ee:ff"
      = Some (vendor_of with_oui_file "aa:bb:cc:dd:ee:ff").
Proof.
  apply (X18_vendor_is_the_entry_of_the_file with_oui_file "aa:bb:cc:dd:ee:ff"
           (new_scanner None)).
  unfold vendors_agree. simpl. split; [left; reflexivity|]. split; [left; reflexivity|].
  intros mac vendor H. rewrite lookup_empty in H. discriminate.
Defined.

(** The three kinds of file, on the address of the witness. *)
Example vendor_of_three_files :
  vendor_of with_oui_file "aa:bb:cc:dd:ee:ff" = "Acme Corp" /\
  vendor_of with_oui_file "aa:bb:cd:dd:ee:ff" = "Unknown" /\
  vendor_of two_hosts "aa:bb:cc:dd:ee:ff" = "Unknown".
Proof. repeat split; vm_compute; reflexivity. Qed.

(** *** The lines of the OUI file *)

Lemma append_assoc_local (a b c : string) : (a ++ b) ++ c = a ++ (b ++ c).
Proof. apply PyStrFacts.append_assoc. Qed.

Lemma hex_not_space c : is_hex_upper (upper_char c) = true -> is_space c = false.
Proof.
  destruct c as [[] [] [] [] [] [] [] []]; intros H; try reflexivity; discriminate H.
Qed.

Lemma hex_not_hash c : is_hex_upper (upper_char c) = true -> Ascii.eqb "#" c = false.
Proof.
  destruct c as [[] [] [] [] [] [] [] []]; intros H; try reflexivity; discriminate H.
Qed.

Lemma all_hex_no_space s c :
  all_hex_upper (upper s) = true -> contains c s = true -> is_space c = false.
Proof.
  induction s as [|x r IH]; [discriminate|]. cbn [upper all_hex_upper contains].
  intros H. apply andb_true_iff in H as [Hx Hr].
  destruct (Ascii.eqb_spec x c) as [<-|_]; [intros _; apply hex_not_space, Hx | apply IH, Hr].
Qed.

Lemma take_word_app a rest :
  (forall c, contains c a = true -> is_space c = false) ->
  match rest with String c _ => is_space c = true | EmptyString => True end ->
  take_word (a ++ rest) = a /\ drop_word (a ++ rest) = rest.
Proof.
  induction a as [|x a IH]; intros Ha Hrest.
  - change ("" ++ rest) with rest. destruct rest as [|c r]; [split; reflexivity|].
    cbn [take_word drop_word]. rewrite Hrest. split; reflexivity.
  - change (String x a ++ rest) with (String x (a ++ rest)). cbn [take_word drop_word].
    rewrite (Ha x) by (cbn [contains]; rewrite Ascii.eqb_refl; reflexivity).
    destruct IH as [-> ->]; [|exact Hrest|split; reflexivity].
    intros c Hc. apply Ha. cbn [contains]. rewrite Hc. destruct (Ascii.eqb x c); reflexivity.
Qed.

Lemma lstrip_all_space sep v : all_space sep = true -> lstrip (sep ++ v) = lstrip v.
Proof.
  induction sep as [|c sep IH]; [reflexivity|]. cbn [all_space].
  intros H. apply andb_true_iff in H as [Hc Hs].
  change (String c sep ++ v) with (String c (sep ++ v)). cbn [lstrip]. rewrite Hc. apply IH, Hs.
Qed.

Lemma length_rstrip s : (String.length (rstrip s) <= String.length s)%nat.
Proof.
  induction s as [|x r IH]; [reflexivity|]. cbn [rstrip].
  destruct (rstrip r) as [|y r'].
  - destruct (is_space x); cbn [String.length]; lia.
  - cbn [String.length] in *. lia.
Qed.

Lemma length_lstrip s : (String.length (lstrip s) <= String.length s)%nat.
Proof.
  induction s as [|x r IH]; [reflexivity|]. cbn [lstrip].
  destruct (is_space x); cbn [String.length]; lia.
Qed.

(** A text that [strip] leaves as it is has no white space at its ends. *)
Lemma strip_fixed v :
  strip v = v -> lstrip v = v /\ rstrip v = v.
Proof.
  intros H. unfold strip in H.
  assert (Hl : lstrip v = v).
  { destruct v as [|c r]; [reflexivity|]. cbn [lstrip] in *.
    destruct (is_space c); [|reflexivity]. exfalso.
    pose proof (length_rstrip (lstrip r)) as H1. pose proof (length_lstrip r) as H2.
    rewrite H in H1. cbn [String.length] in H1. lia. }
  rewrite Hl in H. split; assumption.
Qed.

Lemma rstrip_app x v : rstrip v = v -> v <> "" -> rstrip (x ++ v) = x ++ v.
Proof.
  intros Hv Hne. induction x as [|c x IH]; [exact Hv|].
  change (String c x ++ v) with (String c (x ++ v)). cbn [rstrip]. rewrite IH.
  destruct (x ++ v) as [|y r] eqn:E; [|reflexivity].
  exfalso. destruct x as [|a x']; [change (v = "") in E; congruence|].
  change (String a (x' ++ v) = "") in E. discriminate E.
Qed.

(** One well-formed line of the file. *)
Lemma load_oui_line_entry db oui_hex sep vendor_name :
  (6 <=? String.length oui_hex)%nat && all_hex_upper (upper oui_hex) = true ->
  sep <> "" -> all_space sep = true ->
  vendor_name <> "" -> strip vendor_name = vendor_name ->
  load_oui_line db (oui_hex ++ sep ++ vendor_name)
  = <[take 6 (upper oui_hex) := vendor_name]> db.
Proof.
  intros Houi Hsep Hspace Hv Hstrip.
  pose proof Houi as Houi'. apply andb_true_iff in Houi' as [Hlen Hhex].
  destruct (strip_fixed vendor_name Hstrip) as [Hlv Hrv].
  assert (Hnospace : forall c, contains c oui_hex = true -> is_space c = false)
    by (intros c; apply all_hex_no_space, Hhex).
  destruct oui_hex as [|x oui] eqn:Eo; [discriminate|]. rewrite <- Eo in *.
  assert (Hx : is_hex_upper (upper_char x) = true).
  { rewrite Eo in Hhex. cbn [upper all_hex_upper] in Hhex.
    apply andb_true_iff in Hhex as [H _]. exact H. }
  assert (Hline : strip (oui_hex ++ sep ++ vendor_name) = oui_hex ++ sep ++ vendor_name).
  { unfold strip.
    assert (Hl : lstrip (oui_hex ++ sep ++ vendor_name) = oui_hex ++ sep ++ vendor_name).
    { rewrite Eo. change (String x oui ++ sep ++ vendor_name)
        with (String x (oui ++ sep ++ vendor_name)).
      cbn [lstrip]. rewrite (hex_not_space x Hx). reflexivity. }
    rewrite Hl. rewrite <- append_assoc_local. apply rstrip_app; assumption. }
  unfold load_oui_line. rewrite Hline.
  assert (Hfirst : oui_hex ++ sep ++ vendor_name = String x (oui ++ sep ++ vendor_name))
    by (rewrite Eo; reflexivity).
  replace (String.eqb (oui_hex ++ sep ++ vendor_name) "") with false
    by (rewrite Hfirst; reflexivity).
  replace (startswith "#" (oui_hex ++ sep ++ vendor_name)) with false
    by (rewrite Hfirst; cbn [startswith]; rewrite (hex_not_hash x Hx); reflexivity).
  cbn [orb]. unfold split_whitespace_once.
  destruct (take_word_app oui_hex (sep ++ vendor_name) Hnospace) as [Htake Hdrop].
  { destruct sep as [|c sep']; [congruence|]. cbn [all_space] in Hspace.
    apply andb_true_iff in Hspace as [Hc _]. exact Hc. }
  rewrite Htake, Hdrop, (lstrip_all_space sep vendor_name Hspace), Hlv.
  rewrite Hfirst at 1.
  destruct vendor_name as [|v0 vr] eqn:Ev; [congruence|]. rewrite <- Ev in *.
  rewrite Hstrip.
  assert (Hso : strip oui_hex = oui_hex).
  { unfold strip.
    assert (Hlo : lstrip oui_hex = oui_hex).
    { rewrite Eo. cbn [lstrip]. rewrite (hex_not_space x Hx). reflexivity. }
    rewrite Hlo. clear - Hnospace. induction oui_hex as [|c r IH]; [reflexivity|].
    cbn [rstrip]. rewrite IH.
    - destruct r; [|reflexivity].
      rewrite (Hnospace c); [reflexivity|]. cbn [contains]. rewrite Ascii.eqb_refl. reflexivity.
    - intros c' Hc'. apply Hnospace. cbn [contains]. rewrite Hc'.
      destruct (Ascii.eqb c c'); reflexivity. }
  rewrite Hso, Houi. reflexivity.
Qed.

Lemma oui_table_snoc lines line :
  oui_table (lines ++ [line]) = load_oui_line (oui_table lines) line.
Proof. unfold oui_table. rewrite fold_left_app. reflexivity. Qed.

Lemma lstrip_blank blank : all_space blank = true -> lstrip blank = "".
Proof.
  induction blank as [|c r IH]; [reflexivity|]. cbn [all_space lstrip].
  intros H. apply andb_true_iff in H as [-> Hr]. apply IH, Hr.
Qed.

(** X19.  The OUI file, line by line.  A line that holds a prefix of six
    or more hexadecimal digits, white space, and a vendor name enters the
    name under the first six digits of the prefix, in upper case; it
    replaces what an earlier line had entered under them and touches no
    other entry.  Comment lines and blank lines enter nothing. *)
Theorem X19_oui_file_line_by_line
    (lines : list string) (oui_hex sep vendor_name : string) :
  (6 <=? String.length oui_hex)%nat && all_hex_upper (upper oui_hex) = true ->
  sep <> "" -> all_space sep = true ->
  vendor_name <> "" -> strip vendor_name = vendor_name ->
  let line := oui_hex ++ sep ++ vendor_name in
  let key := take 6 (upper oui_hex) in
  oui_table (lines ++ [line]) !! key = Some vendor_name /\
  (forall other, other <> key ->
     oui_table (lines ++ [line]) !! other = oui_table lines !! other) /\
  (forall comment, oui_table (lines ++ ["#" ++ comment]) = oui_table lines) /\
  (forall blank, all_space blank = true -> oui_table (lines ++ [blank]) = oui_table lines).
Proof.
  intros Houi Hsep Hspace Hv Hstrip line key.
  unfold line, key. rewrite oui_table_snoc.
  rewrite (load_oui_line_entry _ oui_hex sep vendor_name Houi Hsep Hspace Hv Hstrip).
  split; [apply lookup_insert_eq|]. split; [|split].
  - intros other Hne. apply lookup_insert_ne. congruence.
  - intros comment. rewrite oui_table_snoc. unfold load_oui_line, strip.
    change ("#" ++ comment) with (String "#" comment). cbn [lstrip is_space].
    change (is_space "#") with false. cbv iota. cbn [rstrip].
    destruct (rstrip comment); reflexivity.
  - intros blank Hb. rewrite oui_table_snoc. unfold load_oui_line, strip.
    rewrite (lstrip_blank blank Hb). reflexivity.
Qed.

Lemma X19_witness :
  let lines := ["# OUI	Vendor"; "AABBCC	Acme Corp"] in
  let line := "aabbcc0d1" ++ "  " ++ "Acme Labs" in
  let key := take 6 (upper "aabbcc0d1") in
  oui_table (lines ++ [line]) !! key = Some "Acme Labs" /\
  (forall other, other <> key ->
     oui_table (lines ++ [line]) !! other = oui_table lines !! other) /\
  (forall comment, oui_table (lines ++ ["#" ++ comment]) = oui_table lines) /\
  (forall blank, all_space blank = true -> oui_table (lines ++ [blank]) = oui_table lines).
Proof.
  apply (X19_oui_file_line_by_line ["# OUI	Vendor"; "AABBCC	Acme Corp"]
           "aabbcc0d1" "  " "Acme Labs"); (reflexivity || discriminate).
Defined.

End VendorFacts.

(** ** The addresses of this machine *)

Module LocalIpsFacts.
Import PyStr LocalIps.

Lemma mem_In ip l : mem ip l = true <-> In ip l.
Proof.
  unfold mem. rewrite List.existsb_exists. split.
  - intros (x & Hx & Heq). apply String.eqb_eq in Heq. subst. exact Hx.
  - intros H. exists ip. split; [exact H | apply String.eqb_refl].
Qed.

(** The loop of the second and third method keeps what the list has,
    adds the addresses that are new and not loopback, and nothing else. *)
Lemma add_loop ips : forall local_ips,
  List.NoDup local_ips ->
  let result := List.fold_left add_unless_loopback ips local_ips in
  List.NoDup result /\
  (exists added, result = (local_ips ++ added)%list /\
     Forall (fun ip => startswith "127." ip = false /\ In ip ips) added) /\
  (forall ip, In ip ips -> startswith "127." ip = false -> In ip result).
Proof.
  induction ips as [|x ips IH]; intros local_ips Hnd; cbn [List.fold_left]; cbv zeta.
  - split; [exact Hnd|]. split; [|intros ip []].
    exists []. rewrite app_nil_r. split; [reflexivity | constructor].
  - assert (Hstep : (add_unless_loopback local_ips x = local_ips /\
                     (In x local_ips \/ startswith "127." x = true)) \/
                    (add_unless_loopback local_ips x = (local_ips ++ [x])%list /\
                     ~ In x local_ips /\ startswith "127." x = false)).
    { unfold add_unless_loopback. destruct (mem x local_ips) eqn:Hmem; cbn [negb andb].
      - left. split; [reflexivity|]. left. apply mem_In, Hmem.
      - destruct (startswith "127." x); cbn [negb]; [left; auto|].
        right. split; [reflexivity|]. split; [|reflexivity].
        intros H. apply mem_In in H. congruence. }
    destruct Hstep as [[-> Hwhy]|(-> & Hnew & Hlo)].
    + destruct (IH local_ips Hnd) as (H1 & (added & H2 & H3) & H4). cbv zeta in *.
      split; [exact H1|]. split.
      * exists added. split; [exact H2|].
        eapply List.Forall_impl; [|exact H3]. intros a [Ha Hi]. split; [exact Ha | right; exact Hi].
      * intros ip [<-|Hin] Hl; [|apply H4; assumption].
        destruct Hwhy as [Hin|Hlo]; [|congruence].
        rewrite H2. apply in_or_app. left. exact Hin.
    + assert (Hnd' : List.NoDup (local_ips ++ [x])).
      { apply List.NoDup_app; [exact Hnd | repeat constructor; intros [] |].
        intros a Ha [<-|[]]. exact (Hnew Ha). }
      destruct (IH (local_ips ++ [x])%list Hnd') as (H1 & (added & H2 & H3) & H4).
      cbv zeta in *. split; [exact H1|]. split.
      * exists (x :: added). rewrite H2, <- app_assoc.
        split; [reflexivity|]. constructor; [split; [exact Hlo | left; reflexivity]|].
        eapply List.Forall_impl; [|exact H3]. intros a [Ha Hi].
        split; [exact Ha | right; exact Hi].
      * intros ip [<-|Hin] Hl; [|apply H4; assumption].
        rewrite H2. apply in_or_app. left. apply in_or_app. right. left. reflexivity.
Qed.

(** X20.  [get_local_ips] lists no address twice; the address of the
    outgoing socket, when there is one, comes first; every other address
    listed is one that the name lookups gave and does not start with
    [127.]; and every address of the lookups that does not start with
    [127.] is listed.  [is_local_ip] answers [True] for every address that
    starts with [127.], without a lookup, and otherwise tells whether the
    address is listed. *)
Theorem X20_local_addresses (net : Sockets) :
  let lookups := (default [] (getaddrinfo net) ++ default [] (gethostbyname_ex net))%list in
  let first := match primary_ip net with Some ip => [ip] | None => [] end in
  List.NoDup (get_local_ips net) /\
  (gethostname_ok net = true ->
   exists others,
     get_local_ips net = (first ++ others)%list /\
     Forall (fun ip => startswith "127." ip = false /\ In ip lookups) others /\
     (forall ip, In ip lookups -> startswith "127." ip = false -> In ip (get_local_ips net))) /\
  (gethostname_ok net = false -> get_local_ips net = []) /\
  (forall ip, is_local_ip net ip = true <->
              startswith "127." ip = true \/ In ip (get_local_ips net)).
Proof.
  intros lookups first.
  assert (Hmain : gethostname_ok net = true ->
            List.NoDup (get_local_ips net) /\
            exists others,
              get_local_ips net = (first ++ others)%list /\
              Forall (fun ip => startswith "127." ip = false /\ In ip lookups) others /\
              (forall ip, In ip lookups -> startswith "127." ip = false ->
                          In ip (get_local_ips net))).
  { intros Hok. unfold get_local_ips. rewrite Hok. cbn [negb]. cbv zeta.
    assert (Hfirst : (match primary_ip net with
                      | Some ip => if negb (mem ip []) then ([] ++ [ip])%list else []
                      | None => []
                      end) = first) by (unfold first; destruct (primary_ip net); reflexivity).
    rewrite Hfirst.
    assert (Hnd : List.NoDup first).
    { unfold first. destruct (primary_ip net); repeat constructor. intros []. }
    unfold lookups.
    destruct (getaddrinfo net) as [ips2|]; destruct (gethostbyname_ex net) as [ips3|];
      unfold default; cbn [from_option id].
    - destruct (add_loop ips2 first Hnd) as (N2 & (a2 & E2 & F2) & C2). cbv zeta in *.
      destruct (add_loop ips3 _ N2) as (N3 & (a3 & E3 & F3) & C3). cbv zeta in *.
      split; [exact N3|]. exists (a2 ++ a3)%list. rewrite E3, E2, <- app_assoc.
      split; [reflexivity|]. split.
      + apply Forall_app. split.
        * eapply List.Forall_impl; [|exact F2]. intros a [Ha Hi].
          split; [exact Ha | apply in_or_app; left; exact Hi].
        * eapply List.Forall_impl; [|exact F3]. intros a [Ha Hi].
          split; [exact Ha | apply in_or_app; right; exact Hi].
      + intros ip Hin Hl. apply in_app_or in Hin as [Hin|Hin].
        * rewrite app_assoc, <- E2. apply in_or_app. left. apply C2; assumption.
        * rewrite app_assoc, <- E2, <- E3. apply C3; assumption.
    - destruct (add_loop ips2 first Hnd) as (N2 & (a2 & E2 & F2) & C2). cbv zeta in *.
      split; [exact N2|]. exists a2. split; [exact E2|]. rewrite app_nil_r.
      split; [exact F2 | exact C2].
    - destruct (add_loop ips3 first Hnd) as (N3 & (a3 & E3 & F3) & C3). cbv zeta in *.
      split; [exact N3|]. exists a3. split; [exact E3|]. cbn [app].
      split; [exact F3 | exact C3].
    - split; [exact Hnd|]. exists []. rewrite app_nil_r. split; [reflexivity|].
      split; [constructor | intros ip []]. }
  assert (Hnone : gethostname_ok net = false -> get_local_ips net = []).
  { intros Hok. unfold get_local_ips. rewrite Hok. reflexivity. }
  split; [|split; [|split]].
  - destruct (gethostname_ok net) eqn:Hok; [apply Hmain; reflexivity|].
    rewrite Hnone by reflexivity. constructor.
  - intros Hok. apply Hmain, Hok.
  - exact Hnone.
  - intros ip. unfold is_local_ip. destruct (startswith "127." ip).
    + split; auto.
    + rewrite mem_In. split; [auto|]. intros [H|H]; [discriminate | exact H].
Qed.

Lemma X20_witness :
  let net := {| gethostname_ok := true; primary_ip := Some "192.168.1.20";
                getaddrinfo := Some ["127.0.1.1"; "192.168.1.20"; "10.8.0.2"];
                gethostbyname_ex := None |} in
  let lookups := (default [] (getaddrinfo net) ++ default [] (gethostbyname_ex net))%list in
  let first := match primary_ip net with Some ip => [ip] | None => [] end in
  List.NoDup (get_local_ips net) /\
  (gethostname_ok net = true ->
   exists others,
     get_local_ips net = (first ++ others)%list /\
     Forall (fun ip => startswith "127." ip = false /\ In ip lookups) others /\
     (forall ip, In ip lookups -> startswith "127." ip = false -> In ip (get_local_ips net))) /\
  (gethostname_ok net = false -> get_local_ips net = []) /\
  (forall ip, is_local_ip net ip = true <->
              startswith "127." ip = true \/ In ip (get_local_ips net)).
Proof.
  apply (X20_local_addresses
           {| gethostname_ok := true; primary_ip := Some "192.168.1.20";
              getaddrinfo := Some ["127.0.1.1"; "192.168.1.20"; "10.8.0.2"];
              gethostbyname_ex := None |}).
Defined.

Example local_ips_of_witness :
  get_local_ips {| gethostname_ok := true; primary_ip := Some "192.168.1.20";
                   getaddrinfo := Some ["127.0.1.1"; "192.168.1.20"; "10.8.0.2"];
                   gethostbyname_ex := None |}
  = ["192.168.1.20"; "10.8.0.2"].
Proof. vm_compute. reflexivity. Qed.

End LocalIpsFacts.

(** ** Device types *)

Module DeviceFacts.
Import PyStr Scenario.

Lemma endswith_not_v6_loopback ip :
  endswith ".1" ip || endswith ".254" ip || endswith ".255" ip = true ->
  String.eqb ip "::1" = false.
Proof.
  destruct (String.eqb_spec ip "::1") as [->|_]; [|reflexivity].
  vm_compute. intros H. discriminate H.
Qed.

(** X21.  A host on which no service was found gets no device type, and
    neither does a loopback address, whatever was found on it.  In the
    results, a host without services is named by what was resolved for
    it; when nothing was resolved, by its address, or by [Gateway-N] when
    the address ends in [.1], [N] being what follows its last dot. *)
Theorem X21_no_service_no_device_type (w : World) (ip : string) :
  _get_device_type_hint w ip [] = "" /\
  (forall services,
     startswith "127." ip = true -> _get_device_type_hint w ip services = "") /\
  _enhance_hostname (with_device_hints w) ip ip [] =
    (if endswith ".1" ip then "Gateway-" ++ last_item (split "." ip) else ip) /\
  (forall hostname services,
     hostname <> ip ->
     _enhance_hostname (with_device_hints w) ip hostname services = hostname).
Proof.
  assert (Hnone : _get_device_type_hint w ip [] = "").
  { unfold _get_device_type_hint.
    destruct (startswith "127." ip || String.eqb ip "::1"); [reflexivity|].
    cbn [List.map any_port port_in List.existsb ports_among List.filter List.length
         Nat.leb orb andb].
    rewrite !andb_false_r. reflexivity. }
  split; [exact Hnone|]. split; [|split].
  - intros services Hlo. unfold _get_device_type_hint. rewrite Hlo. reflexivity.
  - unfold _enhance_hostname. rewrite String.eqb_refl. cbn [negb].
    cbn [with_device_hints get_device_type_hint]. rewrite Hnone. reflexivity.
  - intros hostname services Hne. unfold _enhance_hostname.
    destruct (String.eqb_spec hostname ip) as [->|_]; [congruence | reflexivity].
Qed.

(** X22.  An address that ends in [.1], [.254] or [.255], is not a
    loopback address and has port 80 or 443 open is a router, whatever
    else is open on it; without a resolved name, its result is named
    [Router-N]. *)
Theorem X22_gateway_address_with_web_interface
    (w : World) (ip : string) (services : list ServiceInfo) :
  startswith "127." ip = false ->
  endswith ".1" ip || endswith ".254" ip || endswith ".255" ip = true ->
  any_port [80; 443]%Z (List.map port services) = true ->
  _get_device_type_hint w ip services = "Router" /\
  _enhance_hostname (with_device_hints w) ip ip services
    = "Router-" ++ last_item (split "." ip).
Proof.
  intros Hlo Hgw Hweb.
  assert (Hhint : _get_device_type_hint w ip services = "Router").
  { unfold _get_device_type_hint.
    rewrite Hlo, (endswith_not_v6_loopback ip Hgw). cbn [orb]. cbv zeta.
    rewrite Hgw, Hweb. reflexivity. }
  split; [exact Hhint|].
  unfold _enhance_hostname. rewrite String.eqb_refl. cbn [negb].
  cbn [with_device_hints get_device_type_hint]. rewrite Hhint. reflexivity.
Qed.

Lemma X22_witness :
  _get_device_type_hint two_hosts "192.168.1.254"
    [Build_ServiceInfo "HTTPS" 443 "tcp" "Secure web interface" "https";
     Build_ServiceInfo "MySQL" 3306 "tcp" "MySQL database" ""] = "Router" /\
  _enhance_hostname (with_device_hints two_hosts) "192.168.1.254" "192.168.1.254"
    [Build_ServiceInfo "HTTPS" 443 "tcp" "Secure web interface" "https";
     Build_ServiceInfo "MySQL" 3306 "tcp" "MySQL database" ""]
    = "Router-" ++ last_item (split "." "192.168.1.254").
Proof.
  apply (X22_gateway_address_with_web_interface two_hosts "192.168.1.254"); reflexivity.
Defined.

Lemma port_in_map p services :
  port_in p (List.map port services) = true ->
  exists service, In service services /\ port service = p.
Proof.
  unfold port_in. rewrite List.existsb_exists. intros (q & Hq & Heq).
  apply Z.eqb_eq in Heq. subst q. apply List.in_map_iff in Hq as (svc & Hp & Hs). eauto.
Qed.

(** Ports that no built-in service has are not found among services that
    are all built-in. *)
Lemma any_port_builtin ports services :
  List.incl services COMMON_SERVICES ->
  any_port ports (List.map port COMMON_SERVICES) = false ->
  any_port ports (List.map port services) = false.
Proof.
  intros Hincl Hnone. destruct (any_port ports (List.map port services)) eqn:Hany;
    [|reflexivity].
  exfalso. unfold any_port in Hany. apply List.existsb_exists in Hany as (p & Hp & Hin).
  apply port_in_map in Hin as (svc & Hs & <-).
  assert (Hc : any_port ports (List.map port COMMON_SERVICES) = true); [|congruence].
  unfold any_port. apply List.existsb_exists. exists (port svc). split; [exact Hp|].
  unfold port_in. apply List.existsb_exists. exists (port svc).
  split; [apply List.in_map, Hincl, Hs | apply Z.eqb_refl].
Qed.

(** X23.  The device type is one of eleven names, or none.  When only
    built-in services are scanned, three of the names are never given:
    [Printer], [Media Device] and [Camera], whose ports no built-in
    service has. *)
Theorem X23_device_types (w : World) (ip : string) (services : list ServiceInfo) :
  In (_get_device_type_hint w ip services)
     [""; "Router"; "Printer"; "Database Server"; "Mail Server"; "NAS"; "Media Device";
      "Camera"; "Dev Server"; "Windows Server"; "Linux Server"; "Web Server"] /\
  (List.incl services COMMON_SERVICES ->
   In (_get_device_type_hint w ip services)
      [""; "Router"; "Database Server"; "Mail Server"; "NAS"; "Dev Server";
       "Windows Server"; "Linux Server"; "Web Server"]).
Proof.
  split.
  - unfold _get_device_type_hint. cbv zeta.
    repeat match goal with
           | |- context [if ?b then _ else _] => destruct b
           end; cbn [In]; tauto.
  - intros Hincl. unfold _get_device_type_hint. cbv zeta.
    rewrite (any_port_builtin [631; 9100; 515]%Z services Hincl) by reflexivity.
    rewrite (any_port_builtin [8008; 8009; 7000; 32469; 1900]%Z services Hincl) by reflexivity.
    rewrite (any_port_builtin [554; 8554; 1935]%Z services Hincl) by reflexivity.
    repeat match goal with
           | |- context [if ?b then _ else _] => destruct b
           end; cbn [In]; tauto.
Qed.

Example device_type_examples :
  _get_device_type_hint two_hosts "10.0.0.7"
    [Build_ServiceInfo "Flask Dev" 5000 "tcp" "Flask development server" "http"] = "NAS" /\
  _get_device_type_hint two_hosts "10.0.0.7"
    [Build_ServiceInfo "Node.js Dev" 3000 "tcp" "Node.js development server" "http"]
    = "Dev Server" /\
  _get_device_type_hint two_hosts "10.0.0.7"
    [Build_ServiceInfo "SMTP" 25 "tcp" "Mail service" "";
     Build_ServiceInfo "IMAP" 143 "tcp" "Mail access" ""] = "Mail Server".
Proof. repeat split; vm_compute; reflexivity. Qed.

Lemma X23_witness :
  let services := [Build_ServiceInfo "HTTP" 80 "tcp" "Web interface" "http"] in
  In (_get_device_type_hint two_hosts "10.0.0.7" services)
     [""; "Router"; "Printer"; "Database Server"; "Mail Server"; "NAS"; "Media Device";
      "Camera"; "Dev Server"; "Windows Server"; "Linux Server"; "Web Server"] /\
  (List.incl services COMMON_SERVICES ->
   In (_get_device_type_hint two_hosts "10.0.0.7" services)
      [""; "Router"; "Database Server"; "Mail Server"; "NAS"; "Dev Server";
       "Windows Server"; "Linux Server"; "Web Server"]).
Proof.
  apply (X23_device_types two_hosts "10.0.0.7"
           [Build_ServiceInfo "HTTP" 80 "tcp" "Web interface" "http"]).
Defined.

End DeviceFacts.

(** ** The addresses that a scan reaches *)

Module ReachFacts.
Import Frame MonadFacts FrameFacts HoareFacts Observe ScanFacts OrderFacts ServiceFacts Reach.

Lemma listed_In ip l : listed ip l = true <-> In ip l.
Proof.
  unfold listed. rewrite List.existsb_exists. split.
  - intros (x & Hx & He). apply String.eqb_eq in He. subst x. exact Hx.
  - intros H. exists ip. split; [exact H | apply String.eqb_refl].
Qed.

(** A loop keeps what its body keeps for the elements of the list. *)
Lemma hoare_for_each_in {A S} (Inv : S -> Scanner -> Prop)
    (body : A -> S -> M (loop S)) fail (l : list A) :
  (forall x st, In x l ->
     hoare (Inv st) (body x st)
       (fun c s' => match c with
                    | Continue st' => Inv st' s'
                    | Break st' => Inv st' s'
                    end) fail) ->
  forall st, hoare (Inv st) (for_each l body st) Inv fail.
Proof.
  induction l as [|x l IH]; intros Hbody st; simpl.
  - apply hoare_ret. auto.
  - eapply hoare_bind; [apply Hbody; left; reflexivity|].
    intros [st'|st']; [|apply hoare_ret; auto].
    apply IH. intros y st0 Hy. apply Hbody. right. exact Hy.
Qed.

(** A fact that does not depend on the state can be taken out of a
    precondition. *)
Lemma hoare_pure_pre {A} (P : Prop) (pre : Scanner -> Prop) (m : M A) post fail :
  (P -> hoare pre m post fail) -> hoare (fun s => pre s /\ P) m post fail.
Proof. intros H s [Hs HP]. apply (H HP s Hs). Qed.

Lemma hoare_pure_pre_l' {A} (P : Prop) (pre : Scanner -> Prop) (m : M A) post fail :
  (P -> hoare pre m post fail) -> hoare (fun s => P /\ pre s) m post fail.
Proof. intros H s [HP Hs]. apply (H HP s Hs). Qed.

Lemma in_firstn {A} (x : A) n l : In x (List.firstn n l) -> In x l.
Proof.
  revert n. induction l as [|y l IH]; intros [|n] H; simpl in *; try contradiction.
  destruct H as [H|H]; [left; exact H | right; apply (IH n), H].
Qed.

Lemma in_skipn {A} (x : A) n l : In x (List.skipn n l) -> In x l.
Proof.
  revert n. induction l as [|y l IH]; intros [|n] H; simpl in *; try contradiction.
  - exact H.
  - right. apply (IH n), H.
Qed.

Section Within.
Context (w : World) (ip_list hosts : list string) (s0 : Scanner).
Hypothesis Hsub : List.incl ip_list hosts.

Local Notation "'allowed'" := (within ip_list hosts).
Local Notation "'grown'" := (logs (within ip_list hosts) s0).

Lemma keeps {A} (m : M A) :
  respects (logs allowed) m -> hoare grown m (fun _ s' => grown s') (fun _ s' => grown s').
Proof using Type.
  intros H. apply (hoare_respects (logs allowed)); [exact H|].
  intros s s' HR Hs. eapply logs_trans; eassumption.
Qed.

Lemma within_stop_requested : respects (logs allowed) (stop_requested w).
Proof using Type.
  eapply respects_stop_requested with (E := fun e => allowed e = true).
  - intros. apply logs_emit. assumption.
  - reflexivity.
Qed.

Lemma within_update_progress p : respects (logs allowed) (_update_progress w p).
Proof using Type. apply update_progress_logs. reflexivity. Qed.

Lemma within_executor n : respects (logs allowed) (ThreadPoolExecutor n).
Proof using Type. apply respects_executor. apply logs_refl. Qed.

Lemma within_submit_all {A} (ev : A -> event) l :
  (forall x, In x l -> allowed (ev x) = true) -> respects (logs allowed) (submit_all w ev l).
Proof using Type.
  induction l as [|x l IH]; intros H; simpl.
  - apply respects_ret, logs_refl.
  - apply respects_bind; [apply logs_trans | apply logs_emit, H; left; reflexivity |].
    intros _. apply IH. intros y Hy. apply H. right. exact Hy.
Qed.

Lemma within_get_vendor mac : respects (logs allowed) (_get_vendor w mac).
Proof using Type.
  eapply respects_get_vendor with (E := fun e => allowed e = true);
    eauto with frame; try (intros; apply logs_same_log; reflexivity).
  intros; apply logs_emit; assumption.
Qed.

(** The ping results of a batch. *)
Lemma ping_results_within batch st :
  List.incl batch ip_list -> List.incl (fst st) hosts ->
  hoare grown (ping_results w batch st)
    (fun st' s' => grown s' /\ List.incl (fst st') hosts) (fun _ s' => grown s').
Proof using Hsub.
  intros Hbatch Hst. unfold ping_results.
  eapply hoare_conseq with (pre := fun s => grown s /\ List.incl (fst st) hosts);
    [|intros s Hs; split; [exact Hs | exact Hst] | intros ? ? H; exact H
     | intros ? ? H; exact H].
  apply hoare_for_each_in with
    (Inv := fun st s => grown s /\ List.incl (fst st) hosts).
  intros ip [alive discovered] Hip. apply hoare_pure_pre. intros Halive.
  eapply hoare_bind; [apply keeps, within_stop_requested | intros stop].
  destruct stop; [apply hoare_ret; intros s Hs; split; assumption|].
  destruct (ping w ip); apply hoare_ret; intros s Hs; (split; [exact Hs|]);
    [|exact Halive].
  cbn [fst] in *. apply List.incl_app; [exact Halive|].
  intros x [<-|[]]. apply Hsub, Hbatch.
  eapply Permutation_in; [apply as_completed_perm | exact Hip].
Qed.

(** The ping sweep. *)
Lemma ping_sweep_within :
  hoare grown (ping_sweep w ip_list)
    (fun st s' => grown s' /\ List.incl (fst st) hosts) (fun _ s' => grown s').
Proof using Hsub.
  unfold ping_sweep.
  eapply hoare_bind with (mid := fun _ s => grown s);
    [apply hoare_get_state; intros s Hs; exact Hs | intros sx].
  eapply hoare_conseq with
    (pre := fun s => grown s /\ List.incl (fst (([] : list string), (∅ : gset string))) hosts);
    [|intros s Hs; split; [exact Hs | intros x []] | intros ? ? H; exact H
     | intros ? ? H; exact H].
  apply hoare_for_each_inv with
    (Inv := fun st s => grown s /\ List.incl (fst st) hosts).
  intros batch_start st. apply hoare_pure_pre. intros Hst.
  eapply hoare_bind; [apply keeps, within_stop_requested | intros stop].
  destruct stop; [apply hoare_ret; intros s Hs; split; assumption|].
  eapply hoare_bind; [apply keeps, within_executor | intros ?].
  eapply hoare_bind.
  { apply keeps, within_submit_all. intros x Hx. cbn [within].
    apply listed_In. eapply in_skipn, in_firstn, Hx. }
  intros ?.
  eapply hoare_bind.
  { apply ping_results_within; [|exact Hst].
    intros x Hx. eapply in_skipn, in_firstn, Hx. }
  intros st'. apply hoare_pure_pre. intros Hst'.
  eapply hoare_bind; [apply keeps, within_update_progress | intros ?].
  apply hoare_ret. intros s Hs. split; assumption.
Qed.

(** The hosts of the neighbour table that are added are hosts of the
    table which [_is_in_network] accepts. *)
Lemma arp_supplement_incl network_range arp_table st :
  List.incl (fst st) hosts ->
  (forall ip, In ip (dict_keys arp_table) -> _is_in_network ip network_range = true ->
              In ip hosts) ->
  List.incl (fst (arp_supplement network_range arp_table st)) hosts.
Proof using Type.
  unfold arp_supplement. revert st.
  induction (dict_keys arp_table) as [|ip keys IH]; intros [alive discovered] Hst Harp;
    cbn [List.fold_left]; [exact Hst|].
  apply IH; [|intros x Hx; apply Harp; right; exact Hx].
  destruct (negb _ && _is_in_network ip network_range) eqn:E; [|exact Hst].
  apply andb_true_iff in E as [_ E]. cbn [fst] in *.
  apply List.incl_app; [exact Hst|]. intros x [<-|[]]. apply Harp; [left; reflexivity | exact E].
Qed.

(** The TCP probes. *)
Lemma tcp_probe_within st :
  List.incl (fst st) hosts ->
  hoare grown (tcp_probe w ip_list st)
    (fun st' s' => grown s' /\ List.incl (fst st') hosts) (fun _ s' => grown s').
Proof using Hsub.
  intros Hst. unfold tcp_probe.
  set (remaining_ips := List.filter _ ip_list).
  assert (Hrem : forall x, In x remaining_ips -> In x ip_list).
  { intros x Hx. apply List.filter_In in Hx. apply Hx. }
  destruct remaining_ips as [|ip0 rest] eqn:Erem;
    [apply hoare_ret; intros s Hs; split; assumption|].
  set (probe_ips := List.firstn _ (ip0 :: rest)).
  assert (Hprobe : forall t, In t (List.flat_map (fun ip => List.map (pair ip) test_ports)
                                      probe_ips) ->
                             In (fst t) ip_list /\ In (snd t) test_ports).
  { intros [ip port] Ht. apply List.in_flat_map in Ht as (x & Hx & Ht).
    apply List.in_map_iff in Ht as (p & [= <- <-] & Hp). cbn [fst snd].
    split; [apply Hrem; eapply in_firstn, Hx | exact Hp]. }
  eapply hoare_bind; [apply keeps, within_executor | intros ?].
  eapply hoare_bind.
  { apply keeps, within_submit_all. intros t Ht. destruct (Hprobe t Ht) as [Hip Hport].
    cbn [within]. apply andb_true_iff. split; [apply listed_In, Hip|].
    apply List.existsb_exists. exists (snd t). split; [exact Hport | apply Z.eqb_refl]. }
  intros ?.
  eapply hoare_bind with
    (mid := fun r s => grown s /\ List.incl (fst (fst r)) hosts).
  - eapply hoare_conseq with
      (pre := fun s => grown s /\
                List.incl (fst (fst (fst st, snd st, (∅ : gset string)))) hosts);
      [|intros s Hs; split; [exact Hs | exact Hst] | intros ? ? H; exact H
       | intros ? ? H; exact H].
    apply hoare_for_each_in with
      (Inv := fun r s => grown s /\ List.incl (fst (fst r)) hosts).
    intros [ip port] [[alive discovered] found] Ht. apply hoare_pure_pre. intros Halive.
    eapply hoare_bind; [apply keeps, within_stop_requested | intros stop].
    destruct stop; [apply hoare_ret; intros s Hs; split; assumption|].
    destruct (tcp_ping w ip port && _ && _); apply hoare_ret; intros s Hs;
      (split; [exact Hs|]); [|exact Halive].
    cbn [fst] in *. apply List.incl_app; [exact Halive|].
    intros x [<-|[]]. apply Hsub. apply (Hprobe (ip, port) Ht).
  - intros [[alive discovered] found]. apply hoare_ret. intros s Hs. exact Hs.
Qed.

(** The host list. *)
Lemma build_hosts_within arp_table alive :
  List.incl alive hosts ->
  hoare grown (build_hosts w arp_table alive)
    (fun found s' => grown s' /\ List.incl (List.map host_ip found) hosts)
    (fun _ s' => grown s').
Proof using Type.
  intros Halive. unfold build_hosts.
  eapply hoare_conseq with
    (pre := fun s => grown s /\ List.incl (List.map host_ip []) hosts);
    [|intros s Hs; split; [exact Hs | intros x []] | intros ? ? H; exact H
     | intros ? ? H; exact H].
  apply hoare_for_each_in with
    (Inv := fun found s => grown s /\ List.incl (List.map host_ip found) hosts).
  intros ip found Hip. apply hoare_pure_pre. intros Hfound.
  eapply hoare_bind; [apply keeps, within_stop_requested | intros stop].
  destruct stop; [apply hoare_ret; intros s Hs; split; assumption|].
  eapply hoare_bind with (mid := fun _ s => grown s).
  { destruct (String.eqb _ _); [apply hoare_ret; auto | apply keeps, within_get_vendor]. }
  intros vendor. apply hoare_ret. intros s Hs. split; [exact Hs|].
  rewrite List.map_app. apply List.incl_app; [exact Hfound|].
  intros x [<-|[]]. apply Halive, Hip.
Qed.

(** The discovery: the hosts found are hosts of the range or neighbours
    in it. *)
Lemma enhanced_host_discovery_within network_range :
  (forall parsed, parse_ip_range network_range = Ok parsed ->
     candidates parsed = ip_list /\
     forall ip, In ip (neighbours_in w network_range) -> In ip hosts) ->
  hoare grown (_enhanced_host_discovery w network_range)
    (fun found s' => grown s' /\ List.incl (List.map host_ip found) hosts)
    (fun _ s' => grown s').
Proof using Hsub.
  intros Hrange. unfold _enhanced_host_discovery.
  eapply hoare_try_except with (caught := fun _ s => grown s);
    [|intros e; apply hoare_ret; intros s Hs; split; [exact Hs | intros x []]].
  destruct (parse_ip_range network_range) as [parsed|e] eqn:Hparse;
    [|intros s Hs; unfold bind; exact Hs].
  destruct (Hrange parsed eq_refl) as [Hcand Hneigh].
  eapply hoare_bind_eq with (a0 := parsed) (mid := fun s => grown s).
  { intros s Hs. auto. }
  cbv zeta. rewrite Hcand.
  eapply hoare_bind; [apply keeps, within_update_progress | intros ?].
  eapply hoare_bind; [apply ping_sweep_within | intros st].
  apply hoare_pure_pre. intros Hst.
  eapply hoare_bind; [apply keeps, within_update_progress | intros ?].
  eapply hoare_bind_eq with (a0 := system_arp_table w) (mid := fun s => grown s).
  { unfold _get_system_arp_table.
    eapply hoare_bind; [apply keeps, logs_emit; reflexivity | intros ?].
    apply hoare_ret. auto. }
  eapply hoare_bind; [apply keeps, within_update_progress | intros ?].
  eapply hoare_bind.
  { apply tcp_probe_within. apply arp_supplement_incl; [exact Hst|].
    intros ip Hip Hin. apply Hneigh. unfold neighbours_in.
    apply List.filter_In. split; assumption. }
  intros st'. apply hoare_pure_pre. intros Hst'.
  eapply hoare_bind; [apply keeps, within_update_progress | intros ?].
  eapply hoare_bind; [apply build_hosts_within, Hst' | intros found].
  apply hoare_pure_pre. intros Hfound.
  eapply hoare_bind; [apply keeps, within_update_progress | intros ?].
  apply hoare_ret. intros s Hs. split; assumption.
Qed.

(** Steps 2 to 4 reach the hosts that the discovery returned, and no
    other. *)
Lemma scan_hosts_within tc found :
  List.incl (List.map host_ip found) hosts ->
  respects (logs allowed) (scan_hosts w tc found).
Proof using Type.
  intros Hfound.
  assert (Hbind : forall A B (m : M A) (k : A -> M B),
             respects (logs allowed) m -> (forall a, respects (logs allowed) (k a)) ->
             respects (logs allowed) (bind m k)).
  { intros. apply respects_bind; [apply logs_trans | assumption | assumption]. }
  assert (Hret : forall A (a : A), respects (logs allowed) (ret a)).
  { intros. apply respects_ret, logs_refl. }
  assert (Hget : respects (logs allowed) get_state).
  { apply respects_get_state, logs_refl. }
  assert (Hloop : forall A S (l : list A) (body : A -> S -> M (loop S)),
             (forall x st, respects (logs allowed) (body x st)) ->
             forall st, respects (logs allowed) (for_each l body st)).
  { intros. apply respects_for_each; [apply logs_refl | apply logs_trans | assumption]. }
  unfold scan_hosts. destruct found as [|h found'].
  { apply Hbind; [apply within_update_progress | intros ?].
    apply Hbind; [exact Hget | intros ?; apply Hret]. }
  set (found := h :: found') in *.
  apply Hbind.
  { unfold resolve_hostnames.
    apply Hbind; [apply within_update_progress | intros ?].
    apply Hbind; [exact Hget | intros ?].
    apply Hbind; [apply within_executor | intros ?].
    apply Hbind.
    { apply within_submit_all. intros ip Hip. cbn [within]. apply listed_In, Hfound, Hip. }
    intros ?. apply Hbind; [|intros ?; apply Hret].
    apply Hloop. intros ip [hn completed].
    apply Hbind; [apply within_stop_requested | intros stop].
    destruct stop; [apply Hret|].
    apply Hbind; [apply within_update_progress | intros ?; apply Hret]. }
  intros hn. apply Hbind.
  { unfold scan_services.
    apply Hbind; [apply within_update_progress | intros ?].
    apply Hbind; [exact Hget | intros sx].
    apply Hbind; [apply within_update_progress | intros ?].
    apply Hbind; [apply within_executor | intros ?].
    apply Hbind.
    { apply within_submit_all. intros t Ht. cbn [within]. apply listed_In, Hfound.
      pose proof (all_scan_tasks_hosts found (services_to_scan sx)) as Hall.
      rewrite List.Forall_forall in Hall. apply Hall, Ht. }
    intros ?. apply Hbind; [|intros ?; apply Hret].
    unfold collect_port_results. apply Hloop. intros [ip service] [sr completed].
    apply Hbind; [apply within_stop_requested | intros stop].
    destruct stop; [apply Hret|].
    apply Hbind; [|intros ?; apply Hret].
    destruct (_ || _); [apply within_update_progress | apply Hret]. }
  intros sr.
  apply Hbind; [apply within_update_progress | intros ?].
  apply Hbind.
  { apply combine_results_logs. intros e He. destruct e as [[]| | | | | | |];
      try discriminate He; reflexivity. }
  intros ?. apply Hbind; [apply within_update_progress | intros ?].
  apply Hbind; [exact Hget | intros ?; apply Hret].
Qed.

(** The [try] block of [scan_network], whatever its outcome. *)
Lemma scan_network_try_within tc network_range :
  (forall parsed, parse_ip_range network_range = Ok parsed ->
     candidates parsed = ip_list /\
     forall ip, In ip (neighbours_in w network_range) -> In ip hosts) ->
  hoare grown (scan_network_try w tc network_range)
    (fun _ s' => grown s') (fun _ s' => grown s').
Proof using Hsub.
  intros Hrange. unfold scan_network_try, discover_hosts.
  eapply hoare_bind; [apply keeps, within_update_progress | intros ?].
  eapply hoare_bind.
  { eapply hoare_bind; [apply keeps, within_update_progress | intros ?].
    apply enhanced_host_discovery_within, Hrange. }
  intros found. apply hoare_pure_pre. intros Hfound.
  apply keeps, scan_hosts_within, Hfound.
Qed.

End Within.

(** A scan logs events within the addresses of its range and the
    neighbours in it. *)
Lemma scan_network_within w ip_list hosts network_range s :
  List.incl ip_list hosts ->
  (forall parsed, parse_ip_range network_range = Ok parsed ->
     candidates parsed = ip_list /\
     forall ip, In ip (neighbours_in w network_range) -> In ip hosts) ->
  Forall (fun e => within ip_list hosts e = true)
    (since (log s) (log (snd (scan_network w network_range s)))).
Proof.
  intros Hsub Hrange. rewrite scan_network_unfold.
  assert (H : hoare (logs (within ip_list hosts) (scan_network_begin s))
                (try_except (scan_network_try w (scan_threads (scan_network_begin s))
                               network_range)
                   (scan_network_except w))
                (fun _ s' => logs (within ip_list hosts) (scan_network_begin s) s')
                (fun _ s' => logs (within ip_list hosts) (scan_network_begin s) s')).
  { eapply hoare_try_except; [apply scan_network_try_within; assumption | intros e].
    unfold scan_network_except.
    eapply hoare_bind; [apply keeps, within_update_progress | intros ?].
    eapply hoare_bind with (mid := fun _ s' => logs (within ip_list hosts) (scan_network_begin s) s');
      [apply hoare_get_state; auto | intros ?; apply hoare_ret; auto]. }
  specialize (H (scan_network_begin s) (logs_refl _ _)).
  destruct (try_except _ _ (scan_network_begin s)) as [[r|e] s'];
    cbn [snd]; destruct H as (new & Hlog & Hnew);
    rewrite Hlog, begin_log, since_app; exact Hnew.
Qed.

Lemma within_pings ip_list hosts l :
  Forall (fun e => within ip_list hosts e = true) l ->
  forall ip, In ip (pings l) -> In ip ip_list.
Proof.
  intros Hl ip Hip. apply List.in_flat_map in Hip as (e & He & Hip).
  rewrite List.Forall_forall in Hl. specialize (Hl e He).
  destruct e; try contradiction. destruct Hip as [<-|[]]. apply listed_In, Hl.
Qed.

Lemma within_tcp_pings ip_list hosts l :
  Forall (fun e => within ip_list hosts e = true) l ->
  forall ip port, In (ip, port) (tcp_pings l) -> In ip ip_list /\ In port test_ports.
Proof.
  intros Hl ip port Hip. apply List.in_flat_map in Hip as (e & He & Hip).
  rewrite List.Forall_forall in Hl. specialize (Hl e He).
  destruct e; try contradiction. destruct Hip as [[= <- <-]|[]].
  cbn [within] in Hl. apply andb_true_iff in Hl as [H1 H2]. split; [apply listed_In, H1|].
  apply List.existsb_exists in H2 as (p & Hp & Heq). apply Z.eqb_eq in Heq. subst p. exact Hp.
Qed.

Lemma within_addresses_reached ip_list hosts l :
  List.incl ip_list hosts ->
  Forall (fun e => within ip_list hosts e = true) l ->
  forall ip, In ip (addresses_reached l) -> In ip hosts.
Proof.
  intros Hsub Hl ip Hip. apply List.in_flat_map in Hip as (e & He & Hip).
  rewrite List.Forall_forall in Hl. specialize (Hl e He).
  destruct e; try contradiction; destruct Hip as [<-|[]]; cbn [within] in Hl.
  - apply Hsub, listed_In, Hl.
  - apply andb_true_iff in Hl as [Hl _]. apply Hsub, listed_In, Hl.
  - apply listed_In, Hl.
  - apply listed_In, Hl.
Qed.

(** X24.  A scan reaches no address outside the range it was given.  When
    the range is read as a list of addresses, every ping and every TCP
    probe goes to one of the first 254 of them, the TCP probes on the
    five test ports; every address that is pinged, probed, looked up or
    checked for open ports is one of these, or a key of the neighbour
    table that [_is_in_network] accepts.  When the range is rejected,
    no address is reached at all.  This holds for every scan: cancelled,
    failed or complete. *)
Theorem X24_probes_stay_in_range (w : World) (network_range : string) (s : Scanner) :
  let new := since (log s) (log (snd (scan_network w network_range s))) in
  match parse_ip_range network_range with
  | Ok ip_list =>
      (forall ip, In ip (pings new) -> In ip (candidates ip_list)) /\
      (forall ip port, In (ip, port) (tcp_pings new) ->
         In ip (candidates ip_list) /\ In port test_ports) /\
      (forall ip, In ip (addresses_reached new) ->
         In ip (candidates ip_list) \/
         In ip (dict_keys (system_arp_table w)) /\ _is_in_network ip network_range = true)
  | Raise _ => addresses_reached new = []
  end.
Proof.
  intros new. destruct (parse_ip_range network_range) as [ip_list|e] eqn:Hparse.
  - assert (Hnew : Forall (fun e => within (candidates ip_list)
                                      (candidates ip_list ++ neighbours_in w network_range) e
                                    = true) new).
    { apply scan_network_within.
      - apply List.incl_appl, List.incl_refl.
      - intros parsed Hp. rewrite Hparse in Hp. injection Hp as <-.
        split; [reflexivity|]. intros ip Hip. apply in_or_app. right. exact Hip. }
    split; [exact (within_pings _ _ _ Hnew)|].
    split; [exact (within_tcp_pings _ _ _ Hnew)|].
    intros ip Hip.
    apply (within_addresses_reached _ _ _ (List.incl_appl _ (List.incl_refl _)) Hnew) in Hip.
    apply in_app_or in Hip as [Hip|Hip]; [left; exact Hip | right].
    unfold neighbours_in in Hip. apply List.filter_In in Hip. exact Hip.
  - assert (Hnew : Forall (fun e => within [] [] e = true) new).
    { apply scan_network_within; [apply List.incl_refl|].
      intros parsed Hp. rewrite Hparse in Hp. discriminate Hp. }
    destruct (addresses_reached new) as [|ip rest] eqn:E; [reflexivity|].
    exfalso.
    apply (within_addresses_reached [] [] new (List.incl_refl _) Hnew ip).
    rewrite E. left. reflexivity.
Qed.

(** A scan of one address with a neighbour outside: the neighbour is not
    reached. *)
Example scan_of_one_address :
  let new := log (snd (scan_network Scenario.with_oui_file "10.0.0.1" (new_scanner None))) in
  dict_keys (system_arp_table Scenario.with_oui_file) = ["10.0.0.2"] /\
  pings new = ["10.0.0.1"] /\ resolves new = ["10.0.0.1"] /\
  List.forallb (String.eqb "10.0.0.1") (addresses_reached new) = true.
Proof. vm_compute. repeat split; reflexivity. Qed.

(** *** How many probes a scan sends *)

Lemma pings_app l1 l2 : pings (l1 ++ l2) = (pings l1 ++ pings l2)%list.
Proof. unfold pings. apply List.flat_map_app. Qed.

Lemma tcp_pings_app l1 l2 : tcp_pings (l1 ++ l2) = (tcp_pings l1 ++ tcp_pings l2)%list.
Proof. unfold tcp_pings. apply List.flat_map_app. Qed.

Lemma pings_submitted l : pings (List.map EPing l) = l /\ tcp_pings (List.map EPing l) = [].
Proof.
  induction l as [|x l [IH1 IH2]]; [split; reflexivity|].
  unfold pings, tcp_pings in *. cbn [List.map List.flat_map]. rewrite IH1, IH2.
  split; reflexivity.
Qed.

Lemma tcp_pings_submitted (l : list (string * Z)) :
  pings (List.map (fun t => ETcpPing (fst t) (snd t)) l) = [] /\
  tcp_pings (List.map (fun t => ETcpPing (fst t) (snd t)) l) = l.
Proof.
  induction l as [|[ip port] l [IH1 IH2]]; [split; reflexivity|].
  unfold pings, tcp_pings in *. cbn [List.map List.flat_map fst snd]. rewrite IH1, IH2.
  split; reflexivity.
Qed.

Lemma candidates_length l : (List.length (candidates l) <= 254)%nat.
Proof.
  unfold candidates. destruct (254 <? List.length l)%nat eqn:E.
  - rewrite List.length_firstn. lia.
  - apply Nat.ltb_ge in E. exact E.
Qed.

Section Counted.
Context (w : World) (s0 : Scanner).

Lemma quiet_bind {A B} (m : M A) (k : A -> M B) :
  respects (logs quiet) m -> (forall a, respects (logs quiet) (k a)) ->
  respects (logs quiet) (bind m k).
Proof using Type. intros. apply respects_bind; [apply logs_trans | assumption | assumption]. Qed.

Lemma quiet_ret {A} (a : A) : respects (logs quiet) (ret a).
Proof using Type. apply respects_ret, logs_refl. Qed.

Lemma quiet_loop {A S} (l : list A) (body : A -> S -> M (loop S)) st :
  (forall x st, respects (logs quiet) (body x st)) ->
  respects (logs quiet) (for_each l body st).
Proof using Type.
  intros. apply respects_for_each; [apply logs_refl | apply logs_trans | assumption].
Qed.

Lemma quiet_stop_requested : respects (logs quiet) (stop_requested w).
Proof using Type.
  eapply respects_stop_requested with (E := fun e => quiet e = true).
  - intros. apply logs_emit. assumption.
  - reflexivity.
Qed.

Lemma quiet_update_progress p : respects (logs quiet) (_update_progress w p).
Proof using Type. apply update_progress_logs. reflexivity. Qed.

Lemma quiet_executor n : respects (logs quiet) (ThreadPoolExecutor n).
Proof using Type. apply respects_executor. apply logs_refl. Qed.

Lemma quiet_get_vendor mac : respects (logs quiet) (_get_vendor w mac).
Proof using Type.
  eapply respects_get_vendor with (E := fun e => quiet e = true);
    eauto with frame; try (intros; apply logs_same_log; reflexivity).
  intros; apply logs_emit; assumption.
Qed.

Lemma quiet_ping_results batch st : respects (logs quiet) (ping_results w batch st).
Proof using Type.
  unfold ping_results. apply quiet_loop. intros ip [alive discovered].
  apply quiet_bind; [apply quiet_stop_requested | intros stop].
  destruct stop; [apply quiet_ret|]. destruct (ping w ip); apply quiet_ret.
Qed.

Lemma quiet_build_hosts arp_table alive : respects (logs quiet) (build_hosts w arp_table alive).
Proof using Type.
  unfold build_hosts. apply quiet_loop. intros ip found.
  apply quiet_bind; [apply quiet_stop_requested | intros stop].
  destruct stop; [apply quiet_ret|].
  apply quiet_bind; [|intros ?; apply quiet_ret].
  destruct (String.eqb _ _); [apply quiet_ret | apply quiet_get_vendor].
Qed.

Lemma quiet_scan_hosts tc found : respects (logs quiet) (scan_hosts w tc found).
Proof using Type.
  apply OutcomeFacts.scan_hosts_logs. intros e He.
  destruct e as [[]| | | | | | |]; try discriminate He; reflexivity.
Qed.

(** What is quiet adds no probe. *)
Lemma quiet_keeps {A} (m : M A) p t :
  respects (logs quiet) m ->
  hoare (probes_since s0 p t) m
    (fun _ s' => probes_since s0 p t s') (fun _ s' => probes_since s0 p t s').
Proof using Type.
  intros H. apply (hoare_respects (logs quiet)); [exact H|].
  intros s s' (n2 & H2 & F2) (n1 & H1 & Hp & Ht).
  destruct (MalformedFacts.no_probe_logged n2 F2) as [Hp2 Ht2].
  exists (n1 ++ n2)%list. rewrite pings_app, tcp_pings_app, Hp, Ht, Hp2, Ht2, !app_nil_r.
  split; [rewrite H2, H1, app_assoc; reflexivity | split; reflexivity].
Qed.

Lemma quiet_step {A} (m : M A) p t (fail : exn -> Scanner -> Prop) :
  respects (logs quiet) m ->
  (forall e s, probes_since s0 p t s -> fail e s) ->
  hoare (probes_since s0 p t) m (fun _ s' => probes_since s0 p t s') fail.
Proof using Type.
  intros Hm Hfail. eapply hoare_conseq; [apply (quiet_keeps m p t Hm) | | |].
  - intros s Hs. exact Hs.
  - intros ? s Hs. exact Hs.
  - exact Hfail.
Qed.

(** The pings of a batch are submitted one after the other. *)
Lemma submit_pings batch p t fail :
  hoare (probes_since s0 p t) (submit_all w EPing batch)
    (fun _ s' => probes_since s0 (p ++ batch) t s') fail.
Proof using Type.
  intros s (n1 & H1 & Hp & Ht).
  destruct (submit_all_run w EPing batch s) as (s' & -> & Hlog).
  destruct (pings_submitted batch) as [Hp2 Ht2].
  exists (n1 ++ List.map EPing batch)%list.
  rewrite pings_app, tcp_pings_app, Hp, Ht, Hp2, Ht2, app_nil_r.
  split; [rewrite Hlog, H1, app_assoc; reflexivity | split; reflexivity].
Qed.

Lemma submit_tcp_pings futures p t fail :
  hoare (probes_since s0 p t)
    (submit_all w (fun f : string * Z => ETcpPing (fst f) (snd f)) futures)
    (fun _ s' => probes_since s0 p (t ++ futures) s') fail.
Proof using Type.
  intros s (n1 & H1 & Hp & Ht).
  destruct (submit_all_run w (fun f : string * Z => ETcpPing (fst f) (snd f)) futures s)
    as (s' & -> & Hlog).
  destruct (tcp_pings_submitted futures) as [Hp2 Ht2].
  exists (n1 ++ List.map (fun f : string * Z => ETcpPing (fst f) (snd f)) futures)%list.
  rewrite pings_app, tcp_pings_app, Hp, Ht, Hp2, Ht2, app_nil_r.
  split; [rewrite Hlog, H1, app_assoc; reflexivity | split; reflexivity].
Qed.

(** The ping sweep pings the addresses of the list in order, each once,
    and stops where it is cancelled or fails. *)
Lemma ping_sweep_counted ip_list :
  hoare (probes_since s0 [] []) (ping_sweep w ip_list)
    (fun _ s' => exists p rest, ip_list = (p ++ rest)%list /\ probes_since s0 p [] s')
    (fun _ s' => exists p rest, ip_list = (p ++ rest)%list /\ probes_since s0 p [] s').
Proof using Type.
  unfold ping_sweep.
  eapply hoare_bind with (mid := fun _ s => probes_since s0 [] [] s);
    [apply hoare_get_state; intros s Hs; exact Hs | intros sx].
  cbv zeta.
  match goal with |- hoare _ (for_each _ ?b _) _ _ => set (body := b) end.
  enough (H : forall starts st p,
             hoare (probes_since s0 p []) (for_each starts body st)
               (fun _ s' => exists q rest,
                  List.flat_map (fun b => List.firstn 100 (List.skipn b ip_list)) starts
                  = (q ++ rest)%list /\ probes_since s0 (p ++ q) [] s')
               (fun _ s' => exists q rest,
                  List.flat_map (fun b => List.firstn 100 (List.skipn b ip_list)) starts
                  = (q ++ rest)%list /\ probes_since s0 (p ++ q) [] s')).
  { specialize (H (batch_starts (List.length ip_list) 100) ([], ∅) []).
    rewrite batches_all in H. exact H. }
  induction starts as [|b starts IH]; intros st p; cbn [for_each List.flat_map].
  - apply hoare_ret. intros s Hs. exists [], [].
    split; [reflexivity | rewrite app_nil_r; exact Hs].
  - set (batch := List.firstn 100 (List.skipn b ip_list)).
    set (later := List.flat_map _ starts) in *.
    eapply hoare_bind with
      (mid := fun c s => match c with
                         | Continue _ => probes_since s0 (p ++ batch) [] s
                         | Break _ => probes_since s0 p [] s
                         end).
    + unfold body at 1.
      eapply hoare_bind with (mid := fun _ s => probes_since s0 p [] s).
      { apply quiet_step; [apply quiet_stop_requested|].
        intros e s Hs. exists [], (batch ++ later)%list.
        split; [reflexivity | rewrite app_nil_r; exact Hs]. }
      intros stop. destruct stop; [apply hoare_ret; auto|].
      eapply hoare_bind with (mid := fun _ s => probes_since s0 p [] s).
      { apply quiet_step; [apply quiet_executor|].
        intros e s Hs. exists [], (batch ++ later)%list.
        split; [reflexivity | rewrite app_nil_r; exact Hs]. }
      intros ?.
      eapply hoare_bind; [apply submit_pings | intros ?].
      eapply hoare_bind with (mid := fun _ s => probes_since s0 (p ++ batch) [] s).
      { apply quiet_step; [apply quiet_ping_results|].
        intros e s Hs. exists batch, later. split; [reflexivity | exact Hs]. }
      intros st'.
      eapply hoare_bind with (mid := fun _ s => probes_since s0 (p ++ batch) [] s).
      { apply quiet_step; [apply quiet_update_progress|].
        intros e s Hs. exists batch, later. split; [reflexivity | exact Hs]. }
      intros ?. apply hoare_ret. auto.
    + intros [st'|st'].
      * eapply hoare_conseq; [apply (IH st' (p ++ batch)%list) | auto | |];
          intros ? s (q & rest & Hq & Hs); exists (batch ++ q)%list, rest;
          (split; [rewrite Hq, app_assoc; reflexivity | rewrite app_assoc; exact Hs]).
      * apply hoare_ret. intros s Hs. exists [], (batch ++ later)%list.
        split; [reflexivity | rewrite app_nil_r; exact Hs].
Qed.

(** The TCP probes: five for each of at most fifty addresses. *)
Lemma tcp_probe_counted ip_list st p :
  hoare (probes_since s0 p []) (tcp_probe w ip_list st)
    (fun _ s' => exists t, (List.length t <= 250)%nat /\ probes_since s0 p t s')
    (fun _ s' => exists t, (List.length t <= 250)%nat /\ probes_since s0 p t s').
Proof using Type.
  assert (Hnone : forall s, probes_since s0 p [] s ->
                    exists t, (List.length t <= 250)%nat /\ probes_since s0 p t s).
  { intros s Hs. exists []. split; [cbn; lia | exact Hs]. }
  unfold tcp_probe.
  destruct (List.filter _ ip_list) as [|ip0 rest] eqn:Erem; [apply hoare_ret; auto|].
  set (probe_ips := List.firstn _ (ip0 :: rest)).
  set (port_futures := List.flat_map (fun ip => List.map (pair ip) test_ports) probe_ips).
  assert (Hlen : (List.length port_futures <= 250)%nat).
  { assert (Hprobe : (List.length probe_ips <= 50)%nat).
    { unfold probe_ips. rewrite List.length_firstn. lia. }
    assert (Hfm : forall l : list string,
               List.length (List.flat_map (fun ip => List.map (pair ip) test_ports) l)
               = (5 * List.length l)%nat).
    { induction l as [|x l IHl]; [reflexivity|].
      cbn [List.flat_map]. rewrite List.length_app, IHl, List.length_map.
      cbn [test_ports List.length]. lia. }
    unfold port_futures. rewrite Hfm. lia. }
  eapply hoare_bind with (mid := fun _ s => probes_since s0 p [] s).
  { apply quiet_step; [apply quiet_executor | intros e s Hs; apply Hnone, Hs]. }
  intros ?.
  eapply hoare_bind; [apply submit_tcp_pings | intros ?].
  cbn [app].
  eapply hoare_conseq with
    (post := fun _ s => probes_since s0 p port_futures s)
    (fail := fun _ s => probes_since s0 p port_futures s);
    [|intros s Hs; exact Hs
     | intros ? s Hs; exists port_futures; split; [exact Hlen | exact Hs]
     | intros ? s Hs; exists port_futures; split; [exact Hlen | exact Hs]].
  apply quiet_keeps. apply quiet_bind; [|intros ?; apply quiet_ret].
  apply quiet_loop. intros [ip port] [[alive discovered] found].
  apply quiet_bind; [apply quiet_stop_requested | intros stop].
  destruct stop; [apply quiet_ret|]. destruct (_ && _ && _); apply quiet_ret.
Qed.

(** The probes of a scan so far: pings to a first part of [ip_list], and
    at most 250 TCP probes. *)
Lemma quiet_bounded {A} (m : M A) ip_list :
  respects (logs quiet) m ->
  hoare (fun s => exists p rest t, ip_list = (p ++ rest)%list /\
                    (List.length t <= 250)%nat /\ probes_since s0 p t s) m
    (fun _ s' => exists p rest t, ip_list = (p ++ rest)%list /\
                   (List.length t <= 250)%nat /\ probes_since s0 p t s')
    (fun _ s' => exists p rest t, ip_list = (p ++ rest)%list /\
                   (List.length t <= 250)%nat /\ probes_since s0 p t s').
Proof using Type.
  intros Hm s (p & rest & t & Hl & Ht & Hs).
  pose proof (quiet_keeps m p t Hm s Hs) as H.
  destruct (m s) as [[a|e] s']; exists p, rest, t; auto.
Qed.

Lemma enhanced_host_discovery_counted network_range :
  hoare (probes_since s0 [] []) (_enhanced_host_discovery w network_range)
    (fun _ s' => exists p rest t,
       match parse_ip_range network_range with
       | Ok parsed => candidates parsed
       | Raise _ => []
       end = (p ++ rest)%list /\
       (List.length t <= 250)%nat /\ probes_since s0 p t s')
    (fun _ s' => exists p rest t,
       match parse_ip_range network_range with
       | Ok parsed => candidates parsed
       | Raise _ => []
       end = (p ++ rest)%list /\
       (List.length t <= 250)%nat /\ probes_since s0 p t s').
Proof using Type.
  unfold _enhanced_host_discovery.
  eapply hoare_try_except with
    (caught := fun _ s' => exists p rest t,
       match parse_ip_range network_range with
       | Ok parsed => candidates parsed
       | Raise _ => []
       end = (p ++ rest)%list /\
       (List.length t <= 250)%nat /\ probes_since s0 p t s');
    [|intros e; apply hoare_ret; auto].
  destruct (parse_ip_range network_range) as [parsed|e] eqn:Hparse.
  2:{ intros s Hs. unfold bind. exists [], [], []. split; [reflexivity|].
      split; [cbn; lia | exact Hs]. }
  set (ip_list := candidates parsed).
  assert (Hstart : forall s, probes_since s0 [] [] s ->
            exists p rest t, ip_list = (p ++ rest)%list /\
              (List.length t <= 250)%nat /\ probes_since s0 p t s).
  { intros s Hs. exists [], ip_list, []. split; [reflexivity|].
    split; [cbn; lia | exact Hs]. }
  eapply hoare_bind_eq with (a0 := parsed) (mid := fun s => probes_since s0 [] [] s).
  { intros s Hs. auto. }
  cbv zeta. fold ip_list.
  eapply hoare_bind;
    [apply quiet_step; [apply quiet_update_progress | intros e s Hs; apply Hstart, Hs]
    | intros ?].
  eapply hoare_bind with
    (mid := fun _ s => exists p rest, ip_list = (p ++ rest)%list /\ probes_since s0 p [] s).
  { eapply hoare_conseq; [apply ping_sweep_counted | auto | auto |].
    intros e s (p & rest & Hl & Hs). exists p, rest, []. split; [exact Hl|].
    split; [cbn; lia | exact Hs]. }
  intros st s (p & rest & Hl & Hs). revert s Hs.
  assert (Hpinged : forall s, probes_since s0 p [] s ->
            exists p rest t, ip_list = (p ++ rest)%list /\
              (List.length t <= 250)%nat /\ probes_since s0 p t s).
  { intros s Hs. exists p, rest, []. split; [exact Hl|]. split; [cbn; lia | exact Hs]. }
  change (hoare (probes_since s0 p [])
            (_update_progress w PCheckingArp ;;
             arp_table <- _get_system_arp_table w ;;
             (let st0 := arp_supplement network_range arp_table st in
              _update_progress w PTcpProbe ;;
              st1 <- tcp_probe w ip_list st0 ;;
              _update_progress w PGettingMac ;;
              found <- build_hosts w arp_table (fst st1) ;;
              _update_progress w (PFound (List.length found)) ;;
              ret found))
            (fun _ s' => exists p rest t, ip_list = (p ++ rest)%list /\
               (List.length t <= 250)%nat /\ probes_since s0 p t s')
            (fun _ s' => exists p rest t, ip_list = (p ++ rest)%list /\
               (List.length t <= 250)%nat /\ probes_since s0 p t s')).
  eapply hoare_bind;
    [apply quiet_step; [apply quiet_update_progress | intros e s Hs; apply Hpinged, Hs]
    | intros ?].
  eapply hoare_bind.
  { apply quiet_step; [|intros e s Hs; apply Hpinged, Hs].
    unfold _get_system_arp_table.
    apply quiet_bind; [apply logs_emit; reflexivity | intros ?; apply quiet_ret]. }
  intros arp_table. cbv zeta.
  eapply hoare_bind;
    [apply quiet_step; [apply quiet_update_progress | intros e s Hs; apply Hpinged, Hs]
    | intros ?].
  eapply hoare_bind with
    (mid := fun _ s => exists t, (List.length t <= 250)%nat /\ probes_since s0 p t s).
  { eapply hoare_conseq;
      [apply (tcp_probe_counted ip_list _ p) | intros s Hs; exact Hs
      | intros ? s Hs; exact Hs |].
    intros e s (t & Ht & Hs). exists p, rest, t. auto. }
  intros st1 s (t & Ht & Hs). revert s Hs.
  assert (Hprobed : forall s, probes_since s0 p t s ->
            exists p rest t, ip_list = (p ++ rest)%list /\
              (List.length t <= 250)%nat /\ probes_since s0 p t s).
  { intros s Hs. exists p, rest, t. auto. }
  change (hoare (probes_since s0 p t)
            (_update_progress w PGettingMac ;;
             found <- build_hosts w arp_table (fst st1) ;;
             _update_progress w (PFound (List.length found)) ;;
             ret found)
            (fun _ s' => exists p rest t, ip_list = (p ++ rest)%list /\
               (List.length t <= 250)%nat /\ probes_since s0 p t s')
            (fun _ s' => exists p rest t, ip_list = (p ++ rest)%list /\
               (List.length t <= 250)%nat /\ probes_since s0 p t s')).
  eapply hoare_bind;
    [apply quiet_step; [apply quiet_update_progress | intros e s Hs; apply Hprobed, Hs]
    | intros ?].
  eapply hoare_bind;
    [apply quiet_step; [apply quiet_build_hosts | intros e s Hs; apply Hprobed, Hs]
    | intros found].
  eapply hoare_bind;
    [apply quiet_step; [apply quiet_update_progress | intros e s Hs; apply Hprobed, Hs]
    | intros ?].
  apply hoare_ret. exact Hprobed.
Qed.

Lemma scan_network_try_counted tc network_range :
  hoare (probes_since s0 [] []) (scan_network_try w tc network_range)
    (fun _ s' => exists p rest t,
       match parse_ip_range network_range with
       | Ok parsed => candidates parsed
       | Raise _ => []
       end = (p ++ rest)%list /\
       (List.length t <= 250)%nat /\ probes_since s0 p t s')
    (fun _ s' => exists p rest t,
       match parse_ip_range network_range with
       | Ok parsed => candidates parsed
       | Raise _ => []
       end = (p ++ rest)%list /\
       (List.length t <= 250)%nat /\ probes_since s0 p t s').
Proof using Type.
  assert (Hstart : forall s, probes_since s0 [] [] s ->
            exists p rest t,
              match parse_ip_range network_range with
              | Ok parsed => candidates parsed
              | Raise _ => []
              end = (p ++ rest)%list /\
              (List.length t <= 250)%nat /\ probes_since s0 p t s).
  { intros s Hs. eexists [], _, []. split; [reflexivity|]. split; [cbn; lia | exact Hs]. }
  unfold scan_network_try, discover_hosts.
  eapply hoare_bind;
    [apply quiet_step; [apply quiet_update_progress | intros e s Hs; apply Hstart, Hs]
    | intros ?].
  eapply hoare_bind.
  { eapply hoare_bind;
      [apply quiet_step; [apply quiet_update_progress | intros e s Hs; apply Hstart, Hs]
      | intros ?].
    apply enhanced_host_discovery_counted. }
  intros found. apply quiet_bounded, quiet_scan_hosts.
Qed.

End Counted.

(** *** A ping sweep that nobody cancels *)

Lemma hoare_exists_pre {A T} (P : T -> Scanner -> Prop) (m : M A) post fail :
  (forall x, hoare (P x) m post fail) -> hoare (fun s => exists x, P x s) m post fail.
Proof. intros H s (x & Hx). apply (H x s Hx). Qed.

Lemma calm_quiet e : calm e = true -> quiet e = true.
Proof. unfold calm. intros H. apply andb_true_iff in H. apply H. Qed.

Lemma calm_no_report l :
  Forall (fun e => calm e = true) l -> ~ In (EProgress PCheckingArp) l.
Proof.
  intros Hl Hin. rewrite List.Forall_forall in Hl. specialize (Hl _ Hin). discriminate Hl.
Qed.

Lemma calm_no_probe l :
  Forall (fun e => calm e = true) l -> pings l = [] /\ tcp_pings l = [].
Proof.
  intros Hl. apply MalformedFacts.no_probe_logged.
  eapply List.Forall_impl; [|exact Hl]. intros e He. apply (calm_quiet e He).
Qed.

Section Swept.
Context (w : World) (s0 : Scanner).
Hypothesis Hw : stop_at w = None.

Lemma calm_bind {A B} (m : M A) (k : A -> M B) :
  respects (logs calm) m -> (forall a, respects (logs calm) (k a)) ->
  respects (logs calm) (bind m k).
Proof using Type. intros. apply respects_bind; [apply logs_trans | assumption | assumption]. Qed.

Lemma calm_ret {A} (a : A) : respects (logs calm) (ret a).
Proof using Type. apply respects_ret, logs_refl. Qed.

Lemma calm_stop_requested : respects (logs calm) (stop_requested w).
Proof using Type.
  eapply respects_stop_requested with (E := fun e => calm e = true).
  - intros. apply logs_emit. assumption.
  - reflexivity.
Qed.

Lemma calm_update_progress p :
  calm (EProgress p) = true -> respects (logs calm) (_update_progress w p).
Proof using Type. apply update_progress_logs. Qed.

Lemma calm_executor n : respects (logs calm) (ThreadPoolExecutor n).
Proof using Type. apply respects_executor. apply logs_refl. Qed.

Lemma calm_ping_results batch st : respects (logs calm) (ping_results w batch st).
Proof using Type.
  unfold ping_results.
  apply respects_for_each; [apply logs_refl | apply logs_trans |].
  intros ip [alive discovered].
  apply calm_bind; [apply calm_stop_requested | intros stop].
  destruct stop; [apply calm_ret|]. destruct (ping w ip); apply calm_ret.
Qed.

Lemma calm_scan_hosts tc found : respects (logs calm) (scan_hosts w tc found).
Proof using Type.
  apply OutcomeFacts.scan_hosts_logs. intros e He.
  destruct e as [[]| | | | | | |]; try discriminate He; reflexivity.
Qed.

Lemma stop_same_executor n : respects stop_same (ThreadPoolExecutor n).
Proof using Type. apply respects_executor. apply stop_same_refl. Qed.

Lemma stop_same_ping_results batch st : respects stop_same (ping_results w batch st).
Proof using Hw.
  unfold ping_results.
  apply respects_for_each; [apply stop_same_refl | apply stop_same_trans |].
  intros ip [alive discovered].
  apply respects_bind; [apply stop_same_trans | | intros stop].
  - eapply respects_stop_requested with (E := fun _ => True); [|auto].
    intros. apply stop_same_emit, Hw.
  - destruct stop; [apply respects_ret, stop_same_refl|].
    destruct (ping w ip); apply respects_ret, stop_same_refl.
Qed.

(** What is calm and leaves the stop flag alone. *)
Lemma sweeping_keep {A} (m : M A) p :
  respects (logs calm) m -> respects stop_same m ->
  hoare (sweeping s0 p) m (fun _ s' => sweeping s0 p s') (fun _ s' => sweeping s0 p s').
Proof using Type.
  intros Hc Hs s (Hrun & n1 & H1 & Hp & Ht & Hn).
  specialize (Hc s). specialize (Hs s). destruct Hc as (n2 & H2 & F2).
  assert (H : sweeping s0 p (snd (m s))).
  { split; [unfold stop_same in Hs; rewrite Hs; exact Hrun|].
    destruct (calm_no_probe n2 F2) as [Hp2 Ht2].
    exists (n1 ++ n2)%list. rewrite pings_app, tcp_pings_app, Hp, Ht, Hp2, Ht2, !app_nil_r.
    split; [rewrite H2, H1, app_assoc; reflexivity|]. split; [reflexivity|].
    split; [reflexivity|]. intros Hin. apply in_app_or in Hin as [Hin|Hin];
      [exact (Hn Hin) | exact (calm_no_report n2 F2 Hin)]. }
  destruct (m s) as [[a|e] s']; exact H.
Qed.

(** The stop flag is read, and it is not set. *)
Lemma sweeping_stop p fail :
  hoare (sweeping s0 p) (stop_requested w) (fun b s' => b = false /\ sweeping s0 p s') fail.
Proof using Hw.
  intros s (Hrun & n1 & H1 & Hp & Ht & Hn).
  destruct (stop_requested_run w s) as (s' & -> & Hlog & _ & _ & Hsame).
  split; [exact Hrun|]. split; [rewrite (Hsame Hw); exact Hrun|].
  exists (n1 ++ [EStopCheck (_stop_scanning s)])%list.
  rewrite pings_app, tcp_pings_app, Hp, Ht. cbn. rewrite !app_nil_r.
  split; [rewrite Hlog, H1, app_assoc; reflexivity|]. split; [reflexivity|].
  split; [reflexivity|]. intros Hin. apply in_app_or in Hin as [Hin|[Hin|[]]];
    [exact (Hn Hin) | discriminate Hin].
Qed.

(** The pings of a batch are submitted. *)
Lemma sweeping_submit batch p fail :
  hoare (sweeping s0 p) (submit_all w EPing batch)
    (fun _ s' => sweeping s0 (p ++ batch) s') fail.
Proof using Hw.
  intros s (Hrun & n1 & H1 & Hp & Ht & Hn).
  pose proof (RunningFacts.running_submit_all w Hw EPing batch s Hrun) as Hrun'.
  destruct (submit_all_run w EPing batch s) as (s' & Hsub & Hlog).
  rewrite Hsub in Hrun' |- *. split; [exact Hrun'|].
  destruct (pings_submitted batch) as [Hp2 Ht2].
  exists (n1 ++ List.map EPing batch)%list.
  rewrite pings_app, tcp_pings_app, Hp, Ht, Hp2, Ht2, app_nil_r.
  split; [rewrite Hlog, H1, app_assoc; reflexivity|]. split; [reflexivity|].
  split; [reflexivity|]. intros Hin. apply in_app_or in Hin as [Hin|Hin]; [exact (Hn Hin)|].
  apply List.in_map_iff in Hin as (x & Hx & _). discriminate Hx.
Qed.

(** A ping sweep that nobody cancels and that returns has pinged every
    address of the list. *)
Lemma ping_sweep_swept ip_list :
  hoare (sweeping s0 []) (ping_sweep w ip_list)
    (fun _ s' => sweeping s0 ip_list s') (fun _ s' => exists p, sweeping s0 p s').
Proof using Hw.
  unfold ping_sweep.
  eapply hoare_bind with (mid := fun _ s => sweeping s0 [] s);
    [apply hoare_get_state; intros s Hs; exact Hs | intros sx].
  cbv zeta.
  match goal with |- hoare _ (for_each _ ?b _) _ _ => set (body := b) end.
  enough (H : forall starts st p,
             hoare (sweeping s0 p) (for_each starts body st)
               (fun _ s' =>
                  sweeping s0
                    (p ++ List.flat_map (fun b => List.firstn 100 (List.skipn b ip_list)) starts)
                    s')
               (fun _ s' => exists q, sweeping s0 q s')).
  { specialize (H (batch_starts (List.length ip_list) 100) ([], ∅) []).
    rewrite batches_all in H. exact H. }
  assert (F : forall q (e : exn) s, sweeping s0 q s -> exists q', sweeping s0 q' s).
  { intros q e s Hs. exists q. exact Hs. }
  induction starts as [|b starts IH]; intros st p; cbn [for_each List.flat_map].
  - apply hoare_ret. intros s Hs. rewrite app_nil_r. exact Hs.
  - set (batch := List.firstn 100 (List.skipn b ip_list)).
    eapply hoare_bind with
      (mid := fun c s => (exists st', c = Continue st') /\ sweeping s0 (p ++ batch) s).
    + unfold body at 1.
      eapply hoare_bind; [apply sweeping_stop | intros stop].
      apply hoare_pure_pre_l'. intros ->.
      eapply hoare_bind.
      { eapply hoare_conseq; [apply sweeping_keep; [apply calm_executor
                                                   | apply stop_same_executor]
                             | intros s Hs; exact Hs | intros ? s Hs; exact Hs | apply F]. }
      intros ?.
      eapply hoare_bind; [apply sweeping_submit | intros ?].
      eapply hoare_bind.
      { eapply hoare_conseq; [apply sweeping_keep; [apply calm_ping_results
                                                   | apply stop_same_ping_results]
                             | intros s Hs; exact Hs | intros ? s Hs; exact Hs | apply F]. }
      intros st'.
      eapply hoare_bind.
      { eapply hoare_conseq;
          [apply sweeping_keep;
             [apply calm_update_progress; reflexivity
             | apply update_progress_stop_same, Hw]
          | intros s Hs; exact Hs | intros ? s Hs; exact Hs | apply F]. }
      intros ?. apply hoare_ret. intros s Hs. split; [eauto | exact Hs].
    + intros c. apply hoare_pure_pre_l'. intros (st' & ->).
      eapply hoare_conseq; [apply (IH st' (p ++ batch)%list) | intros s Hs; exact Hs
                           | | intros ? s Hs; exact Hs].
      intros ? s Hs. cbv beta in Hs. rewrite <- app_assoc in Hs. exact Hs.
Qed.

(** The discovery of a scan that nobody cancels: when it has gone beyond
    the ping sweep, it has pinged every candidate. *)
Lemma enhanced_host_discovery_swept network_range :
  hoare (sweeping s0 []) (_enhanced_host_discovery w network_range)
    (fun _ s' => swept s0 (match parse_ip_range network_range with
                           | Ok parsed => candidates parsed
                           | Raise _ => []
                           end) s')
    (fun _ s' => swept s0 (match parse_ip_range network_range with
                           | Ok parsed => candidates parsed
                           | Raise _ => []
                           end) s').
Proof using Hw.
  assert (Hnot : forall p ip_list (e : exn) s, sweeping s0 p s -> swept s0 ip_list s).
  { intros p ip_list e s (_ & new & Hlog & _ & _ & Hn). exists new.
    split; [exact Hlog | intros Hin; contradiction]. }
  assert (Hdone : forall ip_list t (e : exn) s,
             probes_since s0 ip_list t s -> swept s0 ip_list s).
  { intros ip_list t e s (new & Hlog & Hp & _). exists new.
    split; [exact Hlog | intros _; exact Hp]. }
  unfold _enhanced_host_discovery.
  eapply hoare_try_except with
    (caught := fun _ s' => swept s0 (match parse_ip_range network_range with
                                     | Ok parsed => candidates parsed
                                     | Raise _ => []
                                     end) s');
    [|intros e; apply hoare_ret; auto].
  destruct (parse_ip_range network_range) as [parsed|e] eqn:Hparse.
  2:{ intros s Hs. unfold bind. apply (Hnot [] [] e s Hs). }
  set (ip_list := candidates parsed).
  eapply hoare_bind_eq with (a0 := parsed) (mid := fun s => sweeping s0 [] s).
  { intros s Hs. auto. }
  cbv zeta. fold ip_list.
  eapply hoare_bind.
  { eapply hoare_conseq;
      [apply sweeping_keep;
         [apply calm_update_progress; reflexivity | apply update_progress_stop_same, Hw]
      | intros s Hs; exact Hs | intros ? s Hs; exact Hs | apply Hnot]. }
  intros ?.
  eapply hoare_bind with (mid := fun _ s => probes_since s0 ip_list [] s).
  { eapply hoare_conseq; [apply ping_sweep_swept | intros s Hs; exact Hs | |].
    - intros ? s (_ & new & Hlog & Hp & Ht & _). exists new. auto.
    - intros e s (p & Hs). apply (Hnot p ip_list e s Hs). }
  intros st.
  eapply hoare_bind;
    [apply quiet_step; [apply quiet_update_progress | apply Hdone] | intros ?].
  eapply hoare_bind.
  { apply quiet_step; [|apply Hdone].
    unfold _get_system_arp_table.
    apply quiet_bind; [apply logs_emit; reflexivity | intros ?; apply quiet_ret]. }
  intros arp_table. cbv zeta.
  eapply hoare_bind;
    [apply quiet_step; [apply quiet_update_progress | apply Hdone] | intros ?].
  eapply hoare_bind with
    (mid := fun _ s => exists t, probes_since s0 ip_list t s).
  { eapply hoare_conseq;
      [apply (tcp_probe_counted w s0 ip_list _ ip_list) | intros s Hs; exact Hs | |].
    - intros ? s (t & _ & Hs). exists t. exact Hs.
    - intros e s (t & _ & Hs). apply (Hdone ip_list t e s Hs). }
  intros st1. apply hoare_exists_pre. intros t.
  eapply hoare_bind;
    [apply quiet_step; [apply quiet_update_progress | apply Hdone] | intros ?].
  eapply hoare_bind;
    [apply quiet_step; [apply quiet_build_hosts | apply Hdone] | intros found].
  eapply hoare_bind;
    [apply quiet_step; [apply quiet_update_progress | apply Hdone] | intros ?].
  apply hoare_ret. intros s Hs. apply (Hdone ip_list t (ValueError "") s Hs).
Qed.

(** What is calm changes nothing to it. *)
Lemma swept_keep {A} (m : M A) ip_list :
  respects (logs calm) m ->
  hoare (swept s0 ip_list) m (fun _ s' => swept s0 ip_list s') (fun _ s' => swept s0 ip_list s').
Proof using Type.
  intros Hc s (n1 & H1 & Hs). specialize (Hc s). destruct Hc as (n2 & H2 & F2).
  assert (H : swept s0 ip_list (snd (m s))).
  { destruct (calm_no_probe n2 F2) as [Hp2 _].
    exists (n1 ++ n2)%list. split; [rewrite H2, H1, app_assoc; reflexivity|].
    intros Hin. rewrite pings_app, Hp2, app_nil_r. apply Hs.
    apply in_app_or in Hin as [Hin|Hin]; [exact Hin|].
    destruct (calm_no_report n2 F2 Hin). }
  destruct (m s) as [[a|e] s']; exact H.
Qed.

Lemma scan_network_try_swept tc network_range :
  hoare (sweeping s0 []) (scan_network_try w tc network_range)
    (fun _ s' => swept s0 (match parse_ip_range network_range with
                           | Ok parsed => candidates parsed
                           | Raise _ => []
                           end) s')
    (fun _ s' => swept s0 (match parse_ip_range network_range with
                           | Ok parsed => candidates parsed
                           | Raise _ => []
                           end) s').
Proof using Hw.
  assert (Hnot : forall p ip_list (e : exn) s, sweeping s0 p s -> swept s0 ip_list s).
  { intros p ip_list e s (_ & new & Hlog & _ & _ & Hn). exists new.
    split; [exact Hlog | intros Hin; contradiction]. }
  unfold scan_network_try, discover_hosts.
  eapply hoare_bind.
  { eapply hoare_conseq;
      [apply sweeping_keep;
         [apply calm_update_progress; reflexivity | apply update_progress_stop_same, Hw]
      | intros s Hs; exact Hs | intros ? s Hs; exact Hs | apply Hnot]. }
  intros ?.
  eapply hoare_bind.
  { eapply hoare_bind.
    { eapply hoare_conseq;
        [apply sweeping_keep;
           [apply calm_update_progress; reflexivity | apply update_progress_stop_same, Hw]
        | intros s Hs; exact Hs | intros ? s Hs; exact Hs | apply Hnot]. }
    intros ?. apply enhanced_host_discovery_swept. }
  intros found. apply swept_keep, calm_scan_hosts.
Qed.

End Swept.

(** A scan that nobody cancels and that has gone beyond the ping sweep has
    pinged every candidate. *)
Lemma scan_network_swept w network_range s :
  stop_at w = None ->
  let new := since (log s) (log (snd (scan_network w network_range s))) in
  In (EProgress PCheckingArp) new ->
  pings new = match parse_ip_range network_range with
              | Ok ip_list => candidates ip_list
              | Raise _ => []
              end.
Proof.
  intros Hw new. subst new. rewrite scan_network_unfold.
  set (sb := scan_network_begin s).
  assert (Htry : hoare (sweeping sb [])
                   (try_except (scan_network_try w (scan_threads sb) network_range)
                      (scan_network_except w))
                   (fun _ s' => swept sb (match parse_ip_range network_range with
                                          | Ok parsed => candidates parsed
                                          | Raise _ => []
                                          end) s')
                   (fun _ s' => swept sb (match parse_ip_range network_range with
                                          | Ok parsed => candidates parsed
                                          | Raise _ => []
                                          end) s')).
  { eapply hoare_try_except; [apply scan_network_try_swept, Hw | intros e].
    apply swept_keep. unfold scan_network_except.
    apply calm_bind; [apply calm_update_progress; reflexivity | intros ?].
    apply calm_bind; [apply respects_get_state, logs_refl | intros ?; apply calm_ret]. }
  assert (Hsb : sweeping sb [] sb).
  { split; [reflexivity|]. exists []. rewrite app_nil_r.
    split; [reflexivity|]. split; [reflexivity|]. split; [reflexivity | intros []]. }
  specialize (Htry sb Hsb).
  destruct (try_except _ _ sb) as [[r|e] s']; destruct Htry as (new & Hlog & Hnew);
    cbn [snd]; unfold sb in Hlog; rewrite Hlog, begin_log, since_app; exact Hnew.
Qed.

(** X25.  A scan pings the addresses of its range in order and each at
    most once: the addresses pinged are a first part of the (at most 254)
    addresses of the range, so there are at most 254 pings; and they are
    the whole of it in every scan that nobody cancels and that gets as far
    as the report 'Checking ARP table...', the sweep having then ended
    without an exception.  It submits at most 250 TCP probes. *)
Theorem X25_probes_are_bounded (w : World) (network_range : string) (s : Scanner) :
  let new := since (log s) (log (snd (scan_network w network_range s))) in
  (exists rest,
     match parse_ip_range network_range with
     | Ok ip_list => candidates ip_list
     | Raise _ => []
     end = (pings new ++ rest)%list) /\
  List.NoDup (pings new) /\
  (List.length (pings new) <= 254)%nat /\
  (List.length (tcp_pings new) <= 250)%nat /\
  (stop_at w = None -> In (EProgress PCheckingArp) new ->
   pings new = match parse_ip_range network_range with
               | Ok ip_list => candidates ip_list
               | Raise _ => []
               end).
Proof.
  intros new.
  assert (H : exists p rest t,
            match parse_ip_range network_range with
            | Ok ip_list => candidates ip_list
            | Raise _ => []
            end = (p ++ rest)%list /\
            (List.length t <= 250)%nat /\ pings new = p /\ tcp_pings new = t).
  { subst new. rewrite scan_network_unfold.
    set (sb := scan_network_begin s).
    assert (Htry : hoare (probes_since sb [] [])
                     (try_except (scan_network_try w (scan_threads sb) network_range)
                        (scan_network_except w))
                     (fun _ s' => exists p rest t,
                        match parse_ip_range network_range with
                        | Ok parsed => candidates parsed
                        | Raise _ => []
                        end = (p ++ rest)%list /\
                        (List.length t <= 250)%nat /\ probes_since sb p t s')
                     (fun _ s' => exists p rest t,
                        match parse_ip_range network_range with
                        | Ok parsed => candidates parsed
                        | Raise _ => []
                        end = (p ++ rest)%list /\
                        (List.length t <= 250)%nat /\ probes_since sb p t s')).
    { eapply hoare_try_except; [apply scan_network_try_counted | intros e].
      apply quiet_bounded. unfold scan_network_except.
      apply quiet_bind; [apply quiet_update_progress | intros ?].
      apply quiet_bind; [apply respects_get_state, logs_refl | intros ?; apply quiet_ret]. }
    assert (Hsb : probes_since sb [] [] sb).
    { exists []. rewrite app_nil_r. repeat split; reflexivity. }
    specialize (Htry sb Hsb).
    destruct (try_except _ _ sb) as [[r|e] s'];
      destruct Htry as (p & rest & t & Hl & Ht & new & Hlog & Hp & Hq);
      exists p, rest, t; cbn [snd]; unfold sb in Hlog;
      rewrite Hlog, begin_log, since_app; auto. }
  destruct H as (p & rest & t & Hl & Ht & Hp & Hq).
  assert (Hnd : List.NoDup (p ++ rest)).
  { rewrite <- Hl. destruct (parse_ip_range network_range) as [ip_list|e] eqn:Hparse;
      [|constructor].
    apply DistinctFacts.candidates_NoDup.
    eapply DistinctFacts.parse_ip_range_NoDup, Hparse. }
  assert (Hlen : (List.length (p ++ rest) <= 254)%nat).
  { rewrite <- Hl. destruct (parse_ip_range network_range) as [ip_list|e];
      [apply candidates_length | cbn; lia]. }
  split; [rewrite Hp; exists rest; exact Hl|].
  split; [rewrite Hp; eapply List.NoDup_app_remove_r, Hnd|].
  split; [rewrite Hp, List.length_app in *; lia|].
  split; [rewrite Hq; exact Ht|].
  intros Hw Hin. apply (scan_network_swept w network_range s Hw Hin).
Qed.

Lemma X25_witness :
  let w := Scenario.two_hosts in
  let s := new_scanner None in
  let new := since (log s) (log (snd (scan_network w "10.0.0.0/30" s))) in
  stop_at w = None /\ In (EProgress PCheckingArp) new /\
  pings new = ["10.0.0.1"; "10.0.0.2"] /\ tcp_pings new = [].
Proof.
  intros w s new.
  assert (Hw : stop_at w = None) by reflexivity.
  assert (Hin : In (EProgress PCheckingArp) new).
  { vm_compute. repeat (first [left; reflexivity | right]). }
  destruct (X25_probes_are_bounded w "10.0.0.0/30" s) as (_ & _ & _ & _ & H).
  split; [exact Hw|]. split; [exact Hin|].
  split; [|vm_compute; reflexivity].
  etransitivity; [exact (H Hw Hin) | vm_compute; reflexivity].
Defined.

(** A sweep of 254 addresses cancelled during its first batch: the hundred
    addresses of that batch are pinged, the others are not, and the scan
    goes on to the ARP table. *)
Example cancelled_sweep :
  let new := log (snd (scan_network (Scenario.two_hosts_stopped_at 50) "10.0.0.0/24"
                         (new_scanner None))) in
  In (EProgress PCheckingArp) new /\
  List.length (pings new) = 100%nat /\
  match parse_ip_range "10.0.0.0/24" with
  | Ok ip_list => pings new = List.firstn 100 (candidates ip_list)
  | Raise _ => False
  end.
Proof.
  vm_compute. split; [repeat (first [left; reflexivity | right])|].
  split; reflexivity.
Qed.

End ReachFacts.

(** ** The progress that a scan reports *)

Module ReportFacts.
Import Frame MonadFacts FrameFacts HoareFacts Observe ScanFacts OrderFacts ServiceFacts Reports.

Lemma ratio_le_1 c n : (c <= n)%nat -> (ratio c n <= 1)%Q.
Proof.
  intros H. unfold ratio, Qle. cbn [Qnum Qden]. rewrite Z.mul_1_r, Z.mul_1_l.
  destruct n as [|n].
  - assert (c = 0%nat) by lia. subst. cbn. lia.
  - rewrite <- Pos.of_nat_succ, Zpos_P_of_succ_nat. lia.
Qed.

Lemma ratio_mono a b n : (a <= b)%nat -> (ratio a n <= ratio b n)%Q.
Proof.
  intros H. unfold ratio, Qle. cbn [Qnum Qden]. apply Z.mul_le_mono_nonneg_r; lia.
Qed.

Lemma ratio_nonneg a n : (0 <= ratio a n)%Q.
Proof. unfold ratio, Qle. cbn [Qnum Qden]. lia. Qed.

Lemma scaled_le (base k r r' : Q) :
  (0 <= k)%Q -> (r <= r')%Q -> (base + r * k <= base + r' * k)%Q.
Proof. intros Hk Hr. apply Qplus_le_r. apply Qmult_le_compat_r; assumption. Qed.

Lemma scaled_top (base k r : Q) :
  (0 <= k)%Q -> (r <= 1)%Q -> (base + r * k <= base + k)%Q.
Proof.
  intros Hk Hr. apply Qplus_le_r. rewrite <- (Qmult_1_l k) at 2.
  apply Qmult_le_compat_r; assumption.
Qed.

Lemma scaled_bottom (base k r : Q) :
  (0 <= k)%Q -> (0 <= r)%Q -> (base <= base + r * k)%Q.
Proof.
  intros Hk Hr. rewrite <- (Qplus_0_r base) at 1. apply Qplus_le_r.
  apply Qmult_le_0_compat; assumption.
Qed.

Ltac numbers := unfold Qle; cbn; lia.

Lemma percentage_bounds p : (5 <= percentage p)%Q.
Proof.
  destruct p; cbn [percentage]; numbers.
Qed.

Lemma percentages_app l1 l2 :
  percentages (l1 ++ l2) = (percentages l1 ++ percentages l2)%list.
Proof. unfold percentages, reports. rewrite List.flat_map_app, List.map_app. reflexivity. Qed.

Lemma percentages_silent l :
  Forall (fun e => silent e = true) l -> percentages l = [].
Proof.
  induction 1 as [|e l He _ IH]; [reflexivity|].
  change (e :: l) with ([e] ++ l)%list. rewrite percentages_app, IH, app_nil_r.
  destruct e; try reflexivity. discriminate He.
Qed.

Lemma never_decreasing_snoc l q :
  never_decreasing l -> Forall (fun x => x <= q)%Q l -> never_decreasing (l ++ [q]).
Proof.
  induction l as [|x l IH]; intros Hl Hq; cbn [app never_decreasing].
  - split; [constructor | exact Logic.I].
  - destruct Hl as [Hx Hl]. inversion Hq as [|? ? Hxq Hlq]; subst. split.
    + apply Forall_app. split; [exact Hx | repeat constructor; exact Hxq].
    + apply IH; assumption.
Qed.

Lemma hoare_pure_pre_l {A} (P : Prop) (pre : Scanner -> Prop) (m : M A) post fail :
  (P -> hoare pre m post fail) -> hoare (fun s => P /\ pre s) m post fail.
Proof. intros H s [HP Hs]. apply (H HP s Hs). Qed.

Section Reported.
Context (w : World) (s0 : Scanner).

Local Notation "'upto'" := (reported_upto s0).

Lemma upto_weaken (b b' : Q) s : (b <= b')%Q -> upto b s -> upto b' s.
Proof using Type.
  intros Hb (new & Hlog & Hnd & Hle). exists new. split; [exact Hlog|].
  split; [exact Hnd|]. eapply List.Forall_impl; [|exact Hle].
  intros q Hq. cbv beta in *. eapply Qle_trans; eassumption.
Qed.

Lemma upto_fail (b : Q) : (b <= 100)%Q -> forall (e : exn) s, upto b s -> upto 100 s.
Proof using Type. intros Hb e s Hs. eapply upto_weaken; eassumption. Qed.

(** What is silent reports nothing. *)
Lemma silent_step {A} (m : M A) (b : Q) (fail : exn -> Scanner -> Prop) :
  respects (logs silent) m ->
  (forall e s, upto b s -> fail e s) ->
  hoare (upto b) m (fun _ s' => upto b s') fail.
Proof using Type.
  intros Hm Hfail.
  assert (Hkeep : forall s s', logs silent s s' -> upto b s -> upto b s').
  { intros s s' (n2 & H2 & F2) (n1 & H1 & Hnd & Hle).
    exists (n1 ++ n2)%list. rewrite percentages_app, (percentages_silent n2 F2), app_nil_r.
    split; [rewrite H2, H1, app_assoc; reflexivity | split; assumption]. }
  intros s Hs. specialize (Hm s). specialize (Hkeep s _ Hm Hs).
  destruct (m s) as [[a|e] s']; cbn [snd] in Hkeep; auto.
Qed.

(** A report that is not below what was reported before. *)
Lemma report_step p (b : Q) (fail : exn -> Scanner -> Prop) :
  (b <= percentage p)%Q ->
  (forall e s, upto (percentage p) s -> fail e s) ->
  hoare (upto b) (_update_progress w p) (fun _ s' => upto (percentage p) s') fail.
Proof using Type.
  intros Hb Hfail s (n1 & H1 & Hnd & Hle).
  destruct (update_progress_run w p s) as (s' & Hrun & Hlog & _).
  assert (Hs' : upto (percentage p) s').
  { exists (n1 ++ [EProgress p])%list. rewrite percentages_app.
    change (percentages [EProgress p]) with [percentage p].
    split; [rewrite Hlog, H1, app_assoc; reflexivity|]. split.
    - apply never_decreasing_snoc; [exact Hnd|].
      eapply List.Forall_impl; [|exact Hle]. intros q Hq. cbv beta in *.
      eapply Qle_trans; eassumption.
    - apply Forall_app. split; [|repeat constructor; apply Qle_refl].
      eapply List.Forall_impl; [|exact Hle]. intros q Hq. cbv beta in *.
      eapply Qle_trans; eassumption. }
  rewrite Hrun. destruct (callback_raises w p); auto.
Qed.

Lemma silent_bind {A B} (m : M A) (k : A -> M B) :
  respects (logs silent) m -> (forall a, respects (logs silent) (k a)) ->
  respects (logs silent) (bind m k).
Proof using Type. intros. apply respects_bind; [apply logs_trans | assumption | assumption]. Qed.

Lemma silent_ret {A} (a : A) : respects (logs silent) (ret a).
Proof using Type. apply respects_ret, logs_refl. Qed.

Lemma silent_loop {A S} (l : list A) (body : A -> S -> M (loop S)) st :
  (forall x st, respects (logs silent) (body x st)) ->
  respects (logs silent) (for_each l body st).
Proof using Type.
  intros. apply respects_for_each; [apply logs_refl | apply logs_trans | assumption].
Qed.

Lemma silent_stop_requested : respects (logs silent) (stop_requested w).
Proof using Type.
  eapply respects_stop_requested with (E := fun e => silent e = true).
  - intros. apply logs_emit. assumption.
  - reflexivity.
Qed.

Lemma silent_executor n : respects (logs silent) (ThreadPoolExecutor n).
Proof using Type. apply respects_executor. apply logs_refl. Qed.

Lemma silent_submit_all {A} (ev : A -> event) l :
  (forall x, silent (ev x) = true) -> respects (logs silent) (submit_all w ev l).
Proof using Type.
  intros H. eapply respects_submit_all with (E := fun e => silent e = true);
    [apply logs_refl | apply logs_trans | intros; apply logs_emit; assumption | exact H].
Qed.

Lemma silent_get_vendor mac : respects (logs silent) (_get_vendor w mac).
Proof using Type.
  eapply respects_get_vendor with (E := fun e => silent e = true);
    eauto with frame; try (intros; apply logs_same_log; reflexivity).
  intros; apply logs_emit; assumption.
Qed.

Lemma silent_ping_results batch st : respects (logs silent) (ping_results w batch st).
Proof using Type.
  unfold ping_results. apply silent_loop. intros ip [alive discovered].
  apply silent_bind; [apply silent_stop_requested | intros stop].
  destruct stop; [apply silent_ret|]. destruct (ping w ip); apply silent_ret.
Qed.

Lemma silent_tcp_probe ip_list st : respects (logs silent) (tcp_probe w ip_list st).
Proof using Type.
  unfold tcp_probe. destruct (List.filter _ ip_list); [apply silent_ret|].
  apply silent_bind; [apply silent_executor | intros ?].
  apply silent_bind; [apply silent_submit_all; reflexivity | intros ?].
  apply silent_bind; [|intros ?; apply silent_ret].
  apply silent_loop. intros [ip port] [[alive discovered] found].
  apply silent_bind; [apply silent_stop_requested | intros stop].
  destruct stop; [apply silent_ret|]. destruct (_ && _ && _); apply silent_ret.
Qed.

Lemma silent_build_hosts arp_table alive :
  respects (logs silent) (build_hosts w arp_table alive).
Proof using Type.
  unfold build_hosts. apply silent_loop. intros ip found.
  apply silent_bind; [apply silent_stop_requested | intros stop].
  destruct stop; [apply silent_ret|].
  apply silent_bind; [|intros ?; apply silent_ret].
  destruct (String.eqb _ _); [apply silent_ret | apply silent_get_vendor].
Qed.

Lemma silent_combine_results found hn sr :
  respects (logs silent) (combine_results w found hn sr).
Proof using Type.
  apply combine_results_logs. intros e He.
  destruct e as [[]| | | | | | |]; try discriminate He; reflexivity.
Qed.

(** The ping sweep reports between 15 and 25. *)
Lemma ping_sweep_reports ip_list :
  hoare (upto 15) (ping_sweep w ip_list) (fun _ s' => upto 25 s') (fun _ s' => upto 25 s').
Proof using Type.
  unfold ping_sweep.
  eapply hoare_bind with (mid := fun _ s => upto 15 s);
    [apply hoare_get_state; intros s Hs; exact Hs | intros sx].
  cbv zeta.
  match goal with |- hoare _ (for_each _ ?b _) _ _ => set (body := b) end.
  set (n := List.length ip_list).
  assert (Htop : forall c (e : exn) s,
             upto (15 + ratio (Nat.min c n) n * 10) s -> upto 25 s).
  { intros c e s Hs. eapply upto_weaken; [|exact Hs]. eapply Qle_trans;
      [apply scaled_top; [numbers | apply ratio_le_1; lia] | numbers]. }
  enough (H : forall m k st,
             hoare (upto (15 + ratio (Nat.min (k * 100) n) n * 10))
               (for_each (List.map (fun j => (j * 100)%nat) (List.seq k m)) body st)
               (fun _ s' => upto 25 s') (fun _ s' => upto 25 s')).
  { intros s Hs. apply (H _ 0%nat ([], ∅) s).
    eapply upto_weaken; [|exact Hs]. apply scaled_bottom; [numbers | apply ratio_nonneg]. }
  induction m as [|m IH]; intros k st; cbn [List.seq List.map for_each].
  - apply hoare_ret. intros s Hs. apply (Htop _ (ValueError "") s Hs).
  - eapply hoare_bind with
      (mid := fun c s => match c with
                         | Continue _ => upto (15 + ratio (Nat.min (S k * 100) n) n * 10) s
                         | Break _ => upto 25 s
                         end).
    + unfold body at 1.
      eapply hoare_bind; [apply silent_step; [apply silent_stop_requested | apply Htop]|].
      intros stop. destruct stop.
      { apply hoare_ret. intros s Hs. apply (Htop _ (ValueError "") s Hs). }
      eapply hoare_bind; [apply silent_step; [apply silent_executor | apply Htop]|].
      intros ?.
      eapply hoare_bind;
        [apply silent_step; [apply silent_submit_all; reflexivity | apply Htop]|].
      intros ?.
      eapply hoare_bind; [apply silent_step; [apply silent_ping_results | apply Htop]|].
      intros st'. eapply hoare_bind.
      { apply report_step.
        - cbn [percentage]. apply scaled_le; [numbers|]. apply ratio_mono. fold n. lia.
        - cbn [percentage]. fold n. apply Htop. }
      intros ?. apply hoare_ret. intros s Hs. cbn [percentage] in Hs. fold n in Hs.
      replace (S k * 100)%nat with (k * 100 + 100)%nat by lia. exact Hs.
    + intros [st'|st']; [apply IH | apply hoare_ret; auto].
Qed.

(** The discovery reports between 15 and 35, and what it raises is
    caught. *)
Lemma enhanced_host_discovery_reports network_range :
  hoare (upto 10) (_enhanced_host_discovery w network_range)
    (fun _ s' => upto 35 s') (fun _ s' => upto 100 s').
Proof using Type.
  unfold _enhanced_host_discovery.
  eapply hoare_try_except with (caught := fun _ s => upto 35 s);
    [|intros e; apply hoare_ret; auto].
  assert (F : forall b : Q, (b <= 35)%Q -> forall (e : exn) s, upto b s -> upto 35 s).
  { intros b Hb e s Hs. eapply upto_weaken; eassumption. }
  destruct (parse_ip_range network_range) as [parsed|e] eqn:Hparse.
  2:{ intros s Hs. unfold bind. eapply upto_weaken; [|exact Hs]. numbers. }
  eapply hoare_bind_eq with (a0 := parsed) (mid := fun s => upto 10 s).
  { intros s Hs. auto. }
  cbv zeta.
  eapply hoare_bind; [apply report_step; [numbers | apply F; numbers] | intros ?].
  cbn [percentage].
  eapply hoare_bind.
  { eapply hoare_conseq; [apply ping_sweep_reports | intros s Hs; exact Hs
                         | intros ? s Hs; exact Hs | apply F; numbers]. }
  intros st.
  eapply hoare_bind; [apply report_step; [numbers | apply F; numbers] | intros ?].
  cbn [percentage].
  eapply hoare_bind.
  { apply silent_step; [|apply F; numbers]. unfold _get_system_arp_table.
    apply silent_bind; [apply logs_emit; reflexivity | intros ?; apply silent_ret]. }
  intros arp_table. cbv zeta.
  eapply hoare_bind; [apply report_step; [numbers | apply F; numbers] | intros ?].
  cbn [percentage].
  eapply hoare_bind; [apply silent_step; [apply silent_tcp_probe | apply F; numbers]|].
  intros st'.
  eapply hoare_bind; [apply report_step; [numbers | apply F; numbers] | intros ?].
  cbn [percentage].
  eapply hoare_bind; [apply silent_step; [apply silent_build_hosts | apply F; numbers]|].
  intros found.
  eapply hoare_bind; [apply report_step; [numbers | apply F; numbers] | intros ?].
  cbn [percentage]. apply hoare_ret. auto.
Qed.

(** The hostname lookups report between 35 and 55. *)
Lemma resolve_hostnames_reports found :
  hoare (upto 35) (resolve_hostnames w found)
    (fun _ s' => upto 55 s') (fun _ s' => upto 100 s').
Proof using Type.
  unfold resolve_hostnames. cbv zeta.
  set (total := List.length found).
  assert (F : forall b : Q, (b <= 100)%Q -> forall (e : exn) s, upto b s -> upto 100 s).
  { intros b Hb e s Hs. eapply upto_weaken; eassumption. }
  assert (Htop : forall c, (c <= total)%nat -> (35 + ratio c total * 20 <= 55)%Q).
  { intros c Hc. eapply Qle_trans;
      [apply scaled_top; [numbers | apply ratio_le_1, Hc] | numbers]. }
  eapply hoare_bind; [apply report_step; [numbers | apply F; numbers] | intros ?].
  cbn [percentage].
  eapply hoare_bind with (mid := fun _ s => upto 35 s);
    [apply hoare_get_state; intros s Hs; exact Hs | intros sx].
  eapply hoare_bind; [apply silent_step; [apply silent_executor | apply F; numbers]|].
  intros ?.
  eapply hoare_bind;
    [apply silent_step; [apply silent_submit_all; reflexivity | apply F; numbers]|].
  intros ?.
  eapply hoare_bind with (mid := fun _ s => upto 55 s);
    [|intros r; apply hoare_ret; auto].
  match goal with |- hoare _ (for_each ?l ?b _) _ _ => set (body := b); set (order := l) end.
  assert (Horder : List.length order = total).
  { unfold order. rewrite (Permutation_length (as_completed_perm _ _)).
    apply List.length_map. }
  enough (H : forall l hn c,
             (c + List.length l <= total)%nat ->
             hoare (upto (35 + ratio c total * 20)) (for_each l body (hn, c))
               (fun _ s' => upto 55 s') (fun _ s' => upto 100 s')).
  { intros s Hs. apply (H order ∅ 0%nat); [lia|].
    eapply upto_weaken; [|exact Hs]. apply scaled_bottom; [numbers | apply ratio_nonneg]. }
  induction l as [|ip l IH]; intros hn c Hc; cbn [for_each List.length] in *.
  - apply hoare_ret. intros s Hs. eapply upto_weaken; [|exact Hs]. apply Htop. lia.
  - eapply hoare_bind with
      (mid := fun r s => match r with
                         | Continue st => snd st = S c /\ upto (35 + ratio (S c) total * 20) s
                         | Break _ => upto 55 s
                         end).
    + unfold body at 1.
      eapply hoare_bind.
      { apply silent_step; [apply silent_stop_requested|].
        apply F. eapply Qle_trans; [apply Htop; lia | numbers]. }
      intros stop. destruct stop.
      { apply hoare_ret. intros s Hs. eapply upto_weaken; [|exact Hs]. apply Htop. lia. }
      eapply hoare_bind.
      { apply report_step.
        - cbn [percentage]. apply scaled_le; [numbers|]. apply ratio_mono. lia.
        - cbn [percentage]. apply F. eapply Qle_trans; [apply Htop; lia | numbers]. }
      intros ?. apply hoare_ret. intros s Hs. split; [reflexivity | exact Hs].
    + intros [[hn' c']|st']; [|apply hoare_ret; auto].
      apply hoare_pure_pre_l. cbn [snd]. intros ->. apply IH. lia.
Qed.

(** The port scan reports between 55 and 85. *)
Lemma scan_services_reports tc found :
  hoare (upto 55) (scan_services w tc found)
    (fun _ s' => upto 85 s') (fun _ s' => upto 100 s').
Proof using Type.
  unfold scan_services.
  assert (F : forall b : Q, (b <= 100)%Q -> forall (e : exn) s, upto b s -> upto 100 s).
  { intros b Hb e s Hs. eapply upto_weaken; eassumption. }
  eapply hoare_bind; [apply report_step; [numbers | apply F; numbers] | intros ?].
  cbn [percentage].
  eapply hoare_bind with (mid := fun _ s => upto 55 s);
    [apply hoare_get_state; intros s Hs; exact Hs | intros sx].
  cbv zeta.
  set (tasks := all_scan_tasks found (services_to_scan sx)).
  set (total := List.length tasks).
  assert (Htop : forall c, (c <= total)%nat -> (55 + ratio c total * 30 <= 85)%Q).
  { intros c Hc. eapply Qle_trans;
      [apply scaled_top; [numbers | apply ratio_le_1, Hc] | numbers]. }
  eapply hoare_bind; [apply report_step; [numbers | apply F; numbers] | intros ?].
  cbn [percentage].
  eapply hoare_bind; [apply silent_step; [apply silent_executor | apply F; numbers]|].
  intros ?.
  eapply hoare_bind;
    [apply silent_step; [apply silent_submit_all; reflexivity | apply F; numbers]|].
  intros ?.
  eapply hoare_bind with (mid := fun _ s => upto 85 s);
    [|intros r; apply hoare_ret; auto].
  unfold collect_port_results.
  match goal with |- hoare _ (for_each ?l ?b _) _ _ => set (body := b); set (order := l) end.
  assert (Horder : List.length order = total).
  { unfold order. rewrite (Permutation_length (as_completed_perm _ _)). reflexivity. }
  enough (H : forall l sr c,
             (c + List.length l <= total)%nat ->
             hoare (upto (55 + ratio c total * 30)) (for_each l body (sr, c))
               (fun _ s' => upto 85 s') (fun _ s' => upto 100 s')).
  { intros s Hs. apply (H order _ 0%nat); [lia|].
    eapply upto_weaken; [|exact Hs]. apply scaled_bottom; [numbers | apply ratio_nonneg]. }
  induction l as [|[ip service] l IH]; intros sr c Hc; cbn [for_each List.length] in *.
  - apply hoare_ret. intros s Hs. eapply upto_weaken; [|exact Hs]. apply Htop. lia.
  - eapply hoare_bind with
      (mid := fun r s => match r with
                         | Continue st => snd st = S c /\ upto (55 + ratio (S c) total * 30) s
                         | Break _ => upto 85 s
                         end).
    + unfold body at 1.
      eapply hoare_bind.
      { apply silent_step; [apply silent_stop_requested|].
        apply F. eapply Qle_trans; [apply Htop; lia | numbers]. }
      intros stop. destruct stop.
      { apply hoare_ret. intros s Hs. eapply upto_weaken; [|exact Hs]. apply Htop. lia. }
      cbv zeta.
      eapply hoare_bind with (mid := fun _ s => upto (55 + ratio (S c) total * 30) s).
      { destruct (_ || _).
        - apply report_step.
          + cbn [percentage]. apply scaled_le; [numbers|]. apply ratio_mono. lia.
          + cbn [percentage]. apply F. eapply Qle_trans; [apply Htop; lia | numbers].
        - apply hoare_ret. intros s Hs. eapply upto_weaken; [|exact Hs].
          apply scaled_le; [numbers|]. apply ratio_mono. lia. }
      intros ?. apply hoare_ret. intros s Hs. split; [reflexivity | exact Hs].
    + intros [[sr' c']|st']; [|apply hoare_ret; auto].
      apply hoare_pure_pre_l. cbn [snd]. intros ->. apply IH. lia.
Qed.

(** Steps 2 to 4 end at 100. *)
Lemma scan_hosts_reports tc found :
  hoare (upto 35) (scan_hosts w tc found)
    (fun _ s' => upto 100 s') (fun _ s' => upto 100 s').
Proof using Type.
  assert (F : forall b : Q, (b <= 100)%Q -> forall (e : exn) s, upto b s -> upto 100 s).
  { intros b Hb e s Hs. eapply upto_weaken; eassumption. }
  unfold scan_hosts. destruct found as [|h found'].
  { eapply hoare_bind; [apply report_step; [numbers | apply F; numbers] | intros ?].
    cbn [percentage].
    eapply hoare_bind with (mid := fun _ s => upto 100 s);
      [apply hoare_get_state; intros s Hs; exact Hs | intros ?; apply hoare_ret; auto]. }
  eapply hoare_bind; [apply resolve_hostnames_reports | intros hn].
  eapply hoare_bind; [apply scan_services_reports | intros sr].
  eapply hoare_bind; [apply report_step; [numbers | apply F; numbers] | intros ?].
  cbn [percentage].
  eapply hoare_bind;
    [apply silent_step; [apply silent_combine_results | apply F; numbers]|].
  intros ?.
  eapply hoare_bind; [apply report_step; [numbers | apply F; numbers] | intros ?].
  cbn [percentage].
  eapply hoare_bind with (mid := fun _ s => upto 100 s);
    [apply hoare_get_state; intros s Hs; exact Hs | intros ?; apply hoare_ret; auto].
Qed.

(** The [try] block of [scan_network]. *)
Lemma scan_network_try_reports tc network_range :
  hoare (upto 5) (scan_network_try w tc network_range)
    (fun _ s' => upto 100 s') (fun _ s' => upto 100 s').
Proof using Type.
  assert (F : forall b : Q, (b <= 100)%Q -> forall (e : exn) s, upto b s -> upto 100 s).
  { intros b Hb e s Hs. eapply upto_weaken; eassumption. }
  unfold scan_network_try, discover_hosts.
  eapply hoare_bind; [apply report_step; [numbers | apply F; numbers] | intros ?].
  cbn [percentage].
  eapply hoare_bind.
  { eapply hoare_bind; [apply report_step; [numbers | apply F; numbers] | intros ?].
    cbn [percentage]. apply enhanced_host_discovery_reports. }
  intros found. apply scan_hosts_reports.
Qed.

End Reported.

(** X26.  The progress of a scan never goes back: of the percentages that
    [scan_network] passes to the progress callback, none is smaller than
    one passed before, and all lie between 5 and 100.  This holds as well
    for a scan that is cancelled or that fails.  (The source computes the
    fractional percentages in floating point; here they are exact.) *)
Theorem X26_progress_never_goes_back (w : World) (network_range : string) (s : Scanner) :
  let reported := percentages (since (log s) (log (snd (scan_network w network_range s)))) in
  never_decreasing reported /\
  Forall (fun q => 5 <= q /\ q <= 100)%Q reported.
Proof.
  intros reported.
  assert (H : never_decreasing reported /\ Forall (fun q => q <= 100)%Q reported).
  { subst reported. rewrite scan_network_unfold.
    set (sb := scan_network_begin s).
    assert (Htry : hoare (reported_upto sb 5)
                     (try_except (scan_network_try w (scan_threads sb) network_range)
                        (scan_network_except w))
                     (fun _ s' => reported_upto sb 100 s')
                     (fun _ s' => reported_upto sb 100 s')).
    { eapply hoare_try_except; [apply scan_network_try_reports | intros e].
      unfold scan_network_except.
      eapply hoare_bind;
        [apply report_step; [apply Qle_refl | intros ? s' Hs'; exact Hs'] | intros ?].
      cbn [percentage].
      eapply hoare_bind with (mid := fun _ s' => reported_upto sb 100 s');
        [apply hoare_get_state; intros s' Hs'; exact Hs' | intros ?; apply hoare_ret; auto]. }
    assert (Hsb : reported_upto sb 5 sb).
    { exists []. rewrite app_nil_r. split; [reflexivity|]. split; [exact Logic.I | constructor]. }
    specialize (Htry sb Hsb).
    destruct (try_except _ _ sb) as [[r|e] s'];
      destruct Htry as (new & Hlog & Hnd & Hle);
      cbn [snd]; unfold sb in Hlog; rewrite Hlog, begin_log, since_app; auto. }
  destruct H as [Hnd Hle]. split; [exact Hnd|].
  apply List.Forall_forall. intros q Hq. split.
  - unfold reported, percentages in Hq. apply List.in_map_iff in Hq as (p & <- & _).
    apply percentage_bounds.
  - rewrite List.Forall_forall in Hle. apply Hle, Hq.
Qed.

(** The percentages of a scan of two addresses with the built-in
    services. *)
Example progress_of_two_hosts :
  List.map Qred
    (percentages (log (snd (scan_network Scenario.two_hosts "10.0.0.0/30" (new_scanner None)))))
  = [5; 10; 15; 25; 26; 28; 32; 35; 35; 45; 55; 55; 55; 705 # 11; 805 # 11; 905 # 11; 85;
     85; 100]%Q.
Proof. vm_compute. reflexivity. Qed.

End ReportFacts.
